(** * TractView: the tractography decoders (TRK, TCK, TRX) and the
      post-decode utilities, embedded from the TypeScript sources

    Sources embedded here:
    - [src/trkParser.ts]: [validateTrkHeader], [parseTrkFile], [parseHeader],
      [parseStreamlines], [applySkipSampling], [calculateBoundingBox];
    - [src/tckParser.ts]: [parseTckFile], [parseHeader], [parseStreamlines];
    - [src/trxParser.ts]: [parseTrxFile], [parseZipEntries], [parsePositions],
      [parseOffsets], [buildStreamlines], [float16ToFloat32];
    - [src/streamlineTypes.ts]: the shared records and [MAX_FILE_SIZE].

    Conventions.  An [ArrayBuffer] is a [list byte].  A coordinate (a
    JavaScript number holding measured data) is a primitive binary64 float,
    which is what a JavaScript number is.  Lengths, byte offsets and counts
    are integers ([Z] or [nat]); where the source lets such a number become
    [NaN], infinite or fractional it is a [jsnum].  A thrown exception is the
    [Err] side of a sum. *)

From Stdlib Require Import Strings.String Strings.Ascii Strings.Byte.
From Stdlib Require Import ZArith List Bool Lia QArith Qround.
From Stdlib Require Import Floats.
Import ListNotations.

Set Implicit Arguments.
Local Open Scope Z_scope.

(** ** Results of fallible code *)

(** One constructor per [throw] site of the three parsers; [RangeError]
    stands for the exceptions the runtime itself raises (a [DataView] read or
    a typed-array view outside its buffer, an invalid typed-array length),
    [JsonSyntaxError] and [InflateError] for those of [JSON.parse] and
    [zlib.inflateRawSync], and [NeverReturns] for a loop that does not end. *)
Inductive error : Type :=
| FileTooLarge
| RangeError
| MissingTRACK
| BadNScalars (v : Z)
| BadNProperties (v : Z)
| BadDimension (i : nat) (v : Z)
| BadVoxelSize (i : nat) (v : float)
| BadHdrSize (v : Z)
| MissingEND
| UnsupportedDatatype (datatype : string)
| InvalidDatatypeConfig (datatype : string)
| MissingMrtrix
| StreamlineTooLong
| MissingHeaderJson
| JsonSyntaxError
| InflateError
| TrxHeaderNotObject
| TrxBadMatrix
| TrxBadMatrixRow
| TrxBadDimensions
| TrxBadNbStreamlines
| TrxBadNbVertices
| MissingPositions
| MissingOffsets
| UnsupportedPositionsType (dtype : string)
| UnsupportedOffsetsType (dtype : string)
| NeverReturns.

Inductive result (A : Type) : Type :=
| Ok (a : A)
| Err (e : error).
Arguments Ok {A} a.
Arguments Err {A} e.

Definition bind {A B : Type} (r : result A) (k : A -> result B) : result B :=
  match r with
  | Ok a => k a
  | Err e => Err e
  end.

Notation "'do' x <- r ; k" := (bind r (fun x => k))
  (at level 10, x name, r at level 100, k at level 200).

Definition is_ok {A : Type} (r : result A) : bool :=
  match r with Ok _ => true | Err _ => false end.

(** ** JavaScript numbers used as lengths, indices and counts *)

Module Num.

(** Exact rationals with the three non-finite doubles.  Every operation
    reduces its result, so equal numbers are equal terms.  The doubles
    agree with this on integers of magnitude below 2^53, where typed-array
    lengths and indices live; signed zero is not distinguished. *)
Inductive jsnum : Type :=
| NaN
| PosInf
| NegInf
| Num (q : Q).

Definition of_Z (z : Z) : jsnum := Num (inject_Z z).
Definition of_nat (n : nat) : jsnum := of_Z (Z.of_nat n).

Definition sgn (q : Q) : comparison := Qcompare q 0.

Definition add (a b : jsnum) : jsnum :=
  match a, b with
  | NaN, _ | _, NaN => NaN
  | PosInf, NegInf | NegInf, PosInf => NaN
  | PosInf, _ | _, PosInf => PosInf
  | NegInf, _ | _, NegInf => NegInf
  | Num x, Num y => Num (Qred (x + y))
  end.

Definition opp (a : jsnum) : jsnum :=
  match a with
  | NaN => NaN
  | PosInf => NegInf
  | NegInf => PosInf
  | Num x => Num (Qred (- x))
  end.

Definition sub (a b : jsnum) : jsnum := add a (opp b).

Definition mul (a b : jsnum) : jsnum :=
  match a, b with
  | NaN, _ | _, NaN => NaN
  | Num x, Num y => Num (Qred (x * y))
  | Num x, PosInf | PosInf, Num x =>
      match sgn x with Eq => NaN | Gt => PosInf | Lt => NegInf end
  | Num x, NegInf | NegInf, Num x =>
      match sgn x with Eq => NaN | Gt => NegInf | Lt => PosInf end
  | PosInf, PosInf | NegInf, NegInf => PosInf
  | PosInf, NegInf | NegInf, PosInf => NegInf
  end.

Definition div (a b : jsnum) : jsnum :=
  match a, b with
  | NaN, _ | _, NaN => NaN
  | Num x, Num y =>
      match sgn y with
      | Eq => match sgn x with Eq => NaN | Gt => PosInf | Lt => NegInf end
      | _ => Num (Qred (x / y))
      end
  | Num _, (PosInf | NegInf) => Num 0
  | PosInf, Num y => match sgn y with Lt => NegInf | _ => PosInf end
  | NegInf, Num y => match sgn y with Lt => PosInf | _ => NegInf end
  | (PosInf | NegInf), (PosInf | NegInf) => NaN
  end.

(** [Math.ceil] *)
Definition ceil (a : jsnum) : jsnum :=
  match a with
  | Num x => of_Z (Qceiling x)
  | _ => a
  end.

(** [a < b]; false as soon as one side is [NaN]. *)
Definition ltb (a b : jsnum) : bool :=
  match a, b with
  | NaN, _ | _, NaN => false
  | _, NegInf => false
  | NegInf, _ => true
  | PosInf, _ => false
  | _, PosInf => true
  | Num x, Num y => match Qcompare x y with Lt => true | _ => false end
  end.

(** [a <= b] *)
Definition leb (a b : jsnum) : bool :=
  match a, b with
  | NaN, _ | _, NaN => false
  | NegInf, _ => true
  | _, PosInf => true
  | _, NegInf => false
  | PosInf, _ => false
  | Num x, Num y => match Qcompare x y with Gt => false | _ => true end
  end.

(** [Math.min] *)
Definition min (a b : jsnum) : jsnum :=
  match a, b with
  | NaN, _ | _, NaN => NaN
  | _, _ => if ltb b a then b else a
  end.

(** Truncation toward zero of a rational. *)
Definition Qtrunc (q : Q) : Z :=
  if (Qnum q <? 0)%Z then Qceiling q else Qfloor q.

(** The relative index of [Array.prototype.slice] and
    [%TypedArray%.prototype.slice]: [ToIntegerOrInfinity], then a negative
    index counts from the end, and the result is clamped to [0, len]. *)
Definition rel_index (len : Z) (a : jsnum) : Z :=
  match a with
  | NaN => 0
  | PosInf => len
  | NegInf => 0
  | Num q =>
      let r := Qtrunc q in
      if r <? 0 then Z.max (len + r) 0 else Z.min r len
  end.

End Num.
Export Num(jsnum).

(** [arr.slice(start, end)] *)
Definition js_slice {A : Type} (l : list A) (start stop : jsnum) : list A :=
  let len := Z.of_nat (length l) in
  let k := Num.rel_index len start in
  let final := Num.rel_index len stop in
  firstn (Z.to_nat (final - k)) (skipn (Z.to_nat k) l).

(** ** DataView *)

Module DataView.

Definition u8 (b : byte) : Z := Z.of_N (Byte.to_N b).

(** The [n] bytes at [off], or [None] where the view raises [RangeError]
    (a negative offset, or a read past the end). *)
Definition bytes_at (buf : list byte) (off : Z) (n : nat) : option (list byte) :=
  if off <? 0 then None
  else if Z.of_nat (length buf) <? off + Z.of_nat n then None
  else Some (firstn n (skipn (Z.to_nat off) buf)).

(** Little-endian value of a byte string. *)
Fixpoint le_value (bs : list byte) : Z :=
  match bs with
  | [] => 0
  | b :: rest => u8 b + 256 * le_value rest
  end.

Definition uint_at (littleEndian : bool) (buf : list byte) (off : Z) (n : nat) : option Z :=
  match bytes_at buf off n with
  | None => None
  | Some bs => Some (le_value (if littleEndian then bs else rev bs))
  end.

(** Two's complement reading of a [w]-bit pattern. *)
Definition to_signed (w : Z) (v : Z) : Z :=
  if v <? 2 ^ (w - 1) then v else v - 2 ^ w.

Definition getUint8 (buf : list byte) (off : Z) : option Z := uint_at true buf off 1.
Definition getUint16 (buf : list byte) (off : Z) (le : bool) : option Z := uint_at le buf off 2.
Definition getUint32 (buf : list byte) (off : Z) (le : bool) : option Z := uint_at le buf off 4.
Definition getInt16 (buf : list byte) (off : Z) (le : bool) : option Z :=
  option_map (to_signed 16) (uint_at le buf off 2).
Definition getInt32 (buf : list byte) (off : Z) (le : bool) : option Z :=
  option_map (to_signed 32) (uint_at le buf off 4).
Definition getBigUint64 (buf : list byte) (off : Z) (le : bool) : option Z := uint_at le buf off 8.
Definition getBigInt64 (buf : list byte) (off : Z) (le : bool) : option Z :=
  option_map (to_signed 64) (uint_at le buf off 8).

(** The double denoted by [m * 2^e] with sign [s], for [m] and [e] taken
    from a binary16, binary32 or binary64 pattern (always exact). *)
Definition finite (s : bool) (m : Z) (e : Z) : float :=
  match m with
  | Zpos p => SF2Prim (S754_finite s p e)
  | _ => if s then neg_zero else zero
  end.

(** Decoding of an IEEE-754 pattern with [ebits] exponent bits and [mbits]
    fraction bits. *)
Definition float_of_bits (ebits mbits : Z) (w : Z) : float :=
  let s := Z.testbit w (ebits + mbits) in
  let e := Z.land (Z.shiftr w mbits) (2 ^ ebits - 1) in
  let m := Z.land w (2 ^ mbits - 1) in
  let bias := 2 ^ (ebits - 1) - 1 in
  if e =? 2 ^ ebits - 1 then
    if m =? 0 then (if s then neg_infinity else infinity) else nan
  else if e =? 0 then finite s m (1 - bias - mbits)
  else finite s (m + 2 ^ mbits) (e - bias - mbits).

Definition getFloat32 (buf : list byte) (off : Z) (le : bool) : option float :=
  option_map (float_of_bits 8 23) (uint_at le buf off 4).
Definition getFloat64 (buf : list byte) (off : Z) (le : bool) : option float :=
  option_map (float_of_bits 11 52) (uint_at le buf off 8).

(** Storing a number into a [Float32Array] rounds it to binary32 (to
    nearest, ties to even); reading it back gives that value as a double. *)
Definition fround (x : float) : float :=
  match Prim2SF x with
  | S754_finite s m e =>
      SF2Prim (binary_normalize 24 128 (cond_Zopp s (Zpos m)) e s)
  | _ => x
  end.

End DataView.

(** [isNaN] and [isFinite] on a number *)
Definition isNaN (x : float) : bool := PrimFloat.is_nan x.
Definition isFinite (x : float) : bool := PrimFloat.is_finite x.

(** A result or [RangeError] *)
Definition rd {A : Type} (o : option A) : result A :=
  match o with
  | Some a => Ok a
  | None => Err RangeError
  end.

(** ** Strings

    A decoded string is kept as the sequence of the bytes it was decoded
    from.  [TextDecoder('ascii')] is the windows-1252 decoder, which maps the
    256 bytes to 256 distinct characters, so equality, search and splitting
    on ASCII patterns are those of the byte sequences. *)

Definition decode (bs : list byte) : string := string_of_list_byte bs.

Fixpoint str_filter (p : ascii -> bool) (s : string) : string :=
  match s with
  | EmptyString => EmptyString
  | String c rest => if p c then String c (str_filter p rest) else str_filter p rest
  end.

Definition code (c : ascii) : Z := Z.of_N (N_of_ascii c).

(** [s.replace(/\0/g, '')] *)
Definition strip_nul (s : string) : string :=
  str_filter (fun c => negb (code c =? 0)) s.

(** [s.startsWith(p)] *)
Definition startsWith (s p : string) : bool := String.prefix p s.

(** Truthiness of a string: the empty string is the only falsy one. *)
Definition nonempty (s : string) : bool :=
  match s with EmptyString => false | _ => true end.

(** ** The shared data model ([streamlineTypes.ts]) *)

Definition triple (A : Type) : Type := (A * A * A)%type.

Definition triple_list {A : Type} (t : triple A) : list A :=
  let '(a, b, c) := t in [a; b; c].

(** [Streamline]: [points] is the [Float32Array] of coordinates, [scalars]
    and [properties] are [undefined] ([None]) or present. *)
Record Streamline : Type := mkStreamline {
  points : list float;
  numPoints : jsnum;
  scalars : option (list (list float));
  properties : option (list float)
}.

Inductive TractographyFormat : Type := trk | tck | trx.

(** [500 * 1024 * 1024] *)
Definition MAX_FILE_SIZE : Z := 500 * 1024 * 1024.
Definition DEFAULT_DIMENSIONS : triple Z := (0, 0, 0).
Definition DEFAULT_VOXEL_SIZE : triple float := (1%float, 1%float, 1%float).

Definition byteLength (buf : list byte) : Z := Z.of_nat (length buf).

(** ** [trkParser.ts] *)

Module Trk.
Import DataView.

Record TrkHeader : Type := mkTrkHeader {
  idString : string;
  dim : triple Z;
  voxelSize : triple float;
  origin : triple float;
  nScalars : Z;
  scalarNames : list string;
  nProperties : Z;
  propertyNames : list string;
  voxToRas : list float;
  reserved : list byte;
  voxelOrder : string;
  pad2 : string;
  imageOrientationPatient : list float;
  pad1 : string;
  invert : triple Z;
  swap : triple Z;
  nCount : Z;
  version : Z;
  hdrSize : Z
}.

Record TrkData : Type := mkTrkData {
  header : TrkHeader;
  streamlines : list Streamline
}.

(** The body of one of the two [for (let i = 0; i < 3; i++)] loops of
    [validateTrkHeader]: the first entry that fails [bad] raises. *)
Fixpoint check_from {A : Type} (bad : A -> bool) (mk : nat -> A -> error)
         (i : nat) (l : list A) : result unit :=
  match l with
  | [] => Ok tt
  | v :: rest => if bad v then Err (mk i v) else check_from bad mk (S i) rest
  end.

Definition validateTrkHeader (h : TrkHeader) : result unit :=
  if (nScalars h <? 0) || (nScalars h >? 10) then Err (BadNScalars (nScalars h))
  else if (nProperties h <? 0) || (nProperties h >? 10)
  then Err (BadNProperties (nProperties h))
  else
    do _ <- check_from (fun v => (v <? 0) || (v >? 65535)) BadDimension
                       0%nat (triple_list (dim h));
    do _ <- check_from (fun v => negb (isFinite v) || (v <? 0)%float) BadVoxelSize
                       0%nat (triple_list (voxelSize h));
    if negb (hdrSize h =? 1000) then Err (BadHdrSize (hdrSize h))
    else Ok tt.

(** [decoder.decode(new Uint8Array(view.buffer, offset, n)).replace(/\0/g, '')] *)
Definition text_at (buf : list byte) (off : Z) (n : nat) : result string :=
  do bs <- rd (bytes_at buf off n);
  Ok (strip_nul (decode bs)).

(** [n] consecutive little-endian binary32 values from [off]. *)
Fixpoint floats_at (buf : list byte) (off : Z) (n : nat) : result (list float) :=
  match n with
  | O => Ok []
  | S n' =>
      do x <- rd (getFloat32 buf off true);
      do rest <- floats_at buf (off + 4) n';
      Ok (x :: rest)
  end.

Definition three {A : Type} (l : list A) (d : A) : triple A :=
  (nth 0 l d, nth 1 l d, nth 2 l d).

(** The ten 20-byte name slots from [off]; slot [i] is kept when
    [i < count] and the name is not empty. *)
Fixpoint names_at (buf : list byte) (off : Z) (count : Z) (i : nat) (slots : nat)
  : result (list string) :=
  match slots with
  | O => Ok []
  | S slots' =>
      do name <- text_at buf off 20;
      do rest <- names_at buf (off + 20) count (S i) slots';
      Ok (if (Z.of_nat i <? count) && nonempty name then name :: rest else rest)
  end.

(** [parseHeader]: the offsets are the running [offset] of the source. *)
Definition parseHeader (buf : list byte) : result TrkHeader :=
  do idString <- text_at buf 0 6;
  do d0 <- rd (getInt16 buf 6 true);
  do d1 <- rd (getInt16 buf 8 true);
  do d2 <- rd (getInt16 buf 10 true);
  do voxelSize <- floats_at buf 12 3;
  do origin <- floats_at buf 24 3;
  do nScalars <- rd (getInt16 buf 36 true);
  do scalarNames <- names_at buf 38 nScalars 0 10;
  do nProperties <- rd (getInt16 buf 238 true);
  do propertyNames <- names_at buf 240 nProperties 0 10;
  do voxToRas <- floats_at buf 440 16;
  do reserved <- rd (bytes_at buf 504 444);
  do voxelOrder <- text_at buf 948 4;
  do pad2 <- text_at buf 952 4;
  do imageOrientationPatient <- floats_at buf 956 6;
  do pad1 <- text_at buf 980 2;
  do i0 <- rd (getUint8 buf 982);
  do i1 <- rd (getUint8 buf 983);
  do i2 <- rd (getUint8 buf 984);
  do s0 <- rd (getUint8 buf 985);
  do s1 <- rd (getUint8 buf 986);
  do s2 <- rd (getUint8 buf 987);
  do nCount <- rd (getInt32 buf 988 true);
  do version <- rd (getInt32 buf 992 true);
  do hdrSize <- rd (getInt32 buf 996 true);
  Ok {| idString := idString;
        dim := (d0, d1, d2);
        voxelSize := three voxelSize nan;
        origin := three origin nan;
        nScalars := nScalars;
        scalarNames := scalarNames;
        nProperties := nProperties;
        propertyNames := propertyNames;
        voxToRas := voxToRas;
        reserved := reserved;
        voxelOrder := voxelOrder;
        pad2 := pad2;
        imageOrientationPatient := imageOrientationPatient;
        pad1 := pad1;
        invert := (i0, i1, i2);
        swap := (s0, s1, s2);
        nCount := nCount;
        version := version;
        hdrSize := hdrSize |}.

(** One pass of [for (let i = 0; i < numPoints; i++)]: the three
    coordinates, then [nScalars] scalars, each a binary32 at the running
    offset.  Returns the coordinates, the scalar row and the new offset. *)
Definition read_point (buf : list byte) (off : Z) (nS : Z)
  : result (list float * list float * Z) :=
  do xyz <- floats_at buf off 3;
  do row <- floats_at buf (off + 12) (Z.to_nat nS);
  Ok (xyz, row, off + 12 + 4 * Z.of_nat (Z.to_nat nS)).

Fixpoint read_points (buf : list byte) (off : Z) (nS : Z) (n : nat)
  : result (list float * list (list float) * Z) :=
  match n with
  | O => Ok ([], [], off)
  | S n' =>
      do p <- read_point buf off nS;
      let '(xyz, row, off1) := p in
      do r <- read_points buf off1 nS n';
      let '(pts, rows, off2) := r in
      Ok (xyz ++ pts, row :: rows, off2)
  end.

(** [scalars[s][i]] for every channel [s]: channel [s] collects entry
    [s] of every point's scalar row. *)
Definition channels (nS : Z) (rows : list (list float)) : list (list float) :=
  map (fun s => map (fun row => nth s row 0%float) rows) (seq 0 (Z.to_nat nS)).

(** [streamlines.length < maxStreamlines], where [maxStreamlines] is
    [nCount] when positive and [Infinity] otherwise. *)
Definition below_max (h : TrkHeader) (count : nat) : bool :=
  if nCount h >? 0 then Z.of_nat count <? nCount h else true.

(** What one pass of the [while] loop of [parseStreamlines] does: it
    leaves the loop ([break], or the loop test fails), or it pushes a
    streamline and goes on at a further offset. *)
Inductive pass : Type :=
| Stop
| Next (offset : Z) (s : Streamline).

(** One pass, the loop test included, at [offset] with [count]
    streamlines pushed so far. *)
Definition trk_pass (buf : list byte) (h : TrkHeader) (offset : Z) (count : nat)
  : result pass :=
  let bufferLength := byteLength buf in
  let bytesPerPoint := 4 * (3 + nScalars h) in
  let bytesPerProperties := 4 * nProperties h in
  if (offset <? bufferLength) && below_max h count then
    if offset + 4 >? bufferLength then Ok Stop
    else
      do numPoints <- rd (getInt32 buf offset true);
      let offset := offset + 4 in
      if (numPoints <=? 0) || (numPoints >? 100000) then Ok Stop
      else
        let streamlineBytes := numPoints * bytesPerPoint + bytesPerProperties in
        if offset + streamlineBytes >? bufferLength then Ok Stop
        else
          do r <- read_points buf offset (nScalars h) (Z.to_nat numPoints);
          let '(pts, rows, offset) := r in
          let scal := if nScalars h >? 0 then channels (nScalars h) rows else [] in
          do props <- (if nProperties h >? 0
                       then floats_at buf offset (Z.to_nat (nProperties h))
                       else Ok []);
          let properties := if nProperties h >? 0 then Some props else None in
          let offset :=
            if nProperties h >? 0
            then offset + 4 * Z.of_nat (Z.to_nat (nProperties h)) else offset in
          Ok (Next offset
                {| points := pts;
                   numPoints := Num.of_Z numPoints;
                   scalars := match scal with [] => None | _ => Some scal end;
                   properties := properties |})
  else Ok Stop.

(** The loop: [streamlines] is the array being pushed to, and one unit of
    [fuel] is one pass. *)
Fixpoint trk_loop (fuel : nat) (buf : list byte) (h : TrkHeader)
         (offset : Z) (streamlines : list Streamline) : result (list Streamline) :=
  match fuel with
  | O => Ok streamlines
  | S fuel' =>
      do p <- trk_pass buf h offset (length streamlines);
      match p with
      | Stop => Ok streamlines
      | Next offset' s => trk_loop fuel' buf h offset' (streamlines ++ [s])
      end
  end.

(** [header.hdrSize || 1000] *)
Definition body_offset (h : TrkHeader) : Z :=
  if hdrSize h =? 0 then 1000 else hdrSize h.

(** [parseStreamlines].  Every pass that goes on consumes at least the 4
    bytes of the count and the 12 of a point, so one more pass than there
    are bytes is never used up (see [trk_loop_fuel]). *)
Definition parseStreamlines (buf : list byte) (h : TrkHeader) : result (list Streamline) :=
  trk_loop (S (length buf)) buf h (body_offset h) [].

(** The states the loop goes through: the offset of the next record and
    the streamlines pushed so far. *)
Inductive reaches (buf : list byte) (h : TrkHeader) : Z -> list Streamline -> Prop :=
| reaches_start : reaches buf h (body_offset h) []
| reaches_next : forall offset streamlines offset' s,
    reaches buf h offset streamlines ->
    trk_pass buf h offset (length streamlines) = Ok (Next offset' s) ->
    reaches buf h offset' (streamlines ++ [s]).

Definition parseTrkFile (buf : list byte) : result TrkData :=
  if byteLength buf >? MAX_FILE_SIZE then Err FileTooLarge
  else
    do header <- parseHeader buf;
    if negb (startsWith (idString header) "TRACK") then Err MissingTRACK
    else
      do _ <- validateTrkHeader header;
      do streamlines <- parseStreamlines buf header;
      Ok {| header := header; streamlines := streamlines |}.

End Trk.

(** ** The post-decode utilities of [trkParser.ts] *)

Module Post.

Section Sampling.
(** [applySkipSampling] only moves streamlines around, so the element
    type is left open. *)
Variable A : Type.

Record Sampling : Type := mkSampling {
  sampled : list A;
  skipFactor : jsnum;
  totalCount : nat
}.

(** [for (let i = 0; i < totalCount && sampled.length < maxCount;
    i += skipFactor) sampled.push(streamlines[i])].  Every pass pushes
    one element, so [maxCount] units of fuel are never used up.  The
    test [i < totalCount] keeps [streamlines[i]] inside the array. *)
Fixpoint sample_loop (fuel : nat) (streamlines : list A) (maxCount step : nat)
         (i : nat) (acc : list A) : list A :=
  match fuel with
  | O => acc
  | S fuel' =>
      if ((i <? length streamlines) && (length acc <? maxCount))%nat then
        match nth_error streamlines i with
        | Some s => sample_loop fuel' streamlines maxCount step (i + step)%nat (acc ++ [s])
        | None => acc
        end
      else acc
  end.

(** The step of the loop as a natural number.  [skipFactor] is
    [Infinity] or [NaN] only when [targetCount] is 0, that is when
    [maxCount] or [totalCount] is 0, and then the first test of the loop
    fails, so the step is never added. *)
Definition step_of (skipFactor : jsnum) : nat :=
  match skipFactor with
  | Num.Num q => Z.to_nat (Qfloor q)
  | _ => 0%nat
  end.

(** [maxCount] is a count (a natural number); [skipThreshold] is only
    compared with. *)
Definition applySkipSampling (streamlines : list A) (maxCount : nat) (skipThreshold : Z)
  : Sampling :=
  let totalCount := length streamlines in
  if Z.of_nat totalCount <=? skipThreshold then
    {| sampled := js_slice streamlines (Num.of_Z 0)
                    (Num.min (Num.of_nat maxCount) (Num.of_nat totalCount));
       skipFactor := Num.of_Z 1;
       totalCount := totalCount |}
  else
    let targetCount := Num.min (Num.of_nat maxCount) (Num.of_nat totalCount) in
    let skipFactor := Num.ceil (Num.div (Num.of_nat totalCount) targetCount) in
    {| sampled := sample_loop maxCount streamlines maxCount (step_of skipFactor) 0 [];
       skipFactor := skipFactor;
       totalCount := totalCount |}.
End Sampling.

Arguments sampled {A} _.
Arguments skipFactor {A} _.
Arguments totalCount {A} _.

(** [Math.min(a, b)] on two numbers: [NaN] if either is, and [-0] is
    smaller than [+0]. *)
Definition is_neg_zero (x : float) : bool := is_zero x && get_sign x.
Definition is_pos_zero (x : float) : bool := is_zero x && negb (get_sign x).

Definition Math_min (a b : float) : float :=
  if is_nan a || is_nan b then nan
  else if is_neg_zero b && is_pos_zero a then b
  else if (b <? a)%float then b
  else a.

Definition Math_max (a b : float) : float :=
  if is_nan a || is_nan b then nan
  else if is_pos_zero b && is_neg_zero a then b
  else if (a <? b)%float then b
  else a.

(** [Math.pow(d, 2)], taken as the correctly rounded square [d * d]. *)
Definition pow2 (d : float) : float := (d * d)%float.

(** The six running values [minX, minY, minZ, maxX, maxY, maxZ]. *)
Record Bounds : Type := mkBounds {
  minX : float; minY : float; minZ : float;
  maxX : float; maxY : float; maxZ : float
}.

Definition init_bounds : Bounds :=
  mkBounds infinity infinity infinity neg_infinity neg_infinity neg_infinity.

Definition update (b : Bounds) (x y z : float) : Bounds :=
  {| minX := Math_min (minX b) x;
     minY := Math_min (minY b) y;
     minZ := Math_min (minZ b) z;
     maxX := Math_max (maxX b) x;
     maxY := Math_max (maxY b) y;
     maxZ := Math_max (maxZ b) z |}.

(** [for (let i = 0; i < points.length; i += 3)]: a read past the end of
    the array is [undefined], which [Math.min] and [Math.max] turn into
    [NaN]. *)
Fixpoint scan_points (pts : list float) (b : Bounds) : Bounds :=
  match pts with
  | [] => b
  | [x] => update b x nan nan
  | [x; y] => update b x y nan
  | x :: y :: z :: rest => scan_points rest (update b x y z)
  end.

(** [for (const streamline of streamlines)] *)
Fixpoint scan (streamlines : list Streamline) (b : Bounds) : Bounds :=
  match streamlines with
  | [] => b
  | s :: rest => scan rest (scan_points (points s) b)
  end.

Record BoundingBox : Type := mkBoundingBox {
  bmin : triple float;
  bmax : triple float;
  center : triple float;
  size : float
}.

Definition calculateBoundingBox (streamlines : list Streamline) : BoundingBox :=
  let b := scan streamlines init_bounds in
  {| bmin := (minX b, minY b, minZ b);
     bmax := (maxX b, maxY b, maxZ b);
     center := (((minX b + maxX b) / 2)%float,
                ((minY b + maxY b) / 2)%float,
                ((minZ b + maxZ b) / 2)%float);
     size := PrimFloat.sqrt (pow2 (maxX b - minX b)
                             + pow2 (maxY b - minY b)
                             + pow2 (maxZ b - minZ b))%float |}.

End Post.

(** ** The unified header ([streamlineTypes.ts]) *)

Module Unified.

(** The [metadata] object each decoder attaches.  [timestamp] keeps the
    text handed to [parseFloat]: the number is stored and never read. *)
Inductive Metadata : Type :=
| TckMetadata (datatype : string) (timestamp : option string) (originalCount : option Z)
| TrxMetadata (nbVertices : Z) (voxelToRasmm : list (list float)).

Record TractographyHeader : Type := mkHeader {
  format : TractographyFormat;
  dim : triple Z;
  voxelSize : triple float;
  nCount : nat;
  version : Z;
  metadata : Metadata
}.

Record TractographyData : Type := mkData {
  header : TractographyHeader;
  streamlines : list Streamline
}.

End Unified.

(** ** More string operations *)

Module Str.

Definition chars (s : string) : list ascii := list_ascii_of_string s.
Definition of_chars (l : list ascii) : string := string_of_list_ascii l.

(** White space of [trim], [parseInt] and the [\s] class, among the
    characters a windows-1252 or ASCII decoder can produce: TAB, LF, VT,
    FF, CR, space and the no-break space (byte 160). *)
Definition is_ws (c : ascii) : bool :=
  let n := code c in
  ((9 <=? n) && (n <=? 13)) || (n =? 32) || (n =? 160).

Fixpoint drop_ws (l : list ascii) : list ascii :=
  match l with
  | c :: rest => if is_ws c then drop_ws rest else l
  | [] => []
  end.

Definition trimStart (s : string) : string := of_chars (drop_ws (chars s)).

(** [s.trim()] *)
Definition trim (s : string) : string :=
  of_chars (rev (drop_ws (rev (drop_ws (chars s))))).

(** [toLowerCase] on one character, by its windows-1252 byte: the ASCII
    capitals, the Latin-1 capitals 0xC0..0xDE but for the multiplication
    sign 0xD7, and the four capitals of the 0x80..0x9F block. *)
Definition lower_code (n : Z) : Z :=
  if (65 <=? n) && (n <=? 90) then n + 32
  else if (192 <=? n) && (n <=? 222) && negb (n =? 215) then n + 32
  else if (n =? 138) || (n =? 140) || (n =? 142) then n + 16
  else if n =? 159 then 255
  else n.

Definition lower_char (c : ascii) : ascii :=
  ascii_of_N (Z.to_N (lower_code (code c))).

Fixpoint toLowerCase (s : string) : string :=
  match s with
  | EmptyString => EmptyString
  | String c rest => String (lower_char c) (toLowerCase rest)
  end.

(** [toLowerCase] as far as a comparison with an ASCII word can tell, for
    a string decoded from UTF-8 and kept as its bytes: only the capitals
    A..Z change, and no other character lowers to an ASCII letter that
    occurs in the words compared with. *)
Definition lower_ascii (c : ascii) : ascii :=
  let n := code c in
  if (65 <=? n) && (n <=? 90) then ascii_of_N (Z.to_N (n + 32)) else c.

Fixpoint toLowerASCII (s : string) : string :=
  match s with
  | EmptyString => EmptyString
  | String c rest => String (lower_ascii c) (toLowerASCII rest)
  end.

(** [s.includes(p)] *)
Fixpoint includes (s p : string) : bool :=
  String.prefix p s
  || match s with
     | EmptyString => false
     | String _ rest => includes rest p
     end.

(** [s.endsWith(p)] *)
Definition endsWith (s p : string) : bool :=
  String.prefix (of_chars (rev (chars p))) (of_chars (rev (chars s))).

(** The text before the first [c] and the text after it, that is
    [s.substring(0, i)] and [s.substring(i + 1)] for [i = s.indexOf(c)];
    [None] when [indexOf] is -1. *)
Fixpoint cut_at (c : ascii) (s : string) : option (string * string) :=
  match s with
  | EmptyString => None
  | String d rest =>
      if Ascii.eqb d c then Some (EmptyString, rest)
      else match cut_at c rest with
           | Some (a, b) => Some (String d a, b)
           | None => None
           end
  end.

(** [s.split(c)] on a one-character separator *)
Fixpoint split_on (c : ascii) (s : string) : list string :=
  match s with
  | EmptyString => [EmptyString]
  | String d rest =>
      if Ascii.eqb d c then EmptyString :: split_on c rest
      else match split_on c rest with
           | first :: others => String d first :: others
           | [] => [String d EmptyString]
           end
  end.

Definition LF : ascii := ascii_of_N 10.
Definition CR : ascii := ascii_of_N 13.

(** [s.split(/\r?\n/)]; [cur] is the line being read, reversed. *)
Fixpoint split_lines (s : string) (cur : list ascii) : list string :=
  match s with
  | EmptyString => [of_chars (rev cur)]
  | String c rest =>
      if Ascii.eqb c LF then of_chars (rev cur) :: split_lines rest []
      else if Ascii.eqb c CR then
        match rest with
        | String d rest' =>
            if Ascii.eqb d LF then of_chars (rev cur) :: split_lines rest' []
            else split_lines rest (c :: cur)
        | EmptyString => split_lines rest (c :: cur)
        end
      else split_lines rest (c :: cur)
  end.

(** [s.split(/\s+/)]; [in_ws] holds while a run of white space is being
    skipped. *)
Fixpoint split_ws (s : string) (cur : list ascii) (in_ws : bool) : list string :=
  match s with
  | EmptyString => [of_chars (rev cur)]
  | String c rest =>
      if is_ws c then
        if in_ws then split_ws rest [] true
        else of_chars (rev cur) :: split_ws rest [] true
      else split_ws rest (c :: cur) false
  end.

Definition is_digit (c : ascii) : bool := (48 <=? code c) && (code c <=? 57).

(** The value of the longest prefix of decimal digits, [None] if there is
    no digit. *)
Fixpoint digits (s : string) (acc : option Z) : option Z :=
  match s with
  | EmptyString => acc
  | String c rest =>
      if is_digit c
      then digits rest (Some (10 * match acc with Some a => a | None => 0 end
                              + (code c - 48)))
      else acc
  end.

(** [parseInt(s, 10)]; [None] is [NaN].  The integer is exact (the double
    rounds it above 2^53, which no comparison with a buffer length
    sees). *)
Definition parseInt (s : string) : option Z :=
  match trimStart s with
  | String c rest =>
      if Ascii.eqb c "-"%char then option_map Z.opp (digits rest None)
      else if Ascii.eqb c "+"%char then digits rest None
      else digits (String c rest) None
  | EmptyString => None
  end.

End Str.

(** ** Plain objects used as string-keyed maps *)

Module Obj.

(** The own properties of an object created by [{}], in insertion order. *)
Definition obj : Type := list (string * string).

(** [o[key] = value] for a string [value].  The key [__proto__] reaches
    the setter inherited from [Object.prototype], which ignores a value
    that is not an object: nothing is stored. *)
Fixpoint set (o : obj) (key value : string) : obj :=
  match o with
  | [] => [(key, value)]
  | (k, v) :: rest =>
      if String.eqb k key then (k, value) :: rest
      else (k, v) :: set rest key value
  end.

Definition assign (o : obj) (key value : string) : obj :=
  if String.eqb key "__proto__" then o else set o key value.

(** The own property [key], if there is one. *)
Fixpoint get (o : obj) (key : string) : option string :=
  match o with
  | [] => None
  | (k, v) :: rest => if String.eqb k key then Some v else get rest key
  end.

Fixpoint all_digits (s : string) : bool :=
  match s with
  | EmptyString => true
  | String c rest => Str.is_digit c && all_digits rest
  end.

(** The array index a key denotes: a canonical decimal numeral (no
    leading zero) of value at most 2^32 - 2. *)
Definition array_index (key : string) : option Z :=
  match key with
  | EmptyString => None
  | String c rest =>
      if all_digits key && (negb (code c =? 48) || negb (nonempty rest))
      then match Str.digits key None with
           | Some v => if v <=? 2 ^ 32 - 2 then Some v else None
           | None => None
           end
      else None
  end.

(** The key with the least array index among [o]'s keys. *)
Fixpoint least_index (o : obj) (best : option (Z * string)) : option (Z * string) :=
  match o with
  | [] => best
  | (k, _) :: rest =>
      match array_index k, best with
      | Some i, Some (j, _) => least_index rest (if i <? j then Some (i, k) else best)
      | Some i, None => least_index rest (Some (i, k))
      | None, _ => least_index rest best
      end
  end.

(** [Object.keys(o)[0]]: own keys are listed with the array indices first,
    in ascending order, then the other keys in insertion order. *)
Definition first_key (o : obj) : option string :=
  match least_index o None with
  | Some (_, k) => Some k
  | None => match o with (k, _) :: _ => Some k | [] => None end
  end.

(** The names [Object.prototype] defines, which every plain object
    answers to. *)
Definition prototype_names : list string :=
  [ "constructor"; "__defineGetter__"; "__defineSetter__"; "hasOwnProperty";
    "__lookupGetter__"; "__lookupSetter__"; "isPrototypeOf";
    "propertyIsEnumerable"; "toString"; "valueOf"; "__proto__";
    "toLocaleString" ]%string.

Definition inherited (key : string) : bool :=
  existsb (String.eqb key) prototype_names.

End Obj.

(** ** [tckParser.ts] *)

Module Tck.
Import DataView.

Record TckHeader : Type := mkTckHeader {
  datatype : string;
  fileOffset : option Z;          (* an integer, or [NaN] *)
  count : option Z;               (* an integer, or [NaN] *)
  totalCount : option (option Z); (* [undefined], or as [count] *)
  timestamp : option string;      (* [undefined], or the text parsed *)
  metadata : Obj.obj
}.

Record DataTypeConfig : Type := mkConfig {
  bytesPerFloat : Z;
  littleEndian : bool;
  reader : list byte -> Z -> bool -> option float
}.

(** What [DATA_TYPES[name]] evaluates to: one of the four configurations,
    a member inherited from [Object.prototype] (truthy, and without any of
    the three fields), or [undefined]. *)
Inductive lookup : Type :=
| Config (c : DataTypeConfig)
| Inherited
| Undefined.

Definition DATA_TYPES (name : string) : lookup :=
  if String.eqb name "Float32LE" then Config (mkConfig 4 true getFloat32)
  else if String.eqb name "Float32BE" then Config (mkConfig 4 false getFloat32)
  else if String.eqb name "Float64LE" then Config (mkConfig 8 true getFloat64)
  else if String.eqb name "Float64BE" then Config (mkConfig 8 false getFloat64)
  else if Obj.inherited name then Inherited
  else Undefined.

(** [bytes[i]] on the [Uint8Array] over the buffer *)
Definition byte_at (buf : list byte) (i : nat) : option Z :=
  option_map u8 (nth_error buf i).

Definition holds (o : option Z) (v : Z) : bool :=
  match o with Some x => x =? v | None => false end.

(** The search for the END marker: [n] passes of the [for] loop are left,
    the next one at index [i].  The result is [headerEnd], [None] for -1. *)
Fixpoint find_end (buf : list byte) (i : nat) (n : nat) : option Z :=
  match n with
  | O => None
  | S n' =>
      if holds (byte_at buf i) 69 && holds (byte_at buf (i + 1)) 78
         && holds (byte_at buf (i + 2)) 68
         && (Z.of_nat i + 3 <? byteLength buf)
         && (holds (byte_at buf (i + 3)) 10 || holds (byte_at buf (i + 3)) 13)
      then
        if holds (byte_at buf (i + 3)) 13 && holds (byte_at buf (i + 4)) 10
        then Some (Z.of_nat i + 5)
        else Some (Z.of_nat i + 4)
      else find_end buf (S i) n'
  end.

(** [for (let i = 0; i < maxHeaderSize - 2; i++)] *)
Definition headerEnd (buf : list byte) : option Z :=
  let maxHeaderSize := Z.min (byteLength buf) 10000 in
  find_end buf 0 (Z.to_nat (maxHeaderSize - 2)).

(** The variables the line loop of [parseHeader] updates. *)
Record fields : Type := mkFields {
  f_metadata : Obj.obj;
  f_datatype : string;
  f_fileOffset : option Z;
  f_count : option Z;
  f_totalCount : option (option Z);
  f_timestamp : option string
}.

(** The [switch (key)] *)
Definition on_key (f : fields) (key value : string) : fields :=
  if String.eqb key "datatype" then
    mkFields (f_metadata f) value (f_fileOffset f) (f_count f) (f_totalCount f) (f_timestamp f)
  else if String.eqb key "file" then
    let parts := Str.split_ws value [] false in
    let off :=
      if (2 <=? length parts)%nat && String.eqb (nth 0 parts EmptyString) "."
      then Str.parseInt (nth 1 parts EmptyString)
      else if (length parts =? 1)%nat then Str.parseInt (nth 0 parts EmptyString)
      else f_fileOffset f in
    mkFields (f_metadata f) (f_datatype f) off (f_count f) (f_totalCount f) (f_timestamp f)
  else if String.eqb key "count" then
    mkFields (f_metadata f) (f_datatype f) (f_fileOffset f) (Str.parseInt value)
             (f_totalCount f) (f_timestamp f)
  else if String.eqb key "total_count" then
    mkFields (f_metadata f) (f_datatype f) (f_fileOffset f) (f_count f)
             (Some (Str.parseInt value)) (f_timestamp f)
  else if String.eqb key "timestamp" then
    mkFields (f_metadata f) (f_datatype f) (f_fileOffset f) (f_count f)
             (f_totalCount f) (Some value)
  else f.

(** The body of [for (const line of lines)] *)
Definition on_line (f : fields) (line : string) : fields :=
  if String.eqb (Str.trim line) "END" then f
  else if String.eqb (Str.toLowerCase (Str.trim line)) "mrtrix tracks" then
    mkFields (Obj.assign (f_metadata f) "mrtrix tracks" "true")
             (f_datatype f) (f_fileOffset f) (f_count f) (f_totalCount f) (f_timestamp f)
  else
    match Str.cut_at ":"%char line with
    | None => f
    | Some (before, after) =>
        let key := Str.toLowerCase (Str.trim before) in
        let value := Str.trim after in
        let f' := mkFields (Obj.assign (f_metadata f) key value)
                           (f_datatype f) (f_fileOffset f) (f_count f)
                           (f_totalCount f) (f_timestamp f) in
        on_key f' key value
    end.

(** The lines of the header text: [split(/\r?\n/)], blank lines dropped. *)
Definition header_lines (buf : list byte) (headerEnd : Z) : list string :=
  let headerText := decode (firstn (Z.to_nat headerEnd) buf) in
  filter (fun line => nonempty (Str.trim line)) (Str.split_lines headerText []).

(** The state after the line loop. *)
Definition scan_header (buf : list byte) (headerEnd : Z) : fields :=
  fold_left on_line (header_lines buf headerEnd)
            (mkFields [] "Float32LE" (Some headerEnd) (Some 0) None None).

Definition parseHeader (buf : list byte) : result TckHeader :=
  match headerEnd buf with
  | None => Err MissingEND
  | Some headerEnd =>
      let f := scan_header buf headerEnd in
      match DATA_TYPES (f_datatype f) with
      | Undefined => Err (UnsupportedDatatype (f_datatype f))
      | _ =>
          Ok {| datatype := f_datatype f;
                fileOffset := f_fileOffset f;
                count := f_count f;
                totalCount := f_totalCount f;
                timestamp := f_timestamp f;
                metadata := f_metadata f |}
      end
  end.

(** [new Float32Array(currentPoints)] with [numPoints] *)
Definition finalize (currentPoints : list float) : Streamline :=
  {| points := map fround currentPoints;
     numPoints := Num.div (Num.of_nat (length currentPoints)) (Num.of_Z 3);
     scalars := None;
     properties := None |}.

(** [if (currentPoints.length >= 6) streamlines.push(...)] *)
Definition flush (currentPoints : list float) (streamlines : list Streamline)
  : list Streamline :=
  if (6 <=? length currentPoints)%nat then streamlines ++ [finalize currentPoints]
  else streamlines.

(** What one pass of the [while] loop of [parseStreamlines] leads to:
    the function returns [streamlines], or the loop goes on. *)
Inductive pass : Type :=
| Return (streamlines : list Streamline)
| Continue (offset : Z) (currentPoints : list float) (streamlines : list Streamline).

(** One pass, the loop test included.  Every way out of the loop but the
    [throw] runs the statements after it, the final
    [if (currentPoints.length >= 6)], with [currentPoints] as the loop
    left it. *)
Definition tck_pass (buf : list byte) (c : DataTypeConfig)
           (offset : Z) (currentPoints : list float) (streamlines : list Streamline)
  : result pass :=
  let bytesPerTriplet := bytesPerFloat c * 3 in
  if offset + bytesPerTriplet <=? byteLength buf then
    do x <- rd (reader c buf offset (littleEndian c));
    do y <- rd (reader c buf (offset + bytesPerFloat c) (littleEndian c));
    do z <- rd (reader c buf (offset + bytesPerFloat c * 2) (littleEndian c));
    let offset := offset + bytesPerTriplet in
    if negb (isFinite x) && negb (isNaN x) then
      (* push if long enough, [break], then the statements after the loop *)
      Ok (Return (flush currentPoints (flush currentPoints streamlines)))
    else if isNaN x || isNaN y || isNaN z then
      Ok (Continue offset [] (flush currentPoints streamlines))
    else
      let currentPoints := currentPoints ++ [x; y; z] in
      if 300000 <? Z.of_nat (length currentPoints) then Err StreamlineTooLong
      else Ok (Continue offset currentPoints streamlines)
  else Ok (Return (flush currentPoints streamlines)).

(** The loop; one unit of [fuel] is one pass. *)
Fixpoint tck_loop (fuel : nat) (buf : list byte) (c : DataTypeConfig)
         (offset : Z) (currentPoints : list float) (streamlines : list Streamline)
  : result (list Streamline) :=
  match fuel with
  | O => Ok (flush currentPoints streamlines)
  | S fuel' =>
      do p <- tck_pass buf c offset currentPoints streamlines;
      match p with
      | Return result => Ok result
      | Continue offset' currentPoints' streamlines' =>
          tck_loop fuel' buf c offset' currentPoints' streamlines'
      end
  end.

(** [parseStreamlines].  With an inherited member for [config] the three
    fields are [undefined], [bytesPerTriplet] is [NaN] and the loop test
    fails at once; so it does with a [NaN] file offset.  Every pass
    consumes [bytesPerTriplet >= 12] bytes, so one more pass than there
    are bytes is never used up (see [tck_loop_fuel]). *)
Definition parseStreamlines (buf : list byte) (h : TckHeader) : result (list Streamline) :=
  match DATA_TYPES (datatype h) with
  | Undefined => Err (InvalidDatatypeConfig (datatype h))
  | Inherited => Ok []
  | Config c =>
      match fileOffset h with
      | None => Ok []
      | Some offset => tck_loop (S (length buf)) buf c offset [] []
      end
  end.

(** The states the loop goes through from [offset0]. *)
Inductive reaches (buf : list byte) (c : DataTypeConfig) (offset0 : Z)
  : Z -> list float -> list Streamline -> Prop :=
| reaches_start : reaches buf c offset0 offset0 [] []
| reaches_next : forall offset currentPoints streamlines offset' currentPoints' streamlines',
    reaches buf c offset0 offset currentPoints streamlines ->
    tck_pass buf c offset currentPoints streamlines
      = Ok (Continue offset' currentPoints' streamlines') ->
    reaches buf c offset0 offset' currentPoints' streamlines'.

(** The magic test of [parseTckFile]: [metadata['mrtrix tracks']] is
    truthy, or the first key of [metadata] (or [''] when it has none or an
    empty one) contains the identifier. *)
Definition has_magic (h : TckHeader) : bool :=
  match Obj.get (metadata h) "mrtrix tracks" with
  | Some v => nonempty v
  | None => false
  end
  || let firstLine := match Obj.first_key (metadata h) with
                      | Some k => k
                      | None => EmptyString
                      end in
     Str.includes (Str.toLowerCase firstLine) "mrtrix tracks".

Definition parseTckFile (buf : list byte) : result Unified.TractographyData :=
  if byteLength buf >? MAX_FILE_SIZE then Err FileTooLarge
  else
    do tckHeader <- parseHeader buf;
    if negb (has_magic tckHeader) then Err MissingMrtrix
    else
      do streamlines <- parseStreamlines buf tckHeader;
      Ok {| Unified.header :=
              {| Unified.format := tck;
                 Unified.dim := DEFAULT_DIMENSIONS;
                 Unified.voxelSize := DEFAULT_VOXEL_SIZE;
                 Unified.nCount := length streamlines;
                 Unified.version := 1;
                 Unified.metadata :=
                   Unified.TckMetadata (datatype tckHeader) (timestamp tckHeader)
                                       (count tckHeader) |};
            Unified.streamlines := streamlines |}.

End Tck.

(** ** [trxParser.ts] *)

Module Trx.
Import DataView.

(** A value [JSON.parse] returns. *)
#[local] Unset Elimination Schemes.
Inductive json : Type :=
| JNull
| JBool (b : bool)
| JNumber (x : float)
| JString (s : string)
| JArray (items : list json)
| JObject (members : list (string * json)).
#[local] Set Elimination Schemes.

Record TrxHeader : Type := mkTrxHeader {
  VOXEL_TO_RASMM : list (list float);
  DIMENSIONS : triple Z;
  NB_STREAMLINES : Z;
  NB_VERTICES : Z
}.

Record ZipEntry : Type := mkEntry {
  name : string;
  data : list byte
}.

(** The integer a double is, when [Number.isInteger] holds of it. *)
Definition integer_of (x : float) : option Z :=
  match Prim2SF x with
  | S754_zero _ => Some 0
  | S754_finite s m e =>
      if 0 <=? e then Some (cond_Zopp s (Zpos m * 2 ^ e))
      else if Zpos m mod 2 ^ (- e) =? 0 then Some (cond_Zopp s (Zpos m / 2 ^ (- e)))
      else None
  | _ => None
  end.

(** [header.KEY] on the parsed value *)
Fixpoint member (members : list (string * json)) (key : string) : option json :=
  match members with
  | [] => None
  | (k, v) :: rest => if String.eqb k key then Some v else member rest key
  end.

Definition property (obj : json) (key : string) : option json :=
  match obj with
  | JObject members => member members key
  | _ => None
  end.

(** [typeof v === 'number' && Number.isInteger(v) && v >= 0] *)
Definition nonneg_integer (v : option json) : option Z :=
  match v with
  | Some (JNumber x) =>
      match integer_of x with
      | Some z => if 0 <=? z then Some z else None
      | None => None
      end
  | _ => None
  end.

(** A row of the matrix: an array of exactly four numbers. *)
Definition matrix_row (row : json) : option (list float) :=
  match row with
  | JArray [JNumber a; JNumber b; JNumber c; JNumber d] => Some [a; b; c; d]
  | _ => None
  end.

Fixpoint matrix_rows (rows : list json) : result (list (list float)) :=
  match rows with
  | [] => Ok []
  | row :: rest =>
      match matrix_row row with
      | None => Err TrxBadMatrixRow
      | Some r => do rs <- matrix_rows rest; Ok (r :: rs)
      end
  end.

Definition validateTrxHeader (obj : json) : result TrxHeader :=
  match obj with
  | JObject _ | JArray _ =>
      match property obj "VOXEL_TO_RASMM" with
      | Some (JArray ([_; _; _; _] as rows)) =>
          do matrix <- matrix_rows rows;
          match property obj "DIMENSIONS" with
          | Some (JArray [d0; d1; d2]) =>
              match nonneg_integer (Some d0), nonneg_integer (Some d1),
                    nonneg_integer (Some d2) with
              | Some x, Some y, Some z =>
                  match nonneg_integer (property obj "NB_STREAMLINES") with
                  | None => Err TrxBadNbStreamlines
                  | Some nb =>
                      match nonneg_integer (property obj "NB_VERTICES") with
                      | None => Err TrxBadNbVertices
                      | Some nv =>
                          Ok {| VOXEL_TO_RASMM := matrix;
                                DIMENSIONS := (x, y, z);
                                NB_STREAMLINES := nb;
                                NB_VERTICES := nv |}
                      end
                  end
              | _, _, _ => Err TrxBadDimensions
              end
          | _ => Err TrxBadDimensions
          end
      | _ => Err TrxBadMatrix
      end
  | _ => Err TrxHeaderNotObject
  end.

(** [new TextDecoder('utf-8').decode(bytes)], kept as the bytes: the
    decoder drops a leading byte order mark, and maps no other byte
    sequence onto ASCII text. *)
Definition decode_utf8 (bs : list byte) : string :=
  match bs with
  | b0 :: b1 :: b2 :: rest =>
      if (u8 b0 =? 239) && (u8 b1 =? 187) && (u8 b2 =? 191) then decode rest
      else decode bs
  | _ => decode bs
  end.

(** [bytes.slice(a, b)] for [0 <= a] *)
Definition slice (buf : list byte) (a b : Z) : list byte :=
  js_slice buf (Num.of_Z a) (Num.of_Z b).

Section External.
(** [zlib.inflateRawSync] and [JSON.parse]; [None] is the exception
    either raises. *)
Variable inflateRawSync : list byte -> option (list byte).
Variable JSON_parse : string -> option json.

(** The [while] loop of [parseZipEntries]; every pass moves [offset]
    forward by at least the 30 bytes of a local file header. *)
Fixpoint zip_loop (fuel : nat) (buf : list byte) (offset : Z) (entries : list ZipEntry)
  : result (list ZipEntry) :=
  match fuel with
  | O => Ok entries
  | S fuel' =>
      if offset <? byteLength buf - 4 then
        do signature <- rd (getUint32 buf offset true);
        if negb (signature =? 0x04034b50) then Ok entries
        else
          do compressionMethod <- rd (getUint16 buf (offset + 8) true);
          do compressedSize <- rd (getUint32 buf (offset + 18) true);
          do uncompressedSize <- rd (getUint32 buf (offset + 22) true);
          do nameLength <- rd (getUint16 buf (offset + 26) true);
          do extraLength <- rd (getUint16 buf (offset + 28) true);
          let name := decode_utf8 (slice buf (offset + 30) (offset + 30 + nameLength)) in
          let dataOffset := offset + 30 + nameLength + extraLength in
          if compressionMethod =? 0 then
            zip_loop fuel' buf (dataOffset + compressedSize)
              (entries ++ [mkEntry name (slice buf dataOffset (dataOffset + compressedSize))])
          else if compressionMethod =? 8 then
            match inflateRawSync (slice buf dataOffset (dataOffset + compressedSize)) with
            | None => Err InflateError
            | Some data =>
                zip_loop fuel' buf (dataOffset + compressedSize)
                  (entries ++ [mkEntry name data])
            end
          else zip_loop fuel' buf (dataOffset + compressedSize) entries
      else Ok entries
  end.

Definition parseZipEntries (buf : list byte) : result (list ZipEntry) :=
  zip_loop (S (length buf)) buf 0 [].

(** [filename.split('/').pop() || filename] *)
Definition basename (filename : string) : string :=
  let last := List.last (Str.split_on "/"%char filename) EmptyString in
  if nonempty last then last else filename.

(** [new Float32Array(n)] and the loop filling it from [data]: [count]
    values of [width] bytes each; a length that is not an integer
    raises. *)
Fixpoint read_each {A : Type} (get : Z -> option A) (width : Z) (i : Z) (count : nat)
  : result (list A) :=
  match count with
  | O => Ok []
  | S count' =>
      do v <- rd (get (i * width));
      do rest <- read_each get width (i + 1) count';
      Ok (v :: rest)
  end.

Definition typed_array {A : Type} (data : list byte) (width : Z) (get : Z -> option A)
  : result (list A) :=
  if byteLength data mod width =? 0
  then read_each get width 0 (Z.to_nat (byteLength data / width))
  else Err RangeError.

(** [Math.pow(2, k)] for an integer [k] *)
Definition pow_2 (k : Z) : float := Z.ldexp one k.

Definition of_int (z : Z) : float := of_uint63 (Uint63.of_Z z).

Definition float16ToFloat32 (h : Z) : float :=
  let sign := Z.land (Z.shiftr h 15) 1 in
  let exponent := Z.land (Z.shiftr h 10) 31 in
  let mantissa := Z.land h 1023 in
  if exponent =? 0 then
    if mantissa =? 0 then (if sign =? 0 then zero else neg_zero)
    else
      let value := (of_int mantissa / 1024 * pow_2 (-14))%float in
      if sign =? 0 then value else (- value)%float
  else if exponent =? 31 then
    if mantissa =? 0 then (if sign =? 0 then infinity else neg_infinity)
    else nan
  else
    let value := ((1 + of_int mantissa / 1024) * pow_2 (exponent - 15))%float in
    if sign =? 0 then value else (- value)%float.

(** [parsePositions]; the component count read from the file name is
    not used by the source.  A binary16 or binary32 value is stored in
    the [Float32Array] unchanged, a binary64 one is rounded. *)
Definition parsePositions (filename : string) (data : list byte) : result (list float) :=
  let parts := Str.split_on "."%char (basename filename) in
  let dtype := Str.toLowerASCII (List.last parts EmptyString) in
  if String.eqb dtype "float16" then
    typed_array data 2 (fun o => option_map float16ToFloat32 (getUint16 data o true))
  else if String.eqb dtype "float32" then
    typed_array data 4 (fun o => getFloat32 data o true)
  else if String.eqb dtype "float64" then
    typed_array data 8 (fun o => option_map fround (getFloat64 data o true))
  else Err (UnsupportedPositionsType dtype).

(** [parseOffsets]; the four element types all give integers. *)
Definition parseOffsets (filename : string) (data : list byte) : result (list Z) :=
  let dtype := Str.toLowerASCII
                 (List.last (Str.split_on "."%char (basename filename)) EmptyString) in
  if String.eqb dtype "uint64" then typed_array data 8 (fun o => getBigUint64 data o true)
  else if String.eqb dtype "int64" then typed_array data 8 (fun o => getBigInt64 data o true)
  else if String.eqb dtype "uint32" then typed_array data 4 (fun o => getUint32 data o true)
  else if String.eqb dtype "int32" then typed_array data 4 (fun o => getInt32 data o true)
  else Err (UnsupportedOffsetsType dtype).

(** [Number(offsets[i])]: an index outside the array reads [undefined],
    whose number is [NaN].  The integer is kept exact: the conversion
    rounds a 64-bit offset of magnitude above 2^53 to a double, and the
    statements that depend on the value are about safe integers. *)
Definition offset_at (offsets : list Z) (i : nat) : jsnum :=
  match nth_error offsets i with
  | Some v => Num.of_Z v
  | None => Num.NaN
  end.

(** The body of the [for] loop of [buildStreamlines] at index [i]: the
    streamline pushed, or [None] on [continue].  The arithmetic is exact,
    as the doubles are on safe integers; for positions that do not hold
    a whole number of vertices [positions.length / 3] is a rounded
    double, and the quotient here is the rational it approximates. *)
Definition build_one (positions : list float) (offsets : list Z) (i : nat)
  : option Streamline :=
  let totalVertices := Num.div (Num.of_nat (length positions)) (Num.of_Z 3) in
  let startOffset := offset_at offsets i in
  let endOffset :=
    if (i + 1 <? length offsets)%nat then offset_at offsets (i + 1)
    else totalVertices in
  let numPoints := Num.sub endOffset startOffset in
  if Num.ltb numPoints (Num.of_Z 2) then None
  else
    let startIdx := Num.mul startOffset (Num.of_Z 3) in
    let endIdx := Num.mul endOffset (Num.of_Z 3) in
    Some {| points := js_slice positions startIdx endIdx;
            numPoints := numPoints;
            scalars := None;
            properties := None |}.

(** [for (let i = 0; i < nbStreamlines; i++)], with [n] passes left *)
Fixpoint build_loop (positions : list float) (offsets : list Z) (i : nat) (n : nat)
         (streamlines : list Streamline) : list Streamline :=
  match n with
  | O => streamlines
  | S n' =>
      build_loop positions offsets (S i) n'
        (match build_one positions offsets i with
         | Some s => streamlines ++ [s]
         | None => streamlines
         end)
  end.

(** [buildStreamlines], for a count the loop counter can reach. *)
Definition buildStreamlines (positions : list float) (offsets : list Z) (nbStreamlines : Z)
  : list Streamline :=
  build_loop positions offsets 0 (Z.to_nat nbStreamlines) [].

(** [extractVoxelSize]: the norms of the first three columns over rows
    0 to 2.  The matrix has passed [validateTrxHeader], so the result is
    never [null]. *)
Definition entry (matrix : list (list float)) (r c : nat) : float :=
  nth c (nth r matrix []) nan.

Definition column_norm (matrix : list (list float)) (c : nat) : float :=
  PrimFloat.sqrt (Post.pow2 (entry matrix 0 c) + Post.pow2 (entry matrix 1 c)
                  + Post.pow2 (entry matrix 2 c))%float.

Definition extractVoxelSize (matrix : list (list float)) : triple float :=
  (column_norm matrix 0, column_norm matrix 1, column_norm matrix 2).

Definition find_entry (p : string -> bool) (entries : list ZipEntry) : option ZipEntry :=
  find (fun e => p (name e)) entries.

(** [parseTrxFile].  Above 2^53 streamlines the counter [i] of
    [buildStreamlines] stops growing and the call does not return. *)
Definition parseTrxFile (buf : list byte) : result Unified.TractographyData :=
  if byteLength buf >? MAX_FILE_SIZE then Err FileTooLarge
  else
    do entries <- parseZipEntries buf;
    match find_entry (fun n => String.eqb n "header.json"
                               || Str.endsWith n "/header.json") entries with
    | None => Err MissingHeaderJson
    | Some headerEntry =>
        match JSON_parse (decode_utf8 (data headerEntry)) with
        | None => Err JsonSyntaxError
        | Some obj =>
            do trxHeader <- validateTrxHeader obj;
            match find_entry (fun n => startsWith n "positions."
                                       || Str.includes n "/positions.") entries with
            | None => Err MissingPositions
            | Some positionsEntry =>
                match find_entry (fun n => startsWith n "offsets."
                                           || Str.includes n "/offsets.") entries with
                | None => Err MissingOffsets
                | Some offsetsEntry =>
                    do positions <- parsePositions (name positionsEntry)
                                                   (data positionsEntry);
                    do offsets <- parseOffsets (name offsetsEntry) (data offsetsEntry);
                    if NB_STREAMLINES trxHeader >? 2 ^ 53 then Err NeverReturns
                    else
                      let streamlines :=
                        buildStreamlines positions offsets (NB_STREAMLINES trxHeader) in
                      Ok {| Unified.header :=
                              {| Unified.format := trx;
                                 Unified.dim := DIMENSIONS trxHeader;
                                 Unified.voxelSize :=
                                   extractVoxelSize (VOXEL_TO_RASMM trxHeader);
                                 Unified.nCount := length streamlines;
                                 Unified.version := 1;
                                 Unified.metadata :=
                                   Unified.TrxMetadata (NB_VERTICES trxHeader)
                                                       (VOXEL_TO_RASMM trxHeader) |};
                            Unified.streamlines := streamlines |}
                end
            end
        end
    end.
End External.

End Trx.

(** ** Test vectors *)

Module Samples.

Definition byte_of (z : Z) : byte :=
  match Byte.of_N (Z.to_N z) with Some b => b | None => x00 end.

(** The [n] bytes of [w], least significant first. *)
Definition le (n : nat) (w : Z) : list byte :=
  map (fun k => byte_of (Z.land (Z.shiftr w (8 * Z.of_nat k)) 255)) (seq 0 n).

Definition zeros (n : nat) : list byte := repeat x00 n.

Definition text (s : string) : list byte := list_byte_of_string s.

(** The binary32 patterns of 0, 1, 2, 4, 6, a quiet NaN and +infinity. *)
Definition f32_0 : list byte := le 4 0.
Definition f32_1 : list byte := le 4 0x3f800000.
Definition f32_2 : list byte := le 4 0x40000000.
Definition f32_4 : list byte := le 4 0x40800000.
Definition f32_6 : list byte := le 4 0x40c00000.
Definition f32_nan : list byte := le 4 0x7fc00000.
Definition f32_inf : list byte := le 4 0x7f800000.

Definition triplet (a : list byte) : list byte := a ++ a ++ a.

(** A 1000-byte TRK header: magic, dimensions 1x1x1, unit voxels, the
    given scalar, property and streamline counts and header size, version
    2, every other field zero. *)
Definition trk_header (nScalars nProperties nCount hdrSize : Z) : list byte :=
  text "TRACK" ++ zeros 1 ++ le 2 1 ++ le 2 1 ++ le 2 1
  ++ f32_1 ++ f32_1 ++ f32_1 ++ zeros 12
  ++ le 2 nScalars ++ zeros 200 ++ le 2 nProperties ++ zeros 200
  ++ zeros 64 ++ zeros 444 ++ zeros 4 ++ zeros 4 ++ zeros 24 ++ zeros 2
  ++ zeros 3 ++ zeros 3 ++ le 4 nCount ++ le 4 2 ++ le 4 hdrSize.

(** A TRK record of [n] points, all (1, 1, 1), without scalars or
    properties. *)
Definition trk_record (n : nat) : list byte :=
  le 4 (Z.of_nat n) ++ concat (repeat (triplet f32_1) n).

(** One record of 3 points, declared count 1. *)
Definition trk_one_of_three : list byte := trk_header 0 0 1 1000 ++ trk_record 3.

(** Declared count 5, no record at all. *)
Definition trk_declares_five : list byte := trk_header 0 0 5 1000.

(** One record of a single point. *)
Definition trk_single_point : list byte := trk_header 0 0 1 1000 ++ trk_record 1.

(** Two good records, then a record whose count is 0, then a good one. *)
Definition trk_bad_count : list byte :=
  trk_header 0 0 0 1000 ++ trk_record 2 ++ trk_record 3 ++ le 4 0 ++ trk_record 2.

Definition trk_eleven_scalars : list byte := trk_header 11 0 1 1000 ++ trk_record 3.
Definition trk_short_header : list byte := trk_header 0 0 1 999 ++ trk_record 3.

Definition line (s : string) : list byte := text s ++ [byte_of 10].

(** TCK headers *)
Definition tck_header : list byte :=
  line "mrtrix tracks" ++ line "datatype: Float32LE" ++ line "count: 1" ++ line "END".
Definition tck_header_no_datatype : list byte :=
  line "mrtrix tracks" ++ line "count: 1" ++ line "END".

Definition two_points : list byte := triplet f32_1 ++ triplet f32_2.

(** Two points, the NaN separator, the infinity sentinel. *)
Definition tck_separated : list byte :=
  tck_header ++ two_points ++ triplet f32_nan ++ triplet f32_inf.
(** Two points and the infinity sentinel right after them. *)
Definition tck_sentinel_only : list byte :=
  tck_header ++ two_points ++ triplet f32_inf.
(** Two points and the end of the buffer. *)
Definition tck_unterminated : list byte := tck_header ++ two_points.
Definition tck_no_datatype : list byte :=
  tck_header_no_datatype ++ two_points ++ triplet f32_nan ++ triplet f32_inf.
Definition tck_no_marker : list byte := line "mrtrix tracks" ++ line "count: 1" ++ two_points.

(** A stored ZIP member. *)
Definition zip_member (name : string) (data : list byte) : list byte :=
  le 4 0x04034b50 ++ le 2 20 ++ le 2 0 ++ le 2 0 ++ le 4 0 ++ le 4 0
  ++ le 4 (Z.of_nat (length data)) ++ le 4 (Z.of_nat (length data))
  ++ le 2 (Z.of_nat (length (text name))) ++ le 2 0 ++ text name ++ data.

(** The header of the minimal archive: dimensions 1x1x1, two streamlines,
    four vertices, identity transform. *)
Definition identity : list (list float) :=
  [ [1; 0; 0; 0]; [0; 1; 0; 0]; [0; 0; 1; 0]; [0; 0; 0; 1] ]%float.

Definition trx_header_value : Trx.json :=
  Trx.JObject
    [ ("DIMENSIONS"%string, Trx.JArray [Trx.JNumber 1; Trx.JNumber 1; Trx.JNumber 1]);
      ("NB_STREAMLINES"%string, Trx.JNumber 2);
      ("NB_VERTICES"%string, Trx.JNumber 4);
      ("VOXEL_TO_RASMM"%string,
       Trx.JArray (map (fun row => Trx.JArray (map Trx.JNumber row)) identity)) ].

(** Stand-ins for the two library calls on the minimal archive: nothing
    is deflated, and the header text parses to [trx_header_value]. *)
Definition no_inflate (compressed : list byte) : option (list byte) := None.
Definition parse_minimal (text : string) : option Trx.json := Some trx_header_value.

Definition four_vertices : list byte := concat (repeat (triplet f32_1) 4).

Definition trx_minimal : list byte :=
  zip_member "header.json" (text "{}")
  ++ zip_member "positions.3.float32" four_vertices
  ++ zip_member "offsets.uint32" (le 4 0 ++ le 4 2)
  ++ le 4 0x02014b50 ++ zeros 4.

(** As [trx_minimal], with one offset for the two streamlines declared. *)
Definition trx_missing_offset : list byte :=
  zip_member "header.json" (text "{}")
  ++ zip_member "positions.3.float32" four_vertices
  ++ zip_member "offsets.uint32" (le 4 0)
  ++ le 4 0x02014b50 ++ zeros 4.

(** The header [parseHeader] reads from a TRK buffer (a blank one when
    the buffer is too short). *)
Definition blank_header : Trk.TrkHeader :=
  Trk.mkTrkHeader EmptyString (0, 0, 0) (nan, nan, nan) (nan, nan, nan)
                  0 [] 0 [] [] [] EmptyString EmptyString [] EmptyString
                  (0, 0, 0) (0, 0, 0) 0 0 0.

Definition parsed_header (buf : list byte) : Trk.TrkHeader :=
  match Trk.parseHeader buf with
  | Ok h => h
  | Err _ => blank_header
  end.

(** The integers [z], [z + 1], ..., [n] of them. *)
Fixpoint upto (n : nat) (z : Z) : list Z :=
  match n with
  | O => []
  | S n' => z :: upto n' (z + 1)
  end.

(** Ten thousand streamlines, each standing for its index. *)
Definition ten_thousand : list Z := upto (Z.to_nat 10000) 0.

(** The two points (0,0,0) and (2,4,6) as one streamline. *)
Definition diagonal : Streamline :=
  {| points := [0; 0; 0; 2; 4; 6]%float;
     numPoints := Num.of_Z 2;
     scalars := None;
     properties := None |}.

End Samples.

(** ** Predicates of the statements *)

(** Enough fuel for the passes a loop over the buffer has left from
    [offset], when every pass moves forward by at least one byte. *)
Definition enough (buf : list byte) (fuel : nat) (offset : Z) : Prop :=
  (1 <= fuel)%nat /\ (0 <= offset -> byteLength buf - offset < Z.of_nat fuel).

(** The bounds of the TRK header, what each validation error tells, and the
    point count of a TRK record. *)
Module TrkSpec.
Import DataView Trk.

Definition dimension_ok (d : Z) : Prop := 0 <= d <= 65535.
Definition voxel_ok (v : float) : Prop := isFinite v = true /\ (v <? 0)%float = false.
Definition count_ok (n : Z) : Prop := 0 <= n <= 10.

(** The bounds of the TRK header. *)
Definition within_bounds (h : TrkHeader) : Prop :=
  count_ok (nScalars h) /\ count_ok (nProperties h)
  /\ Forall dimension_ok (triple_list (dim h))
  /\ Forall voxel_ok (triple_list (voxelSize h))
  /\ hdrSize h = 1000.

(** What each error of [validateTrkHeader] says about the header. *)
Definition explains (h : TrkHeader) (e : error) : Prop :=
  match e with
  | BadNScalars v => v = nScalars h /\ ~ count_ok v
  | BadNProperties v => v = nProperties h /\ ~ count_ok v
  | BadDimension i v =>
      nth_error (triple_list (dim h)) i = Some v /\ ~ dimension_ok v
  | BadVoxelSize i v =>
      nth_error (triple_list (voxelSize h)) i = Some v /\ ~ voxel_ok v
  | BadHdrSize v => v = hdrSize h /\ v <> 1000
  | _ => False
  end.

(** The point count of a TRK streamline: the count of its record. *)
Definition record_count (s : Streamline) : Prop :=
  exists n, numPoints s = Num.of_Z n
            /\ 1 <= n <= 100000
            /\ Z.of_nat (length (points s)) = 3 * n.

End TrkSpec.

(** The streamlines and the states of the TCK body loop, the END marker as
    the search tests it and as the specification words it, and the keys of
    the header lines. *)
Module TckSpec.
Import DataView Tck.

(** A streamline of at least two points, with three floats a point. *)
Definition two_or_more (s : Streamline) : Prop :=
  exists n : nat, (2 <= n)%nat
                  /\ numPoints s = Num.of_nat n
                  /\ length (points s) = (3 * n)%nat.

(** The accumulator holds whole triplets. *)
Definition triplets (currentPoints : list float) : Prop :=
  exists k : nat, length currentPoints = (3 * k)%nat.

(** The invariant of the loop. *)
Definition invariant (currentPoints : list float) (streamlines : list Streamline) : Prop :=
  triplets currentPoints /\ Forall two_or_more streamlines.

(** The four configurations of [DATA_TYPES]. *)
Definition known (c : DataTypeConfig) : Prop :=
  exists le, c = mkConfig 4 le getFloat32 \/ c = mkConfig 8 le getFloat64.

(** The three components read at [offset]. *)
Definition triplet_at (buf : list byte) (c : DataTypeConfig) (offset : Z)
  : option (float * float * float) :=
  match reader c buf offset (littleEndian c),
        reader c buf (offset + bytesPerFloat c) (littleEndian c),
        reader c buf (offset + bytesPerFloat c * 2) (littleEndian c) with
  | Some x, Some y, Some z => Some (x, y, z)
  | _, _, _ => None
  end.

(** The three bytes END at [i] with LF or CR right after them, inside
    the buffer: what the search of [parseHeader] tests at index [i]. *)
Definition marker_at (buf : list byte) (i : nat) : bool :=
  holds (byte_at buf i) 69 && holds (byte_at buf (i + 1)) 78
  && holds (byte_at buf (i + 2)) 68
  && (Z.of_nat i + 3 <? byteLength buf)
  && (holds (byte_at buf (i + 3)) 10 || holds (byte_at buf (i + 3)) 13).

(** The end of the header for a marker at [i]: past the LF or CR, and
    past the LF of a CRLF. *)
Definition end_after (buf : list byte) (i : nat) : Z :=
  if holds (byte_at buf (i + 3)) 13 && holds (byte_at buf (i + 4)) 10
  then Z.of_nat i + 5
  else Z.of_nat i + 4.

(** The indices the search visits. *)
Definition searched (buf : list byte) (i : nat) : Prop :=
  Z.of_nat i < Z.min (byteLength buf) 10000 - 2.



(** The key of a header line: the text before the first colon, trimmed
    and lowercased; a line without a colon has none. *)
Definition key_of (line : string) : option string :=
  match Str.cut_at ":"%char line with
  | Some (before, _) => Some (Str.toLowerCase (Str.trim before))
  | None => None
  end.

(** No line of the header has the key [datatype]. *)
Definition no_datatype_key (buf : list byte) (headerEnd : Z) : Prop :=
  Forall (fun line => key_of line <> Some "datatype"%string) (header_lines buf headerEnd).

End TckSpec.

(** The streamline of one index of the TRX offsets. *)
Module TrxSpec.
Import Trx.

(** The streamline of index [i], as a list of none or one. *)
Definition emitted (positions : list float) (offsets : list Z) (i : nat)
  : list Streamline :=
  match build_one positions offsets i with
  | Some s => [s]
  | None => []
  end.

(** The end vertex of index [i]: [offsets[i+1]] if [i+1] is within the
    offsets array, else the total vertex count [positions.length / 3]. *)
Definition end_vertex (positions : list float) (offsets : list Z) (i : nat) : jsnum :=
  match nth_error offsets (S i) with
  | Some e => Num.of_Z e
  | None => Num.div (Num.of_nat (length positions)) (Num.of_Z 3)
  end.

(** A point count that is a number, and at least 2. *)
Definition at_least_two (s : Streamline) : Prop :=
  exists q : Q, numPoints s = Num.Num q /\ (2 <= q)%Q.

(** An integer that a double holds exactly, as [Number(offsets[i])] gives
    it back: 64-bit offsets beyond these are rounded by the conversion. *)
Definition safe_integer (v : Z) : Prop := - 2 ^ 53 < v < 2 ^ 53.

(** The end vertex of index [i] is the integer [e]: the next offset, or
    at the last offset the vertex count of positions that hold a whole
    number of vertices. *)
Definition end_is (positions : list float) (offsets : list Z) (i : nat) (e : Z) : Prop :=
  nth_error offsets (S i) = Some e
  \/ (nth_error offsets (S i) = None /\ Z.of_nat (length positions) = 3 * e).

End TrxSpec.

(** Rounded quotients, and the extrema of the coordinates of an axis. *)
Module PostSpec.
Import Post.

(** The quotient rounded up: [ceil_div a s] is [ceil (a / s)]. *)
Definition ceil_div (a s : nat) : nat := ((a + s - 1) / s)%nat.

(** The least of [xs] in the sense of [Math.min]: [NaN] as soon as one
    of them is [NaN]; otherwise below each of them, and one of them, or
    [+Infinity] when there is none. *)
Definition minimum_of (xs : list float) (m : float) : Prop :=
  if existsb is_nan xs then m = nan
  else (forall x, In x xs -> (m <=? x)%float = true)
       /\ (xs <> [] -> In m xs)
       /\ (xs = [] -> m = infinity).

(** The greatest of [xs] in the sense of [Math.max], [-Infinity] when
    there is none. *)
Definition maximum_of (xs : list float) (m : float) : Prop :=
  if existsb is_nan xs then m = nan
  else (forall x, In x xs -> (x <=? m)%float = true)
       /\ (xs <> [] -> In m xs)
       /\ (xs = [] -> m = neg_infinity).

(** The coordinate of axis [k] (0, 1 or 2) of every point the loop
    reads in [pts]; a component missing at the end of the array is
    [undefined], that is [NaN]. *)
Fixpoint axis (k : nat) (pts : list float) : list float :=
  match pts with
  | [] => []
  | [x] => [nth k [x; nan; nan] nan]
  | [x; y] => [nth k [x; y; nan] nan]
  | x :: y :: z :: rest => nth k [x; y; z] nan :: axis k rest
  end.

(** The coordinates of axis [k] over all the streamlines. *)
Definition coords (k : nat) (streamlines : list Streamline) : list float :=
  flat_map (fun s => axis k (points s)) streamlines.

(** The six running values as folds over the coordinates. *)
Definition folds (xs ys zs : list float) (b b' : Bounds) : Prop :=
  minX b' = fold_left Math_min xs (minX b)
  /\ minY b' = fold_left Math_min ys (minY b)
  /\ minZ b' = fold_left Math_min zs (minZ b)
  /\ maxX b' = fold_left Math_max xs (maxX b)
  /\ maxY b' = fold_left Math_max ys (maxY b)
  /\ maxZ b' = fold_left Math_max zs (maxZ b).

End PostSpec.
(** ** The format detectors

    [isTrkFile] ([trkParser.ts]), [isTckFile] ([tckParser.ts]) and
    [isTrxFile] ([trxParser.ts]): what each says of a buffer before any
    decoding. *)

Module Detect.
Import DataView.

(** [isTrkFile].  The body is inside a [try] whose [catch] returns
    [false]; the view of the first six bytes is the only statement that
    could raise. *)
Definition isTrkFile (buf : list byte) : bool :=
  if byteLength buf <? 6 then false
  else
    match bytes_at buf 0 6 with
    | Some bytes => startsWith (decode bytes) "TRACK"
    | None => false
    end.

(** [isTckFile], also inside a [try]: the first [Math.min(100,
    byteLength)] bytes, decoded and lowercased, are searched for the
    identifier. *)
Definition isTckFile (buf : list byte) : bool :=
  match bytes_at buf 0 (Z.to_nat (Z.min 100 (byteLength buf))) with
  | Some bytes => Str.includes (Str.toLowerCase (decode bytes)) "mrtrix tracks"
  | None => false
  end.

(** [isTrxFile] has no [try]: a read that raises would leave the call. *)
Definition isTrxFile (buf : list byte) : result bool :=
  if byteLength buf <? 4 then Ok false
  else
    do signature <- rd (getUint32 buf 0 true);
    Ok (signature =? 0x04034b50).

End Detect.

(** ** Predicates of the further statements *)

(** What a decoded TRK header and a decoded TRK streamline look like. *)
Module TrkShape.
Import Trk.

(** A name kept from a 20-byte slot: not empty, at most 20 characters,
    none of them NUL. *)
Definition name_ok (s : string) : Prop :=
  s <> EmptyString
  /\ (String.length s <= 20)%nat
  /\ Forall (fun c => code c <> 0) (Str.chars s).

(** A streamline of [n] points under header [h]: [3 n] coordinates, one
    array of [n] values for each scalar channel (or no [scalars] when the
    header has no channel), one value a property (or no [properties]). *)
Definition shaped (h : TrkHeader) (s : Streamline) : Prop :=
  exists n : Z,
    1 <= n <= 100000
    /\ numPoints s = Num.of_Z n
    /\ Z.of_nat (length (points s)) = 3 * n
    /\ match scalars s with
       | None => nScalars h = 0
       | Some chans =>
           0 < nScalars h
           /\ Z.of_nat (length chans) = nScalars h
           /\ Forall (fun chan => Z.of_nat (length chan) = n) chans
       end
    /\ match properties s with
       | None => nProperties h = 0
       | Some props => 0 < nProperties h /\ Z.of_nat (length props) = nProperties h
       end.

(** The bytes of the record a streamline was decoded from: the count,
    the points with their scalars, the properties. *)
Definition record_bytes (h : TrkHeader) (s : Streamline) : Z :=
  4 + Z.of_nat (length (points s)) / 3 * (4 * (3 + nScalars h)) + 4 * nProperties h.

Definition body_bytes (h : TrkHeader) (streamlines : list Streamline) : Z :=
  fold_right (fun s total => record_bytes h s + total) 0 streamlines.

End TrkShape.

(** The files of a TRX archive: element types and half-precision values. *)
Module TrxFiles.
Import DataView Trx.

(** For one 16-bit pattern: the conversion gives the value the pattern
    denotes in binary16, and storing that value in a [Float32Array]
    leaves it unchanged. *)
Definition half_ok (h : Z) : bool :=
  PrimFloat.Leibniz.eqb (float16ToFloat32 h) (float_of_bits 5 10 h)
  && PrimFloat.Leibniz.eqb (fround (float16ToFloat32 h)) (float16ToFloat32 h).

(** The element type [parsePositions] and [parseOffsets] read off a file
    name, lowered by its letters A to Z.  [toLowerCase] also lowers the
    capitals outside ASCII; none of them becomes a letter of the type
    names compared with, so the branch taken is the same, and for an
    ASCII token the two agree. *)
Definition dtype_of (filename : string) : string :=
  Str.toLowerASCII (List.last (Str.split_on "."%char (basename filename)) EmptyString).

(** The width in bytes of a positions element, and the value of the
    element at byte [o]. *)
Definition positions_width (dtype : string) : option Z :=
  if String.eqb dtype "float16" then Some 2
  else if String.eqb dtype "float32" then Some 4
  else if String.eqb dtype "float64" then Some 8
  else None.

Definition position_at (dtype : string) (data : list byte) (o : Z) : option float :=
  if String.eqb dtype "float16" then option_map (float_of_bits 5 10) (getUint16 data o true)
  else if String.eqb dtype "float32" then getFloat32 data o true
  else option_map fround (getFloat64 data o true).

(** The width of an offsets element and the interval of its values. *)
Definition offsets_width (dtype : string) : option Z :=
  if String.eqb dtype "uint64" then Some 8
  else if String.eqb dtype "int64" then Some 8
  else if String.eqb dtype "uint32" then Some 4
  else if String.eqb dtype "int32" then Some 4
  else None.

Definition offsets_range (dtype : string) : Z * Z :=
  if String.eqb dtype "uint64" then (0, 2 ^ 64)
  else if String.eqb dtype "int64" then (- 2 ^ 63, 2 ^ 63)
  else if String.eqb dtype "uint32" then (0, 2 ^ 32)
  else (- 2 ^ 31, 2 ^ 31).

Definition offset_value (dtype : string) (data : list byte) (o : Z) : option Z :=
  if String.eqb dtype "uint64" then getBigUint64 data o true
  else if String.eqb dtype "int64" then getBigInt64 data o true
  else if String.eqb dtype "uint32" then getUint32 data o true
  else getInt32 data o true.

(** The vertices of a streamline, flattened: at least two of them. *)
Definition chunk_ok (chunk : list float) : Prop :=
  exists n : Z, 2 <= n /\ Z.of_nat (length chunk) = 3 * n.

(** The offsets file of streamlines stored one after the other from
    vertex [start]: the index of the first vertex of each. *)
Fixpoint starts (start : Z) (chunks : list (list float)) : list Z :=
  match chunks with
  | [] => []
  | chunk :: rest => start :: starts (start + Z.of_nat (length chunk) / 3) rest
  end.

Definition streamline_of (chunk : list float) : Streamline :=
  {| points := chunk;
     numPoints := Num.of_Z (Z.of_nat (length chunk) / 3);
     scalars := None;
     properties := None |}.

(** A text without the character [c]. *)
Definition free_of (c : ascii) (s : string) : Prop :=
  Forall (fun d => d <> c) (Str.chars s).

(** A text of ASCII characters: [toLowerCase] changes its letters A to Z
    and nothing else, which is how the element type is lowered here. *)
Definition ascii_only (s : string) : Prop :=
  Forall (fun d => code d < 128) (Str.chars s).

(** The JSON text of a row of the matrix. *)
Definition row_json (row : list float) : json := JArray (map JNumber row).

(** The member [v] is a number, the non-negative integer [z]. *)
Definition count_json (v : option json) (z : Z) : Prop :=
  exists x, v = Some (JNumber x) /\ integer_of x = Some z /\ 0 <= z.

(** The object [obj] has the four members of a TRX header, well formed,
    and [h] holds their values. *)
Definition describes (obj : json) (h : TrxHeader) : Prop :=
  exists members,
    obj = JObject members
    /\ member members "VOXEL_TO_RASMM" = Some (JArray (map row_json (VOXEL_TO_RASMM h)))
    /\ length (VOXEL_TO_RASMM h) = 4%nat
    /\ Forall (fun row => length row = 4%nat) (VOXEL_TO_RASMM h)
    /\ (exists d0 d1 d2 x y z,
           member members "DIMENSIONS" = Some (JArray [d0; d1; d2])
           /\ count_json (Some d0) x /\ count_json (Some d1) y /\ count_json (Some d2) z
           /\ DIMENSIONS h = (x, y, z))
    /\ count_json (member members "NB_STREAMLINES") (NB_STREAMLINES h)
    /\ count_json (member members "NB_VERTICES") (NB_VERTICES h).

End TrxFiles.

(** The local file records of a ZIP archive, as the format lays them
    out: what [parseZipEntries] is to read back. *)
Module ZipSpec.
Import Trx.

(** One member: the fields of its local file header that the decoder
    does not look at are kept as raw bytes. *)
Record member : Type := mkMember {
  m_flags : list byte;    (* version needed and flags, 4 bytes *)
  m_method : Z;           (* the compression method *)
  m_stamp : list byte;    (* time, date and CRC-32, 8 bytes *)
  m_size : Z;             (* the uncompressed size *)
  m_name : list byte;
  m_extra : list byte;
  m_payload : list byte   (* the data as stored in the archive *)
}.

Definition local_record (m : member) : list byte :=
  Samples.le 4 0x04034b50 ++ m_flags m ++ Samples.le 2 (m_method m) ++ m_stamp m
  ++ Samples.le 4 (byteLength (m_payload m)) ++ Samples.le 4 (m_size m)
  ++ Samples.le 2 (byteLength (m_name m)) ++ Samples.le 2 (byteLength (m_extra m))
  ++ m_name m ++ m_extra m ++ m_payload m.

Definition well_formed (m : member) : Prop :=
  length (m_flags m) = 4%nat
  /\ length (m_stamp m) = 8%nat
  /\ 0 <= m_method m < 2 ^ 16
  /\ 0 <= m_size m < 2 ^ 32
  /\ byteLength (m_name m) < 2 ^ 16
  /\ byteLength (m_extra m) < 2 ^ 16
  /\ byteLength (m_payload m) < 2 ^ 32.

Definition archive (members : list member) : list byte :=
  concat (map local_record members).

(** What follows the last record does not start another one. *)
Definition ends_records (rest : list byte) : Prop :=
  (length rest <= 4)%nat \/ firstn 4 rest <> [x50; x4b; x03; x04].

Section Inflate.
Variable inflateRawSync : list byte -> option (list byte).

(** The entries a member stands for: itself when stored, its inflated
    data when deflated ([None] when inflating raises), nothing under
    any other method. *)
Definition entries_of (m : member) : option (list ZipEntry) :=
  let name := decode_utf8 (m_name m) in
  if m_method m =? 0 then Some [mkEntry name (m_payload m)]
  else if m_method m =? 8
  then option_map (fun data => [mkEntry name data]) (inflateRawSync (m_payload m))
  else Some [].

Fixpoint expected (members : list member) : option (list ZipEntry) :=
  match members with
  | [] => Some []
  | m :: rest =>
      match entries_of m, expected rest with
      | Some a, Some b => Some (a ++ b)
      | _, _ => None
      end
  end.
End Inflate.

End ZipSpec.

(** A TRX archive with float32 positions and uint32 offsets, as the
    format lays it out: what [parseTrxFile] is to read back. *)
Module TrxArchive.
Import Trx ZipSpec.

(** 32-bit words, little-endian, one after the other. *)
Definition words (ws : list Z) : list byte := concat (map (Samples.le 4) ws).

(** A streamline is given by the 32-bit patterns of its coordinates. *)
Definition coordinates (chunk : list Z) : list float :=
  map (DataView.float_of_bits 8 23) chunk.

Definition chunk_ok (chunk : list Z) : Prop :=
  Forall (fun w => 0 <= w < 2 ^ 32) chunk /\ TrxFiles.chunk_ok (coordinates chunk).

(** The three members: the header, the coordinates of the streamlines
    one after the other, and the index of the first vertex of each. *)
Definition laid_out (mh mp mo : member) (chunks : list (list Z)) : Prop :=
  m_method mh = 0 /\ m_name mh = Samples.text "header.json"
  /\ m_method mp = 0 /\ m_name mp = Samples.text "positions.3.float32"
  /\ m_payload mp = words (concat chunks)
  /\ m_method mo = 0 /\ m_name mo = Samples.text "offsets.uint32"
  /\ m_payload mo = words (TrxFiles.starts 0 (map coordinates chunks)).

(** The result for the header [h] and the streamlines [chunks]. *)
Definition decoded (h : TrxHeader) (chunks : list (list Z)) : Unified.TractographyData :=
  {| Unified.header :=
       {| Unified.format := trx;
          Unified.dim := DIMENSIONS h;
          Unified.voxelSize := extractVoxelSize (VOXEL_TO_RASMM h);
          Unified.nCount := length chunks;
          Unified.version := 1;
          Unified.metadata := Unified.TrxMetadata (NB_VERTICES h) (VOXEL_TO_RASMM h) |};
     Unified.streamlines := map TrxFiles.streamline_of (map coordinates chunks) |}.

End TrxArchive.

(** The body of a TRK file, as the format lays it out: what
    [parseTrkFile] is to read back. *)
Module TrkFiles.
Import Trk.

(** A value is given by its 32-bit pattern. *)
Definition value (w : Z) : float := DataView.float_of_bits 8 23 w.

Definition word_ok (w : Z) : Prop := 0 <= w < 2 ^ 32.

(** A record: for each point the patterns of its three coordinates and
    of its scalars, and the patterns of the properties. *)
Record track : Type := mkTrack {
  t_rows : list (list Z);
  t_props : list Z
}.

Definition track_bytes (t : track) : list byte :=
  Samples.le 4 (Z.of_nat (length (t_rows t)))
  ++ TrxArchive.words (concat (t_rows t)) ++ TrxArchive.words (t_props t).

Definition body (tracks : list track) : list byte := concat (map track_bytes tracks).

(** A record under header [h]: 1 to 100000 points, each with its three
    coordinates and [nScalars] scalars, and [nProperties] properties. *)
Definition row_ok (h : TrkHeader) (row : list Z) : Prop :=
  Z.of_nat (length row) = 3 + nScalars h /\ Forall word_ok row.

Definition track_ok (h : TrkHeader) (t : track) : Prop :=
  1 <= Z.of_nat (length (t_rows t)) <= 100000
  /\ Forall (row_ok h) (t_rows t)
  /\ Z.of_nat (length (t_props t)) = nProperties h
  /\ Forall word_ok (t_props t).

(** The streamline of a record: the coordinates of its points, one array
    a scalar channel, and the properties. *)
Definition decoded (h : TrkHeader) (t : track) : Streamline :=
  {| points := flat_map (fun row => map value (firstn 3 row)) (t_rows t);
     numPoints := Num.of_Z (Z.of_nat (length (t_rows t)));
     scalars :=
       if nScalars h >? 0
       then Some (map (fun c => map (fun row => value (nth (3 + c) row 0)) (t_rows t))
                      (seq 0 (Z.to_nat (nScalars h))))
       else None;
     properties := if nProperties h >? 0 then Some (map value (t_props t)) else None |}.

(** After the records the loop ends: the count the header declares is
    reached, or it is not and fewer than 4 bytes are left. *)
Definition ends_body (h : TrkHeader) (tracks : list track) (rest : list byte) : Prop :=
  (0 < nCount h /\ nCount h = Z.of_nat (length tracks))
  \/ ((nCount h <= 0 \/ Z.of_nat (length tracks) < nCount h) /\ (length rest < 4)%nat).

End TrkFiles.

(** The body of a TCK file in the default datatype, as the format lays
    it out: what the body loop is to read back. *)
Module TckFiles.

(** The configuration [DATA_TYPES] holds for Float32LE. *)
Definition c32 : Tck.DataTypeConfig := Tck.mkConfig 4 true DataView.getFloat32.

(** A coordinate is given by its 32-bit pattern. *)
Definition value (w : Z) : float := DataView.float_of_bits 8 23 w.

Definition point : Type := (Z * Z * Z)%type.

Definition point_bytes (p : point) : list byte :=
  let '(x, y, z) := p in Samples.le 4 x ++ Samples.le 4 y ++ Samples.le 4 z.

Definition point_values (p : point) : list float :=
  let '(x, y, z) := p in [value x; value y; value z].

(** A point a track can hold: a finite first coordinate, and no NaN. *)
Definition point_ok (p : point) : Prop :=
  let '(x, y, z) := p in
  (0 <= x < 2 ^ 32 /\ 0 <= y < 2 ^ 32 /\ 0 <= z < 2 ^ 32)
  /\ isFinite (value x) = true
  /\ isNaN (value y) = false
  /\ isNaN (value z) = false.

Definition track_ok (t : list point) : Prop :=
  Z.of_nat (length t) <= 100000 /\ Forall point_ok t.

(** The NaN triplet after each track, and the infinity triplet after
    the last one. *)
Definition separator : list byte := Samples.triplet Samples.f32_nan.
Definition terminator : list byte := Samples.triplet Samples.f32_inf.

Definition track_bytes (t : list point) : list byte :=
  concat (map point_bytes t) ++ separator.

Definition body (tracks : list (list point)) : list byte :=
  concat (map track_bytes tracks) ++ terminator.

Definition values (t : list point) : list float := flat_map point_values t.

(** The streamline of a track, and the tracks that give one. *)
Definition decoded (t : list point) : Streamline :=
  {| points := map DataView.fround (values t);
     numPoints := Num.of_nat (length t);
     scalars := None;
     properties := None |}.

Definition kept (tracks : list (list point)) : list (list point) :=
  filter (fun t => (2 <=? length t)%nat) tracks.

End TckFiles.

(** ** More test vectors *)

Module Vectors.

(** A TRK file with one scalar channel and one property: one record of
    two points, (1, 1, 1) with scalar 2 and (2, 2, 2) with scalar 4, and
    the property 6. *)
Definition trk_with_scalars : list byte :=
  Samples.trk_header 1 1 1 1000
  ++ Samples.le 4 2
  ++ Samples.triplet Samples.f32_1 ++ Samples.f32_2
  ++ Samples.triplet Samples.f32_2 ++ Samples.f32_4
  ++ Samples.f32_6.

(** The record of [trk_with_scalars], and a header of 1000 bytes that
    declares one scalar channel, one property and one streamline. *)
Definition trk_tracks : list TrkFiles.track :=
  [ TrkFiles.mkTrack [ [0x3f800000; 0x3f800000; 0x3f800000; 0x40000000];
                       [0x40000000; 0x40000000; 0x40000000; 0x40800000] ]
                     [0x40c00000] ].

Definition trk_header_bytes : list byte := Samples.trk_header 1 1 1 1000.

(** The offset and the streamline of the first pass of the TRK body
    loop (a blank streamline when the pass leaves the loop). *)
Definition first_pass (buf : list byte) : Z * Streamline :=
  match Trk.trk_pass buf (Samples.parsed_header buf) 1000 0 with
  | Ok (Trk.Next offset s) => (offset, s)
  | _ => (0, mkStreamline [] Num.NaN None None)
  end.

(** What [parseTrkFile] returns on a buffer it decodes (and an empty
    result otherwise). *)
Definition decoded_trk (buf : list byte) : Trk.TrkData :=
  match Trk.parseTrkFile buf with
  | Ok d => d
  | Err _ => Trk.mkTrkData Samples.blank_header []
  end.

(** A TRK header whose magic bytes come after a NUL byte. *)
Definition trk_nul_first : list byte :=
  x00 :: Samples.text "TRACK" ++ skipn 6 (Samples.trk_header 0 0 0 1000).

(** A TCK file whose identifier line starts past byte 100. *)
Definition tck_late_magic : list byte :=
  Samples.line (string_of_list_byte (repeat x78 100))
  ++ Samples.line "mrtrix tracks" ++ Samples.line "END" ++ Samples.two_points.

(** A TCK file with the identifier inside a longer first line. *)
Definition tck_embedded_magic : list byte :=
  Samples.line "xmrtrix tracks" ++ Samples.line "END" ++ Samples.two_points.

(** A TCK file whose datatype is a name every object inherits. *)
Definition tck_inherited_datatype : list byte :=
  Samples.line "mrtrix tracks" ++ Samples.line "datatype: toString"
  ++ Samples.line "END" ++ Samples.two_points.

(** A TCK file whose header sends the decoder before the buffer. *)
Definition tck_negative_offset : list byte :=
  Samples.line "mrtrix tracks" ++ Samples.line "file: . -4"
  ++ Samples.line "END" ++ Samples.two_points.

(** Two tracks of a TCK body: the points (1, 1, 1) and (2, 2, 2), and a
    single point, too short to give a streamline. *)
Definition two_tracks : list (list TckFiles.point) :=
  [ [ (0x3f800000, 0x3f800000, 0x3f800000); (0x40000000, 0x40000000, 0x40000000) ];
    [ (0x40800000, 0x40800000, 0x40800000) ] ].

(** A stored member and a member under a method that is skipped. *)
Definition two_members : list ZipSpec.member :=
  [ ZipSpec.mkMember (Samples.le 4 20) 0 (Samples.zeros 8) 2
                     (Samples.text "header.json") [] (Samples.text "{}");
    ZipSpec.mkMember (Samples.le 4 20) 12 (Samples.zeros 8) 9
                     (Samples.text "notes.bz2") (Samples.zeros 4) (Samples.zeros 5) ].

(** The start of a central directory. *)
Definition central_directory : list byte := Samples.le 4 0x02014b50 ++ Samples.zeros 42.

(** Two streamlines of two and three vertices. *)
Definition two_chunks : list (list float) :=
  [ [1; 1; 1; 2; 2; 2]; [0; 0; 0; 1; 1; 1; 2; 2; 2] ]%float.

(** The members of a TRX archive of two streamlines, of two and three
    vertices, and the header [validateTrxHeader] makes of the header
    value of the minimal archive. *)
Definition trx_chunks : list (list Z) :=
  [ repeat 0x3f800000 6; repeat 0x40000000 9 ].

Definition stored (name : string) (payload : list byte) : ZipSpec.member :=
  ZipSpec.mkMember (Samples.le 4 20) 0 (Samples.zeros 8) (byteLength payload)
                   (Samples.text name) [] payload.

Definition trx_header_member : ZipSpec.member := stored "header.json" (Samples.text "{}").
Definition trx_positions_member : ZipSpec.member :=
  stored "positions.3.float32" (TrxArchive.words (concat trx_chunks)).
Definition trx_offsets_member : ZipSpec.member :=
  stored "offsets.uint32"
         (TrxArchive.words (TrxFiles.starts 0 (map TrxArchive.coordinates trx_chunks))).

Definition trx_header_read : Trx.TrxHeader :=
  match Trx.validateTrxHeader Samples.trx_header_value with
  | Ok h => h
  | Err _ => Trx.mkTrxHeader [] (0, 0, 0) 0 0
  end.

(** The header [Tck.parseHeader] reads (a blank one when it raises). *)
Definition tck_header_of (buf : list byte) : Tck.TckHeader :=
  match Tck.parseHeader buf with
  | Ok h => h
  | Err _ => Tck.mkTckHeader EmptyString None None None None []
  end.

End Vectors.

(** * Properties *)

Local Open Scope Z_scope.

Ltac inv H := inversion H; subst; clear H.

(** Case analysis on the head test of the goal. *)
Ltac split_if :=
  match goal with
  | |- context [if ?b then _ else _] => destruct b eqn:?
  end.

Lemma bind_ok : forall (A B : Type) (r : result A) (k : A -> result B) (b : B),
  bind r k = Ok b -> exists a, r = Ok a /\ k a = Ok b.
Proof.
  intros A B [a | e] k b H; simpl in H; [eauto | discriminate].
Qed.

Lemma rd_ok : forall (A : Type) (o : option A) (a : A), rd o = Ok a -> o = Some a.
Proof.
  intros A [x |] a H; simpl in H; congruence.
Qed.

(** Peels the binds of a successful computation in hypothesis [H]. *)
Ltac ok_steps H :=
  repeat match type of H with
         | bind _ _ = Ok _ =>
             let a := fresh "a" in
             let Ha := fresh "Ha" in
             apply bind_ok in H; destruct H as (a & Ha & H)
         end.

(** ** [validateTrkHeader] *)

Module TrkHeaderFacts.
Import DataView Trk TrkSpec.

Lemma check_from_ok : forall (A : Type) (bad : A -> bool) mk (l : list A) i,
  check_from bad mk i l = Ok tt <-> Forall (fun v => bad v = false) l.
Proof.
  induction l as [| v l IH]; intros i; simpl.
  - split; auto.
  - destruct (bad v) eqn:E.
    + split; [discriminate | intros H; inv H; congruence].
    + rewrite IH. split; [auto | intros H; inv H; auto].
Qed.

Lemma check_from_err : forall (A : Type) (bad : A -> bool) mk (l : list A) i e,
  check_from bad mk i l = Err e ->
  exists j v, e = mk (i + j)%nat v /\ nth_error l j = Some v /\ bad v = true.
Proof.
  induction l as [| v l IH]; intros i e H; simpl in H; [discriminate |].
  destruct (bad v) eqn:E.
  - inv H. exists 0%nat, v. rewrite Nat.add_0_r. auto.
  - apply IH in H. destruct H as (j & w & -> & Hn & Hb).
    exists (S j), w. rewrite Nat.add_succ_r. auto.
Qed.

Lemma dimension_bad : forall v,
  (v <? 0) || (v >? 65535) = false <-> dimension_ok v.
Proof. intros v. unfold dimension_ok. rewrite orb_false_iff. lia. Qed.

Lemma count_bad : forall v,
  (v <? 0) || (v >? 10) = false <-> count_ok v.
Proof. intros v. unfold count_ok. rewrite orb_false_iff. lia. Qed.

Lemma voxel_bad : forall v,
  negb (isFinite v) || (v <? 0)%float = false <-> voxel_ok v.
Proof.
  intros v. unfold voxel_ok. rewrite orb_false_iff, negb_false_iff. tauto.
Qed.

Lemma Forall_iff : forall (A : Type) (P Q : A -> Prop) (l : list A),
  (forall a, P a <-> Q a) -> (Forall P l <-> Forall Q l).
Proof.
  intros A P Q l H. split; apply Forall_impl; intros a; apply H.
Qed.

Lemma validate_ok : forall h, validateTrkHeader h = Ok tt <-> within_bounds h.
Proof.
  intros h. unfold validateTrkHeader, within_bounds.
  destruct ((nScalars h <? 0) || (nScalars h >? 10)) eqn:E1.
  { split; [discriminate |]. intros (H & _). apply count_bad in H. congruence. }
  destruct ((nProperties h <? 0) || (nProperties h >? 10)) eqn:E2.
  { split; [discriminate |]. intros (_ & H & _). apply count_bad in H. congruence. }
  apply count_bad in E1. apply count_bad in E2.
  destruct (check_from _ BadDimension 0 (triple_list (dim h))) as [[] | e] eqn:E3; simpl.
  2: { split; [discriminate |]. intros (_ & _ & H & _).
       rewrite (Forall_iff _ _ _ (fun v => iff_sym (dimension_bad v))) in H.
       apply (check_from_ok _ BadDimension _ 0%nat) in H. congruence. }
  apply check_from_ok in E3. rewrite (Forall_iff _ _ _ dimension_bad) in E3.
  destruct (check_from _ BadVoxelSize 0 (triple_list (voxelSize h))) as [[] | e] eqn:E4; simpl.
  2: { split; [discriminate |]. intros (_ & _ & _ & H & _).
       rewrite (Forall_iff _ _ _ (fun v => iff_sym (voxel_bad v))) in H.
       apply (check_from_ok _ BadVoxelSize _ 0%nat) in H. congruence. }
  apply check_from_ok in E4. rewrite (Forall_iff _ _ _ voxel_bad) in E4.
  destruct (hdrSize h =? 1000) eqn:E5; simpl.
  - apply Z.eqb_eq in E5. tauto.
  - apply Z.eqb_neq in E5. split; [discriminate | tauto].
Qed.

Lemma validate_err : forall h e, validateTrkHeader h = Err e -> explains h e.
Proof.
  intros h e. unfold validateTrkHeader.
  destruct ((nScalars h <? 0) || (nScalars h >? 10)) eqn:E1.
  { intros H; inv H. simpl. split; [reflexivity |].
    intros C. apply count_bad in C. congruence. }
  destruct ((nProperties h <? 0) || (nProperties h >? 10)) eqn:E2.
  { intros H; inv H. simpl. split; [reflexivity |].
    intros C. apply count_bad in C. congruence. }
  destruct (check_from _ BadDimension 0 (triple_list (dim h))) as [[] | e1] eqn:E3; simpl.
  2: { intros H; inv H. apply check_from_err in E3.
       destruct E3 as (j & v & -> & Hn & Hb). simpl. split; [assumption |].
       intros C. apply dimension_bad in C. congruence. }
  destruct (check_from _ BadVoxelSize 0 (triple_list (voxelSize h))) as [[] | e1] eqn:E4; simpl.
  2: { intros H; inv H. apply check_from_err in E4.
       destruct E4 as (j & v & -> & Hn & Hb). simpl. split; [assumption |].
       intros C. apply voxel_bad in C. congruence. }
  destruct (hdrSize h =? 1000) eqn:E5; simpl; [discriminate |].
  intros H; inv H. simpl. apply Z.eqb_neq in E5. auto.
Qed.

(** The fields [parseHeader] reads are those of the buffer. *)
Lemma parseHeader_fields : forall buf h,
  parseHeader buf = Ok h ->
  getInt16 buf 36 true = Some (nScalars h)
  /\ getInt16 buf 238 true = Some (nProperties h)
  /\ getInt32 buf 988 true = Some (nCount h)
  /\ getInt32 buf 996 true = Some (hdrSize h).
Proof.
  intros buf h H. unfold parseHeader in H. ok_steps H. inv H. simpl.
  repeat match goal with X : rd _ = Ok _ |- _ => apply rd_ok in X end.
  auto.
Qed.

Lemma parseTrkFile_ok : forall buf d,
  parseTrkFile buf = Ok d ->
  parseHeader buf = Ok (header d)
  /\ startsWith (idString (header d)) "TRACK" = true
  /\ validateTrkHeader (header d) = Ok tt
  /\ parseStreamlines buf (header d) = Ok (streamlines d).
Proof.
  intros buf d H. unfold parseTrkFile in H.
  destruct (byteLength buf >? MAX_FILE_SIZE); [discriminate |].
  apply bind_ok in H. destruct H as (h & Hh & H).
  destruct (startsWith (idString h) "TRACK") eqn:Em; simpl in H; [| discriminate].
  apply bind_ok in H. destruct H as ([] & Hv & H).
  apply bind_ok in H. destruct H as (sl & Hs & H). inv H. simpl. auto.
Qed.

End TrkHeaderFacts.

(** C7.  [validateTrkHeader] accepts a header exactly when the scalar and
    property counts are in [0, 10], the three dimensions in [0, 65535], the
    three voxel sizes finite and not negative, and the header size 1000; an
    error it raises names the field that is out of bounds, with a different
    error for each; [parseTrkFile] returns only headers within the bounds,
    and fails on a header whose size is not 1000 or that declares 11
    scalars. *)
Theorem C7_validateTrkHeader_fails_closed : forall h : Trk.TrkHeader,
  (Trk.validateTrkHeader h = Ok tt <-> TrkSpec.within_bounds h)
  /\ (~ TrkSpec.within_bounds h ->
      exists e, Trk.validateTrkHeader h = Err e /\ TrkSpec.explains h e)
  /\ (forall e, Trk.validateTrkHeader h = Err e -> TrkSpec.explains h e)
  /\ (forall buf d, Trk.parseTrkFile buf = Ok d ->
        TrkSpec.within_bounds (Trk.header d))
  /\ (forall buf, Trk.parseHeader buf = Ok h ->
        Trk.hdrSize h <> 1000 \/ Trk.nScalars h = 11 ->
        exists e, Trk.parseTrkFile buf = Err e).
Proof.
  intros h. split; [apply TrkHeaderFacts.validate_ok |].
  split.
  { intros Hb. destruct (Trk.validateTrkHeader h) as [[] | e] eqn:E.
    - apply TrkHeaderFacts.validate_ok in E. contradiction.
    - exists e. split; [reflexivity | apply TrkHeaderFacts.validate_err; assumption]. }
  split; [apply TrkHeaderFacts.validate_err |].
  split.
  { intros buf d H. apply TrkHeaderFacts.parseTrkFile_ok in H.
    apply TrkHeaderFacts.validate_ok. tauto. }
  intros buf Hh Hbad.
  destruct (Trk.parseTrkFile buf) as [d | e] eqn:E; [| eauto].
  apply TrkHeaderFacts.parseTrkFile_ok in E. destruct E as (Hd & _ & Hv & _).
  rewrite Hh in Hd. inv Hd. apply TrkHeaderFacts.validate_ok in Hv.
  destruct Hv as (Hs & _ & _ & _ & Hz). unfold TrkSpec.count_ok in Hs. lia.
Qed.

(** The two headers of the test list are refused, each for its own field. *)
Example trk_bad_headers_refused :
  Trk.parseTrkFile Samples.trk_short_header = Err (BadHdrSize 999)
  /\ Trk.parseTrkFile Samples.trk_eleven_scalars = Err (BadNScalars 11).
Proof. split; vm_compute; reflexivity. Qed.

(** ** Arithmetic of [jsnum] on integers *)

Module NumFacts.
Import Num.

Lemma red_Z : forall z : Z, Qred (inject_Z z) = inject_Z z.
Proof.
  intros z. unfold Qred, inject_Z.
  generalize (Z.ggcd_gcd z 1) (Z.ggcd_correct_divisors z 1).
  destruct (Z.ggcd z 1) as (g, (a, b)). simpl.
  rewrite Z.gcd_1_r. intros -> (Ha, Hb).
  rewrite Z.mul_1_l in Ha, Hb. subst. reflexivity.
Qed.

Lemma red_eq : forall (x : Q) (z : Z), x == inject_Z z -> Qred x = inject_Z z.
Proof.
  intros x z H. rewrite (Qred_complete _ _ H). apply red_Z.
Qed.

Lemma add_Z : forall a b, add (of_Z a) (of_Z b) = of_Z (a + b).
Proof.
  intros a b. unfold add, of_Z. f_equal. apply red_eq.
  unfold Qeq. simpl. lia.
Qed.

Lemma opp_Z : forall a, opp (of_Z a) = of_Z (- a).
Proof.
  intros a. unfold opp, of_Z. f_equal. apply red_eq.
  unfold Qeq. simpl. lia.
Qed.

Lemma sub_Z : forall a b, sub (of_Z a) (of_Z b) = of_Z (a - b).
Proof.
  intros a b. unfold sub. rewrite opp_Z, add_Z. f_equal.
Qed.

Lemma mul_Z : forall a b, mul (of_Z a) (of_Z b) = of_Z (a * b).
Proof.
  intros a b. unfold mul, of_Z. f_equal. apply red_eq.
  unfold Qeq. simpl. lia.
Qed.

Lemma ltb_Z : forall a b, ltb (of_Z a) (of_Z b) = (a <? b).
Proof.
  intros a b. unfold ltb, of_Z, Qcompare, inject_Z. simpl.
  rewrite !Z.mul_1_r. unfold Z.ltb. reflexivity.
Qed.

Lemma min_nat : forall a b : nat, min (of_nat a) (of_nat b) = of_nat (Nat.min a b).
Proof.
  intros a b. unfold of_nat.
  change (min (of_Z (Z.of_nat a)) (of_Z (Z.of_nat b)))
    with (if ltb (of_Z (Z.of_nat b)) (of_Z (Z.of_nat a))
          then of_Z (Z.of_nat b) else of_Z (Z.of_nat a)).
  rewrite ltb_Z.
  destruct (Z.of_nat b <? Z.of_nat a) eqn:E.
  - apply Z.ltb_lt in E. rewrite Nat.min_r by lia. reflexivity.
  - apply Z.ltb_ge in E. rewrite Nat.min_l by lia. reflexivity.
Qed.

Lemma sgn_pos : forall z, 0 < z -> sgn (inject_Z z) = Gt.
Proof.
  intros z H. unfold sgn, Qcompare, inject_Z. simpl. rewrite Z.mul_1_r.
  apply Z.compare_gt_iff. assumption.
Qed.

Lemma sgn_zero : sgn (inject_Z 0) = Eq.
Proof. reflexivity. Qed.

(** A quotient that is an integer *)
Lemma div_exact : forall k d, 0 < d -> div (of_Z (d * k)) (of_Z d) = of_Z k.
Proof.
  intros k d Hd. unfold div, of_Z. rewrite (sgn_pos Hd). f_equal.
  apply red_eq. rewrite inject_Z_mult, Qmult_comm. apply Qdiv_mult_l.
  intros C. unfold Qeq in C. simpl in C. lia.
Qed.

(** [Math.ceil] of a quotient of an integer by a positive one *)
Lemma ceil_div : forall t d, 0 < d ->
  ceil (div (of_Z t) (of_Z d)) = of_Z (- ((- t) / d)).
Proof.
  intros t d Hd. unfold div, of_Z. rewrite (sgn_pos Hd).
  unfold ceil, of_Z. do 2 f_equal.
  assert (E : Qred (inject_Z t / inject_Z d) == t # Z.to_pos d).
  { rewrite Qred_correct, Qmake_Qdiv, Z2Pos.id by assumption. reflexivity. }
  assert (C : Qceiling (Qred (inject_Z t / inject_Z d)) = Qceiling (t # Z.to_pos d)).
  { apply Z.le_antisymm; apply Qceiling_resp_le; rewrite E; apply Qle_refl. }
  rewrite C. unfold Qceiling, Qfloor, Qopp. simpl Qnum. simpl Qden.
  rewrite Z2Pos.id by assumption. reflexivity.
Qed.

Lemma trunc_Z : forall z, Qtrunc (inject_Z z) = z.
Proof.
  intros z. unfold Qtrunc. simpl.
  destruct (z <? 0); [apply Qceiling_Z | apply Qfloor_Z].
Qed.

Lemma rel_index_Z : forall len z, 0 <= z <= len -> rel_index len (of_Z z) = z.
Proof.
  intros len z H. unfold rel_index, of_Z. rewrite trunc_Z.
  destruct (z <? 0) eqn:E; [apply Z.ltb_lt in E; lia | lia].
Qed.

(** The slice between two indices inside the array *)
Lemma slice_inside : forall (A : Type) (l : list A) (a b : Z),
  0 <= a <= b -> b <= Z.of_nat (length l) ->
  js_slice l (of_Z a) (of_Z b) = firstn (Z.to_nat (b - a)) (skipn (Z.to_nat a) l).
Proof.
  intros A l a b Ha Hb. unfold js_slice.
  rewrite !rel_index_Z by lia. reflexivity.
Qed.

End NumFacts.

(** Case analysis on a successful computation, one test at a time. *)
Ltac ok_cases H :=
  repeat first
    [ progress ok_steps H
    | match type of H with
      | (if ?b then _ else _) = Ok _ => destruct b eqn:?; try discriminate H
      | match ?x with _ => _ end = Ok _ => destruct x eqn:?; try discriminate H
      end ].

(** ** The header count of the three decoders *)

(** C1, as the code has it.  The unified header [parseTckFile] and
    [parseTrxFile] build carries the number of streamlines returned;
    [parseTrkFile] returns the header of the file as read, whose [nCount] is
    the 32-bit integer at byte 988. *)
Theorem C1_nCount_of_each_decoder :
  (forall buf r,
      Tck.parseTckFile buf = Ok r ->
      Unified.nCount (Unified.header r) = length (Unified.streamlines r))
  /\ (forall inflate parse buf r,
      Trx.parseTrxFile inflate parse buf = Ok r ->
      Unified.nCount (Unified.header r) = length (Unified.streamlines r))
  /\ (forall buf d,
      Trk.parseTrkFile buf = Ok d ->
      DataView.getInt32 buf 988 true = Some (Trk.nCount (Trk.header d))).
Proof.
  split; [| split].
  - intros buf r H. unfold Tck.parseTckFile in H. ok_cases H.
    inv H. reflexivity.
  - intros inflate parse buf r H. unfold Trx.parseTrxFile in H. ok_cases H.
    inv H. reflexivity.
  - intros buf d H. apply TrkHeaderFacts.parseTrkFile_ok in H.
    destruct H as (H & _). apply TrkHeaderFacts.parseHeader_fields in H. tauto.
Qed.

(** C1 as stated fails for TRK: a file that declares 5 streamlines and
    holds none decodes to a header with [nCount] 5 and no streamline. *)
Lemma C1_trk_keeps_declared_count :
  exists d, Trk.parseTrkFile Samples.trk_declares_five = Ok d
            /\ Trk.nCount (Trk.header d) = 5
            /\ length (Trk.streamlines d) = 0%nat.
Proof.
  eexists. split; [vm_compute; reflexivity | split; reflexivity].
Qed.

(** The three decoders on the minimal files of the test list. *)
Example decoders_on_minimal_files :
  (exists d, Trk.parseTrkFile Samples.trk_one_of_three = Ok d
             /\ map numPoints (Trk.streamlines d) = [Num.of_Z 3]
             /\ map (fun s => length (points s)) (Trk.streamlines d) = [9%nat])
  /\ (exists r, Tck.parseTckFile Samples.tck_separated = Ok r
                /\ Unified.nCount (Unified.header r) = 1%nat
                /\ map numPoints (Unified.streamlines r) = [Num.of_Z 2])
  /\ (exists r, Trx.parseTrxFile Samples.no_inflate Samples.parse_minimal
                  Samples.trx_minimal = Ok r
                /\ Unified.nCount (Unified.header r) = 2%nat
                /\ map numPoints (Unified.streamlines r) = [Num.of_Z 2; Num.of_Z 2]
                /\ Unified.voxelSize (Unified.header r) = (1, 1, 1)%float).
Proof.
  split; [| split]; eexists; (split; [vm_compute; reflexivity |]); repeat split.
Qed.

(** ** [buildStreamlines] *)

Module TrxFacts.
Import Trx TrxSpec.

Lemma build_loop_emitted : forall positions offsets n i acc,
  build_loop positions offsets i n acc
  = acc ++ flat_map (emitted positions offsets) (seq i n).
Proof.
  induction n as [| n IH]; intros i acc; simpl.
  - rewrite app_nil_r. reflexivity.
  - rewrite IH. unfold emitted at 2.
    destruct (build_one positions offsets i); simpl.
    + rewrite <- app_assoc. reflexivity.
    + reflexivity.
Qed.

Lemma end_offset : forall positions offsets i,
  (if (i + 1 <? length offsets)%nat then offset_at offsets (i + 1)
   else Num.div (Num.of_nat (length positions)) (Num.of_Z 3))
  = end_vertex positions offsets i.
Proof.
  intros positions offsets i. unfold end_vertex, offset_at.
  rewrite Nat.add_1_r.
  destruct (S i <? length offsets)%nat eqn:E.
  - apply Nat.ltb_lt in E. apply nth_error_Some in E.
    destruct (nth_error offsets (S i)); congruence.
  - apply Nat.ltb_ge in E. apply nth_error_None in E. rewrite E. reflexivity.
Qed.

Lemma build_one_unfold : forall positions offsets i start,
  nth_error offsets i = Some start ->
  build_one positions offsets i
  = let stop := end_vertex positions offsets i in
    let count := Num.sub stop (Num.of_Z start) in
    if Num.ltb count (Num.of_Z 2) then None
    else Some {| points := js_slice positions (Num.mul (Num.of_Z start) (Num.of_Z 3))
                                    (Num.mul stop (Num.of_Z 3));
                 numPoints := count;
                 scalars := None;
                 properties := None |}.
Proof.
  intros positions offsets i start H.
  assert (E : offset_at offsets i = Num.of_Z start).
  { unfold offset_at. rewrite H. reflexivity. }
  unfold build_one. rewrite end_offset, E. reflexivity.
Qed.

End TrxFacts.

(** The reconstruction rule at an index of the offsets array, for offsets
    that are safe integers.  With start vertex [offsets[i]] and end vertex
    [offsets[i+1]] (or, at the last offset, the vertex count of positions
    that hold a whole number of vertices): the streamline is skipped when
    [end - start < 2]; otherwise, for vertices inside the array, it is
    emitted with the [3 * (end - start)] floats from index [3 * start] on
    as points and [end - start] as point count. *)
Lemma trx_rule_within_the_offsets :
  forall (positions : list float) (offsets : list Z) (i : nat) (start e : Z),
    TrxSpec.safe_integer start ->
    TrxSpec.safe_integer e ->
    nth_error offsets i = Some start ->
    TrxSpec.end_is positions offsets i e ->
    (e - start < 2 -> TrxSpec.emitted positions offsets i = [])
    /\ (0 <= start -> start + 2 <= e -> 3 * e <= Z.of_nat (length positions) ->
        TrxSpec.emitted positions offsets i
        = [ {| points := firstn (Z.to_nat (3 * (e - start)))
                                (skipn (Z.to_nat (3 * start)) positions);
               numPoints := Num.of_Z (e - start);
               scalars := None;
               properties := None |} ]
        /\ Z.of_nat (length (firstn (Z.to_nat (3 * (e - start)))
                                    (skipn (Z.to_nat (3 * start)) positions)))
           = 3 * (e - start)).
Proof.
  intros positions offsets i start e _ _ Hi Hend.
  assert (Hstop : TrxSpec.end_vertex positions offsets i = Num.of_Z e).
  { unfold TrxSpec.end_vertex. destruct Hend as [-> | (-> & Hlen)]; [reflexivity |].
    unfold Num.of_nat. rewrite Hlen. apply NumFacts.div_exact. lia. }
  unfold TrxSpec.emitted. rewrite (TrxFacts.build_one_unfold positions _ _ Hi).
  cbv zeta. rewrite Hstop, NumFacts.sub_Z, NumFacts.ltb_Z.
  split.
  - intros Hlt. apply Z.ltb_lt in Hlt. rewrite Hlt. reflexivity.
  - intros H0 H2 Hlen.
    assert (Hge : (e - start <? 2) = false) by (apply Z.ltb_ge; lia).
    rewrite Hge, !NumFacts.mul_Z.
    rewrite NumFacts.slice_inside by lia.
    replace (e * 3 - start * 3) with (3 * (e - start)) by lia.
    replace (start * 3) with (3 * start) by lia.
    split; [reflexivity |].
    rewrite length_firstn, length_skipn. lia.
Qed.

(** C8.  [buildStreamlines] against the reconstruction rule.  The loop
    runs over every index of [0, NB_STREAMLINES), and [NB_STREAMLINES] is
    not compared with the number of offsets.  At an index past the offsets
    array [offsets[i]] is [undefined]: the start is [NaN], the point count
    [end - NaN] is [NaN], the test [NaN < 2] is false, and a streamline is
    pushed that has [NaN] for point count and, [slice] taking [NaN] for 0,
    every position for points.  So it is on the archive whose header
    declares two streamlines and whose offsets file holds the one offset 0,
    over four vertices: [parseTrxFile] returns two streamlines, that of
    index 0, which runs to the total vertex count as the rule says, and
    one more for index 1, which has no start vertex. *)
Theorem C8_index_past_the_offsets_is_emitted :
  (forall (positions : list float) (offsets : list Z) (nbStreamlines : Z),
      Trx.buildStreamlines positions offsets nbStreamlines
      = flat_map (TrxSpec.emitted positions offsets) (seq 0 (Z.to_nat nbStreamlines)))
  /\ (forall (positions : list float) (offsets : list Z) (i : nat) (total : Z),
        (length offsets <= i)%nat ->
        Z.of_nat (length positions) = 3 * total ->
        TrxSpec.emitted positions offsets i
        = [ {| points := positions;
               numPoints := Num.NaN;
               scalars := None;
               properties := None |} ])
  /\ Trx.parseTrxFile Samples.no_inflate Samples.parse_minimal Samples.trx_missing_offset
     = Ok {| Unified.header :=
               {| Unified.format := trx;
                  Unified.dim := (1, 1, 1);
                  Unified.voxelSize := (1, 1, 1)%float;
                  Unified.nCount := 2;
                  Unified.version := 1;
                  Unified.metadata := Unified.TrxMetadata 4 Samples.identity |};
             Unified.streamlines :=
               [ {| points := repeat 1%float 12;
                    numPoints := Num.of_Z 4;
                    scalars := None;
                    properties := None |};
                 {| points := repeat 1%float 12;
                    numPoints := Num.NaN;
                    scalars := None;
                    properties := None |} ] |}.
Proof.
  split; [| split].
  - intros positions offsets nb.
    unfold Trx.buildStreamlines. rewrite TrxFacts.build_loop_emitted. reflexivity.
  - intros positions offsets i total Hi Hlen.
    assert (Hnone : forall k, (i <= k)%nat -> nth_error offsets k = None).
    { intros k Hk. apply nth_error_None. lia. }
    unfold TrxSpec.emitted, Trx.build_one, Trx.offset_at.
    rewrite (Hnone i (le_n i)).
    destruct (i + 1 <? length offsets)%nat eqn:E; [apply Nat.ltb_lt in E; lia |].
    unfold Num.of_nat. rewrite Hlen.
    rewrite (NumFacts.div_exact total) by lia.
    change (Num.sub (Num.of_Z total) Num.NaN) with Num.NaN.
    change (Num.ltb Num.NaN (Num.of_Z 2)) with false. cbv iota.
    change (Num.mul Num.NaN (Num.of_Z 3)) with Num.NaN.
    rewrite NumFacts.mul_Z. unfold js_slice.
    change (Num.rel_index (Z.of_nat (length positions)) Num.NaN) with 0.
    rewrite NumFacts.rel_index_Z by lia.
    replace (total * 3 - 0) with (Z.of_nat (length positions)) by lia.
    rewrite Nat2Z.id. cbn [Z.to_nat skipn].
    rewrite firstn_all. reflexivity.
  - vm_compute. reflexivity.
Qed.

(** The minimal archive: offsets [0, 2] over four vertices give two
    streamlines of two points each. *)
Example buildStreamlines_minimal :
  map numPoints
      (Trx.buildStreamlines (repeat 1%float 12) [0; 2] 2) = [Num.of_Z 2; Num.of_Z 2]
  /\ map (fun s => length (points s))
         (Trx.buildStreamlines (repeat 1%float 12) [0; 2] 2) = [6%nat; 6%nat]
  /\ Trx.buildStreamlines (repeat 1%float 12) [0; 1; 2; 4] 4
     = [ {| points := repeat 1%float 6; numPoints := Num.of_Z 2;
            scalars := None; properties := None |} ].
Proof. repeat split; vm_compute; reflexivity. Qed.

(** ** [applySkipSampling] *)

Module SamplingFacts.
Import Post PostSpec.

Lemma ceil_div_step : forall a s : nat,
  (1 <= s)%nat -> (1 <= a)%nat -> ceil_div a s = S (ceil_div (a - s) s).
Proof.
  intros a s Hs Ha. unfold ceil_div.
  replace (a + s - 1)%nat with (a - 1 + 1 * s)%nat by lia.
  rewrite Nat.div_add by lia. rewrite Nat.add_1_r. f_equal.
  destruct (le_lt_dec s a) as [Hge | Hlt].
  - f_equal. lia.
  - replace (a - s)%nat with 0%nat by lia.
    rewrite !Nat.div_small by lia. reflexivity.
Qed.

Lemma ceil_div_zero : forall s : nat, (1 <= s)%nat -> ceil_div 0 s = 0%nat.
Proof.
  intros s Hs. unfold ceil_div. apply Nat.div_small. lia.
Qed.

(** What the loop pushes: the elements at [i], [i + step], ... as long as
    the index is inside the array and [maxCount] is not reached. *)
Lemma sample_loop_picks : forall (A : Type) (l : list A) maxCount step fuel i acc,
  (1 <= step)%nat -> (maxCount - length acc <= fuel)%nat ->
  exists rest,
    sample_loop fuel l maxCount step i acc = acc ++ rest
    /\ length rest = Nat.min (maxCount - length acc) (ceil_div (length l - i) step)
    /\ forall j, (j < length rest)%nat ->
                 nth_error rest j = nth_error l (i + j * step)
                 /\ (i + j * step < length l)%nat.
Proof.
  intros A l maxCount step. induction fuel as [| fuel IH]; intros i acc Hs Hf.
  - exists []. simpl. rewrite app_nil_r.
    replace (maxCount - length acc)%nat with 0%nat by lia.
    repeat split; simpl in *; lia.
  - simpl. destruct ((i <? length l)%nat && (length acc <? maxCount)%nat) eqn:E.
    + apply andb_true_iff in E. destruct E as (Ei & Ea).
      apply Nat.ltb_lt in Ei. apply Nat.ltb_lt in Ea.
      destruct (nth_error l i) as [s |] eqn:En.
      2: { apply nth_error_None in En. lia. }
      destruct (IH (i + step)%nat (acc ++ [s]) Hs) as (rest & Hr & Hl & Hn).
      { rewrite length_app. simpl. lia. }
      exists (s :: rest). split; [| split].
      * rewrite Hr, <- app_assoc. reflexivity.
      * simpl. rewrite Hl, length_app. simpl.
        rewrite (ceil_div_step (a := length l - i) Hs) by lia.
        replace (length l - (i + step))%nat with (length l - i - step)%nat by lia.
        lia.
      * intros j Hj. destruct j as [| j].
        { simpl. rewrite Nat.add_0_r. auto. }
        simpl in Hj. destruct (Hn j) as (H1 & H2); [lia |].
        replace (i + S j * step)%nat with (i + step + j * step)%nat by lia.
        simpl. auto.
    + exists []. rewrite app_nil_r. split; [reflexivity |]. split; [| simpl; lia].
      apply andb_false_iff in E. simpl.
      destruct E as [E | E].
      * apply Nat.ltb_ge in E.
        replace (length l - i)%nat with 0%nat by lia.
        rewrite ceil_div_zero by lia. lia.
      * apply Nat.ltb_ge in E. lia.
Qed.

Lemma sample_loop_nothing : forall (A : Type) (l : list A) maxCount step,
  Nat.min maxCount (length l) = 0%nat ->
  sample_loop maxCount l maxCount step 0 [] = [].
Proof.
  intros A l maxCount step H. destruct maxCount as [| m]; [reflexivity |].
  simpl. destruct l; [reflexivity | simpl in H; lia].
Qed.

Lemma ceil_quotient : forall t g : nat, (1 <= g)%nat ->
  - ((- Z.of_nat t) / Z.of_nat g) = Z.of_nat (ceil_div t g).
Proof.
  intros t g Hg. unfold ceil_div. rewrite Nat2Z.inj_div.
  replace (Z.of_nat (t + g - 1)) with (Z.of_nat t + Z.of_nat g - 1) by lia.
  set (a := Z.of_nat t). set (b := Z.of_nat g).
  assert (Hb : 0 < b) by (unfold b; lia).
  pose proof (Z.div_mod (- a) b ltac:(lia)) as H1.
  pose proof (Z.mod_pos_bound (- a) b Hb) as H2.
  pose proof (Z.div_mod (a + b - 1) b ltac:(lia)) as H3.
  pose proof (Z.mod_pos_bound (a + b - 1) b Hb) as H4.
  nia.
Qed.

Lemma first_elements : forall (A : Type) (l : list A) (maxCount : nat),
  js_slice l (Num.of_Z 0) (Num.min (Num.of_nat maxCount) (Num.of_nat (length l)))
  = firstn (Nat.min maxCount (length l)) l.
Proof.
  intros A l maxCount. rewrite NumFacts.min_nat. unfold Num.of_nat.
  rewrite NumFacts.slice_inside by lia. simpl.
  rewrite Z.sub_0_r, Nat2Z.id. reflexivity.
Qed.

End SamplingFacts.

(** C5.  With [total] streamlines and [target = min(maxCount, total)]:
    when [total <= skipThreshold] the result is the first [target]
    streamlines and skip factor 1.  Otherwise the skip factor is
    [ceil(total / target)] and the sample is made of the elements at indices
    0, skipFactor, 2 * skipFactor, ... taken until [maxCount] of them are
    collected or the input is exhausted (none when [target] is 0, where the
    quotient is not finite).  10000 streamlines with [maxCount] 1000 and
    threshold 5000 give skip factor 10 and the 1000 elements at indices
    0, 10, 20, ... *)
Theorem C5_applySkipSampling :
  forall (A : Type) (streamlines : list A) (maxCount : nat) (skipThreshold : Z),
    let total := length streamlines in
    let target := Nat.min maxCount total in
    let r := Post.applySkipSampling streamlines maxCount skipThreshold in
    Post.totalCount r = total
    /\ (Z.of_nat total <= skipThreshold ->
        Post.sampled r = firstn target streamlines /\ Post.skipFactor r = Num.of_Z 1)
    /\ (skipThreshold < Z.of_nat total ->
        Post.skipFactor r = Num.ceil (Num.div (Num.of_nat total) (Num.of_nat target))
        /\ (target = 0%nat -> Post.sampled r = [])
        /\ ((1 <= target)%nat ->
            let skip := PostSpec.ceil_div total target in
            let n := Nat.min maxCount (PostSpec.ceil_div total skip) in
            Post.skipFactor r = Num.of_nat skip
            /\ (1 <= skip)%nat
            /\ length (Post.sampled r) = n
            /\ forall k, (k < n)%nat ->
                         (k * skip < total)%nat
                         /\ nth_error (Post.sampled r) k = nth_error streamlines (k * skip)))
    /\ (let r := Post.applySkipSampling Samples.ten_thousand (Z.to_nat 1000) 5000 in
        Post.skipFactor r = Num.of_Z 10
        /\ Z.of_nat (length (Post.sampled r)) = 1000
        /\ Post.sampled r = map (fun k => 10 * k) (Samples.upto (Z.to_nat 1000) 0)).
Proof.
  intros A streamlines maxCount skipThreshold total target r.
  split; [| split; [| split]].
  - unfold r, Post.applySkipSampling. split_if; reflexivity.
  - intros Hle. unfold r, Post.applySkipSampling. fold total.
    apply Z.leb_le in Hle. rewrite Hle. cbn [Post.sampled Post.skipFactor].
    split; [apply SamplingFacts.first_elements | reflexivity].
  - intros Hlt. unfold r, Post.applySkipSampling. fold total.
    assert (E : (Z.of_nat total <=? skipThreshold) = false) by (apply Z.leb_gt; lia).
    rewrite E. cbn [Post.sampled Post.skipFactor].
    rewrite NumFacts.min_nat. fold target.
    split; [reflexivity |]. split.
    + intros H0. apply SamplingFacts.sample_loop_nothing. assumption.
    + intros H1.
      set (skip := PostSpec.ceil_div total target).
      set (n := Nat.min maxCount (PostSpec.ceil_div total skip)).
      assert (Hs : Num.ceil (Num.div (Num.of_nat total) (Num.of_nat target))
                   = Num.of_nat skip).
      { unfold Num.of_nat. rewrite NumFacts.ceil_div by lia.
        rewrite SamplingFacts.ceil_quotient by lia. reflexivity. }
      assert (Hskip : (1 <= skip)%nat).
      { unfold skip. rewrite (SamplingFacts.ceil_div_step (a := total)); lia. }
      rewrite Hs.
      assert (Hstep : Post.step_of (Num.of_nat skip) = skip).
      { unfold Post.step_of, Num.of_nat, Num.of_Z. rewrite Qfloor_Z. apply Nat2Z.id. }
      rewrite Hstep.
      destruct (SamplingFacts.sample_loop_picks streamlines maxCount
                  (fuel := maxCount) 0 [] Hskip) as (rest & Hr & Hl & Hn).
      { simpl. lia. }
      rewrite Hr. simpl. simpl in Hl. rewrite !Nat.sub_0_r in Hl.
      split; [reflexivity |]. split; [assumption |]. split; [exact Hl |].
      intros k Hk.
      assert (Hk' : (k < length rest)%nat) by (rewrite Hl; exact Hk).
      destruct (Hn k Hk') as (H2 & H3). simpl in H2, H3. auto.
  - assert (E : Post.applySkipSampling Samples.ten_thousand (Z.to_nat 1000) 5000
                = Post.mkSampling (map (fun k => 10 * k) (Samples.upto (Z.to_nat 1000) 0))
                                  (Num.of_Z 10) (Z.to_nat 10000))
      by (vm_compute; reflexivity).
    cbv zeta. rewrite E. cbn [Post.skipFactor Post.sampled].
    split; [reflexivity |]. split; [vm_compute |]; reflexivity.
Qed.

(** 100 streamlines below the threshold 5000 are returned unchanged. *)
Example applySkipSampling_below_threshold :
  Post.applySkipSampling (Samples.upto 100 0) (Z.to_nat 1000) 5000
  = Post.mkSampling (Samples.upto 100 0) (Num.of_Z 1) 100.
Proof. vm_compute. reflexivity. Qed.

(** ** The record loop of the TRK decoder *)

Module TrkLoopFacts.
Import DataView Trk TrkSpec.

Lemma bytes_at_ok : forall buf off n bs,
  bytes_at buf off n = Some bs ->
  0 <= off /\ off + Z.of_nat n <= byteLength buf.
Proof.
  intros buf off n bs H. unfold bytes_at in H. unfold byteLength.
  destruct (off <? 0) eqn:E1; [discriminate |].
  destruct (Z.of_nat (length buf) <? off + Z.of_nat n) eqn:E2; [discriminate |].
  apply Z.ltb_ge in E1. apply Z.ltb_ge in E2. lia.
Qed.

Lemma uint_at_ok : forall le buf off n v,
  uint_at le buf off n = Some v ->
  0 <= off /\ off + Z.of_nat n <= byteLength buf.
Proof.
  intros le buf off n v H. unfold uint_at in H.
  destruct (bytes_at buf off n) eqn:E; [| discriminate].
  eapply bytes_at_ok; eassumption.
Qed.

Lemma getInt32_ok : forall buf off le v,
  getInt32 buf off le = Some v -> 0 <= off /\ off + 4 <= byteLength buf.
Proof.
  intros buf off le v H. unfold getInt32 in H.
  destruct (uint_at le buf off 4) eqn:E; [| discriminate].
  apply uint_at_ok in E. simpl in E. lia.
Qed.

Lemma getFloat32_ok : forall buf off le v,
  getFloat32 buf off le = Some v -> 0 <= off /\ off + 4 <= byteLength buf.
Proof.
  intros buf off le v H. unfold getFloat32 in H.
  destruct (uint_at le buf off 4) eqn:E; [| discriminate].
  apply uint_at_ok in E. simpl in E. lia.
Qed.

(** A successful read of [n] floats: their number, and where they lie. *)
Lemma floats_at_ok : forall buf n off l,
  floats_at buf off n = Ok l ->
  length l = n
  /\ ((1 <= n)%nat -> 0 <= off /\ off + 4 * Z.of_nat n <= byteLength buf).
Proof.
  intros buf. induction n as [| n IH]; intros off l H; simpl in H.
  - inv H. split; [reflexivity | lia].
  - ok_steps H. inv H. apply rd_ok in Ha. apply getFloat32_ok in Ha.
    apply IH in Ha0. destruct Ha0 as (Hl & Hb). split; [simpl; lia |].
    intros _. destruct n as [| n]; [lia |].
    destruct Hb as (_ & Hb); lia.
Qed.

Lemma read_points_ok : forall buf nS n off pts rows off',
  read_points buf off nS n = Ok (pts, rows, off') ->
  length pts = (3 * n)%nat
  /\ off' = off + Z.of_nat n * (12 + 4 * Z.of_nat (Z.to_nat nS))
  /\ ((1 <= n)%nat -> 0 <= off /\ off' <= byteLength buf).
Proof.
  intros buf nS. induction n as [| n IH]; intros off pts rows off' H;
    cbn [read_points] in H.
  - inv H. repeat split; lia.
  - apply bind_ok in H. destruct H as (((xyz & row) & off1) & Hp & H).
    apply bind_ok in H. destruct H as (((pts' & rows') & off2) & Hr & H).
    injection H as <- <- <-.
    unfold read_point in Hp. ok_steps Hp.
    assert (E1 : a = xyz) by congruence.
    assert (E2 : a0 = row) by congruence.
    assert (E3 : off1 = off + 12 + 4 * Z.of_nat (Z.to_nat nS)) by congruence.
    clear Hp. subst a a0 off1.
    apply floats_at_ok in Ha. destruct Ha as (Hx & Hxb).
    apply floats_at_ok in Ha0. destruct Ha0 as (Hrow & Hrb).
    apply IH in Hr. destruct Hr as (Hl & Ho & Hb).
    split; [rewrite length_app; lia |].
    split; [rewrite Ho, Nat2Z.inj_succ; unfold Z.succ; ring |].
    intros _. destruct (Hxb ltac:(lia)) as (H0 & H12). split; [lia |].
    destruct n as [| n].
    + destruct (Z.to_nat nS) as [| k] eqn:Ek.
      * lia.
      * destruct (Hrb ltac:(lia)). lia.
    + destruct (Hb ltac:(lia)). lia.
Qed.

(** A pass that goes on has read a count in [1, 100000] at [offset],
    pushes a streamline with that many points, and moves forward inside
    the buffer. *)
Lemma pass_next : forall buf h offset count offset' s,
  trk_pass buf h offset count = Ok (Next offset' s) ->
  exists n,
    getInt32 buf offset true = Some n
    /\ 1 <= n <= 100000
    /\ numPoints s = Num.of_Z n
    /\ Z.of_nat (length (points s)) = 3 * n
    /\ offset < byteLength buf
    /\ below_max h count = true
    /\ offset + 4 + n * (4 * (3 + nScalars h)) + 4 * nProperties h <= byteLength buf
    /\ 0 <= offset /\ offset + 16 <= offset' <= byteLength buf.
Proof.
  intros buf h offset count offset' s H. unfold trk_pass in H.
  destruct ((offset <? byteLength buf) && below_max h count) eqn:E0; [| discriminate].
  apply andb_true_iff in E0. destruct E0 as (E0 & Eb). apply Z.ltb_lt in E0.
  destruct (offset + 4 >? byteLength buf) eqn:E1; [discriminate |].
  apply bind_ok in H. destruct H as (n & Hn & H). apply rd_ok in Hn.
  destruct ((n <=? 0) || (n >? 100000)) eqn:E2; [discriminate |].
  apply orb_false_iff in E2. destruct E2 as (E2 & E3).
  destruct (offset + 4 + (n * (4 * (3 + nScalars h)) + 4 * nProperties h)
            >? byteLength buf) eqn:E4; [discriminate |].
  apply bind_ok in H. destruct H as (((pts & rows) & off1) & Hr & H).
  apply bind_ok in H. destruct H as (props & Hp & H). inv H.
  apply read_points_ok in Hr. destruct Hr as (Hl & Ho & Hb).
  pose proof (getInt32_ok _ _ _ Hn) as (H0 & _).
  apply Z.leb_gt in E2. assert (E3' : n <= 100000) by lia.
  assert (E4' : offset + 4 + n * (4 * (3 + nScalars h)) + 4 * nProperties h
                <= byteLength buf) by lia.
  assert (Hn' : Z.of_nat (Z.to_nat n) = n) by lia. rewrite Hn' in Ho.
  assert (H12 : 12 <= n * (12 + 4 * Z.of_nat (Z.to_nat (nScalars h)))) by nia.
  destruct (Hb ltac:(lia)) as (_ & Hb').
  assert (Hend : offset + 16 <= (if nProperties h >? 0
                                 then off1 + 4 * Z.of_nat (Z.to_nat (nProperties h))
                                 else off1) <= byteLength buf).
  { destruct (nProperties h >? 0) eqn:Ep; [| lia].
    apply floats_at_ok in Hp. destruct Hp as (_ & Hp).
    assert (Hk : (1 <= Z.to_nat (nProperties h))%nat) by lia.
    destruct (Hp Hk). lia. }
  exists n. cbn [points numPoints].
  split; [assumption |]. split; [lia |]. split; [reflexivity |].
  split; [lia |]. split; [assumption |]. split; [assumption |].
  split; [assumption |]. split; [assumption |]. exact Hend.
Qed.

Lemma trk_loop_more_fuel : forall buf h fuel offset acc,
  enough buf fuel offset ->
  trk_loop (S fuel) buf h offset acc = trk_loop fuel buf h offset acc.
Proof.
  intros buf h. induction fuel as [| fuel IH]; intros offset acc (H1 & H2); [lia |].
  change (trk_loop (S (S fuel)) buf h offset acc)
    with (do p <- trk_pass buf h offset (length acc);
          match p with
          | Stop => Ok acc
          | Next offset' s => trk_loop (S fuel) buf h offset' (acc ++ [s])
          end).
  change (trk_loop (S fuel) buf h offset acc)
    with (do p <- trk_pass buf h offset (length acc);
          match p with
          | Stop => Ok acc
          | Next offset' s => trk_loop fuel buf h offset' (acc ++ [s])
          end).
  destruct (trk_pass buf h offset (length acc)) as [[| offset' s] | e] eqn:E;
    simpl; try reflexivity.
  apply pass_next in E. destruct E as (n & _ & _ & _ & _ & _ & _ & _ & H0 & Ho).
  apply IH. split; [| intros _]; specialize (H2 H0); lia.
Qed.

Lemma trk_loop_fuel : forall buf h offset acc fuel fuel',
  enough buf fuel offset -> (fuel <= fuel')%nat ->
  trk_loop fuel' buf h offset acc = trk_loop fuel buf h offset acc.
Proof.
  intros buf h offset acc fuel fuel' He Hle.
  induction Hle as [| m Hle IH]; [reflexivity |].
  rewrite trk_loop_more_fuel; [exact IH |].
  destruct He as (H1 & H2). split; [lia | intros H0; specialize (H2 H0); lia].
Qed.

Lemma parse_enough : forall buf offset, enough buf (S (length buf)) offset.
Proof.
  intros buf offset. split; [lia |]. unfold byteLength. lia.
Qed.

(** From any state the loop goes through, the loop ends as the whole
    call does. *)
Lemma trk_run_from : forall buf h offset acc,
  reaches buf h offset acc ->
  trk_loop (S (length buf)) buf h offset acc = parseStreamlines buf h.
Proof.
  intros buf h offset acc H. induction H as [| offset acc offset' s H IH Hp].
  - reflexivity.
  - rewrite <- IH.
    rewrite <- (trk_loop_more_fuel h acc (parse_enough buf offset)).
    change (trk_loop (S (S (length buf))) buf h offset acc)
      with (do p <- trk_pass buf h offset (length acc);
            match p with
            | Stop => Ok acc
            | Next offset' s => trk_loop (S (length buf)) buf h offset' (acc ++ [s])
            end).
    rewrite Hp. reflexivity.
Qed.

(** A pass that leaves the loop ends the call with what was pushed. *)
Lemma stop_returns : forall buf h offset acc,
  reaches buf h offset acc ->
  trk_pass buf h offset (length acc) = Ok Stop ->
  parseStreamlines buf h = Ok acc.
Proof.
  intros buf h offset acc H Hp. rewrite <- (trk_run_from H).
  simpl. rewrite Hp. reflexivity.
Qed.

(** With a header inside its bounds no read of the body fails. *)
Lemma floats_at_total : forall buf n off,
  0 <= off -> off + 4 * Z.of_nat n <= byteLength buf ->
  exists l, floats_at buf off n = Ok l.
Proof.
  intros buf. induction n as [| n IH]; intros off H0 Hb; simpl; [eauto |].
  unfold getFloat32, uint_at, bytes_at. fold (byteLength buf).
  destruct (off <? 0) eqn:E1; [apply Z.ltb_lt in E1; lia |].
  destruct (byteLength buf <? off + Z.of_nat 4) eqn:E2;
    [apply Z.ltb_lt in E2; simpl in E2; lia |].
  simpl. destruct (IH (off + 4)) as (l & ->); [lia | lia |]. simpl. eauto.
Qed.

Lemma read_points_total : forall buf nS n off,
  0 <= nS -> 0 <= off ->
  off + Z.of_nat n * (12 + 4 * nS) <= byteLength buf ->
  exists r, read_points buf off nS n = Ok r.
Proof.
  intros buf nS. induction n as [| n IH]; intros off HS H0 Hb;
    cbn [read_points]; [eauto |].
  unfold read_point.
  destruct (@floats_at_total buf 3 off) as (xyz & ->); [lia | nia |]. cbn [bind].
  destruct (@floats_at_total buf (Z.to_nat nS) (off + 12)) as (row & ->);
    [lia | nia |].
  cbn [bind].
  destruct (IH (off + 12 + 4 * Z.of_nat (Z.to_nat nS))) as (((pts & rows) & o) & ->);
    [lia | lia | nia |].
  cbn [bind]. eauto.
Qed.

Lemma getInt32_total : forall buf off,
  0 <= off -> off + 4 <= byteLength buf -> exists v, getInt32 buf off true = Some v.
Proof.
  intros buf off H0 Hb. unfold getInt32, uint_at, bytes_at. fold (byteLength buf).
  destruct (off <? 0) eqn:E1; [apply Z.ltb_lt in E1; lia |].
  destruct (byteLength buf <? off + Z.of_nat 4) eqn:E2;
    [apply Z.ltb_lt in E2; simpl in E2; lia |].
  simpl. eauto.
Qed.

Lemma pass_total : forall buf h offset count,
  0 <= nScalars h -> 0 <= nProperties h -> 0 <= offset ->
  exists p, trk_pass buf h offset count = Ok p.
Proof.
  intros buf h offset count HS HP H0. unfold trk_pass.
  destruct ((offset <? byteLength buf) && below_max h count); [| eauto].
  destruct (offset + 4 >? byteLength buf) eqn:E1; [eauto |].
  destruct (@getInt32_total buf offset) as (n & ->); [lia | lia |].
  cbn [rd bind].
  destruct ((n <=? 0) || (n >? 100000)) eqn:E2; [eauto |].
  apply orb_false_iff in E2. destruct E2 as (E2 & E3).
  destruct (offset + 4 + (n * (4 * (3 + nScalars h)) + 4 * nProperties h)
            >? byteLength buf) eqn:E4; [eauto |].
  destruct (@read_points_total buf (nScalars h) (Z.to_nat n) (offset + 4))
    as (((pts & rows) & o) & Hr); [lia | lia | nia |].
  rewrite Hr. cbn [bind]. apply read_points_ok in Hr. destruct Hr as (_ & Ho & _).
  destruct (nProperties h >? 0) eqn:Ep; cbn [bind]; [| eauto].
  destruct (@floats_at_total buf (Z.to_nat (nProperties h)) o) as (props & ->);
    [nia | nia |].
  cbn [bind]. eauto.
Qed.

Lemma loop_total : forall buf h fuel offset acc,
  0 <= nScalars h -> 0 <= nProperties h -> 0 <= offset ->
  exists r, trk_loop fuel buf h offset acc = Ok r.
Proof.
  intros buf h. induction fuel as [| fuel IH]; intros offset acc HS HP H0; simpl;
    [eauto |].
  destruct (@pass_total buf h offset (length acc) HS HP H0) as (p & Hp).
  rewrite Hp. simpl. destruct p as [| offset' s]; [eauto |].
  apply pass_next in Hp. destruct Hp as (n & _ & _ & _ & _ & _ & _ & _ & Hz & Ho).
  apply IH; try assumption. lia.
Qed.

(** Every streamline the loop pushes satisfies what [pass_next] says. *)
Lemma loop_invariant : forall (P : Streamline -> Prop) buf h,
  (forall offset count offset' s,
      trk_pass buf h offset count = Ok (Next offset' s) -> P s) ->
  forall fuel offset acc r,
    Forall P acc -> trk_loop fuel buf h offset acc = Ok r -> Forall P r.
Proof.
  intros P buf h HP. induction fuel as [| fuel IH]; intros offset acc r Ha H;
    simpl in H.
  - inv H. assumption.
  - apply bind_ok in H. destruct H as (p & Hp & H). destruct p as [| offset' s].
    + inv H. assumption.
    + eapply IH; [| eassumption]. apply Forall_app. split; [assumption |].
      constructor; [| constructor]. eapply HP. eassumption.
Qed.

Lemma parse_record_counts : forall buf h r,
  parseStreamlines buf h = Ok r -> Forall record_count r.
Proof.
  intros buf h r H. unfold parseStreamlines in H.
  eapply (loop_invariant (P := record_count)); [| constructor | eassumption].
  intros offset count offset' s Hp. apply pass_next in Hp.
  destruct Hp as (n & _ & Hn & Hc & Hl & _). exists n. auto.
Qed.

End TrkLoopFacts.

(** C4.  With a header that passes the magic test and the validation,
    [parseTrkFile] raises no error.  Whatever state the record loop has
    reached (the offset of the next record, the streamlines pushed so far),
    the call returns exactly the streamlines pushed so far when the 32-bit
    count read there is outside (0, 100000], when the positive declared
    count is reached, when the buffer has no room left for a count, or when
    it ends before the end of the record. *)
Theorem C4_trk_body_stops_and_returns_prefix :
  forall (buf : list byte) (h : Trk.TrkHeader),
    byteLength buf <= MAX_FILE_SIZE ->
    Trk.parseHeader buf = Ok h ->
    startsWith (Trk.idString h) "TRACK" = true ->
    Trk.validateTrkHeader h = Ok tt ->
    exists result,
      Trk.parseTrkFile buf = Ok (Trk.mkTrkData h result)
      /\ forall offset pushed,
          Trk.reaches buf h offset pushed ->
          (forall n, DataView.getInt32 buf offset true = Some n ->
                     n <= 0 \/ 100000 < n -> result = pushed)
          /\ (0 < Trk.nCount h <= Z.of_nat (length pushed) -> result = pushed)
          /\ (byteLength buf < offset + 4 -> result = pushed)
          /\ (forall n, DataView.getInt32 buf offset true = Some n ->
                        byteLength buf
                        < offset + 4 + n * (4 * (3 + Trk.nScalars h)) + 4 * Trk.nProperties h ->
                        result = pushed).
Proof.
  intros buf h Hsize Hh Hm Hv.
  apply TrkHeaderFacts.validate_ok in Hv as Hb.
  destruct Hb as (HS & HP & _ & _ & Hz).
  unfold TrkSpec.count_ok in HS, HP.
  destruct (@TrkLoopFacts.loop_total buf h (S (length buf)) (Trk.body_offset h) [])
    as (result & Hr); [lia | lia | unfold Trk.body_offset; rewrite Hz; simpl; lia |].
  fold (Trk.parseStreamlines buf h) in Hr.
  exists result. split.
  { unfold Trk.parseTrkFile.
    assert (E : (byteLength buf >? MAX_FILE_SIZE) = false) by lia.
    rewrite E, Hh. simpl. rewrite Hm. simpl. rewrite Hv. simpl. rewrite Hr.
    reflexivity. }
  intros offset pushed Hreach.
  assert (Hstop : Trk.trk_pass buf h offset (length pushed) = Ok Trk.Stop ->
                  result = pushed).
  { intros Hp. pose proof (TrkLoopFacts.stop_returns Hreach Hp) as H.
    rewrite Hr in H. congruence. }
  repeat split.
  - intros n Hn Hbad. apply Hstop. unfold Trk.trk_pass.
    destruct ((offset <? byteLength buf) && Trk.below_max h (length pushed));
      [| reflexivity].
    split_if; [reflexivity |]. rewrite Hn. cbn [rd bind].
    assert (E : (n <=? 0) || (n >? 100000) = true).
    { apply orb_true_iff. destruct Hbad; [left | right]; lia. }
    rewrite E. reflexivity.
  - intros Hc. apply Hstop. unfold Trk.trk_pass, Trk.below_max.
    assert (E1 : (Trk.nCount h >? 0) = true) by lia.
    assert (E2 : (Z.of_nat (length pushed) <? Trk.nCount h) = false) by lia.
    rewrite E1, E2, andb_false_r. reflexivity.
  - intros Hlen. apply Hstop. unfold Trk.trk_pass.
    destruct ((offset <? byteLength buf) && Trk.below_max h (length pushed));
      [| reflexivity].
    assert (E : (offset + 4 >? byteLength buf) = true) by lia.
    rewrite E. reflexivity.
  - intros n Hn Hlen. apply Hstop. unfold Trk.trk_pass.
    destruct ((offset <? byteLength buf) && Trk.below_max h (length pushed));
      [| reflexivity].
    split_if; [reflexivity |]. rewrite Hn. cbn [rd bind].
    split_if; [reflexivity |].
    assert (E : (offset + 4 + (n * (4 * (3 + Trk.nScalars h)) + 4 * Trk.nProperties h)
                 >? byteLength buf) = true) by lia.
    rewrite E. reflexivity.
Qed.

(** ** The triplet loop of the TCK decoder *)

Module TckLoopFacts.
Import DataView Tck TckSpec.

Lemma finalize_count : forall currentPoints k,
  length currentPoints = (3 * k)%nat ->
  numPoints (finalize currentPoints) = Num.of_nat k
  /\ length (points (finalize currentPoints)) = (3 * k)%nat.
Proof.
  intros cp k H. unfold finalize. cbn [numPoints points].
  rewrite length_map, H. split; [| reflexivity].
  unfold Num.of_nat. rewrite Nat2Z.inj_mul. apply NumFacts.div_exact. lia.
Qed.

Lemma flush_two_or_more : forall currentPoints streamlines,
  triplets currentPoints -> Forall two_or_more streamlines ->
  Forall two_or_more (flush currentPoints streamlines).
Proof.
  intros cp sl (k & Hk) Hs. unfold flush.
  destruct (6 <=? length cp)%nat eqn:E; [| assumption].
  apply Nat.leb_le in E. apply Forall_app. split; [assumption |].
  constructor; [| constructor].
  destruct (@finalize_count cp k Hk) as (Hn & Hl).
  exists k. split; [lia | auto].
Qed.

Lemma pass_keeps : forall buf c offset currentPoints streamlines p,
  tck_pass buf c offset currentPoints streamlines = Ok p ->
  invariant currentPoints streamlines ->
  match p with
  | Return result => Forall two_or_more result
  | Continue _ currentPoints' streamlines' => invariant currentPoints' streamlines'
  end.
Proof.
  intros buf c offset cp sl p H (Ht & Hs). unfold tck_pass in H.
  destruct (offset + bytesPerFloat c * 3 <=? byteLength buf).
  2: { inv H. apply flush_two_or_more; assumption. }
  ok_steps H.
  destruct (negb (isFinite a) && negb (isNaN a)).
  { inv H. repeat apply flush_two_or_more; assumption. }
  destruct (isNaN a || isNaN a0 || isNaN a1).
  { inv H. split; [exists 0%nat; reflexivity | apply flush_two_or_more; assumption]. }
  destruct (300000 <? Z.of_nat (length (cp ++ [a; a0; a1]))); [discriminate |].
  inv H. split; [| assumption].
  destruct Ht as (k & Hk). exists (S k). rewrite length_app, Hk. simpl. lia.
Qed.

Lemma loop_keeps : forall buf c fuel offset currentPoints streamlines result,
  tck_loop fuel buf c offset currentPoints streamlines = Ok result ->
  invariant currentPoints streamlines ->
  Forall two_or_more result.
Proof.
  intros buf c. induction fuel as [| fuel IH]; intros offset cp sl result H Hi;
    cbn [tck_loop] in H.
  - inv H. destruct Hi. apply flush_two_or_more; assumption.
  - apply bind_ok in H. destruct H as (p & Hp & H).
    pose proof (@pass_keeps _ _ _ _ _ _ Hp Hi) as Hk.
    destruct p as [r | offset' cp' sl'].
    + inv H. assumption.
    + eapply IH; eassumption.
Qed.

Lemma parse_two_or_more : forall buf h result,
  parseStreamlines buf h = Ok result -> Forall two_or_more result.
Proof.
  intros buf h result H. unfold parseStreamlines in H.
  destruct (DATA_TYPES (datatype h)); try discriminate.
  - destruct (fileOffset h); [| inv H; constructor].
    eapply loop_keeps; [eassumption |].
    split; [exists 0%nat; reflexivity | constructor].
  - inv H. constructor.
Qed.

Lemma DATA_TYPES_known : forall name c, DATA_TYPES name = Config c -> known c.
Proof.
  intros name c H. unfold DATA_TYPES in H.
  repeat match type of H with
         | (if ?b then _ else _) = _ => destruct b
         end; inv H;
    first [ exists true; auto; fail | exists false; auto ].
Qed.

Lemma known_read : forall c buf offset le v,
  known c -> reader c buf offset le = Some v ->
  0 <= offset /\ 4 <= bytesPerFloat c.
Proof.
  intros c buf offset le v (b & [-> | ->]) H; simpl in *.
  - apply TrkLoopFacts.getFloat32_ok in H. lia.
  - unfold getFloat64 in H. destruct (uint_at le buf offset 8) eqn:E; [| discriminate].
    apply TrkLoopFacts.uint_at_ok in E. lia.
Qed.

Lemma pass_forward : forall buf c offset cp sl offset' cp' sl',
  known c ->
  tck_pass buf c offset cp sl = Ok (Continue offset' cp' sl') ->
  0 <= offset /\ offset + 12 <= offset' <= byteLength buf.
Proof.
  intros buf c offset cp sl offset' cp' sl' Hc H. unfold tck_pass in H.
  destruct (offset + bytesPerFloat c * 3 <=? byteLength buf) eqn:E; [| discriminate].
  apply Z.leb_le in E. ok_steps H. apply rd_ok in Ha.
  destruct (@known_read _ _ _ _ _ Hc Ha) as (H0 & H4).
  destruct (negb (isFinite a) && negb (isNaN a)); [discriminate |].
  destruct (isNaN a || isNaN a0 || isNaN a1).
  { inv H. lia. }
  destruct (300000 <? Z.of_nat (length (cp ++ [a; a0; a1]))); [discriminate |].
  inv H. lia.
Qed.

Lemma tck_loop_more_fuel : forall buf c, known c ->
  forall fuel offset cp sl,
    enough buf fuel offset ->
    tck_loop (S fuel) buf c offset cp sl = tck_loop fuel buf c offset cp sl.
Proof.
  intros buf c Hc. induction fuel as [| fuel IH]; intros offset cp sl (H1 & H2);
    [lia |].
  change (tck_loop (S (S fuel)) buf c offset cp sl)
    with (do p <- tck_pass buf c offset cp sl;
          match p with
          | Return result => Ok result
          | Continue offset' cp' sl' => tck_loop (S fuel) buf c offset' cp' sl'
          end).
  change (tck_loop (S fuel) buf c offset cp sl)
    with (do p <- tck_pass buf c offset cp sl;
          match p with
          | Return result => Ok result
          | Continue offset' cp' sl' => tck_loop fuel buf c offset' cp' sl'
          end).
  destruct (tck_pass buf c offset cp sl) as [[r | offset' cp' sl'] | e] eqn:E;
    cbn [bind]; try reflexivity.
  apply (@pass_forward _ _ _ _ _ _ _ _ Hc) in E. destruct E as (H0 & Ho).
  apply IH. split; [| intros _]; specialize (H2 H0); lia.
Qed.

(** From any state the loop goes through, the loop ends as it does from
    the start. *)
Lemma tck_run_from : forall buf c offset0 offset cp sl,
  known c ->
  reaches buf c offset0 offset cp sl ->
  tck_loop (S (length buf)) buf c offset cp sl
  = tck_loop (S (length buf)) buf c offset0 [] [].
Proof.
  intros buf c offset0 offset cp sl Hc H.
  induction H as [| offset cp sl offset' cp' sl' H IH Hp]; [reflexivity |].
  rewrite <- IH.
  assert (He : enough buf (S (length buf)) offset).
  { split; [lia |]. unfold byteLength. lia. }
  rewrite <- (@tck_loop_more_fuel buf c Hc _ _ cp sl He).
  change (tck_loop (S (S (length buf))) buf c offset cp sl)
    with (do p <- tck_pass buf c offset cp sl;
          match p with
          | Return result => Ok result
          | Continue offset' cp' sl' => tck_loop (S (length buf)) buf c offset' cp' sl'
          end).
  rewrite Hp. reflexivity.
Qed.

(** The pass at a triplet [(x, y, z)] that fits in the buffer. *)
Lemma pass_at_triplet : forall buf c offset cp sl x y z,
  offset + bytesPerFloat c * 3 <= byteLength buf ->
  triplet_at buf c offset = Some (x, y, z) ->
  tck_pass buf c offset cp sl
  = if negb (isFinite x) && negb (isNaN x)
    then Ok (Return (flush cp (flush cp sl)))
    else if isNaN x || isNaN y || isNaN z
    then Ok (Continue (offset + bytesPerFloat c * 3) [] (flush cp sl))
    else if 300000 <? Z.of_nat (length (cp ++ [x; y; z]))
    then Err StreamlineTooLong
    else Ok (Continue (offset + bytesPerFloat c * 3) (cp ++ [x; y; z]) sl).
Proof.
  intros buf c offset cp sl x y z Hfit Ht. unfold tck_pass.
  apply Z.leb_le in Hfit. rewrite Hfit. unfold triplet_at in Ht.
  destruct (reader c buf offset (littleEndian c)); [| discriminate].
  destruct (reader c buf (offset + bytesPerFloat c) (littleEndian c)); [| discriminate].
  destruct (reader c buf (offset + bytesPerFloat c * 2) (littleEndian c));
    [| discriminate].
  inv Ht. reflexivity.
Qed.

Lemma pass_at_end : forall buf c offset cp sl,
  byteLength buf < offset + bytesPerFloat c * 3 ->
  tck_pass buf c offset cp sl = Ok (Return (flush cp sl)).
Proof.
  intros buf c offset cp sl H. unfold tck_pass.
  apply Z.leb_gt in H. rewrite H. reflexivity.
Qed.

Lemma flush_twice : forall cp sl,
  (6 <= length cp)%nat ->
  flush cp (flush cp sl) = sl ++ [finalize cp; finalize cp].
Proof.
  intros cp sl H. unfold flush. apply Nat.leb_le in H. rewrite H.
  rewrite <- app_assoc. reflexivity.
Qed.

(** The call from a state of the loop, in the four cases of a pass. *)
Lemma run_cases : forall buf c offset0 offset cp sl,
  known c ->
  reaches buf c offset0 offset cp sl ->
  (byteLength buf < offset + bytesPerFloat c * 3 ->
   tck_loop (S (length buf)) buf c offset0 [] [] = Ok (flush cp sl))
  /\ forall x y z,
      offset + bytesPerFloat c * 3 <= byteLength buf ->
      triplet_at buf c offset = Some (x, y, z) ->
      (isFinite x = false -> isNaN x = false ->
       tck_loop (S (length buf)) buf c offset0 [] [] = Ok (flush cp (flush cp sl)))
      /\ (isFinite x = true \/ isNaN x = true ->
          isNaN x || isNaN y || isNaN z = true ->
          reaches buf c offset0 (offset + bytesPerFloat c * 3) [] (flush cp sl))
      /\ (isFinite x = true \/ isNaN x = true ->
          isNaN x || isNaN y || isNaN z = false ->
          (300000 < Z.of_nat (length cp) + 3 ->
           tck_loop (S (length buf)) buf c offset0 [] [] = Err StreamlineTooLong)
          /\ (Z.of_nat (length cp) + 3 <= 300000 ->
              reaches buf c offset0 (offset + bytesPerFloat c * 3)
                      (cp ++ [x; y; z]) sl)).
Proof.
  intros buf c offset0 offset cp sl Hc H. split.
  - intros Hend. rewrite <- (@tck_run_from _ _ _ _ _ _ Hc H). cbn [tck_loop].
    rewrite pass_at_end by assumption. reflexivity.
  - intros x y z Hfit Ht.
    pose proof (@pass_at_triplet _ _ _ cp sl _ _ _ Hfit Ht) as Hp.
    assert (Hsel : forall b1 b2 : bool,
               b1 = true \/ b2 = true -> negb b1 && negb b2 = false).
    { intros [|] [|] [E | E]; try discriminate; reflexivity. }
    split; [| split].
    + intros Hf Hn. rewrite <- (@tck_run_from _ _ _ _ _ _ Hc H). cbn [tck_loop].
      rewrite Hp, Hf, Hn. reflexivity.
    + intros Hx Hs. rewrite (Hsel _ _ Hx), Hs in Hp.
      eapply reaches_next; eassumption.
    + intros Hx Hs. rewrite (Hsel _ _ Hx), Hs in Hp.
      rewrite length_app in Hp. cbn [length] in Hp.
      replace (Z.of_nat (length cp + 3)) with (Z.of_nat (length cp) + 3) in Hp by lia.
      split; intros Hlen.
      * apply Z.ltb_lt in Hlen. rewrite Hlen in Hp.
        rewrite <- (@tck_run_from _ _ _ _ _ _ Hc H). cbn [tck_loop]. rewrite Hp. reflexivity.
      * assert (E : (300000 <? Z.of_nat (length cp) + 3) = false)
          by (apply Z.ltb_ge; lia).
        rewrite E in Hp. eapply reaches_next; eassumption.
Qed.

(** The errors of the body. *)
Lemma bind_err : forall (A B : Type) (r : result A) (k : A -> result B) e,
  bind r k = Err e -> r = Err e \/ exists a, r = Ok a /\ k a = Err e.
Proof.
  intros A B [a | e'] k e H; simpl in H; [right; eauto | left; congruence].
Qed.

Lemma rd_err : forall (A : Type) (o : option A) e, rd o = Err e -> e = RangeError.
Proof.
  intros A [a |] e H; simpl in H; congruence.
Qed.

Lemma pass_errors : forall buf c offset cp sl e,
  tck_pass buf c offset cp sl = Err e -> e = RangeError \/ e = StreamlineTooLong.
Proof.
  intros buf c offset cp sl e H. unfold tck_pass in H.
  destruct (offset + bytesPerFloat c * 3 <=? byteLength buf); [| discriminate].
  apply bind_err in H. destruct H as [H | (x & _ & H)]; [apply rd_err in H; auto |].
  apply bind_err in H. destruct H as [H | (y & _ & H)]; [apply rd_err in H; auto |].
  apply bind_err in H. destruct H as [H | (z & _ & H)]; [apply rd_err in H; auto |].
  repeat match type of H with
         | (if ?b then _ else _) = _ => destruct b
         end; try discriminate.
  right. congruence.
Qed.

Lemma loop_errors : forall buf c fuel offset cp sl e,
  tck_loop fuel buf c offset cp sl = Err e -> e = RangeError \/ e = StreamlineTooLong.
Proof.
  intros buf c. induction fuel as [| fuel IH]; intros offset cp sl e H;
    cbn [tck_loop] in H; [discriminate |].
  apply bind_err in H. destruct H as [H | (p & _ & H)].
  - eapply pass_errors. eassumption.
  - destruct p as [r | o' cp' sl']; [discriminate |]. eapply IH. eassumption.
Qed.

Lemma parse_errors : forall buf h e,
  parseStreamlines buf h = Err e ->
  e = InvalidDatatypeConfig (datatype h) \/ e = RangeError \/ e = StreamlineTooLong.
Proof.
  intros buf h e H. unfold parseStreamlines in H.
  destruct (DATA_TYPES (datatype h)).
  - destruct (fileOffset h); [| discriminate]. right. eapply loop_errors. eassumption.
  - discriminate.
  - left. congruence.
Qed.

End TckLoopFacts.

(** ** Point counts *)

Module CountFacts.
Import Trx TrxSpec.

Lemma not_below_two : forall q : Q,
  Num.ltb (Num.Num q) (Num.of_Z 2) = false -> (2 <= q)%Q.
Proof.
  intros q H. unfold Num.ltb, Num.of_Z in H.
  apply Qnot_lt_le. intros C. apply Qlt_alt in C.
  change (inject_Z 2) with 2%Q in H. unfold Qcompare in H, C.
  rewrite C in H. discriminate.
Qed.

Lemma total_vertices : forall positions : list float,
  exists q, Num.div (Num.of_nat (length positions)) (Num.of_Z 3) = Num.Num q.
Proof.
  intros positions. unfold Num.div, Num.of_nat, Num.of_Z.
  rewrite NumFacts.sgn_pos by lia. eauto.
Qed.

Lemma offset_number : forall offsets i,
  offset_at offsets i = Num.NaN
  \/ exists v, nth_error offsets i = Some v /\ offset_at offsets i = Num.of_Z v.
Proof.
  intros offsets i. unfold offset_at.
  destruct (nth_error offsets i); [right; eauto | left; reflexivity].
Qed.

(** The count of an emitted streamline is not below 2; it is a number as
    soon as its index is one of the offsets array. *)
Lemma build_one_count : forall positions offsets i s,
  build_one positions offsets i = Some s ->
  (numPoints s = Num.NaN /\ (length offsets <= i)%nat) \/ at_least_two s.
Proof.
  intros positions offsets i s H. unfold build_one in H.
  set (stop := if (i + 1 <? length offsets)%nat then offset_at offsets (i + 1)
               else Num.div (Num.of_nat (length positions)) (Num.of_Z 3)) in H.
  destruct (Num.ltb (Num.sub stop (offset_at offsets i)) (Num.of_Z 2)) eqn:E;
    [discriminate |].
  inv H. cbn [numPoints].
  assert (Hstop : stop = Num.NaN \/ exists q, stop = Num.Num q).
  { unfold stop. destruct (i + 1 <? length offsets)%nat.
    - destruct (offset_number offsets (i + 1)) as [-> | (v & _ & ->)];
        [auto | right; unfold Num.of_Z; eauto].
    - right. apply total_vertices. }
  destruct (offset_number offsets i) as [Hs | (v & Hv & Hs)].
  - left. rewrite Hs. split.
    + destruct stop; reflexivity.
    + unfold offset_at in Hs. destruct (nth_error offsets i) eqn:En; [discriminate |].
      apply nth_error_None. assumption.
  - rewrite Hs in *. destruct Hstop as [Hn | (q & Hq)].
    + assert (Hlen : (i < length offsets)%nat).
      { apply nth_error_Some. congruence. }
      unfold stop in Hn. destruct (i + 1 <? length offsets)%nat eqn:E1.
      * unfold offset_at in Hn. apply Nat.ltb_lt in E1.
        apply nth_error_Some in E1. destruct (nth_error offsets (i + 1));
          [discriminate | congruence].
      * destruct (total_vertices positions) as (q & Hq). congruence.
    + right. rewrite Hq in *. unfold Num.sub, Num.opp, Num.add, Num.of_Z in *.
      eexists. split; [reflexivity |]. apply not_below_two. exact E.
Qed.

Lemma build_counts : forall positions offsets nb,
  Forall (fun s => numPoints s <> Num.NaN -> at_least_two s)
         (buildStreamlines positions offsets nb)
  /\ (nb <= Z.of_nat (length offsets) ->
      Forall at_least_two (buildStreamlines positions offsets nb)).
Proof.
  intros positions offsets nb. unfold buildStreamlines.
  rewrite TrxFacts.build_loop_emitted. cbn [app].
  split; [| intros Hnb]; apply Forall_flat_map; apply Forall_forall; intros i Hi;
    unfold TrxSpec.emitted;
    destruct (build_one positions offsets i) as [s |] eqn:E; constructor;
    try constructor; apply build_one_count in E.
  - intros Hn. destruct E as [(E & _) | E]; [contradiction | assumption].
  - apply in_seq in Hi. destruct E as [(_ & E) | E]; [lia | assumption].
Qed.

Lemma parseTrxFile_streamlines : forall inflate parse buf r,
  parseTrxFile inflate parse buf = Ok r ->
  exists positions offsets nb,
    Unified.streamlines r = buildStreamlines positions offsets nb.
Proof.
  intros inflate parse buf r H. unfold parseTrxFile in H. ok_cases H.
  inv H. cbn [Unified.streamlines]. eauto.
Qed.

End CountFacts.

(** C2, as the code has it.  Every streamline [parseTckFile] returns has a
    point count of at least 2 and three floats for each point.  Every
    streamline [buildStreamlines] makes for [parseTrxFile] from an index of
    the offsets array has a point count of at least 2.  A streamline
    [parseTrkFile] returns has the point count of its record, which is
    between 1 and 100000. *)
Theorem C2_point_counts_of_each_decoder :
  (forall buf r,
      Tck.parseTckFile buf = Ok r ->
      Forall TckSpec.two_or_more (Unified.streamlines r))
  /\ (forall inflate parse buf r,
      Trx.parseTrxFile inflate parse buf = Ok r ->
      Forall (fun s => numPoints s <> Num.NaN -> TrxSpec.at_least_two s)
             (Unified.streamlines r))
  /\ (forall positions offsets nbStreamlines,
      nbStreamlines <= Z.of_nat (length offsets) ->
      Forall TrxSpec.at_least_two
             (Trx.buildStreamlines positions offsets nbStreamlines))
  /\ (forall buf d,
      Trk.parseTrkFile buf = Ok d ->
      Forall TrkSpec.record_count (Trk.streamlines d)).
Proof.
  split; [| split; [| split]].
  - intros buf r H. unfold Tck.parseTckFile in H. ok_cases H. inv H.
    cbn [Unified.streamlines]. eapply TckLoopFacts.parse_two_or_more. eassumption.
  - intros inflate parse buf r H.
    apply CountFacts.parseTrxFile_streamlines in H.
    destruct H as (positions & offsets & nb & ->). apply CountFacts.build_counts.
  - intros positions offsets nb. apply CountFacts.build_counts.
  - intros buf d H. apply TrkHeaderFacts.parseTrkFile_ok in H.
    eapply TrkLoopFacts.parse_record_counts. apply H.
Qed.

(** C2 as stated fails for TRK: a record of one point is decoded into a
    streamline of one point. *)
Lemma C2_trk_single_point_streamline :
  exists d s, Trk.parseTrkFile Samples.trk_single_point = Ok d
              /\ Trk.streamlines d = [s]
              /\ numPoints s = Num.of_Z 1
              /\ length (points s) = 3%nat.
Proof.
  do 2 eexists. split; [vm_compute; reflexivity | repeat split].
Qed.

(** ** The sentinels of the TCK body *)

(** The cases of the TCK body that hold as the specification tells them:
    from any state of the loop, a triplet with a NaN component and no
    infinite first component pushes the accumulated streamline if it has 2
    points and goes on with an empty accumulator; a valid point that makes
    the accumulator longer than 300000 floats raises; the end of the buffer
    returns the streamlines with the accumulated one pushed if it has 2
    points. *)
Lemma tck_separator_cap_and_end :
  forall name c buf offset0 offset cp sl,
    Tck.DATA_TYPES name = Tck.Config c ->
    Tck.reaches buf c offset0 offset cp sl ->
    (byteLength buf < offset + Tck.bytesPerFloat c * 3 ->
     Tck.tck_loop (S (length buf)) buf c offset0 [] [] = Ok (Tck.flush cp sl))
    /\ forall x y z,
        offset + Tck.bytesPerFloat c * 3 <= byteLength buf ->
        TckSpec.triplet_at buf c offset = Some (x, y, z) ->
        (isFinite x = true \/ isNaN x = true ->
         isNaN x || isNaN y || isNaN z = true ->
         Tck.reaches buf c offset0 (offset + Tck.bytesPerFloat c * 3) []
                     (Tck.flush cp sl))
        /\ (isFinite x = true \/ isNaN x = true ->
            isNaN x || isNaN y || isNaN z = false ->
            300000 < Z.of_nat (length cp) + 3 ->
            Tck.tck_loop (S (length buf)) buf c offset0 [] [] = Err StreamlineTooLong).
Proof.
  intros name c buf offset0 offset cp sl Hc H.
  apply TckLoopFacts.DATA_TYPES_known in Hc.
  destruct (TckLoopFacts.run_cases Hc H) as (Hend & Hcases).
  split; [exact Hend |].
  intros x y z Hfit Ht. destruct (Hcases x y z Hfit Ht) as (_ & Hsep & Hpoint).
  split; [exact Hsep |].
  intros Hx Hs Hlen. destruct (Hpoint Hx Hs) as (Hcap & _). auto.
Qed.

(** C3 at the infinity sentinel.  From any state of the loop, a triplet
    whose first component is infinite ends the call with the accumulated
    streamline pushed twice when it has 2 points: once by the sentinel
    branch and once more by the statements after the loop, which find the
    accumulator as the branch left it.  Two points followed by the sentinel
    decode to two equal streamlines. *)
Theorem C3_infinity_sentinel_pushes_twice :
  (forall name c buf offset0 offset cp sl x y z,
      Tck.DATA_TYPES name = Tck.Config c ->
      Tck.reaches buf c offset0 offset cp sl ->
      offset + Tck.bytesPerFloat c * 3 <= byteLength buf ->
      TckSpec.triplet_at buf c offset = Some (x, y, z) ->
      isFinite x = false -> isNaN x = false ->
      (6 <= length cp)%nat ->
      Tck.tck_loop (S (length buf)) buf c offset0 [] []
      = Ok (sl ++ [Tck.finalize cp; Tck.finalize cp]))
  /\ exists r s,
      Tck.parseTckFile Samples.tck_sentinel_only = Ok r
      /\ Unified.streamlines r = [s; s]
      /\ Unified.nCount (Unified.header r) = 2%nat
      /\ numPoints s = Num.of_Z 2.
Proof.
  split.
  - intros name c buf offset0 offset cp sl x y z Hc H Hfit Ht Hf Hn Hlen.
    apply TckLoopFacts.DATA_TYPES_known in Hc.
    destruct (TckLoopFacts.run_cases Hc H) as (_ & Hcases).
    destruct (Hcases x y z Hfit Ht) as (Hinf & _).
    rewrite (Hinf Hf Hn). rewrite TckLoopFacts.flush_twice by assumption.
    reflexivity.
  - do 2 eexists. split; [vm_compute; reflexivity | repeat split].
Qed.

(** The same two points decode to one streamline when the NaN separator
    stands before the sentinel, and when the buffer ends after them. *)
Example tck_single_streamline :
  (exists r s, Tck.parseTckFile Samples.tck_separated = Ok r
               /\ Unified.streamlines r = [s] /\ numPoints s = Num.of_Z 2)
  /\ (exists r s, Tck.parseTckFile Samples.tck_unterminated = Ok r
                  /\ Unified.streamlines r = [s] /\ numPoints s = Num.of_Z 2).
Proof.
  split; do 2 eexists; (split; [vm_compute; reflexivity | repeat split]).
Qed.

(** ** The text header of the TCK decoder *)

Module TckHeaderFacts.
Import DataView Tck TckSpec.

Lemma find_end_spec : forall buf n i,
  match find_end buf i n with
  | None => forall j, (i <= j < i + n)%nat -> marker_at buf j = false
  | Some e =>
      exists j, (i <= j < i + n)%nat
                /\ marker_at buf j = true
                /\ (forall k, (i <= k < j)%nat -> marker_at buf k = false)
                /\ e = end_after buf j
  end.
Proof.
  intros buf. induction n as [| n IH]; intros i.
  - simpl. intros j Hj. lia.
  - cbn [find_end]. fold (marker_at buf i).
    destruct (marker_at buf i) eqn:E.
    + assert (Hsome : (if holds (byte_at buf (i + 3)) 13 && holds (byte_at buf (i + 4)) 10
                       then Some (Z.of_nat i + 5) else Some (Z.of_nat i + 4))
                      = Some (end_after buf i)).
      { unfold end_after. split_if; reflexivity. }
      rewrite Hsome. exists i. split; [lia |]. split; [assumption |].
      split; [intros k Hk; lia | reflexivity].
    + specialize (IH (S i)). destruct (find_end buf (S i) n) as [e |].
      * destruct IH as (j & Hj & Hm & Hk & He). exists j.
        split; [lia |]. split; [assumption |]. split; [| assumption].
        intros k Hk'. destruct (Nat.eq_dec k i) as [-> | Hne]; [assumption |].
        apply Hk. lia.
      * intros j Hj. destruct (Nat.eq_dec j i) as [-> | Hne]; [assumption |].
        apply IH. lia.
Qed.

Lemma headerEnd_none : forall buf,
  headerEnd buf = None <-> (forall i, searched buf i -> marker_at buf i = false).
Proof.
  intros buf. unfold headerEnd, searched.
  pose proof (find_end_spec buf (Z.to_nat (Z.min (byteLength buf) 10000 - 2)) 0) as H.
  destruct (find_end buf 0 _) as [e |].
  - destruct H as (j & Hj & Hm & _). split; [discriminate |].
    intros Hall. rewrite Hall in Hm by lia. discriminate.
  - split; [| reflexivity]. intros _ i Hi. apply H. lia.
Qed.

Lemma headerEnd_some : forall buf e,
  headerEnd buf = Some e ->
  exists i, searched buf i
            /\ marker_at buf i = true
            /\ (forall k, (k < i)%nat -> marker_at buf k = false)
            /\ e = end_after buf i.
Proof.
  intros buf e He. unfold headerEnd in He. unfold searched.
  pose proof (find_end_spec buf (Z.to_nat (Z.min (byteLength buf) 10000 - 2)) 0) as H.
  rewrite He in H. destruct H as (j & Hj & Hm & Hk & ->).
  exists j. split; [lia |]. split; [assumption |]. split; [| reflexivity].
  intros k Hlt. apply Hk. lia.
Qed.

Lemma on_key_other : forall f key value,
  key <> "datatype"%string -> f_datatype (on_key f key value) = f_datatype f.
Proof.
  intros f key value H. apply String.eqb_neq in H. unfold on_key. rewrite H.
  repeat split_if; reflexivity.
Qed.

Lemma on_line_other : forall f line,
  key_of line <> Some "datatype"%string ->
  f_datatype (on_line f line) = f_datatype f.
Proof.
  intros f line H. unfold on_line, key_of in *.
  split_if; [reflexivity |]. split_if; [reflexivity |].
  destruct (Str.cut_at ":" line) as [(before, after) |]; [| reflexivity].
  rewrite on_key_other by congruence. reflexivity.
Qed.

Lemma fold_other : forall lines f,
  Forall (fun line => key_of line <> Some "datatype"%string) lines ->
  f_datatype (fold_left on_line lines f) = f_datatype f.
Proof.
  induction lines as [| line lines IH]; intros f H; simpl; [reflexivity |].
  inv H. rewrite IH by assumption. apply on_line_other. assumption.
Qed.

Lemma default_datatype : forall buf e,
  no_datatype_key buf e -> f_datatype (scan_header buf e) = "Float32LE"%string.
Proof.
  intros buf e H. unfold scan_header. rewrite fold_other by exact H. reflexivity.
Qed.

End TckHeaderFacts.



(** A buffer without the marker is refused. *)
Example tck_without_marker :
  Tck.parseTckFile Samples.tck_no_marker = Err MissingEND.
Proof. vm_compute. reflexivity. Qed.

(** C10.  When the header has its END marker and no line with the key
    [datatype], [parseHeader] succeeds with the datatype [Float32LE],
    [parseTckFile] raises no unsupported-datatype error, and the body is
    read by the loop with 4-byte little-endian binary32 components. *)
Theorem C10_datatype_defaults_to_Float32LE :
  forall (buf : list byte) (e : Z),
    Tck.headerEnd buf = Some e ->
    TckSpec.no_datatype_key buf e ->
    exists h,
      Tck.parseHeader buf = Ok h
      /\ Tck.datatype h = "Float32LE"%string
      /\ Tck.parseStreamlines buf h
         = match Tck.fileOffset h with
           | None => Ok []
           | Some offset =>
               Tck.tck_loop (S (length buf)) buf
                            (Tck.mkConfig 4 true DataView.getFloat32) offset [] []
           end
      /\ (forall name, Tck.parseTckFile buf <> Err (UnsupportedDatatype name))
      /\ (forall r, Tck.parseTckFile buf = Ok r ->
            Tck.parseStreamlines buf h = Ok (Unified.streamlines r)
            /\ exists timestamp count,
                Unified.metadata (Unified.header r)
                = Unified.TckMetadata "Float32LE" timestamp count).
Proof.
  intros buf e He Hno.
  pose proof (TckHeaderFacts.default_datatype Hno) as Hd.
  assert (Hh : Tck.parseHeader buf
               = Ok (Tck.mkTckHeader
                       (Tck.f_datatype (Tck.scan_header buf e))
                       (Tck.f_fileOffset (Tck.scan_header buf e))
                       (Tck.f_count (Tck.scan_header buf e))
                       (Tck.f_totalCount (Tck.scan_header buf e))
                       (Tck.f_timestamp (Tck.scan_header buf e))
                       (Tck.f_metadata (Tck.scan_header buf e)))).
  { unfold Tck.parseHeader. rewrite He, Hd. reflexivity. }
  eexists. split; [exact Hh |]. cbn [Tck.datatype Tck.fileOffset].
  split; [exact Hd |].
  split.
  { unfold Tck.parseStreamlines. cbn [Tck.datatype Tck.fileOffset]. rewrite Hd.
    reflexivity. }
  split.
  { intros name C. unfold Tck.parseTckFile in C. rewrite Hh in C. cbn [bind] in C.
    destruct (byteLength buf >? MAX_FILE_SIZE); [discriminate |].
    destruct (negb (Tck.has_magic _)); [discriminate |].
    apply TckLoopFacts.bind_err in C. destruct C as [C | (a & _ & C)]; [| discriminate].
    apply TckLoopFacts.parse_errors in C.
    destruct C as [C | [C | C]]; discriminate. }
  intros r Hr. unfold Tck.parseTckFile in Hr. rewrite Hh in Hr. cbn [bind] in Hr.
  ok_cases Hr. inv Hr. cbn [Unified.streamlines Unified.header Unified.metadata Tck.datatype].
  split; [assumption |]. rewrite Hd. eauto.
Qed.

(** ** The order of the doubles *)

Module FloatFacts.

Local Open Scope float_scope.

Lemma SFcompare_refl : forall a,
  a <> S754_nan -> SFcompare a a = Some Eq.
Proof.
  intros [s | s | | s m e] H; try congruence; destruct s; simpl;
    try reflexivity; rewrite Z.compare_refl, Pos.compare_cont_refl; reflexivity.
Qed.

(** Turns the comparisons of exponents and mantissas in the goal and the
    hypotheses into facts of arithmetic. *)
Ltac compare_cases :=
  repeat match goal with
         | H : context [Pos.compare_cont Eq ?a ?b] |- _ =>
             change (Pos.compare_cont Eq a b) with (Pos.compare a b) in H
         | |- context [Pos.compare_cont Eq ?a ?b] =>
             change (Pos.compare_cont Eq a b) with (Pos.compare a b)
         end;
  repeat match goal with
         | H : context [Z.compare ?a ?b] |- _ =>
             destruct (Z.compare_spec a b); try subst; try lia
         | |- context [Z.compare ?a ?b] =>
             destruct (Z.compare_spec a b); try subst; try lia
         | H : context [Pos.compare ?a ?b] |- _ =>
             destruct (Pos.compare_spec a b); try subst; try lia
         | |- context [Pos.compare ?a ?b] =>
             destruct (Pos.compare_spec a b); try subst; try lia
         end;
  simpl in *; try discriminate; try reflexivity; try lia.

Lemma SFleb_trans : forall a b c,
  SFleb a b = true -> SFleb b c = true -> SFleb a c = true.
Proof.
  intros [sa | sa | | sa ma ea] [sb | sb | | sb mb eb] [sc | sc | | sc mc ec];
    unfold SFleb, SFcompare;
    repeat match goal with s : bool |- _ => destruct s end;
    intros H1 H2; try discriminate; try reflexivity; compare_cases.
Qed.

Lemma SFleb_total : forall a b,
  a <> S754_nan -> b <> S754_nan -> SFltb b a = false -> SFleb a b = true.
Proof.
  intros [sa | sa | | sa ma ea] [sb | sb | | sb mb eb] Ha Hb; try congruence;
    unfold SFleb, SFltb, SFcompare;
    repeat match goal with s : bool |- _ => destruct s end;
    intros H; try discriminate; try reflexivity; compare_cases.
Qed.

Lemma SFltb_leb : forall a b, SFltb a b = true -> SFleb a b = true.
Proof.
  intros a b. unfold SFltb, SFleb. destruct (SFcompare a b) as [[| |] |];
    auto; discriminate.
Qed.

Lemma is_nan_spec : forall x,
  is_nan x = match Prim2SF x with S754_nan => true | _ => false end.
Proof.
  intros x. unfold is_nan. rewrite eqb_spec. unfold SFeqb.
  destruct (Prim2SF x) eqn:E; try reflexivity;
    rewrite SFcompare_refl by discriminate; reflexivity.
Qed.

Lemma not_nan : forall x, is_nan x = false -> Prim2SF x <> S754_nan.
Proof.
  intros x H C. rewrite is_nan_spec, C in H. discriminate.
Qed.

Lemma leb_refl : forall x, is_nan x = false -> (x <=? x) = true.
Proof.
  intros x H. rewrite leb_spec. unfold SFleb.
  rewrite SFcompare_refl by (apply not_nan; assumption). reflexivity.
Qed.

Lemma leb_trans : forall x y z,
  (x <=? y) = true -> (y <=? z) = true -> (x <=? z) = true.
Proof.
  intros x y z. rewrite !leb_spec. apply SFleb_trans.
Qed.

Lemma ltb_leb : forall x y, (x <? y) = true -> (x <=? y) = true.
Proof.
  intros x y. rewrite ltb_spec, leb_spec. apply SFltb_leb.
Qed.

Lemma not_ltb_leb : forall x y,
  is_nan x = false -> is_nan y = false -> (y <? x) = false -> (x <=? y) = true.
Proof.
  intros x y Hx Hy. rewrite ltb_spec, leb_spec.
  apply SFleb_total; apply not_nan; assumption.
Qed.

Lemma zero_spec : forall x, is_zero x = true -> exists s, Prim2SF x = S754_zero s.
Proof.
  intros x H. unfold is_zero in H. rewrite eqb_spec in H.
  change (Prim2SF zero) with (S754_zero false) in H.
  destruct (Prim2SF x) as [s | s | | s m e]; [eauto | | |];
    unfold SFeqb, SFcompare in H; try destruct s; discriminate.
Qed.

Lemma zeros_leb : forall x y,
  is_zero x = true -> is_zero y = true -> (x <=? y) = true.
Proof.
  intros x y Hx Hy. apply zero_spec in Hx. apply zero_spec in Hy.
  destruct Hx as (s & Hx). destruct Hy as (t & Hy).
  rewrite leb_spec, Hx, Hy. reflexivity.
Qed.

Lemma above_infinity : forall x, (infinity <=? x) = true -> x = infinity.
Proof.
  intros x H. rewrite leb_spec in H. apply Prim2SF_inj.
  change (Prim2SF infinity) with (S754_infinity false) in *.
  destruct (Prim2SF x) as [s | s | | s m e]; try destruct s;
    try reflexivity; discriminate.
Qed.

Lemma below_neg_infinity : forall x, (x <=? neg_infinity) = true -> x = neg_infinity.
Proof.
  intros x H. rewrite leb_spec in H. apply Prim2SF_inj.
  change (Prim2SF neg_infinity) with (S754_infinity true) in *.
  destruct (Prim2SF x) as [s | s | | s m e]; try destruct s;
    try reflexivity; discriminate.
Qed.

End FloatFacts.

(** ** [calculateBoundingBox] *)

Module BoundingBoxFacts.
Import Post PostSpec FloatFacts.

Local Open Scope float_scope.

(** [Math.min] and [Math.max] of two numbers that are not [NaN]: one of
    the two, below (above) both. *)
Lemma Math_min_spec : forall a b,
  is_nan a = false -> is_nan b = false ->
  (Math_min a b = a \/ Math_min a b = b)
  /\ (Math_min a b <=? a) = true
  /\ (Math_min a b <=? b) = true.
Proof.
  intros a b Ha Hb. unfold Math_min. rewrite Ha, Hb. cbn [orb].
  destruct (is_neg_zero b && is_pos_zero a) eqn:Ez.
  { apply andb_true_iff in Ez. destruct Ez as (Ez1 & Ez2).
    unfold is_neg_zero in Ez1. unfold is_pos_zero in Ez2.
    apply andb_true_iff in Ez1. apply andb_true_iff in Ez2.
    split; [auto |]. split; [apply zeros_leb; tauto | apply leb_refl; assumption]. }
  destruct (b <? a) eqn:El.
  - split; [auto |]. split; [apply ltb_leb; assumption | apply leb_refl; assumption].
  - split; [auto |]. split; [apply leb_refl; assumption |].
    apply not_ltb_leb; assumption.
Qed.

Lemma Math_max_spec : forall a b,
  is_nan a = false -> is_nan b = false ->
  (Math_max a b = a \/ Math_max a b = b)
  /\ (a <=? Math_max a b) = true
  /\ (b <=? Math_max a b) = true.
Proof.
  intros a b Ha Hb. unfold Math_max. rewrite Ha, Hb. cbn [orb].
  destruct (is_pos_zero b && is_neg_zero a) eqn:Ez.
  { apply andb_true_iff in Ez. destruct Ez as (Ez1 & Ez2).
    unfold is_pos_zero in Ez1. unfold is_neg_zero in Ez2.
    apply andb_true_iff in Ez1. apply andb_true_iff in Ez2.
    split; [auto |]. split; [apply zeros_leb; tauto | apply leb_refl; assumption]. }
  destruct (a <? b) eqn:El.
  - split; [auto |]. split; [apply ltb_leb; assumption | apply leb_refl; assumption].
  - split; [auto |]. split; [apply leb_refl; assumption |].
    apply not_ltb_leb; assumption.
Qed.

Lemma Math_min_nan : forall a b,
  is_nan a = true \/ is_nan b = true -> Math_min a b = nan.
Proof.
  intros a b H. unfold Math_min.
  assert (E : is_nan a || is_nan b = true) by (apply orb_true_iff; assumption).
  rewrite E. reflexivity.
Qed.

Lemma Math_max_nan : forall a b,
  is_nan a = true \/ is_nan b = true -> Math_max a b = nan.
Proof.
  intros a b H. unfold Math_max.
  assert (E : is_nan a || is_nan b = true) by (apply orb_true_iff; assumption).
  rewrite E. reflexivity.
Qed.

Lemma nan_is_nan : is_nan nan = true.
Proof. reflexivity. Qed.

Section Running.
(** A running extremum: [op] is [Math.min] with [le x y := x <= y], or
    [Math.max] with [le x y := y <= x]. *)
Variable op : float -> float -> float.
Variable le : float -> float -> bool.
Hypothesis op_spec : forall a b,
  is_nan a = false -> is_nan b = false ->
  (op a b = a \/ op a b = b) /\ le (op a b) a = true /\ le (op a b) b = true.
Hypothesis op_nan : forall a b, is_nan a = true \/ is_nan b = true -> op a b = nan.
Hypothesis le_trans : forall x y z, le x y = true -> le y z = true -> le x z = true.

Lemma run_nan : forall xs, fold_left op xs nan = nan.
Proof.
  induction xs as [| x xs IH]; simpl; [reflexivity |].
  rewrite op_nan by (left; apply nan_is_nan). exact IH.
Qed.

Lemma run_spec : forall xs init,
  is_nan init = false ->
  if existsb is_nan xs then fold_left op xs init = nan
  else is_nan (fold_left op xs init) = false
       /\ (fold_left op xs init = init \/ In (fold_left op xs init) xs)
       /\ le (fold_left op xs init) init = true
       /\ forall x, In x xs -> le (fold_left op xs init) x = true.
Proof.
  induction xs as [| x xs IH]; intros init Hi; cbn [existsb fold_left].
  - split; [assumption |]. split; [auto |].
    split; [| intros x []].
    destruct (op_spec init init Hi Hi) as ([E | E] & H1 & _); rewrite E in H1; exact H1.
  - destruct (is_nan x) eqn:Ex; cbn [orb].
    + rewrite op_nan by auto. apply run_nan.
    + destruct (op_spec init x Hi Ex) as (Hor & H1 & H2).
      assert (Hn : is_nan (op init x) = false).
      { destruct Hor as [-> | ->]; assumption. }
      specialize (IH (op init x) Hn).
      destruct (existsb is_nan xs); [exact IH |].
      destruct IH as (Hm & Hin & Hle & Hall).
      split; [assumption |]. split; [| split].
      * destruct Hin as [-> | Hin]; [| right; right; assumption].
        destruct Hor as [-> | ->]; [left; reflexivity | right; left; reflexivity].
      * eapply le_trans; eassumption.
      * intros y [<- | Hy]; [eapply le_trans; eassumption | apply Hall; assumption].
Qed.
End Running.

Lemma running_minimum : forall xs, minimum_of xs (fold_left Math_min xs infinity).
Proof.
  intros xs. unfold minimum_of.
  pose proof (@run_spec Math_min (fun x y => x <=? y)
                Math_min_spec Math_min_nan leb_trans xs infinity eq_refl) as H.
  destruct (existsb is_nan xs); [exact H |].
  destruct H as (_ & Hin & Hle & Hall).
  split; [exact Hall |]. split.
  - intros Hne. destruct Hin as [E | Hin]; [| assumption].
    destruct xs as [| x xs]; [congruence |].
    pose proof (Hall x (or_introl eq_refl)) as Hx. rewrite E in Hx.
    apply above_infinity in Hx. rewrite E, <- Hx. left. reflexivity.
  - intros ->. reflexivity.
Qed.

Lemma running_maximum : forall xs, maximum_of xs (fold_left Math_max xs neg_infinity).
Proof.
  intros xs. unfold maximum_of.
  pose proof (@run_spec Math_max (fun x y => y <=? x)
                Math_max_spec Math_max_nan
                (fun x y z H1 H2 => @leb_trans z y x H2 H1)
                xs neg_infinity eq_refl) as H.
  destruct (existsb is_nan xs); [exact H |].
  destruct H as (_ & Hin & Hle & Hall).
  split; [exact Hall |]. split.
  - intros Hne. destruct Hin as [E | Hin]; [| assumption].
    destruct xs as [| x xs]; [congruence |].
    pose proof (Hall x (or_introl eq_refl)) as Hx. rewrite E in Hx.
    apply below_neg_infinity in Hx. rewrite E, <- Hx. left. reflexivity.
  - intros ->. reflexivity.
Qed.

Lemma scan_points_folds : forall n pts b,
  (length pts <= n)%nat ->
  folds (axis 0 pts) (axis 1 pts) (axis 2 pts) b (scan_points pts b).
Proof.
  induction n as [| n IH]; intros pts b Hn.
  - destruct pts; [| simpl in Hn; lia]. repeat split.
  - destruct pts as [| x [| y [| z rest]]]; try (repeat split; fail).
    cbn [scan_points axis nth fold_left].
    destruct (IH rest (update b x y z)) as (H1 & H2 & H3 & H4 & H5 & H6).
    { simpl in Hn. lia. }
    repeat split; assumption.
Qed.

Lemma scan_folds : forall streamlines b,
  folds (coords 0 streamlines) (coords 1 streamlines) (coords 2 streamlines)
        b (scan streamlines b).
Proof.
  induction streamlines as [| s rest IH]; intros b.
  - repeat split.
  - cbn [scan].
    destruct (@scan_points_folds _ (points s) b (le_n _))
      as (H1 & H2 & H3 & H4 & H5 & H6).
    destruct (IH (scan_points (points s) b)) as (I1 & I2 & I3 & I4 & I5 & I6).
    unfold folds, coords in *. cbn [flat_map]. rewrite !fold_left_app.
    rewrite <- H1, <- H2, <- H3, <- H4, <- H5, <- H6.
    repeat split; assumption.
Qed.

Lemma no_points : forall k streamlines,
  (forall s, In s streamlines -> points s = []) -> coords k streamlines = [].
Proof.
  intros k. induction streamlines as [| s rest IH]; intros H; [reflexivity |].
  unfold coords. cbn [flat_map]. rewrite (H s (or_introl eq_refl)). cbn [axis app].
  apply IH. intros t Ht. apply H. right. assumption.
Qed.

End BoundingBoxFacts.

(** C9.  For every list of streamlines, each component of [min] ([max]) is
    the least (greatest) of the coordinates of that axis over all points, in
    the sense of [Math.min] ([Math.max]); [center] is the midpoint of [min]
    and [max] on each axis and [size] the Euclidean length of [max - min].
    With no point, [min] is (+Infinity, +Infinity, +Infinity) and [max]
    (-Infinity, -Infinity, -Infinity).  The points (0,0,0) and (2,4,6) give
    min (0,0,0), max (2,4,6), center (1,2,3) and size sqrt(4 + 16 + 36). *)
Theorem C9_calculateBoundingBox :
  (forall streamlines : list Streamline,
      let r := Post.calculateBoundingBox streamlines in
      let '(x0, y0, z0) := Post.bmin r in
      let '(x1, y1, z1) := Post.bmax r in
      PostSpec.minimum_of (PostSpec.coords 0 streamlines) x0
      /\ PostSpec.minimum_of (PostSpec.coords 1 streamlines) y0
      /\ PostSpec.minimum_of (PostSpec.coords 2 streamlines) z0
      /\ PostSpec.maximum_of (PostSpec.coords 0 streamlines) x1
      /\ PostSpec.maximum_of (PostSpec.coords 1 streamlines) y1
      /\ PostSpec.maximum_of (PostSpec.coords 2 streamlines) z1
      /\ Post.center r = ((x0 + x1) / 2, (y0 + y1) / 2, (z0 + z1) / 2)%float
      /\ Post.size r
         = PrimFloat.sqrt ((x1 - x0) * (x1 - x0) + (y1 - y0) * (y1 - y0)
                           + (z1 - z0) * (z1 - z0))%float)
  /\ (forall streamlines : list Streamline,
        (forall s, In s streamlines -> points s = []) ->
        Post.bmin (Post.calculateBoundingBox streamlines) = (infinity, infinity, infinity)
        /\ Post.bmax (Post.calculateBoundingBox streamlines)
           = (neg_infinity, neg_infinity, neg_infinity))
  /\ Post.calculateBoundingBox [Samples.diagonal]
     = {| Post.bmin := (0, 0, 0)%float;
          Post.bmax := (2, 4, 6)%float;
          Post.center := (1, 2, 3)%float;
          Post.size := PrimFloat.sqrt (4 + 16 + 36)%float |}.
Proof.
  split; [| split].
  - intros streamlines. unfold Post.calculateBoundingBox. cbv zeta.
    cbn [Post.bmin Post.bmax Post.center Post.size].
    destruct (BoundingBoxFacts.scan_folds streamlines Post.init_bounds)
      as (H1 & H2 & H3 & H4 & H5 & H6).
    cbn [Post.init_bounds Post.minX Post.minY Post.minZ Post.maxX Post.maxY Post.maxZ]
      in H1, H2, H3, H4, H5, H6.
    rewrite H1 at 1. rewrite H2 at 1. rewrite H3 at 1.
    rewrite H4 at 1. rewrite H5 at 1. rewrite H6 at 1.
    repeat split;
      first [ apply BoundingBoxFacts.running_minimum
            | apply BoundingBoxFacts.running_maximum ].
  - intros streamlines Hnone. unfold Post.calculateBoundingBox. cbv zeta.
    cbn [Post.bmin Post.bmax].
    destruct (BoundingBoxFacts.scan_folds streamlines Post.init_bounds)
      as (H1 & H2 & H3 & H4 & H5 & H6).
    rewrite (BoundingBoxFacts.no_points 0 streamlines Hnone) in H1, H4.
    rewrite (BoundingBoxFacts.no_points 1 streamlines Hnone) in H2, H5.
    rewrite (BoundingBoxFacts.no_points 2 streamlines Hnone) in H3, H6.
    rewrite H1, H2, H3, H4, H5, H6. split; reflexivity.
  - vm_compute. reflexivity.
Qed.
(** ** The TRK header as read *)

Module TrkReadFacts.
Import DataView Trk TrkSpec.

Lemma bytes_at_total : forall buf off n,
  0 <= off -> off + Z.of_nat n <= byteLength buf ->
  bytes_at buf off n = Some (firstn n (skipn (Z.to_nat off) buf)).
Proof.
  intros buf off n H1 H2. unfold bytes_at. unfold byteLength in H2.
  destruct (off <? 0) eqn:E1; [apply Z.ltb_lt in E1; lia |].
  destruct (Z.of_nat (length buf) <? off + Z.of_nat n) eqn:E2;
    [apply Z.ltb_lt in E2; lia | reflexivity].
Qed.

Lemma bytes_at_length : forall buf off n bs,
  bytes_at buf off n = Some bs -> length bs = n.
Proof.
  intros buf off n bs H.
  destruct (TrkLoopFacts.bytes_at_ok _ _ _ H) as (H1 & H2).
  rewrite bytes_at_total in H by assumption. inv H.
  unfold byteLength in H2.
  rewrite length_firstn, length_skipn. lia.
Qed.

Lemma uint_at_total : forall le buf off n,
  0 <= off -> off + Z.of_nat n <= byteLength buf ->
  exists v, uint_at le buf off n = Some v.
Proof.
  intros le buf off n H1 H2. unfold uint_at.
  rewrite bytes_at_total by assumption. eauto.
Qed.

Lemma le_value_range : forall bs, 0 <= le_value bs < 256 ^ Z.of_nat (length bs).
Proof.
  induction bs as [| b bs IH].
  - simpl. lia.
  - cbn [le_value length]. rewrite Nat2Z.inj_succ, Z.pow_succ_r by lia.
    assert (Hb : 0 <= u8 b < 256).
    { unfold u8. pose proof (Byte.to_N_bounded b). lia. }
    lia.
Qed.

Lemma uint_at_range : forall le buf off n v,
  uint_at le buf off n = Some v -> 0 <= v < 256 ^ Z.of_nat n.
Proof.
  intros le buf off n v H. unfold uint_at in H.
  destruct (bytes_at buf off n) as [bs |] eqn:E; [| discriminate].
  apply bytes_at_length in E. inv H.
  destruct le.
  - apply le_value_range.
  - rewrite <- length_rev. apply le_value_range.
Qed.

Lemma getInt16_range : forall buf off le v,
  getInt16 buf off le = Some v -> -32768 <= v <= 32767.
Proof.
  intros buf off le v H. unfold getInt16 in H.
  destruct (uint_at le buf off 2) as [u |] eqn:E; [| discriminate].
  apply uint_at_range in E. simpl in H. inv H.
  unfold to_signed. change (256 ^ Z.of_nat 2) with 65536 in E.
  change (2 ^ (16 - 1)) with 32768. change (2 ^ 16) with 65536.
  destruct (u <? 32768) eqn:C; [apply Z.ltb_lt in C | apply Z.ltb_ge in C]; lia.
Qed.

Lemma getInt16_total : forall buf off le,
  0 <= off -> off + 2 <= byteLength buf -> exists v, getInt16 buf off le = Some v.
Proof.
  intros buf off le H1 H2. unfold getInt16.
  destruct (@uint_at_total le buf off 2 H1) as [v Hv]; [simpl; lia |].
  rewrite Hv. simpl. eauto.
Qed.

Lemma getInt32_any : forall buf off le,
  0 <= off -> off + 4 <= byteLength buf -> exists v, getInt32 buf off le = Some v.
Proof.
  intros buf off le H1 H2. unfold getInt32.
  destruct (@uint_at_total le buf off 4 H1) as [v Hv]; [simpl; lia |].
  rewrite Hv. simpl. eauto.
Qed.

Lemma getUint8_total : forall buf off,
  0 <= off -> off + 1 <= byteLength buf -> exists v, getUint8 buf off = Some v.
Proof.
  intros buf off H1 H2. unfold getUint8. apply uint_at_total; simpl; lia.
Qed.

Lemma text_at_total : forall buf off n,
  0 <= off -> off + Z.of_nat n <= byteLength buf ->
  exists s, text_at buf off n = Ok s.
Proof.
  intros buf off n H1 H2. unfold text_at.
  rewrite bytes_at_total by assumption. simpl. eauto.
Qed.

Lemma names_at_total : forall buf count slots off i,
  0 <= off -> off + 20 * Z.of_nat slots <= byteLength buf ->
  exists l, names_at buf off count i slots = Ok l.
Proof.
  intros buf count. induction slots as [| slots IH]; intros off i H1 H2.
  - simpl. eauto.
  - cbn [names_at].
    destruct (@text_at_total buf off 20 H1) as [s Hs]; [simpl; lia |].
    rewrite Hs. cbn [bind].
    destruct (IH (off + 20) (S i)) as [l Hl]; [lia | lia |].
    rewrite Hl. cbn [bind]. eauto.
Qed.

(** Every exception [parseHeader] can raise comes from a read. *)
Lemma text_at_err : forall buf off n e, text_at buf off n = Err e -> e = RangeError.
Proof.
  intros buf off n e H. unfold text_at in H.
  destruct (bytes_at buf off n); simpl in H; congruence.
Qed.

Lemma floats_at_err : forall buf n off e, floats_at buf off n = Err e -> e = RangeError.
Proof.
  intros buf. induction n as [| n IH]; intros off e H; simpl in H; [discriminate |].
  destruct (getFloat32 buf off true); simpl in H; [| congruence].
  destruct (floats_at buf (off + 4) n) eqn:E; simpl in H; [discriminate |].
  inv H. eapply IH; eassumption.
Qed.

Lemma names_at_err : forall buf count slots off i e,
  names_at buf off count i slots = Err e -> e = RangeError.
Proof.
  intros buf count. induction slots as [| slots IH]; intros off i e H;
    simpl in H; [discriminate |].
  destruct (text_at buf off 20) eqn:E1; simpl in H;
    [| inv H; eapply text_at_err; eassumption].
  destruct (names_at buf (off + 20) count (S i) slots) eqn:E2; simpl in H;
    [discriminate |].
  inv H. eapply IH; eassumption.
Qed.

Lemma parseHeader_err : forall buf e, parseHeader buf = Err e -> e = RangeError.
Proof.
  intros buf e H. unfold parseHeader in H.
  repeat match type of H with
         | bind ?r _ = Err _ =>
             apply TckLoopFacts.bind_err in H;
             destruct H as [H | (? & _ & H)];
             [ first [ apply TckLoopFacts.rd_err in H; exact H
                     | apply text_at_err in H; exact H
                     | apply floats_at_err in H; exact H
                     | apply names_at_err in H; exact H ] |]
         end.
  discriminate.
Qed.

Lemma parseHeader_size : forall buf h, parseHeader buf = Ok h -> 1000 <= byteLength buf.
Proof.
  intros buf h H. apply TrkHeaderFacts.parseHeader_fields in H.
  destruct H as (_ & _ & _ & H). apply TrkLoopFacts.getInt32_ok in H. lia.
Qed.

Lemma parseHeader_total : forall buf,
  1000 <= byteLength buf -> exists h, parseHeader buf = Ok h.
Proof.
  intros buf Hlen. unfold parseHeader.
  repeat match goal with
         | |- exists h, bind (text_at ?b ?o ?n) _ = Ok h =>
             let s := fresh "s" in let Hs := fresh "Hs" in
             destruct (@text_at_total b o n) as [s Hs];
             [lia | simpl Z.of_nat; lia | rewrite Hs; cbn [bind]]
         | |- exists h, bind (rd (getInt16 ?b ?o ?le)) _ = Ok h =>
             let s := fresh "v" in let Hs := fresh "Hv" in
             destruct (@getInt16_total b o le) as [s Hs];
             [lia | lia | rewrite Hs; cbn [bind rd]]
         | |- exists h, bind (rd (getInt32 ?b ?o ?le)) _ = Ok h =>
             let s := fresh "v" in let Hs := fresh "Hv" in
             destruct (@getInt32_any b o le) as [s Hs];
             [lia | lia | rewrite Hs; cbn [bind rd]]
         | |- exists h, bind (rd (getUint8 ?b ?o)) _ = Ok h =>
             let s := fresh "v" in let Hs := fresh "Hv" in
             destruct (@getUint8_total b o) as [s Hs];
             [lia | lia | rewrite Hs; cbn [bind rd]]
         | |- exists h, bind (rd (bytes_at ?b ?o ?n)) _ = Ok h =>
             rewrite (@bytes_at_total b o n) by (simpl Z.of_nat; lia); cbn [bind rd]
         | |- exists h, bind (floats_at ?b ?o ?n) _ = Ok h =>
             let s := fresh "l" in let Hs := fresh "Hl" in
             destruct (@TrkLoopFacts.floats_at_total b n o) as [s Hs];
             [lia | simpl Z.of_nat; lia | rewrite Hs; cbn [bind]]
         | |- exists h, bind (names_at ?b ?o ?c ?i ?n) _ = Ok h =>
             let s := fresh "l" in let Hs := fresh "Hl" in
             destruct (@names_at_total b c n o i) as [s Hs];
             [lia | simpl Z.of_nat; lia | rewrite Hs; cbn [bind]]
         end.
  eauto.
Qed.

End TrkReadFacts.

(** X1.  A TRK buffer needs its 1000 header bytes: [parseHeader] returns a
    header exactly for the buffers of at least 1000 bytes, every exception
    it raises is the [RangeError] of a read outside the buffer, and
    [parseTrkFile] on a shorter buffer ends with that exception. *)
Theorem trk_header_needs_1000_bytes : forall buf : list byte,
  ((exists h, Trk.parseHeader buf = Ok h) <-> 1000 <= byteLength buf)
  /\ (forall e, Trk.parseHeader buf = Err e -> e = RangeError)
  /\ (byteLength buf < 1000 -> Trk.parseTrkFile buf = Err RangeError).
Proof.
  intros buf. split; [| split].
  - split.
    + intros (h & H). eapply TrkReadFacts.parseHeader_size; eassumption.
    + apply TrkReadFacts.parseHeader_total.
  - apply TrkReadFacts.parseHeader_err.
  - intros Hlen. unfold Trk.parseTrkFile.
    destruct (byteLength buf >? MAX_FILE_SIZE) eqn:E.
    + apply Z.gtb_lt in E. unfold MAX_FILE_SIZE in E. lia.
    + destruct (Trk.parseHeader buf) as [h | e] eqn:P.
      * apply TrkReadFacts.parseHeader_size in P. lia.
      * apply TrkReadFacts.parseHeader_err in P. subst e. reflexivity.
Qed.
(** ** The records of the TRK body *)

Module TrkRecordFacts.
Import DataView Trk TrkSpec TrkShape.

Lemma floats_at_nth : forall buf n off l,
  floats_at buf off n = Ok l ->
  forall i, (i < n)%nat ->
    nth_error l i = getFloat32 buf (off + 4 * Z.of_nat i) true.
Proof.
  intros buf. induction n as [| n IH]; intros off l H i Hi; [lia |].
  cbn [floats_at] in H. ok_steps H. inv H. apply rd_ok in Ha.
  destruct i as [| i].
  - simpl. rewrite Z.add_0_r. congruence.
  - cbn [nth_error]. rewrite (@IH _ _ Ha0 i) by lia.
    f_equal. lia.
Qed.

(** What [read_points] returns: the coordinates and the scalar row of
    every point, each read at its place in the interleaved record. *)
Lemma read_points_nth : forall buf nS n off pts rows off',
  read_points buf off nS n = Ok (pts, rows, off') ->
  length rows = n
  /\ Forall (fun row => length row = Z.to_nat nS) rows
  /\ forall k, (k < n)%nat ->
       let at_k := off + Z.of_nat k * (12 + 4 * Z.of_nat (Z.to_nat nS)) in
       (forall j, (j < 3)%nat ->
          nth_error pts (3 * k + j) = getFloat32 buf (at_k + 4 * Z.of_nat j) true)
       /\ exists row,
            nth_error rows k = Some row
            /\ forall c, (c < Z.to_nat nS)%nat ->
                 nth_error row c = getFloat32 buf (at_k + 12 + 4 * Z.of_nat c) true.
Proof.
  intros buf nS. induction n as [| n IH]; intros off pts rows off' H;
    cbn [read_points] in H.
  - inv H. split; [reflexivity |]. split; [constructor |]. intros k Hk. lia.
  - apply bind_ok in H. destruct H as (((xyz & row) & off1) & Hp & H).
    apply bind_ok in H. destruct H as (((pts' & rows') & off2) & Hr & H).
    injection H as <- <- <-.
    unfold read_point in Hp. ok_steps Hp.
    assert (E1 : a = xyz) by congruence.
    assert (E2 : a0 = row) by congruence.
    assert (E3 : off1 = off + 12 + 4 * Z.of_nat (Z.to_nat nS)) by congruence.
    clear Hp. subst a a0 off1.
    pose proof (@TrkLoopFacts.floats_at_ok _ _ _ _ Ha) as (Hx & _).
    pose proof (@TrkLoopFacts.floats_at_ok _ _ _ _ Ha0) as (Hrow & _).
    apply IH in Hr. destruct Hr as (Hl & Hrows & Hk).
    split; [simpl; lia |]. split; [constructor; assumption |].
    intros k Hlt at_k. subst at_k. destruct k as [| k].
    + split.
      * intros j Hj. replace (3 * 0 + j)%nat with j by lia.
        rewrite nth_error_app1 by lia.
        rewrite (@floats_at_nth _ _ _ _ Ha j) by lia. f_equal. lia.
      * exists row. split; [reflexivity |]. intros c Hc.
        rewrite (@floats_at_nth _ _ _ _ Ha0 c) by lia. f_equal. lia.
    + destruct (Hk k ltac:(lia)) as (Hpts & row' & Hr' & Hc'). split.
      * intros j Hj. rewrite nth_error_app2 by lia.
        replace (3 * S k + j - length xyz)%nat with (3 * k + j)%nat by lia.
        rewrite (Hpts j Hj). f_equal. lia.
      * exists row'. split; [exact Hr' |]. intros c Hc.
        rewrite (Hc' c Hc). f_equal. lia.
Qed.

(** Channel [c] of [channels] collects entry [c] of every row. *)
Lemma channels_nth : forall nS rows c,
  (c < Z.to_nat nS)%nat ->
  nth_error (channels nS rows) c = Some (map (fun row => nth c row 0%float) rows).
Proof.
  intros nS rows c Hc. unfold channels.
  rewrite nth_error_map, nth_error_nth' with (d := 0%nat) by (rewrite length_seq; lia).
  rewrite seq_nth by lia. reflexivity.
Qed.

Lemma channels_length : forall nS rows, length (channels nS rows) = Z.to_nat nS.
Proof.
  intros nS rows. unfold channels. rewrite length_map, length_seq. reflexivity.
Qed.

Lemma channels_each : forall nS rows,
  Forall (fun chan => length chan = length rows) (channels nS rows).
Proof.
  intros nS rows. unfold channels. apply Forall_forall. intros chan Hin.
  apply in_map_iff in Hin. destruct Hin as (c & <- & _). apply length_map.
Qed.

(** A pass that goes on, in full: the count read, the points and the
    properties read after it, and the streamline made of them. *)
Lemma pass_record : forall buf h offset count offset' s,
  trk_pass buf h offset count = Ok (Next offset' s) ->
  exists n pts rows off1 props,
    getInt32 buf offset true = Some n
    /\ 1 <= n <= 100000
    /\ read_points buf (offset + 4) (nScalars h) (Z.to_nat n) = Ok (pts, rows, off1)
    /\ (if nProperties h >? 0
        then floats_at buf off1 (Z.to_nat (nProperties h)) else Ok []) = Ok props
    /\ points s = pts
    /\ numPoints s = Num.of_Z n
    /\ scalars s = match (if nScalars h >? 0 then channels (nScalars h) rows else []) with
                   | [] => None
                   | _ => Some (channels (nScalars h) rows)
                   end
    /\ properties s = (if nProperties h >? 0 then Some props else None)
    /\ offset' = (if nProperties h >? 0
                  then off1 + 4 * Z.of_nat (Z.to_nat (nProperties h)) else off1).
Proof.
  intros buf h offset count offset' s H. unfold trk_pass in H.
  destruct ((offset <? byteLength buf) && below_max h count) eqn:E0; [| discriminate].
  destruct (offset + 4 >? byteLength buf) eqn:E1; [discriminate |].
  apply bind_ok in H. destruct H as (n & Hn & H). apply rd_ok in Hn.
  destruct ((n <=? 0) || (n >? 100000)) eqn:E2; [discriminate |].
  apply orb_false_iff in E2. destruct E2 as (E2 & E3).
  destruct (offset + 4 + (n * (4 * (3 + nScalars h)) + 4 * nProperties h)
            >? byteLength buf) eqn:E4; [discriminate |].
  apply bind_ok in H. destruct H as (((pts & rows) & off1) & Hr & H).
  apply bind_ok in H. destruct H as (props & Hp & H).
  exists n, pts, rows, off1, props.
  split; [assumption |]. split; [apply Z.leb_gt in E2; lia |].
  split; [assumption |]. split; [assumption |].
  injection H as <- <-. cbn [points numPoints scalars properties].
  split; [reflexivity |]. split; [reflexivity |].
  split; [destruct (nScalars h >? 0); reflexivity |].
  split; reflexivity.
Qed.

Lemma pass_shaped : forall buf h offset count offset' s,
  0 <= nScalars h -> 0 <= nProperties h ->
  trk_pass buf h offset count = Ok (Next offset' s) -> shaped h s.
Proof.
  intros buf h offset count offset' s HS HP H.
  apply pass_record in H.
  destruct H as (n & pts & rows & off1 & props & Hn & Hr & Hpts & Hprops
                 & Es & En & Esc & Epr & _).
  pose proof (@TrkLoopFacts.read_points_ok _ _ _ _ _ _ _ Hpts) as (Hlen & _).
  pose proof (@read_points_nth _ _ _ _ _ _ _ Hpts) as (Hrows & _ & _).
  exists n. split; [assumption |]. split; [assumption |].
  split; [rewrite Es, Hlen; lia |]. split.
  - rewrite Esc. destruct (nScalars h >? 0) eqn:E.
    + apply Z.gtb_lt in E.
      pose proof (channels_length (nScalars h) rows) as Hc.
      destruct (channels (nScalars h) rows) as [| chan chans] eqn:Ec;
        [simpl in Hc; lia |].
      split; [assumption |]. split; [rewrite Hc; lia |].
      rewrite <- Ec. eapply Forall_impl; [| apply channels_each].
      intros chan' ->. rewrite Hrows. lia.
    + rewrite Z.gtb_ltb in E; apply Z.ltb_ge in E. lia.
  - rewrite Epr. destruct (nProperties h >? 0) eqn:E.
    + apply Z.gtb_lt in E. split; [assumption |].
      apply TrkLoopFacts.floats_at_ok in Hprops. destruct Hprops as (-> & _). lia.
    + rewrite Z.gtb_ltb in E; apply Z.ltb_ge in E. lia.
Qed.

(** The state the loop ends in is one it went through. *)
Lemma loop_reaches : forall buf h fuel offset acc r,
  reaches buf h offset acc ->
  trk_loop fuel buf h offset acc = Ok r ->
  exists offset', reaches buf h offset' r.
Proof.
  intros buf h. induction fuel as [| fuel IH]; intros offset acc r Hr H.
  - simpl in H. inv H. eauto.
  - cbn [trk_loop] in H.
    destruct (trk_pass buf h offset (length acc)) as [[| offset' s] | e] eqn:E;
      simpl in H; [inv H; eauto | | discriminate].
    eapply IH; [| eassumption]. eapply reaches_next; eassumption.
Qed.

Lemma parse_reaches : forall buf h r,
  parseStreamlines buf h = Ok r -> exists offset, reaches buf h offset r.
Proof.
  intros buf h r H. unfold parseStreamlines in H.
  eapply loop_reaches; [apply reaches_start | eassumption].
Qed.

Lemma body_bytes_app : forall h l s,
  body_bytes h (l ++ [s]) = body_bytes h l + record_bytes h s.
Proof.
  intros h l s. unfold body_bytes. induction l as [| a l IH]; simpl; [lia |].
  rewrite IH. lia.
Qed.

Lemma record_bytes_min : forall h s,
  0 <= nScalars h -> 0 <= nProperties h -> shaped h s -> 16 <= record_bytes h s.
Proof.
  intros h s HS HP (n & Hn & _ & Hl & _). unfold record_bytes.
  rewrite Hl. replace (3 * n) with (n * 3) by lia. rewrite Z.div_mul by lia. nia.
Qed.

(** Where the loop stands: past the header and the records decoded so
    far, with no more streamlines than the header declares. *)
Lemma reaches_accounts : forall buf h offset acc,
  0 <= nScalars h -> 0 <= nProperties h ->
  reaches buf h offset acc ->
  offset = body_offset h + body_bytes h acc
  /\ Forall (shaped h) acc
  /\ (acc <> [] -> offset <= byteLength buf)
  /\ (0 < nCount h -> Z.of_nat (length acc) <= nCount h).
Proof.
  intros buf h offset acc HS HP H.
  induction H as [| offset acc offset' s H IH Hp].
  - split; [simpl; lia |]. split; [constructor |]. split; [congruence |].
    simpl. lia.
  - destruct IH as (Ho & Hsh & _ & Hc).
    pose proof (@pass_shaped _ _ _ _ _ _ HS HP Hp) as Hs.
    pose proof (@TrkLoopFacts.pass_next _ _ _ _ _ _ Hp)
      as (n & Hn & Hr & _ & Hl & _ & Hb & _ & _ & _ & Hend).
    pose proof (@pass_record _ _ _ _ _ _ Hp)
      as (n' & pts & rows & off1 & props & Hn' & _ & Hpts & Hprops & Es & _ & _ & _ & Eo).
    assert (n' = n) by congruence. subst n'.
    pose proof (@TrkLoopFacts.read_points_ok _ _ _ _ _ _ _ Hpts) as (_ & Hoff & _).
    split.
    + rewrite body_bytes_app. unfold record_bytes. rewrite Hl.
      replace (3 * n) with (n * 3) by lia. rewrite Z.div_mul by lia.
      rewrite Eo, Hoff, Ho.
      destruct (nProperties h >? 0) eqn:E.
      * apply Z.gtb_lt in E. rewrite !Z2Nat.id by lia. ring.
      * rewrite Z.gtb_ltb in E; apply Z.ltb_ge in E.
        assert (nProperties h = 0) by lia. rewrite !Z2Nat.id by lia. lia.
    + split; [apply Forall_app; split; [assumption | constructor; [assumption | constructor]] |].
      split; [intros _; lia |].
      intros Hpos. rewrite length_app. simpl. unfold below_max in Hb.
      destruct (nCount h >? 0) eqn:E; [| rewrite Z.gtb_ltb in E; apply Z.ltb_ge in E; lia].
      apply Z.ltb_lt in Hb. lia.
Qed.

Lemma body_bytes_min : forall h acc,
  0 <= nScalars h -> 0 <= nProperties h -> Forall (shaped h) acc ->
  16 * Z.of_nat (length acc) <= body_bytes h acc.
Proof.
  intros h acc HS HP H. induction H as [| s acc Hs _ IH]; [simpl; lia |].
  cbn [body_bytes fold_right length]. fold (body_bytes h acc).
  pose proof (@record_bytes_min _ _ HS HP Hs). lia.
Qed.

Lemma validated_counts : forall h,
  validateTrkHeader h = Ok tt ->
  0 <= nScalars h <= 10 /\ 0 <= nProperties h <= 10 /\ hdrSize h = 1000.
Proof.
  intros h H. apply TrkHeaderFacts.validate_ok in H.
  destruct H as (H1 & H2 & _ & _ & H5). unfold count_ok in *. auto.
Qed.

End TrkRecordFacts.

(** X3.  Every streamline [parseTrkFile] returns has the shape its header
    announces: a count [n] in [1, 100000], [3 n] coordinates, a [scalars]
    entry exactly when the header has scalar channels (then one array of
    [n] values a channel), and a [properties] entry exactly when the header
    has properties (then one value a property). *)
Theorem trk_streamlines_shaped : forall (buf : list byte) (d : Trk.TrkData),
  Trk.parseTrkFile buf = Ok d ->
  Forall (TrkShape.shaped (Trk.header d)) (Trk.streamlines d).
Proof.
  intros buf d H. apply TrkHeaderFacts.parseTrkFile_ok in H.
  destruct H as (_ & _ & Hv & Hs).
  apply TrkRecordFacts.validated_counts in Hv. destruct Hv as (HS & HP & _).
  apply TrkRecordFacts.parse_reaches in Hs. destruct Hs as (offset & Hr).
  eapply TrkRecordFacts.reaches_accounts in Hr; [| lia | lia]. apply Hr.
Qed.

(** X4.  The layout of a TRK record.  Under a validated header, a pass of the
    body loop that decodes a record at [offset] has read the count [n]
    there; point [k] has its three coordinates at the start of its
    [4 * (3 + nScalars)]-byte slot and the value of scalar channel [c] 12
    bytes further on; the properties follow the last point; and the next
    record starts right after them. *)
Theorem trk_record_layout :
  forall (buf : list byte) (h : Trk.TrkHeader) (offset : Z) (count : nat)
         (offset' : Z) (s : Streamline),
    Trk.validateTrkHeader h = Ok tt ->
    Trk.trk_pass buf h offset count = Ok (Trk.Next offset' s) ->
    exists n : Z,
      let stride := 4 * (3 + Trk.nScalars h) in
      DataView.getInt32 buf offset true = Some n
      /\ offset' = offset + 4 + n * stride + 4 * Trk.nProperties h
      /\ (forall k j, 0 <= k < n -> 0 <= j < 3 ->
            nth_error (points s) (Z.to_nat (3 * k + j))
            = DataView.getFloat32 buf (offset + 4 + k * stride + 4 * j) true)
      /\ (forall k c, 0 <= k < n -> 0 <= c < Trk.nScalars h ->
            exists chans chan,
              scalars s = Some chans
              /\ nth_error chans (Z.to_nat c) = Some chan
              /\ nth_error chan (Z.to_nat k)
                 = DataView.getFloat32 buf (offset + 4 + k * stride + 12 + 4 * c) true)
      /\ (forall p, 0 <= p < Trk.nProperties h ->
            exists props,
              properties s = Some props
              /\ nth_error props (Z.to_nat p)
                 = DataView.getFloat32 buf (offset + 4 + n * stride + 4 * p) true).
Proof.
  intros buf h offset count offset' s Hv H.
  apply TrkRecordFacts.validated_counts in Hv. destruct Hv as (HS & HP & _).
  apply TrkRecordFacts.pass_record in H.
  destruct H as (n & pts & rows & off1 & props & Hn & Hr & Hpts & Hprops
                 & Es & _ & Esc & Epr & Eo).
  pose proof (@TrkLoopFacts.read_points_ok _ _ _ _ _ _ _ Hpts) as (_ & Hoff & _).
  pose proof (@TrkRecordFacts.read_points_nth _ _ _ _ _ _ _ Hpts) as (Hrows & Hrow & Hk).
  rewrite !Z2Nat.id in Hoff by lia.
  exists n. cbv zeta. split; [assumption |]. split.
  { rewrite Eo, Hoff. destruct (Trk.nProperties h >? 0) eqn:E.
    - rewrite Z2Nat.id by lia. ring.
    - rewrite Z.gtb_ltb in E; apply Z.ltb_ge in E. assert (Trk.nProperties h = 0) by lia. lia. }
  split; [| split].
  - intros k j Hkn Hj. rewrite Es.
    destruct (Hk (Z.to_nat k) ltac:(lia)) as (Hc & _).
    replace (Z.to_nat (3 * k + j)) with (3 * Z.to_nat k + Z.to_nat j)%nat by lia.
    rewrite (Hc (Z.to_nat j)) by lia. f_equal. rewrite !Z2Nat.id by lia. ring.
  - intros k c Hkn Hc. rewrite Esc.
    assert (E : (Trk.nScalars h >? 0) = true) by (apply Z.gtb_lt; lia). rewrite E.
    pose proof (TrkRecordFacts.channels_length (Trk.nScalars h) rows) as Hlen.
    destruct (Trk.channels (Trk.nScalars h) rows) as [| chan0 chans0] eqn:Ec;
      [simpl in Hlen; lia |].
    rewrite <- Ec.
    exists (Trk.channels (Trk.nScalars h) rows),
           (map (fun row => nth (Z.to_nat c) row 0%float) rows).
    split; [reflexivity |].
    split; [apply TrkRecordFacts.channels_nth; lia |].
    destruct (Hk (Z.to_nat k) ltac:(lia)) as (_ & row & Hr' & Hcs).
    rewrite nth_error_map, Hr'. cbn [option_map].
    specialize (Hcs (Z.to_nat c) ltac:(lia)).
    rewrite !Z2Nat.id in Hcs by lia.
    replace (offset + 4 + k * (4 * (3 + Trk.nScalars h)) + 12 + 4 * c)
      with (offset + 4 + k * (12 + 4 * Trk.nScalars h) + 12 + 4 * c) by ring.
    rewrite <- Hcs.
    destruct (nth_error row (Z.to_nat c)) as [v |] eqn:Ev.
    + f_equal. apply nth_error_nth. assumption.
    + apply nth_error_None in Ev.
      rewrite Forall_forall in Hrow. apply nth_error_In in Hr'.
      specialize (Hrow _ Hr'). lia.
  - intros p Hp. rewrite Epr.
    assert (E : (Trk.nProperties h >? 0) = true) by (apply Z.gtb_lt; lia).
    rewrite E in *. exists props. split; [reflexivity |].
    rewrite (@TrkRecordFacts.floats_at_nth _ _ _ _ Hprops (Z.to_nat p)) by lia.
    f_equal. rewrite Hoff, Z2Nat.id by lia. ring.
Qed.

(** X5.  The bytes of the buffer bound what [parseTrkFile] returns: the 1000
    bytes of the header and the records of the streamlines returned fit in
    the buffer, so there are at most [(byteLength - 1000) / 16]
    streamlines; and when the header declares a positive count there are
    no more streamlines than declared. *)
Theorem trk_streamlines_fit_the_buffer : forall (buf : list byte) (d : Trk.TrkData),
  Trk.parseTrkFile buf = Ok d ->
  1000 + TrkShape.body_bytes (Trk.header d) (Trk.streamlines d) <= byteLength buf
  /\ 1000 + 16 * Z.of_nat (length (Trk.streamlines d)) <= byteLength buf
  /\ (0 < Trk.nCount (Trk.header d) ->
      Z.of_nat (length (Trk.streamlines d)) <= Trk.nCount (Trk.header d)).
Proof.
  intros buf d H. apply TrkHeaderFacts.parseTrkFile_ok in H.
  destruct H as (Hh & _ & Hv & Hs).
  apply TrkReadFacts.parseHeader_size in Hh.
  apply TrkRecordFacts.validated_counts in Hv. destruct Hv as (HS & HP & Hz).
  apply TrkRecordFacts.parse_reaches in Hs. destruct Hs as (offset & Hr).
  eapply TrkRecordFacts.reaches_accounts in Hr; [| lia | lia].
  destruct Hr as (Ho & Hsh & Hin & Hc).
  assert (Hb : Trk.body_offset (Trk.header d) = 1000).
  { unfold Trk.body_offset. rewrite Hz. reflexivity. }
  pose proof (@TrkRecordFacts.body_bytes_min (Trk.header d) (Trk.streamlines d)
                ltac:(lia) ltac:(lia) Hsh) as Hmin.
  assert (Hfit : 1000 + TrkShape.body_bytes (Trk.header d) (Trk.streamlines d)
                 <= byteLength buf).
  { destruct (Trk.streamlines d) as [| s l] eqn:E.
    - simpl. lia.
    - rewrite <- Hb, <- Ho. apply Hin. discriminate. }
  split; [exact Hfit |]. split; [lia | exact Hc].
Qed.
(** ** The header [parseTrkFile] accepts *)

Module TrkAcceptFacts.
Import DataView Trk TrkSpec TrkShape.

Lemma filter_length : forall p s, (String.length (str_filter p s) <= String.length s)%nat.
Proof.
  intros p. induction s as [| c s IH]; simpl; [lia |].
  destruct (p c); simpl; lia.
Qed.

Lemma filter_all : forall p s,
  Forall (fun c => p c = true) (Str.chars (str_filter p s)).
Proof.
  intros p. induction s as [| c s IH]; simpl; [constructor |].
  destruct (p c) eqn:E; [| exact IH]. constructor; assumption.
Qed.

Lemma decode_length : forall bs, String.length (decode bs) = length bs.
Proof.
  induction bs as [| b bs IH]; [reflexivity |].
  unfold decode, string_of_list_byte in *. simpl. f_equal. exact IH.
Qed.

Lemma text_at_name : forall buf off n s,
  text_at buf off n = Ok s -> nonempty s = true ->
  s <> EmptyString
  /\ (String.length s <= n)%nat
  /\ Forall (fun c => code c <> 0) (Str.chars s).
Proof.
  intros buf off n s H Hne. unfold text_at in H.
  destruct (bytes_at buf off n) as [bs |] eqn:E; simpl in H; [| discriminate].
  inv H. apply TrkReadFacts.bytes_at_length in E.
  split; [intros C; rewrite C in Hne; discriminate |]. split.
  - unfold strip_nul. etransitivity; [apply filter_length |].
    rewrite decode_length. lia.
  - unfold strip_nul. eapply Forall_impl; [| apply filter_all].
    intros c Hc. simpl in Hc. apply negb_true_iff, Z.eqb_neq in Hc. exact Hc.
Qed.

(** The names kept from the slots [i], [i + 1], ...: no more of them
    than there are slots below [count]. *)
Lemma names_at_kept : forall buf count slots off i l,
  names_at buf off count i slots = Ok l ->
  Z.of_nat (length l) <= Z.max 0 (count - Z.of_nat i)
  /\ (length l <= slots)%nat
  /\ Forall name_ok l.
Proof.
  intros buf count. induction slots as [| slots IH]; intros off i l H;
    cbn [names_at] in H.
  - inv H. simpl. split; [lia |]. split; [lia | constructor].
  - ok_steps H. apply IH in Ha0. destruct Ha0 as (H1 & H2 & H3).
    destruct ((Z.of_nat i <? count) && nonempty a) eqn:E.
    + apply andb_true_iff in E. destruct E as (Ei & Ene). apply Z.ltb_lt in Ei.
      inv H. cbn [length]. split; [lia |]. split; [lia |].
      constructor; [| assumption].
      apply (@text_at_name _ _ _ _ Ha Ene).
    + inv H. split; [lia |]. split; [lia | assumption].
Qed.

Lemma parseHeader_reads : forall buf h,
  parseHeader buf = Ok h ->
  (exists d0 d1 d2,
      dim h = (d0, d1, d2)
      /\ getInt16 buf 6 true = Some d0
      /\ getInt16 buf 8 true = Some d1
      /\ getInt16 buf 10 true = Some d2)
  /\ text_at buf 0 6 = Ok (idString h)
  /\ names_at buf 38 (nScalars h) 0 10 = Ok (scalarNames h)
  /\ names_at buf 240 (nProperties h) 0 10 = Ok (propertyNames h).
Proof.
  intros buf h H. unfold parseHeader in H. ok_steps H. inv H. simpl.
  repeat match goal with X : rd _ = Ok _ |- _ => apply rd_ok in X end.
  split; [eauto 10 | auto].
Qed.

End TrkAcceptFacts.

(** X2.  What [parseTrkFile] accepts.  The buffer has between 1000 bytes and
    [MAX_FILE_SIZE]; the dimensions, read as signed 16-bit integers, lie in
    [0, 32767] (a dimension above that is read as negative and refused);
    the header size is 1000, so the body is always decoded from byte 1000;
    there are at most [nScalars <= 10] scalar names and [nProperties <= 10]
    property names, each of 1 to 20 characters without NUL. *)
Theorem trk_accepted_header : forall (buf : list byte) (d : Trk.TrkData),
  Trk.parseTrkFile buf = Ok d ->
  1000 <= byteLength buf <= MAX_FILE_SIZE
  /\ Forall (fun v => 0 <= v <= 32767) (triple_list (Trk.dim (Trk.header d)))
  /\ Trk.hdrSize (Trk.header d) = 1000
  /\ Trk.body_offset (Trk.header d) = 1000
  /\ Z.of_nat (length (Trk.scalarNames (Trk.header d))) <= Trk.nScalars (Trk.header d) <= 10
  /\ Z.of_nat (length (Trk.propertyNames (Trk.header d)))
     <= Trk.nProperties (Trk.header d) <= 10
  /\ Forall TrkShape.name_ok
            (Trk.scalarNames (Trk.header d) ++ Trk.propertyNames (Trk.header d)).
Proof.
  intros buf d H.
  assert (Hmax : byteLength buf <= MAX_FILE_SIZE).
  { unfold Trk.parseTrkFile in H.
    destruct (byteLength buf >? MAX_FILE_SIZE) eqn:E; [discriminate |].
    rewrite Z.gtb_ltb in E. apply Z.ltb_ge in E. exact E. }
  apply TrkHeaderFacts.parseTrkFile_ok in H. destruct H as (Hh & _ & Hv & _).
  pose proof (@TrkReadFacts.parseHeader_size _ _ Hh) as Hsize.
  apply TrkAcceptFacts.parseHeader_reads in Hh.
  destruct Hh as ((d0 & d1 & d2 & Ed & H0 & H1 & H2) & _ & Hsn & Hpn).
  apply TrkHeaderFacts.validate_ok in Hv.
  destruct Hv as (HS & HP & Hd & _ & Hz).
  unfold TrkSpec.count_ok in HS, HP.
  apply TrkAcceptFacts.names_at_kept in Hsn. destruct Hsn as (Hs1 & _ & Hs3).
  apply TrkAcceptFacts.names_at_kept in Hpn. destruct Hpn as (Hp1 & _ & Hp3).
  split; [lia |]. split.
  { rewrite Ed in *. cbn [triple_list] in *.
    apply TrkReadFacts.getInt16_range in H0, H1, H2.
    inversion Hd as [| ? ? Hd0 Hd']; subst.
    inversion Hd' as [| ? ? Hd1 Hd'']; subst.
    inversion Hd'' as [| ? ? Hd2 _]; subst.
    unfold TrkSpec.dimension_ok in *.
    repeat constructor; lia. }
  split; [exact Hz |].
  split; [unfold Trk.body_offset; rewrite Hz; reflexivity |].
  split; [lia |]. split; [lia |].
  apply Forall_app. split; assumption.
Qed.
(** ** The format detectors and the decoders *)

Module DetectFacts.
Import DataView Detect.

Lemma decode_cons : forall b bs,
  decode (b :: bs) = String (ascii_of_byte b) (decode bs).
Proof. reflexivity. Qed.

(** A decoded text begins with a decoded text exactly when the bytes
    do. *)
Lemma prefix_decode : forall p bs,
  String.prefix (decode p) (decode bs) = true <-> firstn (length p) bs = p.
Proof.
  induction p as [| b p IH]; intros bs.
  - simpl. destruct (decode bs); simpl; split; reflexivity.
  - destruct bs as [| c bs].
    + simpl. split; discriminate.
    + rewrite !decode_cons. cbn [String.prefix length firstn].
      destruct (ascii_dec (ascii_of_byte b) (ascii_of_byte c)) as [e | ne].
      * assert (b = c).
        { rewrite <- (byte_of_ascii_of_byte b), <- (byte_of_ascii_of_byte c), e.
          reflexivity. }
        subst c. rewrite IH. split; [intros ->; reflexivity | intros H; inv H; congruence].
      * split; [discriminate |]. intros H. inv H. congruence.
Qed.

Lemma startsWith_bytes : forall bs (p : string),
  startsWith (decode bs) p = true
  <-> firstn (length (Samples.text p)) bs = Samples.text p.
Proof.
  intros bs p. unfold startsWith.
  rewrite <- (string_of_list_byte_of_string p) at 1.
  apply prefix_decode.
Qed.

Lemma view_from_start : forall buf n,
  Z.of_nat n <= byteLength buf -> bytes_at buf 0 n = Some (firstn n buf).
Proof.
  intros buf n H. rewrite TrkReadFacts.bytes_at_total by lia. reflexivity.
Qed.

Lemma isTrkFile_bytes : forall buf,
  isTrkFile buf = true
  <-> 6 <= byteLength buf /\ firstn 5 buf = Samples.text "TRACK".
Proof.
  intros buf. unfold isTrkFile.
  destruct (byteLength buf <? 6) eqn:E.
  - apply Z.ltb_lt in E. split; [discriminate | lia].
  - apply Z.ltb_ge in E. rewrite view_from_start by (simpl; lia).
    rewrite startsWith_bytes. change (length (Samples.text "TRACK")) with 5%nat.
    rewrite firstn_firstn. change (Nat.min 5 6) with 5%nat. tauto.
Qed.

Lemma u8_inj : forall a b, u8 a = u8 b -> a = b.
Proof.
  intros a b H. unfold u8 in H. apply N2Z.inj in H.
  assert (E : Byte.of_N (Byte.to_N a) = Byte.of_N (Byte.to_N b)) by (rewrite H; reflexivity).
  rewrite !Byte.of_to_N in E. congruence.
Qed.

Lemma u8_range : forall b, 0 <= u8 b < 256.
Proof.
  intros b. unfold u8. pose proof (Byte.to_N_bounded b). lia.
Qed.

(** Two byte strings of one length with one little-endian value are
    equal. *)
Lemma le_value_inj : forall a b,
  length a = length b -> le_value a = le_value b -> a = b.
Proof.
  induction a as [| x a IH]; intros [| y b] Hl Hv; simpl in Hl; try discriminate.
  - reflexivity.
  - cbn [le_value] in Hv.
    pose proof (u8_range x). pose proof (u8_range y).
    assert (u8 x = u8 y /\ le_value a = le_value b) as (Hx & Hr) by lia.
    apply u8_inj in Hx. subst y. f_equal. apply IH; [lia | exact Hr].
Qed.

Lemma isTrxFile_bytes : forall buf,
  isTrxFile buf = Ok (match firstn 4 buf with
                      | [a; b; c; d] => le_value [a; b; c; d] =? 0x04034b50
                      | _ => false
                      end).
Proof.
  intros buf. unfold isTrxFile.
  destruct (byteLength buf <? 4) eqn:E.
  - apply Z.ltb_lt in E. unfold byteLength in E.
    destruct buf as [| a [| b [| c [| d buf]]]]; simpl in *; try reflexivity; lia.
  - apply Z.ltb_ge in E. unfold getUint32, uint_at.
    rewrite view_from_start by (simpl; lia). cbn [rd bind].
    unfold byteLength in E.
    destruct buf as [| a [| b [| c [| d buf]]]]; simpl in E; try lia.
    reflexivity.
Qed.

(** One more pass of the ZIP loop than the first: the loop returns no
    entry unless the buffer begins with the local header signature. *)
Lemma zip_loop_first : forall inflate fuel buf entries,
  Trx.zip_loop inflate fuel buf 0 [] = Ok entries -> entries <> [] ->
  4 < byteLength buf /\ getUint32 buf 0 true = Some 0x04034b50.
Proof.
  intros inflate fuel buf entries H Hne.
  destruct fuel as [| fuel]; [simpl in H; inv H; congruence |].
  cbn [Trx.zip_loop] in H.
  destruct (0 <? byteLength buf - 4) eqn:E; [| inv H; congruence].
  apply Z.ltb_lt in E. split; [lia |].
  destruct (getUint32 buf 0 true) as [sig |]; cbn [rd bind] in H; [| discriminate].
  destruct (sig =? 0x04034b50) eqn:Es; cbn [negb] in H; [| inv H; congruence].
  apply Z.eqb_eq in Es. congruence.
Qed.

End DetectFacts.

(** X6.  [isTrkFile] against [parseTrkFile].  The detector answers [true]
    exactly for the buffers of at least 6 bytes that begin with the five
    bytes TRACK; on such a buffer the decoder never reports a missing
    identifier.  The decoder removes NUL characters before its test and the
    detector does not: a header that begins with a NUL byte and then TRACK
    is decoded, and [isTrkFile] says [false] of it. *)
Theorem isTrkFile_is_stricter_than_parseTrkFile :
  (forall buf : list byte,
      Detect.isTrkFile buf = true
      <-> 6 <= byteLength buf /\ firstn 5 buf = Samples.text "TRACK")
  /\ (forall buf : list byte,
        Detect.isTrkFile buf = true -> Trk.parseTrkFile buf <> Err MissingTRACK)
  /\ Detect.isTrkFile Vectors.trk_nul_first = false
  /\ exists d, Trk.parseTrkFile Vectors.trk_nul_first = Ok d.
Proof.
  split; [apply DetectFacts.isTrkFile_bytes |]. split.
  - intros buf Hd Hp. apply DetectFacts.isTrkFile_bytes in Hd.
    destruct Hd as (Hlen & H5).
    unfold Trk.parseTrkFile in Hp.
    destruct (byteLength buf >? MAX_FILE_SIZE); [discriminate |].
    destruct (Trk.parseHeader buf) as [h | e] eqn:Eh; cbn [bind] in Hp;
      [| apply TrkReadFacts.parseHeader_err in Eh; congruence].
    destruct (startsWith (Trk.idString h) "TRACK") eqn:Es; cbn [negb] in Hp.
    + destruct (Trk.validateTrkHeader h) as [[] | e] eqn:Ev; cbn [bind] in Hp.
      * pose proof (@TrkRecordFacts.validated_counts _ Ev) as (HS & HP & Hz).
        destruct (@TrkLoopFacts.loop_total buf h (S (length buf)) (Trk.body_offset h) [])
          as (r & Hr); [lia | lia | unfold Trk.body_offset; rewrite Hz; simpl; lia |].
        unfold Trk.parseStreamlines in Hp. rewrite Hr in Hp. discriminate.
      * apply TrkHeaderFacts.validate_err in Ev. injection Hp as ->. exact Ev.
    + apply TrkAcceptFacts.parseHeader_reads in Eh.
      destruct Eh as (_ & Ht & _). unfold Trk.text_at in Ht.
      rewrite DetectFacts.view_from_start in Ht by (simpl; lia).
      cbn [rd bind] in Ht. injection Ht as Ht.
      destruct buf as [| b0 [| b1 [| b2 [| b3 [| b4 [| b5 buf]]]]]];
        try (unfold byteLength in Hlen; simpl in Hlen; lia).
      simpl in H5. injection H5 as -> -> -> -> ->.
      rewrite <- Ht in Es. cbn [firstn] in Es. rewrite !DetectFacts.decode_cons in Es.
      destruct (ascii_of_byte b5) as [[] [] [] [] [] [] [] []];
        vm_compute in Es; discriminate.
  - split; [vm_compute; reflexivity |].
    eexists. vm_compute. reflexivity.
Qed.
(** X8.  [isTrxFile] against [parseTrxFile].  The detector never raises; it
    answers [true] exactly for the buffers that begin with the four bytes
    of the local file header signature (P, K, 3, 4).  Of a buffer it
    answers [false] for, [parseTrxFile] finds no entry and reports a
    missing [header.json]; so every buffer [parseTrxFile] decodes is one
    the detector accepts, whatever the two library calls return. *)
Theorem isTrxFile_accepts_what_parseTrxFile_decodes :
  (forall buf : list byte,
      Detect.isTrxFile buf = Ok true <-> firstn 4 buf = [x50; x4b; x03; x04])
  /\ (forall buf : list byte,
        Detect.isTrxFile buf = Ok true \/ Detect.isTrxFile buf = Ok false)
  /\ (forall inflate parse (buf : list byte),
        Detect.isTrxFile buf = Ok false -> byteLength buf <= MAX_FILE_SIZE ->
        Trx.parseTrxFile inflate parse buf = Err MissingHeaderJson)
  /\ (forall inflate parse (buf : list byte) r,
        Trx.parseTrxFile inflate parse buf = Ok r -> Detect.isTrxFile buf = Ok true).
Proof.
  assert (Hiff : forall buf : list byte,
             Detect.isTrxFile buf = Ok true <-> firstn 4 buf = [x50; x4b; x03; x04]).
  { intros buf. rewrite DetectFacts.isTrxFile_bytes.
    destruct (firstn 4 buf) as [| a [| b [| c [| d [| e l]]]]] eqn:E;
      try (split; [discriminate | discriminate]).
    split.
    - intros H. injection H as H. apply Z.eqb_eq in H.
      apply DetectFacts.le_value_inj; [reflexivity | exact H].
    - intros H. rewrite H. reflexivity. }
  assert (Hbool : forall buf : list byte,
             Detect.isTrxFile buf = Ok true \/ Detect.isTrxFile buf = Ok false).
  { intros buf. rewrite DetectFacts.isTrxFile_bytes.
    match goal with |- Ok ?b = _ \/ _ => destruct b end; auto. }
  assert (Hfalse : forall inflate parse (buf : list byte),
             Detect.isTrxFile buf = Ok false -> byteLength buf <= MAX_FILE_SIZE ->
             Trx.parseTrxFile inflate parse buf = Err MissingHeaderJson).
  { intros inflate parse buf Hd Hlen. unfold Trx.parseTrxFile.
    destruct (byteLength buf >? MAX_FILE_SIZE) eqn:E; [apply Z.gtb_lt in E; lia |].
    destruct (Trx.parseZipEntries inflate buf) as [entries | e] eqn:Ez.
    - destruct entries as [| x entries]; [reflexivity |].
      unfold Trx.parseZipEntries in Ez.
      apply DetectFacts.zip_loop_first in Ez; [| discriminate].
      destruct Ez as (H4 & Hs). unfold Detect.isTrxFile in Hd.
      destruct (byteLength buf <? 4) eqn:E4; [apply Z.ltb_lt in E4; lia |].
      rewrite Hs in Hd. discriminate.
    - exfalso. unfold Trx.parseZipEntries in Ez. cbn [Trx.zip_loop] in Ez.
      unfold Detect.isTrxFile in Hd.
      destruct (0 <? byteLength buf - 4) eqn:E0; [| discriminate].
      apply Z.ltb_lt in E0.
      destruct (byteLength buf <? 4) eqn:E4; [apply Z.ltb_lt in E4; lia |].
      destruct (DataView.getUint32 buf 0 true) as [sig |]; cbn [rd bind] in Hd, Ez;
        [| discriminate].
      injection Hd as Hd. rewrite Hd in Ez. discriminate. }
  split; [exact Hiff |]. split; [exact Hbool |]. split; [exact Hfalse |].
  intros inflate parse buf r H.
  destruct (Hbool buf) as [Ht | Hf]; [exact Ht |].
  assert (Hlen : byteLength buf <= MAX_FILE_SIZE).
  { unfold Trx.parseTrxFile in H.
    destruct (byteLength buf >? MAX_FILE_SIZE) eqn:E; [discriminate |].
    rewrite Z.gtb_ltb in E. apply Z.ltb_ge in E. exact E. }
  rewrite (Hfalse inflate parse buf Hf Hlen) in H. discriminate.
Qed.

(** ** Searching a text *)

Module SearchFacts.

Local Open Scope string_scope.

Lemma prefix_spec : forall p s,
  String.prefix p s = true <-> exists b, s = p ++ b.
Proof.
  induction p as [| c p IH]; intros s.
  - destruct s; simpl; split; eauto.
  - destruct s as [| d s]; cbn [String.prefix].
    + split; [discriminate | intros (b & H); discriminate].
    + destruct (ascii_dec c d) as [-> | ne].
      * rewrite IH. split; intros (b & H); exists b; simpl in *; congruence.
      * split; [discriminate |]. intros (b & H). simpl in H. congruence.
Qed.

Lemma includes_spec : forall s p,
  Str.includes s p = true <-> exists a b, s = a ++ p ++ b.
Proof.
  induction s as [| c s IH]; intros p.
  - cbn [Str.includes]. rewrite orb_false_r, prefix_spec. split.
    + intros (b & H). exists "", b. exact H.
    + intros (a & b & H). destruct a as [| x a]; [| discriminate].
      exists b. exact H.
  - cbn [Str.includes]. rewrite orb_true_iff, prefix_spec, IH. split.
    + intros [(b & H) | (a & b & H)].
      * exists "", b. exact H.
      * exists (String c a), b. simpl. congruence.
    + intros (a & b & H). destruct a as [| x a].
      * left. exists b. exact H.
      * right. simpl in H. injection H as -> H. eauto.
Qed.

Lemma lower_app : forall a b,
  Str.toLowerCase (a ++ b) = Str.toLowerCase a ++ Str.toLowerCase b.
Proof.
  induction a as [| c a IH]; intros b; simpl; [reflexivity |].
  rewrite IH. reflexivity.
Qed.

Lemma lower_split : forall x y s,
  Str.toLowerCase s = x ++ y ->
  exists a b, s = a ++ b /\ Str.toLowerCase a = x /\ Str.toLowerCase b = y.
Proof.
  induction x as [| c x IH]; intros y s H.
  - exists "", s. auto.
  - destruct s as [| d s]; simpl in H; [discriminate |].
    injection H as Hc H. apply IH in H. destruct H as (a & b & -> & Ha & Hb).
    exists (String d a), b. simpl. rewrite Ha, Hc. auto.
Qed.

(** A lowercased text contains a word exactly when the text contains a
    spelling of it in some letter case. *)
Lemma lower_includes : forall s p,
  Str.includes (Str.toLowerCase s) p = true
  <-> exists a m b, s = a ++ m ++ b /\ Str.toLowerCase m = p.
Proof.
  intros s p. rewrite includes_spec. split.
  - intros (x & y & H). apply lower_split in H.
    destruct H as (a & r & -> & _ & H). apply lower_split in H.
    destruct H as (m & b & -> & Hm & _). eauto.
  - intros (a & m & b & -> & <-). rewrite !lower_app. eauto.
Qed.

Lemma first_hundred : forall buf : list byte,
  DataView.bytes_at buf 0 (Z.to_nat (Z.min 100 (byteLength buf)))
  = Some (firstn 100 buf).
Proof.
  intros buf. rewrite DetectFacts.view_from_start by (unfold byteLength; lia).
  f_equal. unfold byteLength.
  destruct (Z.le_ge_cases 100 (Z.of_nat (length buf))) as [H | H].
  - rewrite Z.min_l by lia. reflexivity.
  - rewrite Z.min_r by lia. rewrite Nat2Z.id.
    rewrite !firstn_all2 by lia. reflexivity.
Qed.

End SearchFacts.

(** X7.  [isTckFile] against [parseTckFile].  The detector answers [true]
    exactly when the text of the first 100 bytes contains the identifier
    in some letter case.  This is not the test of the decoder, which wants
    a header line that is the identifier, anywhere in the header: a file
    whose identifier line starts past byte 100 is decoded and not
    detected, and a file with the identifier inside a longer line is
    detected and refused by the decoder. *)
Theorem isTckFile_searches_the_first_100_bytes :
  (forall buf : list byte,
      Detect.isTckFile buf = true
      <-> exists a m b : string,
            decode (firstn 100 buf) = (a ++ m ++ b)%string
            /\ Str.toLowerCase m = "mrtrix tracks"%string)
  /\ (Detect.isTckFile Vectors.tck_late_magic = false
      /\ exists r, Tck.parseTckFile Vectors.tck_late_magic = Ok r)
  /\ (Detect.isTckFile Vectors.tck_embedded_magic = true
      /\ Tck.parseTckFile Vectors.tck_embedded_magic = Err MissingMrtrix).
Proof.
  split.
  - intros buf. unfold Detect.isTckFile. rewrite SearchFacts.first_hundred.
    apply SearchFacts.lower_includes.
  - split; (split; [vm_compute; reflexivity |]).
    + eexists. vm_compute. reflexivity.
    + vm_compute. reflexivity.
Qed.
(** ** The exceptions of the TCK decoder *)

Module TckErrorFacts.
Import DataView Tck TckSpec.

Lemma known_total : forall c buf offset,
  known c -> 0 <= offset -> offset + bytesPerFloat c <= byteLength buf ->
  exists v, reader c buf offset (littleEndian c) = Some v.
Proof.
  intros c buf offset (le & [-> | ->]) H0 Hb; cbn [reader littleEndian bytesPerFloat] in *.
  - unfold getFloat32.
    destruct (@TrkReadFacts.uint_at_total le buf offset 4 H0) as (v & ->);
      [simpl; lia | simpl; eauto].
  - unfold getFloat64.
    destruct (@TrkReadFacts.uint_at_total le buf offset 8 H0) as (v & ->);
      [simpl; lia | simpl; eauto].
Qed.

Lemma known_width : forall c, known c -> 4 <= bytesPerFloat c.
Proof.
  intros c (le & [-> | ->]); simpl; lia.
Qed.

(** From an offset inside the buffer no read of a pass is outside it. *)
Lemma pass_in_range : forall buf c offset cp sl,
  known c -> 0 <= offset -> tck_pass buf c offset cp sl <> Err RangeError.
Proof.
  intros buf c offset cp sl Hk H0 H. unfold tck_pass in H.
  pose proof (@known_width _ Hk) as Hw.
  destruct (offset + bytesPerFloat c * 3 <=? byteLength buf) eqn:E; [| discriminate].
  apply Z.leb_le in E.
  destruct (@known_total c buf offset Hk) as (x & Hx); [lia | lia |].
  destruct (@known_total c buf (offset + bytesPerFloat c) Hk) as (y & Hy); [lia | lia |].
  destruct (@known_total c buf (offset + bytesPerFloat c * 2) Hk) as (z & Hz);
    [lia | lia |].
  rewrite Hx, Hy, Hz in H. cbn [rd bind] in H.
  destruct (negb (isFinite x) && negb (isNaN x)); [discriminate |].
  destruct (isNaN x || isNaN y || isNaN z); [discriminate |].
  destruct (300000 <? Z.of_nat (length (cp ++ [x; y; z]))); discriminate.
Qed.

Lemma loop_in_range : forall buf c, known c ->
  forall fuel offset cp sl,
    0 <= offset -> tck_loop fuel buf c offset cp sl <> Err RangeError.
Proof.
  intros buf c Hk. induction fuel as [| fuel IH]; intros offset cp sl H0 H.
  - discriminate.
  - cbn [tck_loop] in H.
    destruct (tck_pass buf c offset cp sl) as [[r | offset' cp' sl'] | e] eqn:E;
      cbn [bind] in H.
    + discriminate.
    + apply (@TckLoopFacts.pass_forward _ _ _ _ _ _ _ _ Hk) in E. apply IH in H; [exact H | lia].
    + injection H as ->. exact (@pass_in_range buf c offset cp sl Hk H0 E).
Qed.

Lemma inherited_lookup : forall name,
  Obj.inherited name = true -> DATA_TYPES name = Inherited.
Proof.
  intros name H. unfold Obj.inherited in H. apply existsb_exists in H.
  destruct H as (x & Hin & Hx). apply String.eqb_eq in Hx. subst x.
  unfold Obj.prototype_names in Hin. simpl in Hin.
  repeat (destruct Hin as [<- | Hin]; [reflexivity |]). contradiction.
Qed.

Lemma parseHeader_datatype : forall buf h,
  parseHeader buf = Ok h -> DATA_TYPES (datatype h) <> Undefined.
Proof.
  intros buf h H. unfold parseHeader in H.
  destruct (headerEnd buf) as [e |]; [| discriminate].
  destruct (DATA_TYPES (f_datatype (scan_header buf e))) eqn:E;
    [| | discriminate]; inv H; simpl; rewrite E; discriminate.
Qed.

Lemma parseHeader_errors : forall buf e,
  parseHeader buf = Err e ->
  (e = MissingEND /\ headerEnd buf = None)
  \/ exists name, e = UnsupportedDatatype name /\ DATA_TYPES name = Undefined.
Proof.
  intros buf e H. unfold parseHeader in H.
  destruct (headerEnd buf) as [he |]; [| inv H; auto].
  right. destruct (DATA_TYPES (f_datatype (scan_header buf he))) eqn:E;
    try discriminate.
  inv H. eauto.
Qed.

End TckErrorFacts.

(** X9.  The exceptions of [parseTckFile].  It raises for a buffer above
    [MAX_FILE_SIZE], for a header without END marker, for a datatype that
    [DATA_TYPES] has no member for, for a missing identifier, for a
    streamline above the cap, and, when the header gives a negative file
    offset, for the read before the start of the buffer.  The second test
    of the datatype, in [parseStreamlines], never fails. *)
Theorem parseTckFile_errors : forall (buf : list byte) (e : error),
  Tck.parseTckFile buf = Err e ->
  (e = FileTooLarge /\ MAX_FILE_SIZE < byteLength buf)
  \/ (e = MissingEND /\ Tck.headerEnd buf = None)
  \/ (exists name, e = UnsupportedDatatype name /\ Tck.DATA_TYPES name = Tck.Undefined)
  \/ e = MissingMrtrix
  \/ e = StreamlineTooLong
  \/ (e = RangeError
      /\ exists h offset,
          Tck.parseHeader buf = Ok h /\ Tck.fileOffset h = Some offset /\ offset < 0).
Proof.
  intros buf e H. unfold Tck.parseTckFile in H.
  destruct (byteLength buf >? MAX_FILE_SIZE) eqn:E0.
  { apply Z.gtb_lt in E0. inv H. auto. }
  destruct (Tck.parseHeader buf) as [h | e'] eqn:Eh; cbn [bind] in H.
  2:{ inv H. apply TckErrorFacts.parseHeader_errors in Eh.
      destruct Eh as [Hm | Hu]; auto. }
  destruct (Tck.has_magic h); cbn [negb] in H; [| inv H; auto 6].
  destruct (Tck.parseStreamlines buf h) as [sl | e'] eqn:Es; cbn [bind] in H;
    [discriminate |].
  inv H. unfold Tck.parseStreamlines in Es.
  pose proof (@TckErrorFacts.parseHeader_datatype _ _ Eh) as Hd.
  destruct (Tck.DATA_TYPES (Tck.datatype h)) as [c | |] eqn:Ed;
    [| discriminate | congruence].
  destruct (Tck.fileOffset h) as [offset |] eqn:Eo; [| discriminate].
  pose proof (@TckLoopFacts.DATA_TYPES_known _ _ Ed) as Hk.
  destruct (@TckLoopFacts.loop_errors _ _ _ _ _ _ _ Es) as [-> | ->]; [| auto 6].
  do 5 right. split; [reflexivity |]. exists h, offset.
  split; [reflexivity |]. split; [assumption |].
  destruct (Z.lt_ge_cases offset 0) as [Hneg | Hpos]; [exact Hneg |].
  exfalso. exact (@TckErrorFacts.loop_in_range buf c Hk _ offset [] [] Hpos Es).
Qed.

(** X10.  A datatype that is the name of a member every object inherits
    ([toString], [constructor], ...) passes both tests of the datatype,
    being found in [DATA_TYPES]; it has none of the three fields of a
    configuration, the triplet size is [NaN], and the loop test fails at
    once: the file is decoded to no streamline. *)
Theorem tck_inherited_datatype_decodes_nothing :
  forall (buf : list byte) (h : Tck.TckHeader),
    byteLength buf <= MAX_FILE_SIZE ->
    Tck.parseHeader buf = Ok h ->
    Obj.inherited (Tck.datatype h) = true ->
    Tck.has_magic h = true ->
    exists r,
      Tck.parseTckFile buf = Ok r
      /\ Unified.streamlines r = []
      /\ Unified.nCount (Unified.header r) = 0%nat.
Proof.
  intros buf h Hlen Hh Hi Hm. unfold Tck.parseTckFile.
  destruct (byteLength buf >? MAX_FILE_SIZE) eqn:E; [apply Z.gtb_lt in E; lia |].
  rewrite Hh. cbn [bind]. rewrite Hm. cbn [negb].
  unfold Tck.parseStreamlines. rewrite (@TckErrorFacts.inherited_lookup _ Hi).
  cbn [bind]. eexists. split; [reflexivity |]. split; reflexivity.
Qed.
(** ** Half-precision values *)

Module HalfFacts.
Import DataView Trx TrxFiles.

Lemma upto_in : forall n z h, z <= h < z + Z.of_nat n -> In h (Samples.upto n z).
Proof.
  induction n as [| n IH]; intros z h H; [lia |].
  cbn [Samples.upto]. destruct (Z.eq_dec h z) as [-> | ne]; [left; reflexivity |].
  right. apply IH. lia.
Qed.

(** The 65536 patterns, one by one. *)
Lemma every_half_ok : forallb half_ok (Samples.upto (Z.to_nat 65536) 0) = true.
Proof. vm_compute. reflexivity. Qed.

Lemma half_agrees : forall h, 0 <= h < 65536 ->
  float16ToFloat32 h = float_of_bits 5 10 h
  /\ fround (float16ToFloat32 h) = float16ToFloat32 h.
Proof.
  intros h Hh. pose proof every_half_ok as H.
  rewrite forallb_forall in H. specialize (H h (@upto_in (Z.to_nat 65536) 0 h ltac:(lia))).
  unfold half_ok in H. apply andb_true_iff in H. destruct H as (H1 & H2).
  apply FloatAxioms.Leibniz.eqb_spec in H1, H2. auto.
Qed.

End HalfFacts.

(** X14.  [float16ToFloat32] decodes IEEE 754 binary16: for every 16-bit
    pattern it returns the number the pattern denotes (zeros with their
    sign, subnormals, normals, the infinities, NaN), and that number is a
    binary32 value, so the [Float32Array] of positions holds it exactly. *)
Theorem float16ToFloat32_is_binary16 : forall h : Z,
  0 <= h < 65536 ->
  Trx.float16ToFloat32 h = DataView.float_of_bits 5 10 h
  /\ DataView.fround (Trx.float16ToFloat32 h) = Trx.float16ToFloat32 h.
Proof.
  exact HalfFacts.half_agrees.
Qed.
(** ** The typed arrays of a TRX archive *)

Module ArrayFacts.
Import DataView Trx TrxFiles.

Lemma read_each_ok : forall (A : Type) (get : Z -> option A) width count i l,
  read_each get width i count = Ok l ->
  length l = count
  /\ forall k, (k < count)%nat -> nth_error l k = get ((i + Z.of_nat k) * width).
Proof.
  intros A get width. induction count as [| count IH]; intros i l H;
    cbn [read_each] in H.
  - inv H. split; [reflexivity |]. intros k Hk. lia.
  - ok_steps H. inv H. apply rd_ok in Ha. apply IH in Ha0.
    destruct Ha0 as (Hl & Hk). split; [simpl; lia |].
    intros [| k] Hlt.
    + simpl. rewrite Z.add_0_r. congruence.
    + cbn [nth_error]. rewrite Hk by lia. f_equal. lia.
Qed.

Lemma read_each_total : forall (A : Type) (get : Z -> option A) width count i,
  (forall k, (k < count)%nat -> exists v, get ((i + Z.of_nat k) * width) = Some v) ->
  exists l, read_each get width i count = Ok l.
Proof.
  intros A get width. induction count as [| count IH]; intros i H;
    cbn [read_each]; [eauto |].
  destruct (H 0%nat ltac:(lia)) as (v & Hv). rewrite Z.add_0_r in Hv.
  rewrite Hv. cbn [rd bind].
  destruct (IH (i + 1)) as (l & Hl).
  - intros k Hk. destruct (H (S k) ltac:(lia)) as (w & Hw). exists w.
    rewrite <- Hw. f_equal. lia.
  - rewrite Hl. cbn [bind]. eauto.
Qed.

Lemma read_each_err : forall (A : Type) (get : Z -> option A) width count i e,
  read_each get width i count = Err e -> e = RangeError.
Proof.
  intros A get width. induction count as [| count IH]; intros i e H;
    cbn [read_each] in H; [discriminate |].
  destruct (get (i * width)); cbn [rd bind] in H; [| congruence].
  destruct (read_each get width (i + 1) count) eqn:E; cbn [bind] in H;
    [discriminate |].
  inv H. eapply IH; eassumption.
Qed.

(** A typed array over [data] with elements of [width] bytes, each read
    by a getter that succeeds inside [data]: one element for every
    [width] bytes when the length is a multiple of [width], and the
    exception of a read outside [data] otherwise. *)
Lemma typed_array_spec : forall (A : Type) (data : list byte) width (get : Z -> option A),
  0 < width ->
  (forall o, 0 <= o -> o + width <= byteLength data -> exists v, get o = Some v) ->
  if byteLength data mod width =? 0
  then exists l,
         typed_array data width get = Ok l
         /\ Z.of_nat (length l) = byteLength data / width
         /\ forall i, 0 <= i < byteLength data / width ->
                      nth_error l (Z.to_nat i) = get (i * width)
  else typed_array data width get = Err RangeError.
Proof.
  intros A data width get Hw Hget. unfold typed_array.
  destruct (byteLength data mod width =? 0) eqn:E; [| reflexivity].
  apply Z.eqb_eq in E.
  assert (Hlen : 0 <= byteLength data) by (unfold byteLength; lia).
  pose proof (Z.div_pos _ _ Hlen Hw) as Hq.
  pose proof (Z_div_mod_eq_full (byteLength data) width) as Hd.
  destruct (@read_each_total A get width (Z.to_nat (byteLength data / width)) 0)
    as (l & Hl).
  - intros k Hk. apply Hget; nia.
  - exists l. split; [exact Hl |].
    apply read_each_ok in Hl. destruct Hl as (Hn & Hk).
    split; [lia |]. intros i Hi. rewrite Hk by lia.
    f_equal. lia.
Qed.

Lemma uint_total : forall data n o,
  0 <= o -> o + Z.of_nat n <= byteLength data ->
  exists v, uint_at true data o n = Some v.
Proof.
  intros data n o H0 Hb. apply TrkReadFacts.uint_at_total; assumption.
Qed.

Lemma dtype_cases : forall (names : list string) (dtype : string),
  existsb (String.eqb dtype) names = true -> In dtype names.
Proof.
  intros names dtype H. apply existsb_exists in H. destruct H as (x & Hin & Hx).
  apply String.eqb_eq in Hx. subst x. exact Hin.
Qed.

End ArrayFacts.

(** X15.  [parsePositions], by the element type read off the file name.  For
    [float16], [float32] and [float64] and data whose length is a multiple
    of the element width (2, 4, 8) it returns one number for every element:
    the binary16 value, the binary32 value, or the binary64 value rounded to
    binary32, of the little-endian bytes of the element.  Data of any other
    length end in the exception of a read outside the data, and any other
    element type in the unsupported-type error. *)
Theorem parsePositions_by_element_type : forall (filename : string) (data : list byte),
  let dtype := TrxFiles.dtype_of filename in
  match TrxFiles.positions_width dtype with
  | None => Trx.parsePositions filename data = Err (UnsupportedPositionsType dtype)
  | Some width =>
      if byteLength data mod width =? 0
      then exists positions,
             Trx.parsePositions filename data = Ok positions
             /\ Z.of_nat (length positions) = byteLength data / width
             /\ forall i, 0 <= i < byteLength data / width ->
                          nth_error positions (Z.to_nat i)
                          = TrxFiles.position_at dtype data (i * width)
      else Trx.parsePositions filename data = Err RangeError
  end.
Proof.
  intros filename data dtype.
  unfold Trx.parsePositions, TrxFiles.positions_width, TrxFiles.position_at.
  fold (TrxFiles.dtype_of filename). fold dtype.
  destruct (String.eqb dtype "float16") eqn:E16.
  { pose proof (@ArrayFacts.typed_array_spec float data 2
                  (fun o => option_map Trx.float16ToFloat32
                                       (DataView.getUint16 data o true))) as H.
    destruct (byteLength data mod 2 =? 0) eqn:Em.
    - destruct H as (l & Hl & Hn & Hk); [lia | |].
      + intros o H0 Hb. unfold DataView.getUint16.
        destruct (@ArrayFacts.uint_total data 2 o H0) as (v & ->); [simpl; lia |].
        simpl. eauto.
      + exists l. split; [exact Hl |]. split; [exact Hn |].
        intros i Hi. rewrite (Hk i Hi). unfold DataView.getUint16.
        destruct (DataView.uint_at true data (i * 2) 2) as [v |] eqn:Ev; [| reflexivity].
        apply TrkReadFacts.uint_at_range in Ev. cbn [option_map]. f_equal.
        apply HalfFacts.half_agrees. change (256 ^ Z.of_nat 2) with 65536 in Ev. lia.
    - apply H; [lia |].
      intros o H0 Hb. unfold DataView.getUint16.
      destruct (@ArrayFacts.uint_total data 2 o H0) as (v & ->); [simpl; lia |].
      simpl. eauto. }
  destruct (String.eqb dtype "float32") eqn:E32.
  { pose proof (@ArrayFacts.typed_array_spec float data 4
                  (fun o => DataView.getFloat32 data o true)) as H.
    destruct (byteLength data mod 4 =? 0) eqn:Em; apply H; try lia;
      intros o H0 Hb; unfold DataView.getFloat32;
      (destruct (@ArrayFacts.uint_total data 4 o H0) as (v & ->); [simpl; lia |]);
      simpl; eauto. }
  destruct (String.eqb dtype "float64") eqn:E64; [| reflexivity].
  pose proof (@ArrayFacts.typed_array_spec float data 8
                (fun o => option_map DataView.fround (DataView.getFloat64 data o true))) as H.
  destruct (byteLength data mod 8 =? 0) eqn:Em; apply H; try lia;
    intros o H0 Hb; unfold DataView.getFloat64;
    (destruct (@ArrayFacts.uint_total data 8 o H0) as (v & ->); [simpl; lia |]);
    simpl; eauto.
Qed.

(** X16.  [parseOffsets], by the element type read off the file name.  For
    [uint64], [int64], [uint32] and [int32] and data whose length is a
    multiple of the element width it returns one integer for every element,
    the little-endian value of its bytes, unsigned or in two's complement;
    so every offset lies in the interval of its type, and a signed type can
    give negative offsets.  Data of any other length end in the exception
    of a read outside the data, any other element type in the
    unsupported-type error. *)
Theorem parseOffsets_by_element_type : forall (filename : string) (data : list byte),
  let dtype := TrxFiles.dtype_of filename in
  match TrxFiles.offsets_width dtype with
  | None => Trx.parseOffsets filename data = Err (UnsupportedOffsetsType dtype)
  | Some width =>
      if byteLength data mod width =? 0
      then exists offsets,
             Trx.parseOffsets filename data = Ok offsets
             /\ Z.of_nat (length offsets) = byteLength data / width
             /\ (forall i, 0 <= i < byteLength data / width ->
                           nth_error offsets (Z.to_nat i)
                           = TrxFiles.offset_value dtype data (i * width))
             /\ Forall (fun v => fst (TrxFiles.offsets_range dtype) <= v
                                 < snd (TrxFiles.offsets_range dtype)) offsets
      else Trx.parseOffsets filename data = Err RangeError
  end.
Proof.
  intros filename data dtype.
  unfold Trx.parseOffsets, TrxFiles.offsets_width, TrxFiles.offset_value,
    TrxFiles.offsets_range.
  fold (TrxFiles.dtype_of filename). fold dtype.
  assert (Hall : forall (width : Z) (n : nat) (get : Z -> option Z) (lo hi : Z),
             0 < width -> width = Z.of_nat n ->
             (forall o, 0 <= o -> o + width <= byteLength data -> exists v, get o = Some v) ->
             (forall o v, get o = Some v -> lo <= v < hi) ->
             if byteLength data mod width =? 0
             then exists offsets,
                 Trx.typed_array data width get = Ok offsets
                 /\ Z.of_nat (length offsets) = byteLength data / width
                 /\ (forall i, 0 <= i < byteLength data / width ->
                               nth_error offsets (Z.to_nat i) = get (i * width))
                 /\ Forall (fun v => fst (lo, hi) <= v < snd (lo, hi)) offsets
             else Trx.typed_array data width get = Err RangeError).
  { intros width n get lo hi Hw Hn Hget Hrange.
    pose proof (@ArrayFacts.typed_array_spec Z data width get Hw Hget) as H.
    destruct (byteLength data mod width =? 0); [| exact H].
    destruct H as (l & Hl & Hlen & Hk). exists l.
    split; [exact Hl |]. split; [exact Hlen |]. split; [exact Hk |].
    apply Forall_forall. intros v Hin. apply In_nth_error in Hin.
    destruct Hin as (k & Hin). simpl.
    assert (Hlt : (k < length l)%nat) by (apply nth_error_Some; congruence).
    specialize (Hk (Z.of_nat k) ltac:(lia)). rewrite Nat2Z.id, Hin in Hk.
    symmetry in Hk. eapply Hrange; eassumption. }
  destruct (String.eqb dtype "uint64") eqn:E1.
  { apply (Hall 8 8%nat); [lia | reflexivity | |].
    - intros o H0 Hb. unfold DataView.getBigUint64.
      apply ArrayFacts.uint_total; simpl; lia.
    - intros o v Hv. unfold DataView.getBigUint64 in Hv.
      apply TrkReadFacts.uint_at_range in Hv. exact Hv. }
  destruct (String.eqb dtype "int64") eqn:E2.
  { apply (Hall 8 8%nat); [lia | reflexivity | |].
    - intros o H0 Hb. unfold DataView.getBigInt64.
      destruct (@ArrayFacts.uint_total data 8 o H0) as (v & ->); [simpl; lia |].
      simpl. eauto.
    - intros o v Hv. unfold DataView.getBigInt64 in Hv.
      destruct (DataView.uint_at true data o 8) as [u |] eqn:Eu; [| discriminate].
      apply TrkReadFacts.uint_at_range in Eu. simpl in Hv. inv Hv.
      unfold DataView.to_signed.
      change (256 ^ Z.of_nat 8) with (2 ^ 64) in Eu.
      change (2 ^ (64 - 1)) with (2 ^ 63).
      destruct (u <? 2 ^ 63) eqn:C; [apply Z.ltb_lt in C | apply Z.ltb_ge in C]; lia. }
  destruct (String.eqb dtype "uint32") eqn:E3.
  { apply (Hall 4 4%nat); [lia | reflexivity | |].
    - intros o H0 Hb. unfold DataView.getUint32.
      apply ArrayFacts.uint_total; simpl; lia.
    - intros o v Hv. unfold DataView.getUint32 in Hv.
      apply TrkReadFacts.uint_at_range in Hv. exact Hv. }
  destruct (String.eqb dtype "int32") eqn:E4; [| reflexivity].
  apply (Hall 4 4%nat); [lia | reflexivity | |].
  - intros o H0 Hb. unfold DataView.getInt32.
    destruct (@ArrayFacts.uint_total data 4 o H0) as (v & ->); [simpl; lia |].
    simpl. eauto.
  - intros o v Hv. unfold DataView.getInt32 in Hv.
    destruct (DataView.uint_at true data o 4) as [u |] eqn:Eu; [| discriminate].
    apply TrkReadFacts.uint_at_range in Eu. simpl in Hv. inv Hv.
    unfold DataView.to_signed.
    change (256 ^ Z.of_nat 4) with (2 ^ 32) in Eu.
    change (2 ^ (32 - 1)) with (2 ^ 31).
    destruct (u <? 2 ^ 31) eqn:C; [apply Z.ltb_lt in C | apply Z.ltb_ge in C]; lia.
Qed.
(** ** File names and the header of a TRX archive *)

Module NameFacts.
Import Trx TrxFiles.
Local Open Scope string_scope.

Lemma split_on_nonempty : forall c s, Str.split_on c s <> [].
Proof.
  intros c s. destruct s as [| d s]; simpl; [discriminate |].
  destruct (Ascii.eqb d c); [discriminate |].
  destruct (Str.split_on c s); discriminate.
Qed.

Lemma split_on_free : forall c s, free_of c s -> Str.split_on c s = [s].
Proof.
  intros c. induction s as [| d s IH]; intros H; [reflexivity |].
  unfold free_of in H. simpl in H. inversion H as [| ? ? Hd Hs]; subst.
  simpl. destruct (Ascii.eqb d c) eqn:E; [apply Ascii.eqb_eq in E; congruence |].
  rewrite (IH Hs). reflexivity.
Qed.

Lemma last_cons : forall (A : Type) (a : A) l d, l <> [] -> last (a :: l) d = last l d.
Proof.
  intros A a l d H. destruct l; [congruence | reflexivity].
Qed.

(** The last piece of a text cut at [c] is the last piece of what
    follows an occurrence of [c]. *)
Lemma last_after_separator : forall c a b d,
  last (Str.split_on c (a ++ String c b)) d = last (Str.split_on c b) d.
Proof.
  intros c. induction a as [| x a IH]; intros b d.
  - simpl. rewrite Ascii.eqb_refl. apply last_cons, split_on_nonempty.
  - simpl. destruct (Ascii.eqb x c).
    + rewrite last_cons by apply split_on_nonempty. apply IH.
    + specialize (IH b d).
      destruct (Str.split_on c (a ++ String c b)) as [| first others] eqn:E;
        [exfalso; eapply split_on_nonempty; eassumption |].
      destruct others as [| second others].
      * (* one piece only: impossible, the text holds [c] *)
        exfalso. clear IH.
        assert (Hlen : forall s, (2 <= length (Str.split_on c (s ++ String c b)))%nat).
        { induction s as [| y s IHs]; simpl.
          - rewrite Ascii.eqb_refl. simpl.
            pose proof (@split_on_nonempty c b).
            destruct (Str.split_on c b); [congruence | simpl; lia].
          - destruct (Ascii.eqb y c); [simpl; lia |].
            destruct (Str.split_on c (s ++ String c b)) as [| f o];
              [simpl in IHs; lia | exact IHs]. }
        specialize (Hlen a). rewrite E in Hlen. simpl in Hlen. lia.
      * rewrite <- IH. reflexivity.
Qed.

(** A tail without [c] stays on the last piece. *)
Lemma last_with_free_tail : forall c a b,
  free_of c b ->
  last (Str.split_on c (a ++ b)) "" = last (Str.split_on c a) "" ++ b.
Proof.
  intros c. induction a as [| x a IH]; intros b H.
  - simpl. rewrite (split_on_free H). reflexivity.
  - simpl. destruct (Ascii.eqb x c).
    + rewrite !last_cons by apply split_on_nonempty. apply IH. exact H.
    + specialize (IH b H).
      destruct (Str.split_on c (a ++ b)) as [| f o] eqn:E1;
        [exfalso; eapply split_on_nonempty; eassumption |].
      destruct (Str.split_on c a) as [| f' o'] eqn:E2;
        [exfalso; eapply split_on_nonempty; eassumption |].
      assert (Hsame : forall s t, free_of c t ->
                 match Str.split_on c (s ++ t), Str.split_on c s with
                 | [_], [_] => True
                 | _ :: _ :: _, _ :: _ :: _ => True
                 | _, _ => False
                 end).
      { induction s as [| y s IHs]; intros t Ht.
        - simpl. rewrite (split_on_free Ht). exact I.
        - simpl. destruct (Ascii.eqb y c).
          + pose proof (@split_on_nonempty c (s ++ t)).
            pose proof (@split_on_nonempty c s).
            destruct (Str.split_on c (s ++ t)); [congruence |].
            destruct (Str.split_on c s); [congruence | exact I].
          + specialize (IHs t Ht).
            destruct (Str.split_on c (s ++ t)) as [| ? [| ? ?]];
              destruct (Str.split_on c s) as [| ? [| ? ?]]; auto. }
      specialize (Hsame a b H). rewrite E1, E2 in Hsame.
      destruct o as [| s1 o]; destruct o' as [| s1' o']; try contradiction.
      * simpl in *. congruence.
      * exact IH.
Qed.

End NameFacts.

(** X17.  The element type of a file of a TRX archive is what follows the last
    dot of its name, whatever the directories and the dots before it: for
    a name [p ++ "." ++ ext], where [ext] is ASCII text that holds no dot
    and no slash, it is [ext] with its capitals lowered.  An ASCII name
    without any dot or slash is its own element type, lowered. *)
Theorem trx_element_type_is_the_extension :
  (forall p ext : string,
      TrxFiles.ascii_only ext ->
      TrxFiles.free_of "."%char ext -> TrxFiles.free_of "/"%char ext ->
      TrxFiles.dtype_of (p ++ String "."%char ext) = Str.toLowerASCII ext)
  /\ (forall name : string,
        TrxFiles.ascii_only name ->
        TrxFiles.free_of "."%char name -> TrxFiles.free_of "/"%char name ->
        TrxFiles.dtype_of name = Str.toLowerASCII name).
Proof.
  split.
  - intros p ext _ Hdot Hslash. unfold TrxFiles.dtype_of, Trx.basename.
    assert (Hfree : TrxFiles.free_of "/"%char (String "."%char ext)).
    { unfold TrxFiles.free_of in *. simpl. constructor; [discriminate | exact Hslash]. }
    rewrite (NameFacts.last_with_free_tail p Hfree).
    set (q := last (Str.split_on "/"%char p) EmptyString).
    assert (Hne : nonempty (q ++ String "."%char ext) = true).
    { destruct q; reflexivity. }
    rewrite Hne. rewrite NameFacts.last_after_separator.
    rewrite (NameFacts.split_on_free Hdot). reflexivity.
  - intros name _ Hdot Hslash. unfold TrxFiles.dtype_of, Trx.basename.
    rewrite (NameFacts.split_on_free Hslash). simpl.
    destruct (nonempty name); rewrite (NameFacts.split_on_free Hdot); reflexivity.
Qed.
(** ** The header of a TRX archive *)

Module TrxHeaderFacts.
Import Trx TrxFiles.

Lemma matrix_row_json : forall row r,
  matrix_row row = Some r -> row = row_json r /\ length r = 4%nat.
Proof.
  intros row r H. unfold matrix_row in H.
  destruct row as [| | | | items |]; try discriminate.
  destruct items as [| [| | a | | |] [| [| | b | | |] [| [| | c | | |]
                    [| [| | d | | |] [| ? ?]]]]]; try discriminate.
  inv H. split; reflexivity.
Qed.

Lemma matrix_rows_json : forall rows m,
  matrix_rows rows = Ok m ->
  rows = map row_json m /\ Forall (fun row => length row = 4%nat) m.
Proof.
  induction rows as [| row rows IH]; intros m H; cbn [matrix_rows] in H.
  - inv H. split; [reflexivity | constructor].
  - destruct (matrix_row row) as [r |] eqn:E; [| discriminate].
    ok_steps H. inv H. apply matrix_row_json in E. destruct E as (-> & Hr).
    apply IH in Ha. destruct Ha as (-> & Hm).
    split; [reflexivity | constructor; assumption].
Qed.

Lemma matrix_rows_back : forall m,
  Forall (fun row => length row = 4%nat) m -> matrix_rows (map row_json m) = Ok m.
Proof.
  induction m as [| r m IH]; intros H; [reflexivity |].
  inversion H as [| ? ? Hr Hm]; subst.
  destruct r as [| a [| b [| c [| d [| ? ?]]]]]; try discriminate.
  cbn [map matrix_rows row_json matrix_row]. rewrite (IH Hm). reflexivity.
Qed.

Lemma nonneg_integer_count : forall v z,
  nonneg_integer v = Some z <-> count_json v z.
Proof.
  intros v z. unfold nonneg_integer, count_json. split.
  - intros H. destruct v as [[| | x | | |] |]; try discriminate.
    destruct (integer_of x) as [k |] eqn:E; [| discriminate].
    destruct (0 <=? k) eqn:C; [| discriminate]. inv H.
    apply Z.leb_le in C. eauto.
  - intros (x & -> & Hx & Hz). rewrite Hx.
    apply Z.leb_le in Hz. rewrite Hz. reflexivity.
Qed.

End TrxHeaderFacts.

(** X18.  [validateTrxHeader] returns a header exactly for a JSON object with
    the four members well formed: a [VOXEL_TO_RASMM] of four rows of four
    numbers, a [DIMENSIONS] of three non-negative integers, and
    non-negative integers for [NB_STREAMLINES] and [NB_VERTICES]; the
    header returned holds the values of the members.  Anything else, an
    array or a primitive value included, raises. *)
Theorem validateTrxHeader_accepts_well_formed_objects :
  forall (obj : Trx.json) (h : Trx.TrxHeader),
    Trx.validateTrxHeader obj = Ok h <-> TrxFiles.describes obj h.
Proof.
  intros obj h. split.
  - intros H. unfold Trx.validateTrxHeader in H.
    destruct obj as [| | | | items | members]; try discriminate.
    + cbn [Trx.property] in H.
      destruct (Trx.member members "VOXEL_TO_RASMM") as [[| | | | rows |] |] eqn:Em;
        try discriminate.
      destruct rows as [| r0 [| r1 [| r2 [| r3 [| ? ?]]]]]; try discriminate.
      apply bind_ok in H. destruct H as (matrix & Hm & H).
      apply TrxHeaderFacts.matrix_rows_json in Hm. destruct Hm as (Hrows & Hlen).
      destruct (Trx.member members "DIMENSIONS") as [[| | | | dims |] |] eqn:Ed;
        try discriminate.
      destruct dims as [| d0 [| d1 [| d2 [| ? ?]]]]; try discriminate.
      destruct (Trx.nonneg_integer (Some d0)) as [x |] eqn:E0; [| discriminate].
      destruct (Trx.nonneg_integer (Some d1)) as [y |] eqn:E1; [| discriminate].
      destruct (Trx.nonneg_integer (Some d2)) as [z |] eqn:E2; [| discriminate].
      destruct (Trx.nonneg_integer (Trx.member members "NB_STREAMLINES")) as [nb |] eqn:E3;
        [| discriminate].
      destruct (Trx.nonneg_integer (Trx.member members "NB_VERTICES")) as [nv |] eqn:E4;
        [| discriminate].
      inv H. exists members. cbn [Trx.VOXEL_TO_RASMM Trx.DIMENSIONS Trx.NB_STREAMLINES
                                 Trx.NB_VERTICES].
      split; [reflexivity |]. split; [rewrite Em, Hrows; reflexivity |].
      split.
      { apply (f_equal (@length _)) in Hrows. rewrite length_map in Hrows.
        simpl in Hrows. congruence. }
      split; [exact Hlen |].
      apply TrxHeaderFacts.nonneg_integer_count in E0, E1, E2, E3, E4.
      split; [exists d0, d1, d2, x, y, z; auto 6 | auto].
  - intros (members & -> & Hm & Hlen & Hrows & Hd & Hnb & Hnv).
    destruct Hd as (d0 & d1 & d2 & x & y & z & Hd & H0 & H1 & H2 & Hdim).
    apply TrxHeaderFacts.nonneg_integer_count in H0, H1, H2, Hnb, Hnv.
    unfold Trx.validateTrxHeader. cbn [Trx.property]. rewrite Hm.
    destruct (Trx.VOXEL_TO_RASMM h) as [| m0 [| m1 [| m2 [| m3 [| ? ?]]]]] eqn:Ev;
      try discriminate.
    cbn [map].
    change [TrxFiles.row_json m0; TrxFiles.row_json m1; TrxFiles.row_json m2;
            TrxFiles.row_json m3]
      with (map TrxFiles.row_json [m0; m1; m2; m3]).
    rewrite (TrxHeaderFacts.matrix_rows_back Hrows). cbn [bind].
    rewrite Hd, H0, H1, H2, Hnb, Hnv.
    destruct h as [mat dims nb nv]. simpl in *. subst. reflexivity.
Qed.
(** ** Reading back the records of a ZIP archive *)

Module ZipFacts.
Import DataView Trx ZipSpec.

Lemma byte_of_u8 : forall z, 0 <= z < 256 -> u8 (Samples.byte_of z) = z.
Proof.
  intros z Hz. unfold Samples.byte_of, u8.
  destruct (Byte.of_N (Z.to_N z)) as [b |] eqn:E.
  - apply Byte.to_of_N in E. rewrite E. lia.
  - apply Byte.of_N_None_iff in E. lia.
Qed.

Lemma le_length : forall n w, length (Samples.le n w) = n.
Proof.
  intros n w. unfold Samples.le. rewrite length_map, length_seq. reflexivity.
Qed.

Lemma le_value_digits : forall w n s,
  0 <= w ->
  le_value (map (fun k => Samples.byte_of (Z.land (Z.shiftr w (8 * Z.of_nat k)) 255))
                (seq s n))
  = (w / 2 ^ (8 * Z.of_nat s)) mod 256 ^ Z.of_nat n.
Proof.
  intros w. induction n as [| n IH]; intros s Hw.
  - simpl. rewrite Z.mod_1_r. reflexivity.
  - cbn [seq map le_value]. rewrite IH by assumption.
    set (x := w / 2 ^ (8 * Z.of_nat s)).
    assert (Hx : 0 <= x) by (apply Z.div_pos; [lia | apply Z.pow_pos_nonneg; lia]).
    rewrite Z.shiftr_div_pow2 by lia. fold x.
    change 255 with (Z.ones 8). rewrite Z.land_ones by lia.
    change (2 ^ 8) with 256.
    rewrite byte_of_u8 by (apply Z.mod_pos_bound; lia).
    replace (w / 2 ^ (8 * Z.of_nat (S s))) with (x / 256).
    2:{ unfold x. rewrite Z.div_div by (try apply Z.pow_pos_nonneg; lia).
        f_equal. replace (8 * Z.of_nat (S s)) with (8 * Z.of_nat s + 8) by lia.
        rewrite Z.pow_add_r by lia. reflexivity. }
    rewrite Nat2Z.inj_succ, Z.pow_succ_r by lia.
    rewrite Z.rem_mul_r by (try apply Z.pow_pos_nonneg; lia). reflexivity.
Qed.

(** The little-endian bytes of a number give the number back. *)
Lemma le_value_le : forall n w,
  0 <= w < 256 ^ Z.of_nat n -> le_value (Samples.le n w) = w.
Proof.
  intros n w Hw. unfold Samples.le. rewrite le_value_digits by lia.
  simpl (2 ^ (8 * Z.of_nat 0)). rewrite Z.div_1_r. apply Z.mod_small. exact Hw.
Qed.

(** Reading inside a buffer laid out as [pre ++ a ++ f ++ b]. *)
Lemma bytes_at_inner : forall pre a f b : list byte,
  bytes_at (pre ++ a ++ f ++ b) (Z.of_nat (length pre) + Z.of_nat (length a)) (length f)
  = Some f.
Proof.
  intros pre a f b. rewrite TrkReadFacts.bytes_at_total.
  - f_equal. replace (Z.to_nat (Z.of_nat (length pre) + Z.of_nat (length a)))
      with (length (pre ++ a)) by (rewrite length_app; lia).
    rewrite (app_assoc pre a). rewrite skipn_app, skipn_all, Nat.sub_diag.
    simpl. rewrite firstn_app, firstn_all, Nat.sub_diag. simpl.
    apply app_nil_r.
  - lia.
  - unfold byteLength. rewrite !length_app. lia.
Qed.

Lemma uint_at_inner : forall pre a f b : list byte,
  uint_at true (pre ++ a ++ f ++ b) (Z.of_nat (length pre) + Z.of_nat (length a))
          (length f)
  = Some (le_value f).
Proof.
  intros pre a f b. unfold uint_at. rewrite bytes_at_inner. reflexivity.
Qed.

Lemma slice_inner : forall pre a f b : list byte,
  slice (pre ++ a ++ f ++ b) (Z.of_nat (length pre) + Z.of_nat (length a))
        (Z.of_nat (length pre) + Z.of_nat (length a) + Z.of_nat (length f))
  = f.
Proof.
  intros pre a f b. unfold slice. rewrite NumFacts.slice_inside.
  - replace (Z.to_nat (Z.of_nat (length pre) + Z.of_nat (length a)))
      with (length (pre ++ a)) by (rewrite length_app; lia).
    replace (Z.to_nat (Z.of_nat (length pre) + Z.of_nat (length a) + Z.of_nat (length f)
                       - (Z.of_nat (length pre) + Z.of_nat (length a))))
      with (length f) by lia.
    rewrite (app_assoc pre a). rewrite skipn_app, skipn_all, Nat.sub_diag.
    simpl. rewrite firstn_app, firstn_all, Nat.sub_diag. simpl.
    apply app_nil_r.
  - lia.
  - rewrite !length_app. lia.
Qed.

Lemma record_length : forall m,
  well_formed m ->
  Z.of_nat (length (local_record m))
  = 30 + byteLength (m_name m) + byteLength (m_extra m) + byteLength (m_payload m).
Proof.
  intros m (Hf & Hs & _). unfold local_record, byteLength.
  rewrite !length_app, !le_length, Hf, Hs. lia.
Qed.

End ZipFacts.
Module ZipRunFacts.
Import DataView Trx ZipSpec ZipFacts.

Lemma read_field : forall (buf pre a f b : list byte) off n,
  buf = pre ++ a ++ f ++ b ->
  off = Z.of_nat (length pre) + Z.of_nat (length a) ->
  n = length f ->
  uint_at true buf off n = Some (le_value f).
Proof.
  intros buf pre a f b off n -> -> ->. apply uint_at_inner.
Qed.

Lemma slice_field : forall (buf pre a f b : list byte) from to,
  buf = pre ++ a ++ f ++ b ->
  from = Z.of_nat (length pre) + Z.of_nat (length a) ->
  to = from + Z.of_nat (length f) ->
  slice buf from to = f.
Proof.
  intros buf pre a f b from to -> -> ->. apply slice_inner.
Qed.

Ltac layout := unfold local_record; rewrite <- ?app_assoc; reflexivity.
Ltac lengths Hf Hs :=
  rewrite ?length_app, ?le_length, ?Hf, ?Hs; unfold byteLength; simpl length; lia.

(** One pass of the loop over a well-formed record. *)
Lemma zip_step : forall inflate fuel pre m tail acc,
  well_formed m ->
  zip_loop inflate (S fuel) (pre ++ local_record m ++ tail) (Z.of_nat (length pre)) acc
  = match entries_of inflate m with
    | Some e => zip_loop inflate fuel (pre ++ local_record m ++ tail)
                         (Z.of_nat (length (pre ++ local_record m))) (acc ++ e)
    | None => Err InflateError
    end.
Proof.
  intros inflate fuel pre m tail acc Hwf.
  pose proof (record_length Hwf) as Hlen.
  destruct Hwf as (Hf & Hs & Hm & Hz & Hn & He & Hp).
  set (buf := pre ++ local_record m ++ tail).
  set (off := Z.of_nat (length pre)).
  assert (Hbuf : byteLength buf
                 = off + Z.of_nat (length (local_record m)) + Z.of_nat (length tail)).
  { unfold buf, byteLength, off. rewrite !length_app. lia. }
  assert (H0n : 0 <= byteLength (m_name m)) by (unfold byteLength; lia).
  assert (H0e : 0 <= byteLength (m_extra m)) by (unfold byteLength; lia).
  assert (H0p : 0 <= byteLength (m_payload m)) by (unfold byteLength; lia).
  cbn [zip_loop].
  assert (Htest : (off <? byteLength buf - 4) = true) by (apply Z.ltb_lt; lia).
  rewrite Htest.
  (* the signature *)
  assert (Rsig : getUint32 buf off true = Some 0x04034b50).
  { unfold getUint32.
    rewrite (@read_field buf pre [] (Samples.le 4 0x04034b50)
               (m_flags m ++ Samples.le 2 (m_method m) ++ m_stamp m
                ++ Samples.le 4 (byteLength (m_payload m)) ++ Samples.le 4 (m_size m)
                ++ Samples.le 2 (byteLength (m_name m))
                ++ Samples.le 2 (byteLength (m_extra m))
                ++ m_name m ++ m_extra m ++ m_payload m ++ tail) off 4);
      [reflexivity | unfold buf; layout | unfold off; simpl length; lia
       | rewrite le_length; reflexivity]. }
  assert (Rmethod : getUint16 buf (off + 8) true = Some (m_method m)).
  { unfold getUint16.
    rewrite (@read_field buf pre (Samples.le 4 0x04034b50 ++ m_flags m)
               (Samples.le 2 (m_method m))
               (m_stamp m
                ++ Samples.le 4 (byteLength (m_payload m)) ++ Samples.le 4 (m_size m)
                ++ Samples.le 2 (byteLength (m_name m))
                ++ Samples.le 2 (byteLength (m_extra m))
                ++ m_name m ++ m_extra m ++ m_payload m ++ tail) (off + 8) 2);
      [rewrite le_value_le by (change (256 ^ Z.of_nat 2) with (2 ^ 16); lia); reflexivity
      | unfold buf; layout | unfold off; lengths Hf Hs
      | rewrite le_length; reflexivity]. }
  assert (Rcsize : getUint32 buf (off + 18) true = Some (byteLength (m_payload m))).
  { unfold getUint32.
    rewrite (@read_field buf pre
               (Samples.le 4 0x04034b50 ++ m_flags m ++ Samples.le 2 (m_method m)
                ++ m_stamp m)
               (Samples.le 4 (byteLength (m_payload m)))
               (Samples.le 4 (m_size m)
                ++ Samples.le 2 (byteLength (m_name m))
                ++ Samples.le 2 (byteLength (m_extra m))
                ++ m_name m ++ m_extra m ++ m_payload m ++ tail) (off + 18) 4);
      [rewrite le_value_le by (change (256 ^ Z.of_nat 4) with (2 ^ 32); lia); reflexivity
      | unfold buf; layout | unfold off; lengths Hf Hs
      | rewrite le_length; reflexivity]. }
  assert (Rusize : getUint32 buf (off + 22) true = Some (m_size m)).
  { unfold getUint32.
    rewrite (@read_field buf pre
               (Samples.le 4 0x04034b50 ++ m_flags m ++ Samples.le 2 (m_method m)
                ++ m_stamp m ++ Samples.le 4 (byteLength (m_payload m)))
               (Samples.le 4 (m_size m))
               (Samples.le 2 (byteLength (m_name m))
                ++ Samples.le 2 (byteLength (m_extra m))
                ++ m_name m ++ m_extra m ++ m_payload m ++ tail) (off + 22) 4);
      [rewrite le_value_le by (change (256 ^ Z.of_nat 4) with (2 ^ 32); lia); reflexivity
      | unfold buf; layout | unfold off; lengths Hf Hs
      | rewrite le_length; reflexivity]. }
  assert (Rname : getUint16 buf (off + 26) true = Some (byteLength (m_name m))).
  { unfold getUint16.
    rewrite (@read_field buf pre
               (Samples.le 4 0x04034b50 ++ m_flags m ++ Samples.le 2 (m_method m)
                ++ m_stamp m ++ Samples.le 4 (byteLength (m_payload m))
                ++ Samples.le 4 (m_size m))
               (Samples.le 2 (byteLength (m_name m)))
               (Samples.le 2 (byteLength (m_extra m))
                ++ m_name m ++ m_extra m ++ m_payload m ++ tail) (off + 26) 2);
      [rewrite le_value_le by (change (256 ^ Z.of_nat 2) with (2 ^ 16); lia); reflexivity
      | unfold buf; layout | unfold off; lengths Hf Hs
      | rewrite le_length; reflexivity]. }
  assert (Rextra : getUint16 buf (off + 28) true = Some (byteLength (m_extra m))).
  { unfold getUint16.
    rewrite (@read_field buf pre
               (Samples.le 4 0x04034b50 ++ m_flags m ++ Samples.le 2 (m_method m)
                ++ m_stamp m ++ Samples.le 4 (byteLength (m_payload m))
                ++ Samples.le 4 (m_size m) ++ Samples.le 2 (byteLength (m_name m)))
               (Samples.le 2 (byteLength (m_extra m)))
               (m_name m ++ m_extra m ++ m_payload m ++ tail) (off + 28) 2);
      [rewrite le_value_le by (change (256 ^ Z.of_nat 2) with (2 ^ 16); lia); reflexivity
      | unfold buf; layout | unfold off; lengths Hf Hs
      | rewrite le_length; reflexivity]. }
  assert (Sname : slice buf (off + 30) (off + 30 + byteLength (m_name m)) = m_name m).
  { apply (@slice_field buf pre
             (Samples.le 4 0x04034b50 ++ m_flags m ++ Samples.le 2 (m_method m)
              ++ m_stamp m ++ Samples.le 4 (byteLength (m_payload m))
              ++ Samples.le 4 (m_size m) ++ Samples.le 2 (byteLength (m_name m))
              ++ Samples.le 2 (byteLength (m_extra m)))
             (m_name m) (m_extra m ++ m_payload m ++ tail));
      [unfold buf; layout | unfold off; lengths Hf Hs | reflexivity]. }
  assert (Sdata : slice buf (off + 30 + byteLength (m_name m) + byteLength (m_extra m))
                        (off + 30 + byteLength (m_name m) + byteLength (m_extra m)
                         + byteLength (m_payload m))
                  = m_payload m).
  { apply (@slice_field buf pre
             (Samples.le 4 0x04034b50 ++ m_flags m ++ Samples.le 2 (m_method m)
              ++ m_stamp m ++ Samples.le 4 (byteLength (m_payload m))
              ++ Samples.le 4 (m_size m) ++ Samples.le 2 (byteLength (m_name m))
              ++ Samples.le 2 (byteLength (m_extra m)) ++ m_name m ++ m_extra m)
             (m_payload m) tail);
      [unfold buf; layout | unfold off; lengths Hf Hs | reflexivity]. }
  rewrite Rsig. cbn [rd bind]. rewrite Z.eqb_refl. cbn [negb].
  rewrite Rmethod, Rcsize, Rusize, Rname, Rextra. cbn [rd bind].
  rewrite Sname, Sdata.
  assert (Hnext : off + 30 + byteLength (m_name m) + byteLength (m_extra m)
                  + byteLength (m_payload m)
                  = Z.of_nat (length (pre ++ local_record m))).
  { rewrite length_app. unfold off. lia. }
  rewrite Hnext. unfold entries_of.
  destruct (m_method m =? 0); [reflexivity |].
  destruct (m_method m =? 8).
  - destruct (inflate (m_payload m)); reflexivity.
  - rewrite app_nil_r. reflexivity.
Qed.

Lemma archive_length : forall ms,
  Forall well_formed ms -> 30 * Z.of_nat (length ms) <= Z.of_nat (length (archive ms)).
Proof.
  intros ms H. induction H as [| m ms Hm _ IH]; [simpl; lia |].
  unfold archive in *. cbn [map concat length]. rewrite length_app.
  pose proof (record_length Hm). unfold byteLength in *. lia.
Qed.

(** The loop over the records of an archive. *)
Lemma zip_run : forall inflate ms pre rest acc es fuel,
  Forall well_formed ms -> ends_records rest ->
  expected inflate ms = Some es ->
  (length ms < fuel)%nat ->
  zip_loop inflate fuel (pre ++ archive ms ++ rest) (Z.of_nat (length pre)) acc
  = Ok (acc ++ es).
Proof.
  intros inflate. induction ms as [| m ms IH]; intros pre rest acc es fuel Hwf Hend Hex Hfuel.
  - simpl in Hex. inv Hex. rewrite app_nil_r. unfold archive. simpl app.
    destruct fuel as [| fuel]; [simpl in Hfuel; lia |]. cbn [zip_loop].
    destruct (Z.of_nat (length pre) <? byteLength (pre ++ rest) - 4) eqn:E;
      [| reflexivity].
    apply Z.ltb_lt in E. unfold byteLength in E. rewrite length_app in E.
    destruct Hend as [Hshort | Hsig]; [lia |].
    destruct rest as [| a [| b [| c [| d rest]]]]; try (simpl in E; lia).
    unfold getUint32.
    rewrite (@read_field (pre ++ a :: b :: c :: d :: rest) pre [] [a; b; c; d] rest
               (Z.of_nat (length pre)) 4);
      [| reflexivity | simpl; lia | reflexivity].
    cbn [rd bind].
    destruct (le_value [a; b; c; d] =? 0x04034b50) eqn:Es; [| reflexivity].
    exfalso. apply Hsig. simpl. apply Z.eqb_eq in Es.
    apply DetectFacts.le_value_inj; [reflexivity | exact Es].
  - inversion Hwf as [| ? ? Hm Hms]; subst.
    cbn [expected] in Hex.
    destruct (entries_of inflate m) as [e |] eqn:Ee; [| discriminate].
    destruct (expected inflate ms) as [es' |] eqn:Ex; [| discriminate].
    inv Hex.
    destruct fuel as [| fuel]; [simpl in Hfuel; lia |].
    unfold archive. cbn [map concat]. fold (archive ms).
    rewrite <- app_assoc. rewrite (zip_step inflate fuel pre (archive ms ++ rest) acc Hm).
    rewrite Ee. rewrite (app_assoc pre (local_record m)).
    rewrite (IH (pre ++ local_record m) rest (acc ++ e) es' fuel Hms Hend eq_refl)
      by (simpl in Hfuel; lia).
    rewrite app_assoc. reflexivity.
Qed.

End ZipRunFacts.

(** X19.  [parseZipEntries] reads back the local file records of an archive.
    For records laid out one after the other, each well formed, followed by
    bytes that do not start another record (the central directory, or the
    end of the buffer), it returns, in order: for a stored member its name
    and its data, for a deflated member its name and what
    [zlib.inflateRawSync] makes of its data, and nothing for a member under
    any other method. *)
Theorem parseZipEntries_reads_back_the_records :
  forall (inflate : list byte -> option (list byte))
         (members : list ZipSpec.member) (rest : list byte) (entries : list Trx.ZipEntry),
    Forall ZipSpec.well_formed members ->
    ZipSpec.ends_records rest ->
    ZipSpec.expected inflate members = Some entries ->
    Trx.parseZipEntries inflate (ZipSpec.archive members ++ rest) = Ok entries.
Proof.
  intros inflate members rest entries Hwf Hend Hex. unfold Trx.parseZipEntries.
  apply (@ZipRunFacts.zip_run inflate members [] rest [] entries
           (S (length (ZipSpec.archive members ++ rest))) Hwf Hend Hex).
  pose proof (ZipRunFacts.archive_length Hwf). rewrite length_app. lia.
Qed.
(** ** Streamlines stored one after the other *)

Module BuildFacts.
Import Trx TrxSpec TrxFiles.

Lemma starts_length : forall chunks s, length (starts s chunks) = length chunks.
Proof.
  induction chunks as [| c chunks IH]; intros s; simpl; [reflexivity |].
  rewrite IH. reflexivity.
Qed.

(** The streamline of the first of the chunks left, at its index. *)
Lemma build_one_chunk : forall pre_pos pre_off s c chunks n,
  Z.of_nat (length pre_pos) = 3 * s -> 0 <= s ->
  2 <= n -> Z.of_nat (length c) = 3 * n ->
  Forall chunk_ok chunks ->
  build_one (pre_pos ++ concat (c :: chunks)) (pre_off ++ starts s (c :: chunks))
            (length pre_off)
  = Some (streamline_of c).
Proof.
  intros pre_pos pre_off s c chunks n Hpre Hs Hn Hc Hrest.
  assert (Hq : Z.of_nat (length c) / 3 = n).
  { rewrite Hc. replace (3 * n) with (n * 3) by lia. apply Z.div_mul. lia. }
  assert (Hstart : nth_error (pre_off ++ starts s (c :: chunks)) (length pre_off) = Some s).
  { rewrite nth_error_app2 by lia. rewrite Nat.sub_diag. reflexivity. }
  rewrite (TrxFacts.build_one_unfold _ _ _ Hstart). cbv zeta.
  assert (Hstop : end_vertex (pre_pos ++ concat (c :: chunks))
                             (pre_off ++ starts s (c :: chunks)) (length pre_off)
                  = Num.of_Z (s + n)).
  { unfold end_vertex. rewrite nth_error_app2 by lia.
    replace (S (length pre_off) - length pre_off)%nat with 1%nat by lia.
    cbn [starts nth_error]. rewrite Hq.
    destruct chunks as [| c' chunks]; cbn [starts nth_error]; [| reflexivity].
    cbn [concat]. rewrite app_nil_r, length_app.
    unfold Num.of_nat. rewrite Nat2Z.inj_add, Hpre, Hc.
    replace (3 * s + 3 * n) with (3 * (s + n)) by lia.
    apply NumFacts.div_exact. lia. }
  rewrite Hstop, NumFacts.sub_Z, NumFacts.ltb_Z.
  replace (s + n - s) with n by lia.
  destruct (n <? 2) eqn:E; [apply Z.ltb_lt in E; lia |].
  rewrite !NumFacts.mul_Z. rewrite NumFacts.slice_inside.
  - unfold streamline_of. rewrite Hq. f_equal.
    replace (Z.to_nat ((s + n) * 3 - s * 3)) with (length c) by lia.
    replace (Z.to_nat (s * 3)) with (length pre_pos) by lia.
    rewrite skipn_app, skipn_all, Nat.sub_diag. simpl skipn. cbn [app concat].
    rewrite firstn_app, firstn_all, Nat.sub_diag. simpl. rewrite app_nil_r.
    reflexivity.
  - lia.
  - rewrite length_app. cbn [concat]. rewrite length_app. lia.
Qed.

Lemma build_chunks : forall chunks pre_pos pre_off s acc,
  Z.of_nat (length pre_pos) = 3 * s -> 0 <= s ->
  Forall chunk_ok chunks ->
  build_loop (pre_pos ++ concat chunks) (pre_off ++ starts s chunks)
             (length pre_off) (length chunks) acc
  = acc ++ map streamline_of chunks.
Proof.
  induction chunks as [| c chunks IH]; intros pre_pos pre_off s acc Hpre Hs Hall.
  - simpl. rewrite app_nil_r. reflexivity.
  - inversion Hall as [| ? ? (n & Hn & Hc) Hrest]; subst.
    cbn [length build_loop].
    rewrite (@build_one_chunk pre_pos pre_off s c chunks n Hpre Hs Hn Hc Hrest).
    assert (Hq : Z.of_nat (length c) / 3 = n).
    { rewrite Hc. replace (3 * n) with (n * 3) by lia. apply Z.div_mul. lia. }
    cbn [concat starts]. rewrite Hq.
    replace (pre_pos ++ c ++ concat chunks) with ((pre_pos ++ c) ++ concat chunks)
      by (rewrite <- app_assoc; reflexivity).
    replace (pre_off ++ s :: starts (s + n) chunks)
      with ((pre_off ++ [s]) ++ starts (s + n) chunks)
      by (rewrite <- app_assoc; reflexivity).
    replace (S (length pre_off)) with (length (pre_off ++ [s]))
      by (rewrite length_app; simpl; lia).
    rewrite IH; [| rewrite length_app; lia | lia | assumption].
    rewrite <- app_assoc. reflexivity.
Qed.

End BuildFacts.

(** X20.  [buildStreamlines] undoes the storing of streamlines one after the
    other.  For streamlines of at least two vertices each, with positions
    their coordinates concatenated, offsets the index of the first vertex
    of each, and their number as count, it returns exactly those
    streamlines, in order, each with its vertex count: no vertex is lost,
    repeated or moved to a neighbour. *)
Theorem buildStreamlines_recovers_the_streamlines : forall chunks : list (list float),
  Forall TrxFiles.chunk_ok chunks ->
  Trx.buildStreamlines (concat chunks) (TrxFiles.starts 0 chunks)
                       (Z.of_nat (length chunks))
  = map TrxFiles.streamline_of chunks.
Proof.
  intros chunks H. unfold Trx.buildStreamlines. rewrite Nat2Z.id.
  apply (@BuildFacts.build_chunks chunks [] [] 0 []); [reflexivity | lia | exact H].
Qed.
(** ** The size of a sample *)

Module SampleSizeFacts.
Import Post PostSpec.

(** Quotients rounded up, twice: with [skip = ceil (t / g)], the count
    [ceil (t / skip)] is at most [g] and more than half of it. *)
Lemma ceil_twice : forall t g : nat,
  (1 <= g <= t)%nat ->
  let skip := ceil_div t g in
  (1 <= skip)%nat
  /\ (ceil_div t skip <= g)%nat
  /\ (g < 2 * ceil_div t skip)%nat.
Proof.
  intros t g Hg skip. unfold skip, ceil_div.
  pose proof (Nat.div_mod_eq (t + g - 1) g) as H1.
  pose proof (Nat.mod_upper_bound (t + g - 1) g ltac:(lia)) as H2.
  set (s := ((t + g - 1) / g)%nat) in *.
  assert (Hs : (1 <= s)%nat) by nia.
  pose proof (Nat.div_mod_eq (t + s - 1) s) as H3.
  pose proof (Nat.mod_upper_bound (t + s - 1) s ltac:(lia)) as H4.
  set (n := ((t + s - 1) / s)%nat) in *.
  split; [exact Hs |]. split; [nia |].
  destruct (Nat.eq_dec s 1) as [-> | Hne]; nia.
Qed.

End SampleSizeFacts.

(** X22.  The size of what [applySkipSampling] returns, with
    [target = min(maxCount, total)].  The sample never holds more than
    [target] streamlines.  At or below the threshold it holds exactly
    [target].  Above the threshold it holds [ceil(total / skipFactor)]
    streamlines, which is more than half of [target]: the stride is
    rounded up, so the sample can fall short of the count asked for, and
    the test on [maxCount] in the loop never ends it early. *)
Theorem applySkipSampling_size :
  forall (A : Type) (streamlines : list A) (maxCount : nat) (skipThreshold : Z),
    let total := length streamlines in
    let target := Nat.min maxCount total in
    let r := Post.applySkipSampling streamlines maxCount skipThreshold in
    (length (Post.sampled r) <= target)%nat
    /\ (Z.of_nat total <= skipThreshold -> length (Post.sampled r) = target)
    /\ (skipThreshold < Z.of_nat total -> (1 <= target)%nat ->
        length (Post.sampled r) = PostSpec.ceil_div total (PostSpec.ceil_div total target)
        /\ (target < 2 * length (Post.sampled r))%nat).
Proof.
  intros A streamlines maxCount skipThreshold total target r.
  assert (Hbelow : Z.of_nat total <= skipThreshold -> length (Post.sampled r) = target).
  { intros Hle. unfold r, Post.applySkipSampling. fold total.
    apply Z.leb_le in Hle. rewrite Hle. cbn [Post.sampled].
    rewrite SamplingFacts.first_elements. fold total. fold target.
    rewrite length_firstn. unfold target, total. lia. }
  assert (Habove : skipThreshold < Z.of_nat total ->
                   (target = 0%nat -> Post.sampled r = [])
                   /\ ((1 <= target)%nat ->
                       length (Post.sampled r)
                       = PostSpec.ceil_div total (PostSpec.ceil_div total target)
                       /\ (target < 2 * length (Post.sampled r))%nat
                       /\ (length (Post.sampled r) <= target)%nat)).
  { intros Hlt. unfold r, Post.applySkipSampling. fold total.
    assert (E : (Z.of_nat total <=? skipThreshold) = false) by (apply Z.leb_gt; lia).
    rewrite E. cbn [Post.sampled]. rewrite NumFacts.min_nat. fold target. split.
    - intros H0. apply SamplingFacts.sample_loop_nothing. assumption.
    - intros H1.
      destruct (@SampleSizeFacts.ceil_twice total target ltac:(unfold target in *; lia))
        as (Hskip & Hle & Hhalf).
      set (skip := PostSpec.ceil_div total target) in *.
      assert (Hs : Num.ceil (Num.div (Num.of_nat total) (Num.of_nat target))
                   = Num.of_nat skip).
      { unfold Num.of_nat. rewrite NumFacts.ceil_div by lia.
        rewrite SamplingFacts.ceil_quotient by lia. reflexivity. }
      rewrite Hs.
      assert (Hstep : Post.step_of (Num.of_nat skip) = skip).
      { unfold Post.step_of, Num.of_nat, Num.of_Z. rewrite Qfloor_Z. apply Nat2Z.id. }
      rewrite Hstep.
      destruct (SamplingFacts.sample_loop_picks streamlines maxCount
                  (fuel := maxCount) 0 [] Hskip) as (rest & Hr & Hl & _).
      { simpl. lia. }
      rewrite Hr. simpl app. simpl in Hl. rewrite !Nat.sub_0_r in Hl.
      fold total in Hl.
      assert (Hlen : length rest = PostSpec.ceil_div total skip).
      { rewrite Hl. apply Nat.min_r. unfold target in Hle. lia. }
      rewrite Hlen. split; [reflexivity |]. split; [exact Hhalf | exact Hle]. }
  split; [| split].
  - destruct (Z.le_gt_cases (Z.of_nat total) skipThreshold) as [Hle | Hgt].
    + rewrite (Hbelow Hle). lia.
    + destruct (Habove ltac:(lia)) as (H0 & H1).
      destruct (Nat.eq_dec target 0) as [Hz | Hnz].
      * rewrite (H0 Hz). simpl. lia.
      * apply H1. lia.
  - exact Hbelow.
  - intros Hlt H1. destruct (Habove Hlt) as (_ & H). destruct (H H1) as (Ha & Hb & _).
    split; assumption.
Qed.
(** ** The bounding box of no point *)

Module EmptyBoxFacts.
Import Post.

Lemma scan_nothing : forall streamlines b,
  (forall s, In s streamlines -> points s = []) -> scan streamlines b = b.
Proof.
  induction streamlines as [| s rest IH]; intros b H; [reflexivity |].
  cbn [scan]. rewrite (H s (or_introl eq_refl)). cbn [scan_points].
  apply IH. intros s' Hin. apply H. right. exact Hin.
Qed.

End EmptyBoxFacts.

(** X23.  With no point at all (no streamline, or streamlines without points)
    [calculateBoundingBox] returns the starting values of its running
    bounds, min [+Infinity] and max [-Infinity] on every axis, and from
    them a center that is [NaN] on every axis and an infinite size. *)
Theorem calculateBoundingBox_of_no_point : forall streamlines : list Streamline,
  (forall s, In s streamlines -> points s = []) ->
  Post.calculateBoundingBox streamlines
  = {| Post.bmin := (infinity, infinity, infinity);
       Post.bmax := (neg_infinity, neg_infinity, neg_infinity);
       Post.center := (nan, nan, nan);
       Post.size := infinity |}.
Proof.
  intros streamlines H. unfold Post.calculateBoundingBox.
  rewrite (EmptyBoxFacts.scan_nothing streamlines Post.init_bounds H).
  vm_compute. reflexivity.
Qed.
(** ** Reading back the body of a TCK file *)

Module TckBodyFacts.
Import DataView Tck TckSpec TckFiles.


Lemma c32_known : known TckFiles.c32.
Proof. exists true. left. reflexivity. Qed.

Lemma float_field : forall (buf pre a b : list byte) w off,
  buf = pre ++ a ++ Samples.le 4 w ++ b ->
  off = Z.of_nat (length pre) + Z.of_nat (length a) ->
  0 <= w < 2 ^ 32 ->
  getFloat32 buf off true = Some (value w).
Proof.
  intros buf pre a b w off Hb Ho Hw. unfold getFloat32.
  rewrite (@ZipRunFacts.read_field buf pre a (Samples.le 4 w) b off 4 Hb Ho)
    by (rewrite ZipFacts.le_length; reflexivity).
  rewrite ZipFacts.le_value_le by (change (256 ^ Z.of_nat 4) with (2 ^ 32); lia).
  reflexivity.
Qed.

(** The triplet read where three patterns lie. *)
Lemma triplet_field : forall (done tail : list byte) x y z,
  0 <= x < 2 ^ 32 -> 0 <= y < 2 ^ 32 -> 0 <= z < 2 ^ 32 ->
  triplet_at (done ++ point_bytes (x, y, z) ++ tail) TckFiles.c32 (Z.of_nat (length done))
  = Some (value x, value y, value z).
Proof.
  intros done tail x y z Hx Hy Hz. unfold triplet_at.
  cbn [reader littleEndian bytesPerFloat TckFiles.c32].
  rewrite (@float_field _ done [] (Samples.le 4 y ++ Samples.le 4 z ++ tail) x
             (Z.of_nat (length done)));
    [| unfold point_bytes; rewrite <- ?app_assoc; reflexivity | simpl; lia | exact Hx].
  rewrite (@float_field _ done (Samples.le 4 x) (Samples.le 4 z ++ tail) y
             (Z.of_nat (length done) + 4));
    [| unfold point_bytes; rewrite <- ?app_assoc; reflexivity
     | rewrite ZipFacts.le_length; lia | exact Hy].
  rewrite (@float_field _ done (Samples.le 4 x ++ Samples.le 4 y) tail z
             (Z.of_nat (length done) + 4 * 2));
    [| unfold point_bytes; rewrite <- ?app_assoc; reflexivity
     | rewrite length_app, !ZipFacts.le_length; lia | exact Hz].
  reflexivity.
Qed.

Lemma point_bytes_length : forall p, length (point_bytes p) = 12%nat.
Proof.
  intros [[x y] z]. unfold point_bytes. rewrite !length_app, !ZipFacts.le_length.
  reflexivity.
Qed.

Lemma finite_not_nan : forall x, isFinite x = true -> isNaN x = false.
Proof.
  intros x H. unfold isFinite, isNaN, PrimFloat.is_finite in *.
  apply negb_true_iff, orb_false_iff in H. apply H.
Qed.

(** One pass over a point. *)
Lemma pass_point : forall buf done tail x y z cp sl,
  buf = done ++ point_bytes (x, y, z) ++ tail ->
  point_ok (x, y, z) ->
  Z.of_nat (length cp) + 3 <= 300000 ->
  tck_pass buf TckFiles.c32 (Z.of_nat (length done)) cp sl
  = Ok (Continue (Z.of_nat (length (done ++ point_bytes (x, y, z))))
                 (cp ++ [value x; value y; value z]) sl).
Proof.
  intros buf done tail x y z cp sl Hb ((Hx & Hy & Hz) & Hfx & Hny & Hnz) Hcap.
  rewrite (@TckLoopFacts.pass_at_triplet buf TckFiles.c32 _ cp sl (value x) (value y) (value z)).
  - rewrite Hfx, (@finite_not_nan _ Hfx), Hny, Hnz. cbn [negb andb orb].
    destruct (300000 <? Z.of_nat (length (cp ++ [value x; value y; value z]))) eqn:E.
    + apply Z.ltb_lt in E. rewrite length_app in E. simpl in E. lia.
    + cbn [bytesPerFloat TckFiles.c32]. rewrite length_app, point_bytes_length.
      do 2 f_equal. lia.
  - cbn [bytesPerFloat TckFiles.c32]. rewrite Hb. unfold byteLength.
    rewrite !length_app, point_bytes_length. lia.
  - rewrite Hb. apply triplet_field; assumption.
Qed.

(** The points of a track, one pass each. *)
Lemma reaches_points : forall buf offset0 pts done tail cp sl,
  buf = done ++ concat (map point_bytes pts) ++ tail ->
  Forall point_ok pts ->
  Z.of_nat (length cp) + 3 * Z.of_nat (length pts) <= 300000 ->
  reaches buf TckFiles.c32 offset0 (Z.of_nat (length done)) cp sl ->
  reaches buf TckFiles.c32 offset0
          (Z.of_nat (length (done ++ concat (map point_bytes pts))))
          (cp ++ values pts) sl.
Proof.
  intros buf offset0. induction pts as [| p pts IH]; intros done tail cp sl Hb Hok Hcap Hr.
  - simpl. rewrite !app_nil_r. exact Hr.
  - apply Forall_cons_iff in Hok. destruct Hok as (Hp & Hps).
    destruct p as [[x y] z]. cbn [map concat] in *. cbn [length] in Hcap.
    assert (Hb1 : buf = done ++ point_bytes (x, y, z)
                             ++ (concat (map point_bytes pts) ++ tail)).
    { rewrite Hb. rewrite <- app_assoc. reflexivity. }
    assert (Hpass := @pass_point buf done _ x y z cp sl Hb1 Hp ltac:(lia)).
    pose proof (reaches_next Hr Hpass) as Hr'.
    assert (Hb2 : buf = (done ++ point_bytes (x, y, z))
                        ++ concat (map point_bytes pts) ++ tail).
    { rewrite Hb1. rewrite <- app_assoc. reflexivity. }
    specialize (IH (done ++ point_bytes (x, y, z)) tail
                   (cp ++ [value x; value y; value z]) sl Hb2 Hps).
    replace (done ++ point_bytes (x, y, z) ++ concat (map point_bytes pts))
      with ((done ++ point_bytes (x, y, z)) ++ concat (map point_bytes pts))
      by (rewrite <- app_assoc; reflexivity).
    change (values ((x, y, z) :: pts))
      with ([value x; value y; value z] ++ values pts).
    rewrite (app_assoc cp [value x; value y; value z] (values pts)).
    apply IH; [rewrite length_app; simpl length; lia | exact Hr'].
Qed.

Lemma values_length : forall t, length (values t) = (3 * length t)%nat.
Proof.
  induction t as [| [[x y] z] t IH]; [reflexivity |].
  cbn [values flat_map point_values length app]. fold (values t). rewrite IH. lia.
Qed.

Lemma separator_reads : forall done tail,
  triplet_at (done ++ separator ++ tail) TckFiles.c32 (Z.of_nat (length done))
  = Some (nan, nan, nan).
Proof.
  intros done tail.
  change separator with (point_bytes (0x7fc00000, 0x7fc00000, 0x7fc00000)).
  rewrite triplet_field by lia. reflexivity.
Qed.

Lemma terminator_reads : forall done tail,
  triplet_at (done ++ terminator ++ tail) TckFiles.c32 (Z.of_nat (length done))
  = Some (infinity, infinity, infinity).
Proof.
  intros done tail.
  change terminator with (point_bytes (0x7f800000, 0x7f800000, 0x7f800000)).
  rewrite triplet_field by lia. reflexivity.
Qed.

Lemma finalize_decoded : forall t, finalize (values t) = decoded t.
Proof.
  intros t. unfold finalize, decoded. f_equal.
  rewrite values_length. unfold Num.of_nat.
  replace (Z.of_nat (3 * length t)) with (3 * Z.of_nat (length t)) by lia.
  apply NumFacts.div_exact. lia.
Qed.

Lemma flush_track : forall t sl,
  flush (values t) sl = sl ++ map decoded (kept [t]).
Proof.
  intros t sl. unfold flush, kept. cbn [filter]. rewrite values_length.
  destruct (2 <=? length t)%nat eqn:E.
  - apply Nat.leb_le in E.
    assert (E' : (6 <=? 3 * length t)%nat = true) by (apply Nat.leb_le; lia).
    rewrite E'. cbn [map]. rewrite finalize_decoded. reflexivity.
  - apply Nat.leb_gt in E.
    assert (E' : (6 <=? 3 * length t)%nat = false) by (apply Nat.leb_gt; lia).
    rewrite E'. cbn [map]. rewrite app_nil_r. reflexivity.
Qed.

(** A whole track: its points, then the separator. *)
Lemma reaches_track : forall buf offset0 t done tail sl,
  buf = done ++ track_bytes t ++ tail ->
  track_ok t ->
  reaches buf TckFiles.c32 offset0 (Z.of_nat (length done)) [] sl ->
  reaches buf TckFiles.c32 offset0 (Z.of_nat (length (done ++ track_bytes t))) []
          (sl ++ map decoded (kept [t])).
Proof.
  intros buf offset0 t done tail sl Hb (Hlen & Hok) Hr. unfold track_bytes in *.
  assert (Hb1 : buf = done ++ concat (map point_bytes t) ++ (separator ++ tail)).
  { rewrite Hb. rewrite <- app_assoc. reflexivity. }
  pose proof (@reaches_points buf offset0 t done _ [] sl Hb1 Hok
                ltac:(simpl length; lia) Hr) as Hr1.
  cbn [app] in Hr1.
  set (done1 := done ++ concat (map point_bytes t)) in *.
  assert (Hb2 : buf = done1 ++ separator ++ tail).
  { rewrite Hb1. unfold done1. rewrite <- app_assoc. reflexivity. }
  assert (Hpass : tck_pass buf TckFiles.c32 (Z.of_nat (length done1)) (values t) sl
                  = Ok (Continue (Z.of_nat (length done1) + 4 * 3) []
                                 (flush (values t) sl))).
  { rewrite (@TckLoopFacts.pass_at_triplet buf TckFiles.c32 _ (values t) sl nan nan nan).
    - reflexivity.
    - cbn [bytesPerFloat TckFiles.c32]. rewrite Hb2. unfold byteLength.
      rewrite !length_app. change (length separator) with 12%nat. lia.
    - rewrite Hb2. apply separator_reads. }
  pose proof (reaches_next Hr1 Hpass) as Hr2.
  rewrite flush_track in Hr2.
  replace (Z.of_nat (length (done ++ concat (map point_bytes t) ++ separator)))
    with (Z.of_nat (length done1) + 4 * 3); [exact Hr2 |].
  unfold done1. rewrite !length_app. change (length separator) with 12%nat. lia.
Qed.

Lemma kept_app : forall a b, kept (a ++ b) = kept a ++ kept b.
Proof. intros a b. apply filter_app. Qed.

(** All the tracks. *)
Lemma reaches_tracks : forall buf offset0 tracks done tail sl,
  buf = done ++ concat (map track_bytes tracks) ++ tail ->
  Forall track_ok tracks ->
  reaches buf TckFiles.c32 offset0 (Z.of_nat (length done)) [] sl ->
  reaches buf TckFiles.c32 offset0
          (Z.of_nat (length (done ++ concat (map track_bytes tracks)))) []
          (sl ++ map decoded (kept tracks)).
Proof.
  intros buf offset0. induction tracks as [| t tracks IH]; intros done tail sl Hb Hok Hr.
  - simpl. rewrite !app_nil_r. exact Hr.
  - apply Forall_cons_iff in Hok. destruct Hok as (Ht & Hts).
    cbn [map concat] in *.
    assert (Hb1 : buf = done ++ track_bytes t
                             ++ (concat (map track_bytes tracks) ++ tail)).
    { rewrite Hb. rewrite <- app_assoc. reflexivity. }
    pose proof (@reaches_track buf offset0 t done _ sl Hb1 Ht Hr) as Hr1.
    assert (Hb2 : buf = (done ++ track_bytes t)
                        ++ concat (map track_bytes tracks) ++ tail).
    { rewrite Hb1. rewrite <- app_assoc. reflexivity. }
    specialize (IH (done ++ track_bytes t) tail _ Hb2 Hts Hr1).
    replace (done ++ track_bytes t ++ concat (map track_bytes tracks))
      with ((done ++ track_bytes t) ++ concat (map track_bytes tracks))
      by (rewrite <- app_assoc; reflexivity).
    change (t :: tracks) with ([t] ++ tracks).
    rewrite kept_app, map_app, app_assoc. exact IH.
Qed.

(** The whole body, from the offset it starts at. *)
Lemma body_decodes : forall pre tracks rest,
  Forall track_ok tracks ->
  tck_loop (S (length (pre ++ body tracks ++ rest))) (pre ++ body tracks ++ rest)
           TckFiles.c32 (Z.of_nat (length pre)) [] []
  = Ok (map decoded (kept tracks)).
Proof.
  intros pre tracks rest Hok.
  set (buf := pre ++ body tracks ++ rest).
  assert (Hb : buf = pre ++ concat (map track_bytes tracks) ++ (terminator ++ rest)).
  { unfold buf, body. rewrite <- app_assoc. reflexivity. }
  pose proof (@reaches_tracks buf (Z.of_nat (length pre)) tracks pre _ [] Hb Hok
                (reaches_start buf TckFiles.c32 (Z.of_nat (length pre)))) as Hr.
  cbn [app] in Hr.
  set (done := pre ++ concat (map track_bytes tracks)) in *.
  assert (Hb2 : buf = done ++ terminator ++ rest).
  { rewrite Hb. unfold done. rewrite <- app_assoc. reflexivity. }
  destruct (TckLoopFacts.run_cases c32_known Hr) as (_ & Hcases).
  destruct (Hcases infinity infinity infinity) as (Hinf & _).
  - cbn [bytesPerFloat TckFiles.c32]. rewrite Hb2. unfold byteLength.
    rewrite !length_app. change (length terminator) with 12%nat. lia.
  - rewrite Hb2. apply terminator_reads.
  - rewrite Hinf by reflexivity. reflexivity.
Qed.

Lemma parse_body : forall pre tracks rest h,
  Forall track_ok tracks ->
  datatype h = "Float32LE"%string ->
  fileOffset h = Some (Z.of_nat (length pre)) ->
  parseStreamlines (pre ++ body tracks ++ rest) h = Ok (map decoded (kept tracks)).
Proof.
  intros pre tracks rest h Hok Hd Ho. unfold parseStreamlines.
  rewrite Hd, Ho. cbn [DATA_TYPES String.eqb Ascii.eqb Bool.eqb].
  apply body_decodes. exact Hok.
Qed.

End TckBodyFacts.
(** X12.  The body loop of the TCK decoder reads back the tracks of a body in
    the default datatype.  For tracks of at most 100000 points each (a
    finite first coordinate, no NaN), laid out from the file offset as
    their points, a NaN triplet after each track and an infinity triplet
    after the last, [parseStreamlines] returns one streamline for every
    track of at least two points, in order, with the coordinates of the
    track and its number of points; shorter tracks are dropped, and what
    follows the infinity triplet is not read. *)
Theorem tck_body_read_back :
  forall (pre : list byte) (tracks : list (list TckFiles.point)) (rest : list byte)
         (h : Tck.TckHeader),
    Forall TckFiles.track_ok tracks ->
    Tck.datatype h = "Float32LE"%string ->
    Tck.fileOffset h = Some (Z.of_nat (length pre)) ->
    Tck.parseStreamlines (pre ++ TckFiles.body tracks ++ rest) h
    = Ok (map TckFiles.decoded (TckFiles.kept tracks)).
Proof.
  intros pre tracks rest h Hok Hd Ho. apply TckBodyFacts.parse_body; assumption.
Qed.

(** ** The TCK header and what follows it *)

Module TckTextFacts.
Import DataView Tck TckSpec.

(** The marker the search finds is the first one. *)
Lemma headerEnd_first : forall buf i,
  searched buf i -> marker_at buf i = true ->
  (forall k, (k < i)%nat -> marker_at buf k = false) ->
  headerEnd buf = Some (end_after buf i).
Proof.
  intros buf i Hs Hm Hfirst. destruct (headerEnd buf) as [e |] eqn:E.
  - apply TckHeaderFacts.headerEnd_some in E.
    destruct E as (j & _ & Hj & Hjfirst & ->).
    destruct (Nat.lt_trichotomy i j) as [Hlt | [-> | Hgt]].
    + rewrite (Hjfirst i Hlt) in Hm. discriminate.
    + reflexivity.
    + rewrite (Hfirst j Hgt) in Hj. discriminate.
  - rewrite TckHeaderFacts.headerEnd_none in E. rewrite (E i Hs) in Hm. discriminate.
Qed.

Lemma byte_at_app : forall (a b : list byte) i,
  (i < length a)%nat -> byte_at (a ++ b) i = byte_at a i.
Proof.
  intros a b i H. unfold byte_at. rewrite nth_error_app1 by assumption. reflexivity.
Qed.

Lemma marker_inside : forall buf i, marker_at buf i = true -> (i + 3 < length buf)%nat.
Proof.
  intros buf i H. unfold marker_at in H.
  apply andb_true_iff in H. destruct H as (H & _).
  apply andb_true_iff in H. destruct H as (_ & H).
  apply Z.ltb_lt in H. unfold byteLength in H. lia.
Qed.

Lemma marker_at_app : forall (a b : list byte) i,
  (i + 3 < length a)%nat -> marker_at (a ++ b) i = marker_at a i.
Proof.
  intros a b i H. unfold marker_at.
  rewrite !byte_at_app by lia.
  assert (E1 : (Z.of_nat i + 3 <? byteLength (a ++ b)) = true).
  { apply Z.ltb_lt. unfold byteLength. rewrite length_app. lia. }
  assert (E2 : (Z.of_nat i + 3 <? byteLength a) = true).
  { apply Z.ltb_lt. unfold byteLength. lia. }
  rewrite E1, E2. reflexivity.
Qed.

Lemma holds_byte : forall buf i v,
  holds (byte_at buf i) v = true -> exists b, nth_error buf i = Some b /\ u8 b = v.
Proof.
  intros buf i v H. unfold holds, byte_at in H.
  destruct (nth_error buf i) as [b |]; simpl in H; [| discriminate].
  apply Z.eqb_eq in H. eauto.
Qed.

(** The end of the header is the same with anything after a header
    whose END line ends in a LF. *)
Lemma headerEnd_app : forall (hdr tail : list byte) e,
  headerEnd hdr = Some e ->
  nth_error hdr (Z.to_nat (e - 1)) = Some x0a ->
  headerEnd (hdr ++ tail) = Some e /\ 1 <= e <= byteLength hdr.
Proof.
  intros hdr tail e He Hlf.
  apply TckHeaderFacts.headerEnd_some in He.
  destruct He as (i & Hs & Hm & Hfirst & ->).
  pose proof (marker_inside _ _ Hm) as Hin.
  assert (Hrange : 1 <= end_after hdr i <= byteLength hdr).
  { assert (Hlt : (Z.to_nat (end_after hdr i - 1) < length hdr)%nat)
      by (apply nth_error_Some; congruence).
    unfold end_after, byteLength in *.
    destruct (holds (byte_at hdr (i + 3)) 13 && holds (byte_at hdr (i + 4)) 10); lia. }
  split; [| exact Hrange].
  assert (Hsame : end_after (hdr ++ tail) i = end_after hdr i).
  { unfold end_after in *. rewrite (@byte_at_app hdr tail (i + 3)%nat) by lia.
    destruct (holds (byte_at hdr (i + 3)) 13) eqn:E13; cbn [andb] in *; [| reflexivity].
    destruct (holds (byte_at hdr (i + 4)) 10) eqn:E10.
    - pose proof (holds_byte _ _ _ E10) as (b & Hb & _).
      assert ((i + 4 < length hdr)%nat) by (apply nth_error_Some; congruence).
      rewrite byte_at_app by lia. rewrite E10. reflexivity.
    - exfalso. apply holds_byte in E13. destruct E13 as (b & Hb & Hv).
      replace (Z.to_nat (Z.of_nat i + 4 - 1)) with (i + 3)%nat in Hlf by lia.
      rewrite Hb in Hlf. injection Hlf as ->. vm_compute in Hv. discriminate. }
  rewrite <- Hsame. apply headerEnd_first.
  - unfold searched in *. unfold byteLength in *. rewrite length_app. lia.
  - rewrite marker_at_app by lia. exact Hm.
  - intros k Hk. rewrite marker_at_app by lia. apply Hfirst. exact Hk.
Qed.

Lemma parseHeader_app : forall (hdr tail : list byte) e,
  headerEnd hdr = Some e ->
  nth_error hdr (Z.to_nat (e - 1)) = Some x0a ->
  parseHeader (hdr ++ tail) = parseHeader hdr.
Proof.
  intros hdr tail e He Hlf.
  destruct (@headerEnd_app hdr tail e He Hlf) as (He' & Hrange).
  unfold parseHeader. rewrite He, He'.
  assert (Hscan : scan_header (hdr ++ tail) e = scan_header hdr e).
  { unfold scan_header, header_lines. rewrite firstn_app.
    replace (Z.to_nat e - length hdr)%nat with 0%nat
      by (unfold byteLength in Hrange; lia).
    simpl firstn. rewrite app_nil_r. reflexivity. }
  rewrite Hscan. reflexivity.
Qed.

End TckTextFacts.

(** X11.  The TCK header is read from the header alone.  When the END line of a
    header text ends in a LF, [parseHeader] returns the same header, or
    raises the same error, with any bytes after the text as with the text
    alone. *)
Theorem tck_header_ignores_what_follows :
  forall (hdr tail : list byte) (e : Z),
    Tck.headerEnd hdr = Some e ->
    nth_error hdr (Z.to_nat (e - 1)) = Some x0a ->
    Tck.headerEnd (hdr ++ tail) = Some e
    /\ Tck.parseHeader (hdr ++ tail) = Tck.parseHeader hdr.
Proof.
  intros hdr tail e He Hlf. split.
  - apply (@TckTextFacts.headerEnd_app hdr tail e He Hlf).
  - apply (@TckTextFacts.parseHeader_app hdr tail e He Hlf).
Qed.

(** X13.  A whole TCK file is read back.  For the bytes before the body, with
    a header text that [parseHeader] accepts (its END line ended by a LF,
    the identifier, the default datatype, and the start of the body as file
    offset), followed by the tracks of a body, [parseTckFile] returns the
    streamlines of the tracks of at least two points, in order, under a
    unified header that counts them. *)
Theorem parseTckFile_reads_back_a_file :
  forall (hdr : list byte) (e : Z) (h : Tck.TckHeader)
         (tracks : list (list TckFiles.point)) (rest : list byte),
    Tck.headerEnd hdr = Some e ->
    nth_error hdr (Z.to_nat (e - 1)) = Some x0a ->
    Tck.parseHeader hdr = Ok h ->
    Tck.has_magic h = true ->
    Tck.datatype h = "Float32LE"%string ->
    Tck.fileOffset h = Some (Z.of_nat (length hdr)) ->
    Forall TckFiles.track_ok tracks ->
    byteLength (hdr ++ TckFiles.body tracks ++ rest) <= MAX_FILE_SIZE ->
    Tck.parseTckFile (hdr ++ TckFiles.body tracks ++ rest)
    = Ok {| Unified.header :=
              {| Unified.format := tck;
                 Unified.dim := DEFAULT_DIMENSIONS;
                 Unified.voxelSize := DEFAULT_VOXEL_SIZE;
                 Unified.nCount := length (TckFiles.kept tracks);
                 Unified.version := 1;
                 Unified.metadata :=
                   Unified.TckMetadata "Float32LE" (Tck.timestamp h) (Tck.count h) |};
            Unified.streamlines := map TckFiles.decoded (TckFiles.kept tracks) |}.
Proof.
  intros hdr e h tracks rest He Hlf Hh Hm Hd Ho Hok Hlen.
  unfold Tck.parseTckFile.
  destruct (byteLength (hdr ++ TckFiles.body tracks ++ rest) >? MAX_FILE_SIZE) eqn:E;
    [apply Z.gtb_lt in E; lia |].
  rewrite (@TckTextFacts.parseHeader_app hdr (TckFiles.body tracks ++ rest) e He Hlf).
  rewrite Hh. cbn [bind]. rewrite Hm. cbn [negb].
  rewrite (@TckBodyFacts.parse_body hdr tracks rest h Hok Hd Ho). cbn [bind].
  rewrite length_map, Hd. reflexivity.
Qed.
(** ** Reading back a TRX archive *)

Module TrxArchiveFacts.
Import DataView Trx ZipSpec TrxArchive.

Lemma words_length : forall ws, Z.of_nat (length (words ws)) = 4 * Z.of_nat (length ws).
Proof.
  induction ws as [| w ws IH]; [reflexivity |].
  unfold words in *. cbn [map concat]. rewrite length_app, ZipFacts.le_length.
  cbn [length]. lia.
Qed.

(** The loop filling a typed array from 32-bit words. *)
Lemma read_words : forall (A : Type) (f : Z -> A) (get : Z -> option A) (buf : list byte),
  (forall o, get o = option_map f (uint_at true buf o 4)) ->
  forall ws pre tail i,
    buf = pre ++ words ws ++ tail ->
    Z.of_nat (length pre) = i * 4 ->
    Forall (fun w => 0 <= w < 2 ^ 32) ws ->
    read_each get 4 i (length ws) = Ok (map f ws).
Proof.
  intros A f get buf Hget. induction ws as [| w ws IH]; intros pre tail i Hb Hi Hr;
    [reflexivity |].
  apply Forall_cons_iff in Hr. destruct Hr as (Hw & Hr).
  cbn [length read_each map]. rewrite Hget.
  assert (Hread : uint_at true buf (i * 4) 4 = Some w).
  { rewrite (@ZipRunFacts.read_field buf pre [] (Samples.le 4 w) (words ws ++ tail)
               (i * 4) 4).
    - f_equal. apply ZipFacts.le_value_le. exact Hw.
    - rewrite Hb. unfold words. cbn [map concat app]. rewrite <- app_assoc. reflexivity.
    - simpl length. lia.
    - rewrite ZipFacts.le_length. reflexivity. }
  rewrite Hread. cbn [option_map rd bind].
  rewrite (IH (pre ++ Samples.le 4 w) tail (i + 1)).
  - reflexivity.
  - rewrite Hb. unfold words. cbn [map concat]. rewrite <- !app_assoc. reflexivity.
  - rewrite length_app, ZipFacts.le_length. lia.
  - exact Hr.
Qed.

Lemma typed_words : forall (A : Type) (f : Z -> A) (get : Z -> option A) ws,
  (forall o, get o = option_map f (uint_at true (words ws) o 4)) ->
  Forall (fun w => 0 <= w < 2 ^ 32) ws ->
  typed_array (words ws) 4 get = Ok (map f ws).
Proof.
  intros A f get ws Hget Hr. unfold typed_array, byteLength.
  rewrite words_length.
  replace (4 * Z.of_nat (length ws)) with (Z.of_nat (length ws) * 4) by lia.
  rewrite Z.mod_mul, Z.div_mul by lia. cbn [Z.eqb]. rewrite Nat2Z.id.
  apply (@read_words A f get (words ws) Hget ws [] [] 0).
  - rewrite app_nil_r. reflexivity.
  - reflexivity.
  - exact Hr.
Qed.

Lemma parsePositions_words : forall ws,
  Forall (fun w => 0 <= w < 2 ^ 32) ws ->
  parsePositions "positions.3.float32" (words ws) = Ok (coordinates ws).
Proof.
  intros ws Hr. unfold parsePositions.
  change (Str.toLowerASCII
            (last (Str.split_on "."%char (basename "positions.3.float32")) EmptyString))
    with "float32"%string.
  cbv iota beta zeta.
  change (String.eqb "float32" "float16") with false.
  change (String.eqb "float32" "float32") with true.
  cbv iota. apply typed_words; [| exact Hr].
  intros o. reflexivity.
Qed.

Lemma parseOffsets_words : forall ws,
  Forall (fun w => 0 <= w < 2 ^ 32) ws ->
  parseOffsets "offsets.uint32" (words ws) = Ok ws.
Proof.
  intros ws Hr. unfold parseOffsets.
  change (Str.toLowerASCII
            (last (Str.split_on "."%char (basename "offsets.uint32")) EmptyString))
    with "uint32"%string.
  cbv iota beta zeta.
  change (String.eqb "uint32" "uint64") with false.
  change (String.eqb "uint32" "int64") with false.
  change (String.eqb "uint32" "uint32") with true.
  cbv iota. rewrite <- (map_id ws) at 2. apply typed_words; [| exact Hr].
  intros o. unfold getUint32. destruct (uint_at true (words ws) o 4); reflexivity.
Qed.

(** The offsets of streamlines stored from vertex [s] on are vertex
    indices of the positions. *)
Lemma starts_range : forall chunks s,
  0 <= s ->
  Forall TrxFiles.chunk_ok chunks ->
  Forall (fun v => 0 <= v <= s + Z.of_nat (length (concat chunks)) / 3)
         (TrxFiles.starts s chunks).
Proof.
  induction chunks as [| c chunks IH]; intros s Hs Hok; [constructor |].
  apply Forall_cons_iff in Hok. destruct Hok as ((n & Hn & Hc) & Hok).
  cbn [TrxFiles.starts concat]. rewrite length_app, Nat2Z.inj_add, Hc.
  assert (Hq : (3 * n + Z.of_nat (length (concat chunks))) / 3
               = n + Z.of_nat (length (concat chunks)) / 3).
  { rewrite Z.add_comm, Z.mul_comm, Z.div_add by lia. lia. }
  rewrite Hq.
  assert (Hn3 : 3 * n / 3 = n) by (rewrite Z.mul_comm; apply Z.div_mul; lia).
  rewrite Hn3.
  assert (H0 : 0 <= Z.of_nat (length (concat chunks)) / 3)
    by (apply Z.div_pos; lia).
  constructor; [lia |].
  eapply Forall_impl; [| apply (IH (s + n)); [lia | exact Hok]].
  cbv beta. intros v Hv. lia.
Qed.

Lemma coordinates_concat : forall chunks,
  coordinates (concat chunks) = concat (map coordinates chunks).
Proof.
  intros chunks. unfold coordinates. apply concat_map.
Qed.

Lemma chunks_split : forall chunks,
  Forall chunk_ok chunks ->
  Forall (fun w => 0 <= w < 2 ^ 32) (concat chunks)
  /\ Forall TrxFiles.chunk_ok (map coordinates chunks).
Proof.
  induction chunks as [| c chunks IH]; intros H; [split; constructor |].
  apply Forall_cons_iff in H. destruct H as ((Hr & Hc) & H).
  destruct (IH H) as (IH1 & IH2). split.
  - cbn [concat]. apply Forall_app. split; assumption.
  - cbn [map]. constructor; assumption.
Qed.

(** The entries of the three members. *)
Lemma three_entries : forall inflate mh mp mo chunks,
  laid_out mh mp mo chunks ->
  expected inflate [mh; mp; mo]
  = Some [mkEntry "header.json" (m_payload mh);
          mkEntry "positions.3.float32" (words (concat chunks));
          mkEntry "offsets.uint32" (words (TrxFiles.starts 0 (map coordinates chunks)))].
Proof.
  intros inflate mh mp mo chunks (H1 & H2 & H3 & H4 & H5 & H6 & H7 & H8).
  cbn [expected]. unfold entries_of. rewrite H1, H2, H3, H4, H5, H6, H7, H8.
  cbn [Z.eqb app]. reflexivity.
Qed.

Lemma parse_archive :
  forall inflate parse (mh mp mo : member) (rest : list byte)
         (obj : json) (h : TrxHeader) (chunks : list (list Z)),
    Forall well_formed [mh; mp; mo] ->
    laid_out mh mp mo chunks ->
    Forall chunk_ok chunks ->
    ends_records rest ->
    byteLength (archive [mh; mp; mo] ++ rest) <= MAX_FILE_SIZE ->
    parse (decode_utf8 (m_payload mh)) = Some obj ->
    validateTrxHeader obj = Ok h ->
    NB_STREAMLINES h = Z.of_nat (length chunks) ->
    parseTrxFile inflate parse (archive [mh; mp; mo] ++ rest) = Ok (decoded h chunks).
Proof.
  intros inflate parse mh mp mo rest obj h chunks Hwf Hlay Hok Hend Hsize Hparse Hval Hnb.
  destruct (chunks_split Hok) as (Hr & Hcs).
  assert (Hentries : parseZipEntries inflate (archive [mh; mp; mo] ++ rest)
                     = Ok [mkEntry "header.json" (m_payload mh);
                           mkEntry "positions.3.float32" (words (concat chunks));
                           mkEntry "offsets.uint32"
                                   (words (TrxFiles.starts 0 (map coordinates chunks)))]).
  { unfold parseZipEntries.
    apply (@ZipRunFacts.zip_run inflate [mh; mp; mo] [] rest [] _
             (S (length (archive [mh; mp; mo] ++ rest))) Hwf Hend
             (three_entries inflate Hlay)).
    pose proof (ZipRunFacts.archive_length Hwf) as Hlen. rewrite length_app.
    change (length [mh; mp; mo]) with 3%nat in *. lia. }
  (* the sizes of the two data members bound the vertices and the streamlines *)
  assert (Hwf' := Hwf).
  apply Forall_cons_iff in Hwf'. destruct Hwf' as (_ & Hwf').
  apply Forall_cons_iff in Hwf'. destruct Hwf' as (Hwp & Hwf').
  apply Forall_cons_iff in Hwf'. destruct Hwf' as (Hwo & _).
  destruct Hlay as (_ & _ & _ & _ & Hpp & _ & _ & Hpo).
  destruct Hwp as (_ & _ & _ & _ & _ & _ & Hsp).
  destruct Hwo as (_ & _ & _ & _ & _ & _ & Hso).
  unfold byteLength in Hsp, Hso. rewrite Hpp in Hsp. rewrite Hpo in Hso.
  rewrite words_length in Hsp, Hso.
  rewrite BuildFacts.starts_length, length_map in Hso.
  assert (Hstarts : Forall (fun w => 0 <= w < 2 ^ 32)
                           (TrxFiles.starts 0 (map coordinates chunks))).
  { eapply Forall_impl; [| apply (@starts_range (map coordinates chunks) 0);
                           [lia | exact Hcs]].
    cbv beta. intros v Hv. rewrite <- coordinates_concat in Hv.
    unfold coordinates in Hv. rewrite length_map in Hv.
    assert (Z.of_nat (length (concat chunks)) / 3 <= Z.of_nat (length (concat chunks)))
      by (apply Z.div_le_upper_bound; lia).
    lia. }
  unfold parseTrxFile.
  destruct (byteLength (archive [mh; mp; mo] ++ rest) >? MAX_FILE_SIZE) eqn:Eb;
    [apply Z.gtb_lt in Eb; lia |].
  rewrite Hentries. cbn [bind].
  unfold find_entry. cbn [find name data].
  change (String.eqb "header.json" "header.json" || Str.endsWith "header.json" "/header.json")
    with true.
  cbv iota. cbn [data]. rewrite Hparse, Hval. cbn [bind].
  change (startsWith "header.json" "positions."
          || Str.includes "header.json" "/positions.") with false.
  change (startsWith "positions.3.float32" "positions."
          || Str.includes "positions.3.float32" "/positions.") with true.
  change (startsWith "header.json" "offsets."
          || Str.includes "header.json" "/offsets.") with false.
  change (startsWith "positions.3.float32" "offsets."
          || Str.includes "positions.3.float32" "/offsets.") with false.
  change (startsWith "offsets.uint32" "offsets."
          || Str.includes "offsets.uint32" "/offsets.") with true.
  cbv iota. cbn [name data].
  rewrite (parsePositions_words Hr). cbn [bind].
  rewrite (parseOffsets_words Hstarts). cbn [bind].
  destruct (NB_STREAMLINES h >? 2 ^ 53) eqn:En; [apply Z.gtb_lt in En; lia |].
  cbv zeta. rewrite Hnb, coordinates_concat.
  replace (Z.of_nat (length chunks)) with (Z.of_nat (length (map coordinates chunks)))
    by (rewrite length_map; reflexivity).
  unfold buildStreamlines. rewrite Nat2Z.id.
  pose proof (@BuildFacts.build_chunks (map coordinates chunks) [] [] 0 []
                eq_refl (Z.le_refl 0) Hcs) as Hbuild.
  cbn [app length] in Hbuild. rewrite Hbuild.
  unfold decoded. rewrite !length_map. reflexivity.
Qed.

End TrxArchiveFacts.

(** X21.  A TRX archive is read back.  For an archive of three stored members,
    [header.json], [positions.3.float32] holding the coordinates of the
    streamlines one after the other, and [offsets.uint32] holding the index
    of the first vertex of each, with a header text that [JSON.parse] and
    [validateTrxHeader] accept and that counts the streamlines,
    [parseTrxFile] returns those streamlines, in order, each of at least two
    vertices, under a unified header with the dimensions, the voxel size and
    the vertex count of the header.  What the header says of the number of
    vertices is not compared with the positions. *)
Theorem parseTrxFile_reads_back_an_archive :
  forall (inflate : list byte -> option (list byte)) (parse : string -> option Trx.json)
         (mh mp mo : ZipSpec.member) (rest : list byte)
         (obj : Trx.json) (h : Trx.TrxHeader) (chunks : list (list Z)),
    Forall ZipSpec.well_formed [mh; mp; mo] ->
    TrxArchive.laid_out mh mp mo chunks ->
    Forall TrxArchive.chunk_ok chunks ->
    ZipSpec.ends_records rest ->
    byteLength (ZipSpec.archive [mh; mp; mo] ++ rest) <= MAX_FILE_SIZE ->
    parse (Trx.decode_utf8 (ZipSpec.m_payload mh)) = Some obj ->
    Trx.validateTrxHeader obj = Ok h ->
    Trx.NB_STREAMLINES h = Z.of_nat (length chunks) ->
    Trx.parseTrxFile inflate parse (ZipSpec.archive [mh; mp; mo] ++ rest)
    = Ok (TrxArchive.decoded h chunks).
Proof.
  intros. apply TrxArchiveFacts.parse_archive with (obj := obj); assumption.
Qed.
(** ** Reading back a TRK file *)

Module TrkFileFacts.
Import DataView Trk TrkFiles.

(** A read inside the first part of a buffer does not see the rest. *)
Lemma bytes_at_app : forall (hdr tail : list byte) off n,
  0 <= off -> off + Z.of_nat n <= Z.of_nat (length hdr) ->
  bytes_at (hdr ++ tail) off n = bytes_at hdr off n.
Proof.
  intros hdr tail off n H0 Hn. unfold bytes_at.
  destruct (off <? 0) eqn:E0; [reflexivity |].
  rewrite length_app.
  destruct (Z.of_nat (length hdr + length tail) <? off + Z.of_nat n) eqn:E1;
    [apply Z.ltb_lt in E1; lia |].
  destruct (Z.of_nat (length hdr) <? off + Z.of_nat n) eqn:E2;
    [apply Z.ltb_lt in E2; lia |].
  f_equal. rewrite skipn_app, firstn_app, length_skipn.
  replace (n - (length hdr - Z.to_nat off))%nat with 0%nat by lia.
  rewrite firstn_O, app_nil_r. reflexivity.
Qed.

Lemma uint_at_app : forall (hdr tail : list byte) le off n,
  0 <= off -> off + Z.of_nat n <= Z.of_nat (length hdr) ->
  uint_at le (hdr ++ tail) off n = uint_at le hdr off n.
Proof.
  intros hdr tail le off n H0 Hn. unfold uint_at. rewrite bytes_at_app by assumption.
  reflexivity.
Qed.

Lemma text_at_app : forall (hdr tail : list byte) off n,
  0 <= off -> off + Z.of_nat n <= Z.of_nat (length hdr) ->
  text_at (hdr ++ tail) off n = text_at hdr off n.
Proof.
  intros hdr tail off n H0 Hn. unfold text_at. rewrite bytes_at_app by assumption.
  reflexivity.
Qed.

Lemma floats_at_app : forall (hdr tail : list byte) n off,
  0 <= off -> off + 4 * Z.of_nat n <= Z.of_nat (length hdr) ->
  floats_at (hdr ++ tail) off n = floats_at hdr off n.
Proof.
  intros hdr tail. induction n as [| n IH]; intros off H0 Hn; [reflexivity |].
  cbn [floats_at]. unfold getFloat32.
  rewrite uint_at_app by (simpl; lia). rewrite IH by lia. reflexivity.
Qed.

Lemma names_at_app : forall (hdr tail : list byte) count slots off i,
  0 <= off -> off + 20 * Z.of_nat slots <= Z.of_nat (length hdr) ->
  names_at (hdr ++ tail) off count i slots = names_at hdr off count i slots.
Proof.
  intros hdr tail count. induction slots as [| slots IH]; intros off i H0 Hn;
    [reflexivity |].
  cbn [names_at]. rewrite text_at_app by (simpl; lia). rewrite IH by lia. reflexivity.
Qed.

(** The header is read from the first 1000 bytes. *)
Lemma trk_header_app : forall hdr tail : list byte,
  length hdr = 1000%nat -> parseHeader (hdr ++ tail) = parseHeader hdr.
Proof.
  intros hdr tail Hlen. unfold parseHeader, getInt16, getInt32, getUint8.
  assert (Hl : Z.of_nat (length hdr) = 1000) by lia.
  rewrite !text_at_app by (simpl; lia).
  rewrite !uint_at_app by (simpl; lia).
  rewrite !floats_at_app by (simpl; lia).
  rewrite !bytes_at_app by (simpl; lia).
  assert (Hn : forall off count, 0 <= off -> off + 200 <= 1000 ->
                 names_at (hdr ++ tail) off count 0 10 = names_at hdr off count 0 10).
  { intros off count H0 H1. apply names_at_app; simpl; lia. }
  destruct (text_at hdr 0 6) as [idString |]; cbn [bind]; [| reflexivity].
  destruct (rd (option_map (to_signed 16) (uint_at true hdr 6 2))) as [d0 |];
    cbn [bind]; [| reflexivity].
  destruct (rd (option_map (to_signed 16) (uint_at true hdr 8 2))) as [d1 |];
    cbn [bind]; [| reflexivity].
  destruct (rd (option_map (to_signed 16) (uint_at true hdr 10 2))) as [d2 |];
    cbn [bind]; [| reflexivity].
  destruct (floats_at hdr 12 3) as [voxelSize |]; cbn [bind]; [| reflexivity].
  destruct (floats_at hdr 24 3) as [origin |]; cbn [bind]; [| reflexivity].
  destruct (rd (option_map (to_signed 16) (uint_at true hdr 36 2))) as [nS |];
    cbn [bind]; [| reflexivity].
  rewrite Hn by lia.
  destruct (names_at hdr 38 nS 0 10) as [scalarNames |]; cbn [bind]; [| reflexivity].
  destruct (rd (option_map (to_signed 16) (uint_at true hdr 238 2))) as [nP |];
    cbn [bind]; [| reflexivity].
  rewrite Hn by lia. reflexivity.
Qed.

Lemma words_app : forall a b,
  TrxArchive.words (a ++ b) = TrxArchive.words a ++ TrxArchive.words b.
Proof.
  intros a b. unfold TrxArchive.words. rewrite map_app, concat_app. reflexivity.
Qed.

(** Consecutive binary32 values read where their patterns lie. *)
Lemma floats_words : forall buf ws pre tail off,
  buf = pre ++ TrxArchive.words ws ++ tail ->
  off = Z.of_nat (length pre) ->
  Forall word_ok ws ->
  floats_at buf off (length ws) = Ok (map value ws).
Proof.
  intros buf. induction ws as [| w ws IH]; intros pre tail off Hb Ho Hok;
    [reflexivity |].
  apply Forall_cons_iff in Hok. destruct Hok as (Hw & Hok).
  cbn [length floats_at map].
  rewrite (@TckBodyFacts.float_field buf pre [] (TrxArchive.words ws ++ tail) w off);
    [| rewrite Hb; unfold TrxArchive.words; cbn [map concat app];
       rewrite <- app_assoc; reflexivity
     | simpl; lia | exact Hw].
  cbn [rd bind].
  rewrite (IH (pre ++ Samples.le 4 w) tail (off + 4)).
  - reflexivity.
  - rewrite Hb. unfold TrxArchive.words. cbn [map concat]. rewrite <- !app_assoc.
    reflexivity.
  - rewrite length_app, ZipFacts.le_length. lia.
  - exact Hok.
Qed.

(** The points of a record, read where their rows lie. *)
Lemma read_rows : forall buf h rows pre tail off,
  buf = pre ++ TrxArchive.words (concat rows) ++ tail ->
  off = Z.of_nat (length pre) ->
  0 <= nScalars h ->
  Forall (row_ok h) rows ->
  read_points buf off (nScalars h) (length rows)
  = Ok (flat_map (fun row => map value (firstn 3 row)) rows,
        map (fun row => map value (skipn 3 row)) rows,
        off + 4 * (3 + nScalars h) * Z.of_nat (length rows)).
Proof.
  intros buf h. induction rows as [| row rows IH]; intros pre tail off Hb Ho HS Hok.
  - cbn [length read_points flat_map map]. f_equal. f_equal. lia.
  - apply Forall_cons_iff in Hok. destruct Hok as ((Hlen & Hrow) & Hok).
    cbn [length read_points flat_map map concat] in *.
    rewrite <- (firstn_skipn 3 row) in Hb.
    rewrite <- (firstn_skipn 3 row) in Hrow. apply Forall_app in Hrow.
    destruct Hrow as (Hr1 & Hr2).
    assert (Hl1 : length (firstn 3 row) = 3%nat) by (rewrite length_firstn; lia).
    assert (Hl2 : length (skipn 3 row) = Z.to_nat (nScalars h))
      by (rewrite length_skipn; lia).
    unfold read_point.
    rewrite <- Hl1 at 1.
    rewrite (@floats_words buf (firstn 3 row) pre
               (TrxArchive.words (skipn 3 row) ++ TrxArchive.words (concat rows) ++ tail)
               off);
      [| rewrite Hb, !words_app, <- !app_assoc; reflexivity | exact Ho | exact Hr1].
    cbn [bind]. rewrite <- Hl2 at 1.
    rewrite (@floats_words buf (skipn 3 row) (pre ++ TrxArchive.words (firstn 3 row))
               (TrxArchive.words (concat rows) ++ tail) (off + 12));
      [| rewrite Hb, !words_app, <- !app_assoc; reflexivity
       | rewrite length_app; pose proof (TrxArchiveFacts.words_length (firstn 3 row));
         lia
       | exact Hr2].
    cbn [bind].
    rewrite (IH (pre ++ TrxArchive.words (firstn 3 row) ++ TrxArchive.words (skipn 3 row))
                tail (off + 12 + 4 * Z.of_nat (Z.to_nat (nScalars h)))).
    + cbn [bind]. f_equal. f_equal. lia.
    + rewrite Hb, !words_app, <- !app_assoc. reflexivity.
    + rewrite !length_app.
      pose proof (TrxArchiveFacts.words_length (firstn 3 row)).
      pose proof (TrxArchiveFacts.words_length (skipn 3 row)). lia.
    + exact HS.
    + exact Hok.
Qed.

(** The scalar channels of the rows of a record. *)
Lemma channels_rows : forall h rows,
  Forall (row_ok h) rows ->
  channels (nScalars h) (map (fun row => map value (skipn 3 row)) rows)
  = map (fun c => map (fun row => value (nth (3 + c) row 0)) rows)
        (seq 0 (Z.to_nat (nScalars h))).
Proof.
  intros h rows Hok. unfold channels. apply map_ext_in. intros c Hc.
  apply in_seq in Hc. rewrite map_map. apply map_ext_in. intros row Hrow.
  rewrite Forall_forall in Hok. destruct (Hok row Hrow) as (Hlen & _).
  rewrite (nth_indep _ 0%float (value 0))
    by (rewrite length_map, length_skipn; lia).
  rewrite map_nth. f_equal.
  rewrite <- (firstn_skipn 3 row) at 2.
  rewrite app_nth2 by (rewrite length_firstn; lia).
  f_equal. rewrite length_firstn. lia.
Qed.

Lemma track_length : forall h t,
  0 <= nScalars h -> track_ok h t ->
  Z.of_nat (length (track_bytes t))
  = 4 + Z.of_nat (length (t_rows t)) * (4 * (3 + nScalars h)) + 4 * nProperties h.
Proof.
  intros h t HS (Hn & Hrows & Hp & _). unfold track_bytes.
  rewrite !length_app, ZipFacts.le_length, !Nat2Z.inj_add.
  rewrite !TrxArchiveFacts.words_length, Hp.
  assert (Hc : Z.of_nat (length (concat (t_rows t)))
               = Z.of_nat (length (t_rows t)) * (3 + nScalars h)).
  { clear Hn. induction Hrows as [| row rows (Hlen & _) _ IH]; [reflexivity |].
    cbn [concat length]. rewrite length_app. lia. }
  rewrite Hc. lia.
Qed.

(** One pass of the loop over a record. *)
Lemma pass_track : forall buf h t done tail count,
  buf = done ++ track_bytes t ++ tail ->
  validateTrkHeader h = Ok tt ->
  track_ok h t ->
  below_max h count = true ->
  trk_pass buf h (Z.of_nat (length done)) count
  = Ok (Next (Z.of_nat (length (done ++ track_bytes t))) (decoded h t)).
Proof.
  intros buf h t done tail count Hb Hv Hok Hmax.
  destruct (@TrkRecordFacts.validated_counts _ Hv) as (HS & HP & _).
  pose proof (@track_length h t ltac:(lia) Hok) as Hlen.
  destruct Hok as (Hn & Hrows & Hp & Hprops).
  assert (Hbl : byteLength buf
                = Z.of_nat (length done) + Z.of_nat (length (track_bytes t))
                  + Z.of_nat (length tail)).
  { rewrite Hb. unfold byteLength. rewrite !length_app. lia. }
  unfold trk_pass. cbv zeta. rewrite Hmax.
  destruct (Z.of_nat (length done) <? byteLength buf) eqn:E1;
    [| apply Z.ltb_ge in E1; nia].
  cbn [andb].
  destruct (Z.of_nat (length done) + 4 >? byteLength buf) eqn:E2;
    [apply Z.gtb_lt in E2; nia |].
  assert (Hcount : getInt32 buf (Z.of_nat (length done)) true
                   = Some (Z.of_nat (length (t_rows t)))).
  { unfold getInt32.
    rewrite (@ZipRunFacts.read_field buf done []
               (Samples.le 4 (Z.of_nat (length (t_rows t))))
               (TrxArchive.words (concat (t_rows t)) ++ TrxArchive.words (t_props t)
                ++ tail)
               (Z.of_nat (length done)) 4);
      [| rewrite Hb; unfold track_bytes; rewrite <- !app_assoc; reflexivity
       | simpl; lia | rewrite ZipFacts.le_length; reflexivity].
    rewrite ZipFacts.le_value_le by (change (256 ^ Z.of_nat 4) with (2 ^ 32); lia).
    cbn [option_map]. f_equal. unfold to_signed.
    destruct (Z.of_nat (length (t_rows t)) <? 2 ^ (32 - 1)) eqn:E; [reflexivity |].
    apply Z.ltb_ge in E. change (2 ^ (32 - 1)) with 2147483648 in E. lia. }
  rewrite Hcount. cbn [rd bind].
  destruct ((Z.of_nat (length (t_rows t)) <=? 0)
            || (Z.of_nat (length (t_rows t)) >? 100000)) eqn:E3.
  { apply orb_true_iff in E3. destruct E3 as [E3 | E3];
      [apply Z.leb_le in E3 | apply Z.gtb_lt in E3]; lia. }
  destruct (Z.of_nat (length done) + 4
            + (Z.of_nat (length (t_rows t)) * (4 * (3 + nScalars h)) + 4 * nProperties h)
            >? byteLength buf) eqn:E4; [apply Z.gtb_lt in E4; lia |].
  rewrite Nat2Z.id.
  rewrite (@read_rows buf h (t_rows t)
             (done ++ Samples.le 4 (Z.of_nat (length (t_rows t))))
             (TrxArchive.words (t_props t) ++ tail) (Z.of_nat (length done) + 4));
    [| rewrite Hb; unfold track_bytes; rewrite <- !app_assoc; reflexivity
     | rewrite length_app, ZipFacts.le_length; lia | lia | exact Hrows].
  cbn [bind].
  assert (Hprops_read :
            floats_at buf (Z.of_nat (length done) + 4
                           + 4 * (3 + nScalars h) * Z.of_nat (length (t_rows t)))
                      (Z.to_nat (nProperties h))
            = Ok (map value (t_props t))).
  { replace (Z.to_nat (nProperties h)) with (length (t_props t)) by lia.
    apply (@floats_words buf (t_props t)
             (done ++ Samples.le 4 (Z.of_nat (length (t_rows t)))
              ++ TrxArchive.words (concat (t_rows t))) tail).
    - rewrite Hb. unfold track_bytes. rewrite <- !app_assoc. reflexivity.
    - rewrite !length_app, ZipFacts.le_length, !Nat2Z.inj_add.
      rewrite TrxArchiveFacts.words_length.
      assert (Hc : Z.of_nat (length (concat (t_rows t)))
                   = Z.of_nat (length (t_rows t)) * (3 + nScalars h)).
      { clear - Hrows. induction Hrows as [| row rows (Hl & _) _ IH]; [reflexivity |].
        cbn [concat length]. rewrite length_app. lia. }
      rewrite Hc. lia.
    - exact Hprops. }
  destruct (nProperties h >? 0) eqn:EP.
  - rewrite Hprops_read. cbn [bind]. f_equal. f_equal.
    + rewrite length_app. lia.
    + unfold decoded. rewrite EP.
      destruct (nScalars h >? 0) eqn:ES.
      * rewrite (channels_rows Hrows).
        destruct (Z.to_nat (nScalars h)) as [| k] eqn:Ek;
          [apply Z.gtb_lt in ES; lia |].
        cbn [seq map]. reflexivity.
      * reflexivity.
  - cbn [bind]. f_equal. f_equal.
    + rewrite length_app. lia.
    + unfold decoded. rewrite EP.
      destruct (nScalars h >? 0) eqn:ES.
      * rewrite (channels_rows Hrows).
        destruct (Z.to_nat (nScalars h)) as [| k] eqn:Ek;
          [apply Z.gtb_lt in ES; lia |].
        cbn [seq map]. reflexivity.
      * reflexivity.
Qed.

(** All the records. *)
Lemma reaches_records : forall buf h tracks done tail acc,
  buf = done ++ body tracks ++ tail ->
  validateTrkHeader h = Ok tt ->
  Forall (track_ok h) tracks ->
  (nCount h <= 0 \/ Z.of_nat (length acc + length tracks) <= nCount h) ->
  reaches buf h (Z.of_nat (length done)) acc ->
  reaches buf h (Z.of_nat (length (done ++ body tracks))) (acc ++ map (decoded h) tracks).
Proof.
  intros buf h. induction tracks as [| t tracks IH]; intros done tail acc Hb Hv Hok Hc Hr.
  - unfold body. simpl. rewrite !app_nil_r. exact Hr.
  - apply Forall_cons_iff in Hok. destruct Hok as (Ht & Hts).
    unfold body in *. cbn [map concat length] in *.
    assert (Hb1 : buf = done ++ track_bytes t ++ (concat (map track_bytes tracks) ++ tail)).
    { rewrite Hb. rewrite <- app_assoc. reflexivity. }
    assert (Hmax : below_max h (length acc) = true).
    { unfold below_max. destruct (nCount h >? 0) eqn:E; [| reflexivity].
      apply Z.gtb_lt in E. apply Z.ltb_lt. lia. }
    pose proof (@pass_track buf h t done _ (length acc) Hb1 Hv Ht Hmax) as Hp.
    pose proof (reaches_next Hr Hp) as Hr1.
    assert (Hb2 : buf = (done ++ track_bytes t) ++ concat (map track_bytes tracks) ++ tail).
    { rewrite Hb1. rewrite <- app_assoc. reflexivity. }
    specialize (IH (done ++ track_bytes t) tail (acc ++ [decoded h t]) Hb2 Hv Hts).
    replace (done ++ track_bytes t ++ concat (map track_bytes tracks))
      with ((done ++ track_bytes t) ++ concat (map track_bytes tracks))
      by (rewrite <- app_assoc; reflexivity).
    replace (acc ++ decoded h t :: map (decoded h) tracks)
      with ((acc ++ [decoded h t]) ++ map (decoded h) tracks)
      by (rewrite <- app_assoc; reflexivity).
    apply IH; [| exact Hr1].
    rewrite length_app. cbn [length]. lia.
Qed.

Lemma parse_file : forall (hdr : list byte) (h : TrkHeader) (tracks : list track)
                          (rest : list byte),
  length hdr = 1000%nat ->
  parseHeader hdr = Ok h ->
  startsWith (idString h) "TRACK" = true ->
  validateTrkHeader h = Ok tt ->
  Forall (track_ok h) tracks ->
  ends_body h tracks rest ->
  byteLength (hdr ++ body tracks ++ rest) <= MAX_FILE_SIZE ->
  parseTrkFile (hdr ++ body tracks ++ rest)
  = Ok {| header := h; streamlines := map (decoded h) tracks |}.
Proof.
  intros hdr h tracks rest Hlen Hh Hmagic Hv Hok Hend Hsize.
  set (buf := hdr ++ body tracks ++ rest) in *.
  unfold parseTrkFile.
  destruct (byteLength buf >? MAX_FILE_SIZE) eqn:E; [apply Z.gtb_lt in E; lia |].
  unfold buf at 1. rewrite (@trk_header_app hdr (body tracks ++ rest) Hlen), Hh. cbn [bind].
  rewrite Hmagic. cbn [negb]. rewrite Hv. cbn [bind].
  assert (Hoff : body_offset h = Z.of_nat (length hdr)).
  { apply TrkHeaderFacts.validate_ok in Hv. unfold body_offset.
    destruct Hv as (_ & _ & _ & _ & Hs). rewrite Hs. simpl. lia. }
  assert (Hstart : reaches buf h (Z.of_nat (length hdr)) []).
  { rewrite <- Hoff. apply reaches_start. }
  assert (Hnot : nCount h <= 0 \/ Z.of_nat (length (@nil Streamline) + length tracks)
                                  <= nCount h).
  { cbn [length Nat.add]. destruct Hend as [(H1 & H2) | (H1 & _)]; lia. }
  pose proof (@reaches_records buf h tracks hdr rest [] eq_refl Hv Hok Hnot Hstart) as Hr.
  cbn [app] in Hr.
  rewrite (@TrkLoopFacts.stop_returns buf h _ _ Hr); [reflexivity |].
  unfold trk_pass. cbv zeta. rewrite length_map.
  assert (Hbl : byteLength buf
                = Z.of_nat (length (hdr ++ body tracks)) + Z.of_nat (length rest)).
  { unfold buf, byteLength. rewrite app_assoc, length_app. lia. }
  destruct Hend as [(H1 & H2) | (H1 & H2)].
  - assert (Hm : below_max h (length tracks) = false).
    { unfold below_max. destruct (nCount h >? 0) eqn:E1; [apply Z.ltb_ge; lia |].
      rewrite Z.gtb_ltb in E1. apply Z.ltb_ge in E1. lia. }
    rewrite Hm, andb_false_r. reflexivity.
  - destruct ((Z.of_nat (length (hdr ++ body tracks)) <? byteLength buf)
              && below_max h (length tracks)); [| reflexivity].
    destruct (Z.of_nat (length (hdr ++ body tracks)) + 4 >? byteLength buf) eqn:E2;
      [reflexivity |].
    rewrite Z.gtb_ltb in E2. apply Z.ltb_ge in E2. lia.
Qed.

End TrkFileFacts.

(** X24.  A whole TRK file is read back.  For a 1000-byte header that
    [parseHeader] reads, with the identifier and inside the bounds of
    [validateTrkHeader], followed by records laid out one after the other
    (the count of points, then for each point its three coordinates and its
    scalars, then the properties), [parseTrkFile] returns the header and
    one streamline a record, in order, with the coordinates of the points,
    one array of values for each scalar channel and the properties,
    provided the loop ends after the records: the count the header
    declares is reached, or it is not and fewer than 4 bytes follow.  The
    header is read from the first 1000 bytes alone. *)
Theorem parseTrkFile_reads_back_a_file :
  forall (hdr : list byte) (h : Trk.TrkHeader) (tracks : list TrkFiles.track)
         (rest : list byte),
    length hdr = 1000%nat ->
    Trk.parseHeader hdr = Ok h ->
    startsWith (Trk.idString h) "TRACK" = true ->
    Trk.validateTrkHeader h = Ok tt ->
    Forall (TrkFiles.track_ok h) tracks ->
    TrkFiles.ends_body h tracks rest ->
    byteLength (hdr ++ TrkFiles.body tracks ++ rest) <= MAX_FILE_SIZE ->
    Trk.parseTrkFile (hdr ++ TrkFiles.body tracks ++ rest)
    = Ok {| Trk.header := h; Trk.streamlines := map (TrkFiles.decoded h) tracks |}.
Proof.
  intros hdr h tracks rest Hlen Hh Hmagic Hv Hok Hend Hsize.
  apply TrkFileFacts.parse_file; assumption.
Qed.

(** ** The theorems with hypotheses, on the test vectors *)

(** C4 on a file of two records, a record of count 0 and one more record:
    the hypotheses hold, and so does the conclusion. *)
Lemma C4_witness :
  byteLength Samples.trk_bad_count <= MAX_FILE_SIZE
  /\ Trk.parseHeader Samples.trk_bad_count
     = Ok (Samples.parsed_header Samples.trk_bad_count)
  /\ startsWith (Trk.idString (Samples.parsed_header Samples.trk_bad_count)) "TRACK" = true
  /\ Trk.validateTrkHeader (Samples.parsed_header Samples.trk_bad_count) = Ok tt
  /\ exists result,
      Trk.parseTrkFile Samples.trk_bad_count
      = Ok (Trk.mkTrkData (Samples.parsed_header Samples.trk_bad_count) result)
      /\ forall offset pushed,
          Trk.reaches Samples.trk_bad_count
                      (Samples.parsed_header Samples.trk_bad_count) offset pushed ->
          (forall n, DataView.getInt32 Samples.trk_bad_count offset true = Some n ->
                     n <= 0 \/ 100000 < n -> result = pushed)
          /\ (0 < Trk.nCount (Samples.parsed_header Samples.trk_bad_count)
              <= Z.of_nat (length pushed) -> result = pushed)
          /\ (byteLength Samples.trk_bad_count < offset + 4 -> result = pushed)
          /\ (forall n, DataView.getInt32 Samples.trk_bad_count offset true = Some n ->
                        byteLength Samples.trk_bad_count
                        < offset + 4
                          + n * (4 * (3 + Trk.nScalars
                                             (Samples.parsed_header Samples.trk_bad_count)))
                          + 4 * Trk.nProperties (Samples.parsed_header Samples.trk_bad_count) ->
                        result = pushed).
Proof.
  assert (H1 : byteLength Samples.trk_bad_count <= MAX_FILE_SIZE)
    by (apply Z.leb_le; vm_compute; reflexivity).
  assert (H2 : Trk.parseHeader Samples.trk_bad_count
               = Ok (Samples.parsed_header Samples.trk_bad_count))
    by (vm_compute; reflexivity).
  assert (H3 : startsWith (Trk.idString (Samples.parsed_header Samples.trk_bad_count))
                          "TRACK" = true)
    by (vm_compute; reflexivity).
  assert (H4 : Trk.validateTrkHeader (Samples.parsed_header Samples.trk_bad_count) = Ok tt)
    by (vm_compute; reflexivity).
  exact (conj H1 (conj H2 (conj H3 (conj H4
           (@C4_trk_body_stops_and_returns_prefix
              Samples.trk_bad_count
              (Samples.parsed_header Samples.trk_bad_count) H1 H2 H3 H4))))).
Defined.

(** The two records before the bad count are what the decoder returns. *)
Example trk_stops_at_bad_count :
  exists d, Trk.parseTrkFile Samples.trk_bad_count = Ok d
            /\ map numPoints (Trk.streamlines d) = [Num.of_Z 2; Num.of_Z 3].
Proof.
  eexists. split; [vm_compute; reflexivity | reflexivity].
Qed.

(** C10 on a header of three lines, none with the key [datatype]. *)
Lemma C10_witness :
  Tck.headerEnd Samples.tck_no_datatype = Some 27
  /\ TckSpec.no_datatype_key Samples.tck_no_datatype 27
  /\ exists h,
      Tck.parseHeader Samples.tck_no_datatype = Ok h
      /\ Tck.datatype h = "Float32LE"%string
      /\ Tck.parseStreamlines Samples.tck_no_datatype h
         = match Tck.fileOffset h with
           | None => Ok []
           | Some offset =>
               Tck.tck_loop (S (length Samples.tck_no_datatype)) Samples.tck_no_datatype
                            (Tck.mkConfig 4 true DataView.getFloat32) offset [] []
           end
      /\ (forall name,
            Tck.parseTckFile Samples.tck_no_datatype <> Err (UnsupportedDatatype name))
      /\ (forall r, Tck.parseTckFile Samples.tck_no_datatype = Ok r ->
            Tck.parseStreamlines Samples.tck_no_datatype h = Ok (Unified.streamlines r)
            /\ exists timestamp count,
                Unified.metadata (Unified.header r)
                = Unified.TckMetadata "Float32LE" timestamp count).
Proof.
  assert (H1 : Tck.headerEnd Samples.tck_no_datatype = Some 27)
    by (vm_compute; reflexivity).
  assert (H2 : TckSpec.no_datatype_key Samples.tck_no_datatype 27).
  { unfold TckSpec.no_datatype_key.
    assert (E : Tck.header_lines Samples.tck_no_datatype 27
                = ["mrtrix tracks"; "count: 1"; "END"]%string)
      by (vm_compute; reflexivity).
    rewrite E. repeat constructor; vm_compute; discriminate. }
  exact (conj H1 (conj H2 (@C10_datatype_defaults_to_Float32LE Samples.tck_no_datatype 27 H1 H2))).
Defined.

(** The file without a datatype line decodes as the one with it. *)
Example tck_without_datatype_decodes :
  exists r s, Tck.parseTckFile Samples.tck_no_datatype = Ok r
              /\ Unified.streamlines r = [s]
              /\ points s = [1; 1; 1; 2; 2; 2]%float.
Proof.
  do 2 eexists. split; [vm_compute; reflexivity | split; reflexivity].
Qed.
(** ** The further statements on test vectors *)

(** The header of the file with one scalar channel and one property. *)
Lemma trk_accepted_header_witness :
  Trk.parseTrkFile Vectors.trk_with_scalars
  = Ok (Vectors.decoded_trk Vectors.trk_with_scalars)
  /\ (let d := Vectors.decoded_trk Vectors.trk_with_scalars in
      1000 <= byteLength Vectors.trk_with_scalars <= MAX_FILE_SIZE
      /\ Forall (fun v => 0 <= v <= 32767) (triple_list (Trk.dim (Trk.header d)))
      /\ Trk.hdrSize (Trk.header d) = 1000
      /\ Trk.body_offset (Trk.header d) = 1000
      /\ Z.of_nat (length (Trk.scalarNames (Trk.header d)))
         <= Trk.nScalars (Trk.header d) <= 10
      /\ Z.of_nat (length (Trk.propertyNames (Trk.header d)))
         <= Trk.nProperties (Trk.header d) <= 10
      /\ Forall TrkShape.name_ok
                (Trk.scalarNames (Trk.header d) ++ Trk.propertyNames (Trk.header d))).
Proof.
  assert (H : Trk.parseTrkFile Vectors.trk_with_scalars
              = Ok (Vectors.decoded_trk Vectors.trk_with_scalars))
    by (vm_compute; reflexivity).
  exact (conj H (@trk_accepted_header Vectors.trk_with_scalars
                   (Vectors.decoded_trk Vectors.trk_with_scalars) H)).
Defined.

(** The streamline of that file has its scalar channel and its property. *)
Lemma trk_streamlines_shaped_witness :
  Trk.parseTrkFile Vectors.trk_with_scalars
  = Ok (Vectors.decoded_trk Vectors.trk_with_scalars)
  /\ Forall (TrkShape.shaped (Trk.header (Vectors.decoded_trk Vectors.trk_with_scalars)))
            (Trk.streamlines (Vectors.decoded_trk Vectors.trk_with_scalars)).
Proof.
  assert (H : Trk.parseTrkFile Vectors.trk_with_scalars
              = Ok (Vectors.decoded_trk Vectors.trk_with_scalars))
    by (vm_compute; reflexivity).
  exact (conj H (@trk_streamlines_shaped Vectors.trk_with_scalars
                   (Vectors.decoded_trk Vectors.trk_with_scalars) H)).
Defined.

(** The record of that file, read at byte 1000. *)
Lemma trk_record_layout_witness :
  Trk.validateTrkHeader (Samples.parsed_header Vectors.trk_with_scalars) = Ok tt
  /\ Trk.trk_pass Vectors.trk_with_scalars
                  (Samples.parsed_header Vectors.trk_with_scalars) 1000 0
     = Ok (Trk.Next (fst (Vectors.first_pass Vectors.trk_with_scalars))
                    (snd (Vectors.first_pass Vectors.trk_with_scalars)))
  /\ exists n : Z,
      let buf := Vectors.trk_with_scalars in
      let h := Samples.parsed_header Vectors.trk_with_scalars in
      let s := snd (Vectors.first_pass Vectors.trk_with_scalars) in
      let stride := 4 * (3 + Trk.nScalars h) in
      DataView.getInt32 buf 1000 true = Some n
      /\ fst (Vectors.first_pass Vectors.trk_with_scalars)
         = 1000 + 4 + n * stride + 4 * Trk.nProperties h
      /\ (forall k j, 0 <= k < n -> 0 <= j < 3 ->
            nth_error (points s) (Z.to_nat (3 * k + j))
            = DataView.getFloat32 buf (1000 + 4 + k * stride + 4 * j) true)
      /\ (forall k c, 0 <= k < n -> 0 <= c < Trk.nScalars h ->
            exists chans chan,
              scalars s = Some chans
              /\ nth_error chans (Z.to_nat c) = Some chan
              /\ nth_error chan (Z.to_nat k)
                 = DataView.getFloat32 buf (1000 + 4 + k * stride + 12 + 4 * c) true)
      /\ (forall p, 0 <= p < Trk.nProperties h ->
            exists props,
              properties s = Some props
              /\ nth_error props (Z.to_nat p)
                 = DataView.getFloat32 buf (1000 + 4 + n * stride + 4 * p) true).
Proof.
  assert (H1 : Trk.validateTrkHeader (Samples.parsed_header Vectors.trk_with_scalars)
               = Ok tt)
    by (vm_compute; reflexivity).
  assert (H2 : Trk.trk_pass Vectors.trk_with_scalars
                            (Samples.parsed_header Vectors.trk_with_scalars) 1000 0
               = Ok (Trk.Next (fst (Vectors.first_pass Vectors.trk_with_scalars))
                              (snd (Vectors.first_pass Vectors.trk_with_scalars))))
    by (vm_compute; reflexivity).
  exact (conj H1 (conj H2
           (@trk_record_layout Vectors.trk_with_scalars
              (Samples.parsed_header Vectors.trk_with_scalars) 1000 0
              (fst (Vectors.first_pass Vectors.trk_with_scalars))
              (snd (Vectors.first_pass Vectors.trk_with_scalars)) H1 H2))).
Defined.

(** The file with one record of three points. *)
Lemma trk_streamlines_fit_the_buffer_witness :
  Trk.parseTrkFile Samples.trk_one_of_three
  = Ok (Vectors.decoded_trk Samples.trk_one_of_three)
  /\ (let d := Vectors.decoded_trk Samples.trk_one_of_three in
      1000 + TrkShape.body_bytes (Trk.header d) (Trk.streamlines d)
      <= byteLength Samples.trk_one_of_three
      /\ 1000 + 16 * Z.of_nat (length (Trk.streamlines d))
         <= byteLength Samples.trk_one_of_three
      /\ (0 < Trk.nCount (Trk.header d) ->
          Z.of_nat (length (Trk.streamlines d)) <= Trk.nCount (Trk.header d))).
Proof.
  assert (H : Trk.parseTrkFile Samples.trk_one_of_three
              = Ok (Vectors.decoded_trk Samples.trk_one_of_three))
    by (vm_compute; reflexivity).
  exact (conj H (@trk_streamlines_fit_the_buffer Samples.trk_one_of_three
                   (Vectors.decoded_trk Samples.trk_one_of_three) H)).
Defined.

(** The header that sends the decoder before the buffer. *)
Lemma parseTckFile_errors_witness :
  Tck.parseTckFile Vectors.tck_negative_offset = Err RangeError
  /\ ((RangeError = FileTooLarge /\ MAX_FILE_SIZE < byteLength Vectors.tck_negative_offset)
      \/ (RangeError = MissingEND /\ Tck.headerEnd Vectors.tck_negative_offset = None)
      \/ (exists name,
             RangeError = UnsupportedDatatype name /\ Tck.DATA_TYPES name = Tck.Undefined)
      \/ RangeError = MissingMrtrix
      \/ RangeError = StreamlineTooLong
      \/ (RangeError = RangeError
          /\ exists h offset,
              Tck.parseHeader Vectors.tck_negative_offset = Ok h
              /\ Tck.fileOffset h = Some offset /\ offset < 0)).
Proof.
  assert (H : Tck.parseTckFile Vectors.tck_negative_offset = Err RangeError)
    by (vm_compute; reflexivity).
  exact (conj H (@parseTckFile_errors Vectors.tck_negative_offset RangeError H)).
Defined.

(** The file whose datatype is [toString]. *)
Lemma tck_inherited_datatype_witness :
  byteLength Vectors.tck_inherited_datatype <= MAX_FILE_SIZE
  /\ Tck.parseHeader Vectors.tck_inherited_datatype
     = Ok (Vectors.tck_header_of Vectors.tck_inherited_datatype)
  /\ Obj.inherited (Tck.datatype (Vectors.tck_header_of Vectors.tck_inherited_datatype))
     = true
  /\ Tck.has_magic (Vectors.tck_header_of Vectors.tck_inherited_datatype) = true
  /\ exists r,
      Tck.parseTckFile Vectors.tck_inherited_datatype = Ok r
      /\ Unified.streamlines r = []
      /\ Unified.nCount (Unified.header r) = 0%nat.
Proof.
  assert (H1 : byteLength Vectors.tck_inherited_datatype <= MAX_FILE_SIZE)
    by (apply Z.leb_le; vm_compute; reflexivity).
  assert (H2 : Tck.parseHeader Vectors.tck_inherited_datatype
               = Ok (Vectors.tck_header_of Vectors.tck_inherited_datatype))
    by (vm_compute; reflexivity).
  assert (H3 : Obj.inherited
                 (Tck.datatype (Vectors.tck_header_of Vectors.tck_inherited_datatype))
               = true)
    by (vm_compute; reflexivity).
  assert (H4 : Tck.has_magic (Vectors.tck_header_of Vectors.tck_inherited_datatype) = true)
    by (vm_compute; reflexivity).
  exact (conj H1 (conj H2 (conj H3 (conj H4
           (@tck_inherited_datatype_decodes_nothing Vectors.tck_inherited_datatype
              (Vectors.tck_header_of Vectors.tck_inherited_datatype) H1 H2 H3 H4))))).
Defined.

(** The pattern of 1: sign 0, exponent 15, fraction 0. *)
Lemma float16ToFloat32_witness :
  0 <= 15360 < 65536
  /\ Trx.float16ToFloat32 15360 = DataView.float_of_bits 5 10 15360
  /\ DataView.fround (Trx.float16ToFloat32 15360) = Trx.float16ToFloat32 15360.
Proof.
  assert (H : 0 <= 15360 < 65536) by lia.
  exact (conj H (@float16ToFloat32_is_binary16 15360 H)).
Defined.

(** A stored member, a member under another method, and the central
    directory. *)
Lemma parseZipEntries_witness :
  Forall ZipSpec.well_formed Vectors.two_members
  /\ ZipSpec.ends_records Vectors.central_directory
  /\ ZipSpec.expected Samples.no_inflate Vectors.two_members
     = Some [Trx.mkEntry "header.json" (Samples.text "{}")]
  /\ Trx.parseZipEntries Samples.no_inflate
                         (ZipSpec.archive Vectors.two_members ++ Vectors.central_directory)
     = Ok [Trx.mkEntry "header.json" (Samples.text "{}")].
Proof.
  assert (H1 : Forall ZipSpec.well_formed Vectors.two_members).
  { repeat constructor; vm_compute; congruence. }
  assert (H2 : ZipSpec.ends_records Vectors.central_directory).
  { right. vm_compute. discriminate. }
  assert (H3 : ZipSpec.expected Samples.no_inflate Vectors.two_members
               = Some [Trx.mkEntry "header.json" (Samples.text "{}")])
    by (vm_compute; reflexivity).
  exact (conj H1 (conj H2 (conj H3
           (@parseZipEntries_reads_back_the_records Samples.no_inflate Vectors.two_members
              Vectors.central_directory _ H1 H2 H3)))).
Defined.

(** Two streamlines of two and three vertices. *)
Lemma buildStreamlines_witness :
  Forall TrxFiles.chunk_ok Vectors.two_chunks
  /\ Trx.buildStreamlines (concat Vectors.two_chunks) (TrxFiles.starts 0 Vectors.two_chunks)
                          (Z.of_nat (length Vectors.two_chunks))
     = map TrxFiles.streamline_of Vectors.two_chunks.
Proof.
  assert (H : Forall TrxFiles.chunk_ok Vectors.two_chunks).
  { repeat constructor; [exists 2 | exists 3]; split; [lia | reflexivity | lia | reflexivity]. }
  exact (conj H (@buildStreamlines_recovers_the_streamlines Vectors.two_chunks H)).
Defined.

(** A streamline without points. *)
Lemma calculateBoundingBox_witness :
  (forall s, In s [mkStreamline [] (Num.of_Z 0) None None] -> points s = [])
  /\ Post.calculateBoundingBox [mkStreamline [] (Num.of_Z 0) None None]
     = {| Post.bmin := (infinity, infinity, infinity);
          Post.bmax := (neg_infinity, neg_infinity, neg_infinity);
          Post.center := (nan, nan, nan);
          Post.size := infinity |}.
Proof.
  assert (H : forall s, In s [mkStreamline [] (Num.of_Z 0) None None] -> points s = []).
  { intros s [<- | []]. reflexivity. }
  exact (conj H (@calculateBoundingBox_of_no_point _ H)).
Defined.

(** The reference header, then a track of two points and a track of one. *)
Lemma tck_body_read_back_witness :
  let h := Vectors.tck_header_of Samples.tck_header in
  Forall TckFiles.track_ok Vectors.two_tracks
  /\ Tck.datatype h = "Float32LE"%string
  /\ Tck.fileOffset h = Some (Z.of_nat (length Samples.tck_header))
  /\ Tck.parseStreamlines (Samples.tck_header ++ TckFiles.body Vectors.two_tracks ++ []) h
     = Ok (map TckFiles.decoded (TckFiles.kept Vectors.two_tracks)).
Proof.
  assert (H1 : Forall TckFiles.track_ok Vectors.two_tracks).
  { repeat constructor; vm_compute; congruence. }
  assert (H2 : Tck.datatype (Vectors.tck_header_of Samples.tck_header)
               = "Float32LE"%string)
    by (vm_compute; reflexivity).
  assert (H3 : Tck.fileOffset (Vectors.tck_header_of Samples.tck_header)
               = Some (Z.of_nat (length Samples.tck_header)))
    by (vm_compute; reflexivity).
  exact (conj H1 (conj H2 (conj H3
           (@tck_body_read_back Samples.tck_header Vectors.two_tracks []
              (Vectors.tck_header_of Samples.tck_header) H1 H2 H3)))).
Defined.

(** The reference header, followed by two points. *)
Lemma tck_header_ignores_what_follows_witness :
  Tck.headerEnd Samples.tck_header = Some 47
  /\ nth_error Samples.tck_header (Z.to_nat (47 - 1)) = Some x0a
  /\ Tck.headerEnd (Samples.tck_header ++ Samples.two_points) = Some 47
  /\ Tck.parseHeader (Samples.tck_header ++ Samples.two_points)
     = Tck.parseHeader Samples.tck_header.
Proof.
  assert (H1 : Tck.headerEnd Samples.tck_header = Some 47) by (vm_compute; reflexivity).
  assert (H2 : nth_error Samples.tck_header (Z.to_nat (47 - 1)) = Some x0a)
    by (vm_compute; reflexivity).
  exact (conj H1 (conj H2
           (@tck_header_ignores_what_follows Samples.tck_header Samples.two_points 47
              H1 H2))).
Defined.

(** The reference header and the two tracks as one file. *)
Lemma parseTckFile_reads_back_witness :
  let hdr := Samples.tck_header in
  let h := Vectors.tck_header_of Samples.tck_header in
  Tck.headerEnd hdr = Some 47
  /\ nth_error hdr (Z.to_nat (47 - 1)) = Some x0a
  /\ Tck.parseHeader hdr = Ok h
  /\ Tck.has_magic h = true
  /\ Tck.datatype h = "Float32LE"%string
  /\ Tck.fileOffset h = Some (Z.of_nat (length hdr))
  /\ Forall TckFiles.track_ok Vectors.two_tracks
  /\ byteLength (hdr ++ TckFiles.body Vectors.two_tracks ++ []) <= MAX_FILE_SIZE
  /\ Tck.parseTckFile (hdr ++ TckFiles.body Vectors.two_tracks ++ [])
     = Ok {| Unified.header :=
               {| Unified.format := tck;
                  Unified.dim := DEFAULT_DIMENSIONS;
                  Unified.voxelSize := DEFAULT_VOXEL_SIZE;
                  Unified.nCount := length (TckFiles.kept Vectors.two_tracks);
                  Unified.version := 1;
                  Unified.metadata :=
                    Unified.TckMetadata "Float32LE" (Tck.timestamp h) (Tck.count h) |};
             Unified.streamlines :=
               map TckFiles.decoded (TckFiles.kept Vectors.two_tracks) |}.
Proof.
  assert (H1 : Tck.headerEnd Samples.tck_header = Some 47) by (vm_compute; reflexivity).
  assert (H2 : nth_error Samples.tck_header (Z.to_nat (47 - 1)) = Some x0a)
    by (vm_compute; reflexivity).
  assert (H3 : Tck.parseHeader Samples.tck_header
               = Ok (Vectors.tck_header_of Samples.tck_header))
    by (vm_compute; reflexivity).
  assert (H4 : Tck.has_magic (Vectors.tck_header_of Samples.tck_header) = true)
    by (vm_compute; reflexivity).
  assert (H5 : Tck.datatype (Vectors.tck_header_of Samples.tck_header)
               = "Float32LE"%string)
    by (vm_compute; reflexivity).
  assert (H6 : Tck.fileOffset (Vectors.tck_header_of Samples.tck_header)
               = Some (Z.of_nat (length Samples.tck_header)))
    by (vm_compute; reflexivity).
  assert (H7 : Forall TckFiles.track_ok Vectors.two_tracks).
  { repeat constructor; vm_compute; congruence. }
  assert (H8 : byteLength (Samples.tck_header ++ TckFiles.body Vectors.two_tracks ++ [])
               <= MAX_FILE_SIZE)
    by (apply Z.leb_le; vm_compute; reflexivity).
  exact (conj H1 (conj H2 (conj H3 (conj H4 (conj H5 (conj H6 (conj H7 (conj H8
           (@parseTckFile_reads_back_a_file Samples.tck_header 47
              (Vectors.tck_header_of Samples.tck_header) Vectors.two_tracks []
              H1 H2 H3 H4 H5 H6 H7 H8))))))))).
Defined.

(** An archive of two streamlines, of two and three vertices. *)
Lemma parseTrxFile_reads_back_witness :
  Forall ZipSpec.well_formed
         [Vectors.trx_header_member; Vectors.trx_positions_member; Vectors.trx_offsets_member]
  /\ TrxArchive.laid_out Vectors.trx_header_member Vectors.trx_positions_member
                         Vectors.trx_offsets_member Vectors.trx_chunks
  /\ Forall TrxArchive.chunk_ok Vectors.trx_chunks
  /\ ZipSpec.ends_records Vectors.central_directory
  /\ byteLength (ZipSpec.archive [Vectors.trx_header_member; Vectors.trx_positions_member;
                                  Vectors.trx_offsets_member]
                 ++ Vectors.central_directory) <= MAX_FILE_SIZE
  /\ Samples.parse_minimal (Trx.decode_utf8 (ZipSpec.m_payload Vectors.trx_header_member))
     = Some Samples.trx_header_value
  /\ Trx.validateTrxHeader Samples.trx_header_value = Ok Vectors.trx_header_read
  /\ Trx.NB_STREAMLINES Vectors.trx_header_read = Z.of_nat (length Vectors.trx_chunks)
  /\ Trx.parseTrxFile Samples.no_inflate Samples.parse_minimal
                      (ZipSpec.archive [Vectors.trx_header_member;
                                        Vectors.trx_positions_member;
                                        Vectors.trx_offsets_member]
                       ++ Vectors.central_directory)
     = Ok (TrxArchive.decoded Vectors.trx_header_read Vectors.trx_chunks).
Proof.
  assert (H1 : Forall ZipSpec.well_formed
                      [Vectors.trx_header_member; Vectors.trx_positions_member;
                       Vectors.trx_offsets_member]).
  { repeat constructor; vm_compute; congruence. }
  assert (H2 : TrxArchive.laid_out Vectors.trx_header_member Vectors.trx_positions_member
                                   Vectors.trx_offsets_member Vectors.trx_chunks).
  { repeat split. }
  assert (H3 : Forall TrxArchive.chunk_ok Vectors.trx_chunks).
  { repeat constructor; try (vm_compute; congruence);
      [exists 2 | exists 3]; split; try lia; reflexivity. }
  assert (H4 : ZipSpec.ends_records Vectors.central_directory).
  { right. vm_compute. discriminate. }
  assert (H5 : byteLength (ZipSpec.archive [Vectors.trx_header_member;
                                            Vectors.trx_positions_member;
                                            Vectors.trx_offsets_member]
                           ++ Vectors.central_directory) <= MAX_FILE_SIZE)
    by (apply Z.leb_le; vm_compute; reflexivity).
  assert (H6 : Samples.parse_minimal
                 (Trx.decode_utf8 (ZipSpec.m_payload Vectors.trx_header_member))
               = Some Samples.trx_header_value)
    by reflexivity.
  assert (H7 : Trx.validateTrxHeader Samples.trx_header_value = Ok Vectors.trx_header_read)
    by (vm_compute; reflexivity).
  assert (H8 : Trx.NB_STREAMLINES Vectors.trx_header_read
               = Z.of_nat (length Vectors.trx_chunks))
    by (vm_compute; reflexivity).
  exact (conj H1 (conj H2 (conj H3 (conj H4 (conj H5 (conj H6 (conj H7 (conj H8
           (@parseTrxFile_reads_back_an_archive Samples.no_inflate Samples.parse_minimal
              Vectors.trx_header_member Vectors.trx_positions_member
              Vectors.trx_offsets_member Vectors.central_directory
              Samples.trx_header_value Vectors.trx_header_read Vectors.trx_chunks
              H1 H2 H3 H4 H5 H6 H7 H8))))))))).
Defined.

(** The file with one scalar channel and one property, from its header
    and its record. *)
Lemma parseTrkFile_reads_back_witness :
  let hdr := Vectors.trk_header_bytes in
  let h := Samples.parsed_header Vectors.trk_header_bytes in
  length hdr = 1000%nat
  /\ Trk.parseHeader hdr = Ok h
  /\ startsWith (Trk.idString h) "TRACK" = true
  /\ Trk.validateTrkHeader h = Ok tt
  /\ Forall (TrkFiles.track_ok h) Vectors.trk_tracks
  /\ TrkFiles.ends_body h Vectors.trk_tracks []
  /\ byteLength (hdr ++ TrkFiles.body Vectors.trk_tracks ++ []) <= MAX_FILE_SIZE
  /\ Trk.parseTrkFile (hdr ++ TrkFiles.body Vectors.trk_tracks ++ [])
     = Ok {| Trk.header := h;
             Trk.streamlines := map (TrkFiles.decoded h) Vectors.trk_tracks |}.
Proof.
  assert (H1 : length Vectors.trk_header_bytes = 1000%nat) by (vm_compute; reflexivity).
  assert (H2 : Trk.parseHeader Vectors.trk_header_bytes
               = Ok (Samples.parsed_header Vectors.trk_header_bytes))
    by (vm_compute; reflexivity).
  assert (H3 : startsWith (Trk.idString (Samples.parsed_header Vectors.trk_header_bytes))
                          "TRACK" = true)
    by (vm_compute; reflexivity).
  assert (H4 : Trk.validateTrkHeader (Samples.parsed_header Vectors.trk_header_bytes)
               = Ok tt)
    by (vm_compute; reflexivity).
  assert (H5 : Forall (TrkFiles.track_ok (Samples.parsed_header Vectors.trk_header_bytes))
                      Vectors.trk_tracks).
  { repeat constructor; vm_compute; congruence. }
  assert (H6 : TrkFiles.ends_body (Samples.parsed_header Vectors.trk_header_bytes)
                                  Vectors.trk_tracks []).
  { left. split; vm_compute; reflexivity. }
  assert (H7 : byteLength (Vectors.trk_header_bytes
                           ++ TrkFiles.body Vectors.trk_tracks ++ []) <= MAX_FILE_SIZE)
    by (apply Z.leb_le; vm_compute; reflexivity).
  exact (conj H1 (conj H2 (conj H3 (conj H4 (conj H5 (conj H6 (conj H7
           (@parseTrkFile_reads_back_a_file Vectors.trk_header_bytes
              (Samples.parsed_header Vectors.trk_header_bytes) Vectors.trk_tracks []
              H1 H2 H3 H4 H5 H6 H7)))))))).
Defined.

(** A positions file in a directory, its element type in capitals. *)
Lemma trx_element_type_witness :
  TrxFiles.ascii_only "FLOAT32"%string
  /\ TrxFiles.free_of "."%char "FLOAT32"%string
  /\ TrxFiles.free_of "/"%char "FLOAT32"%string
  /\ TrxFiles.dtype_of ("sub.dir/positions.3"%string ++ String "."%char "FLOAT32"%string)
     = "float32"%string.
Proof.
  assert (H1 : TrxFiles.ascii_only "FLOAT32"%string).
  { repeat constructor; vm_compute; reflexivity. }
  assert (H2 : TrxFiles.free_of "."%char "FLOAT32"%string).
  { repeat constructor; discriminate. }
  assert (H3 : TrxFiles.free_of "/"%char "FLOAT32"%string).
  { repeat constructor; discriminate. }
  exact (conj H1 (conj H2 (conj H3
           (proj1 trx_element_type_is_the_extension "sub.dir/positions.3"%string "FLOAT32"%string
                  H1 H2 H3)))).
Defined.
